(* ===== verification/_CoqProject ===== *)
-Q . S2P
Prelude.v
Hex.v
Types.v
Tx.v
TxPool.v
TxPoolQueue.v
TxPoolSubmit.v
TxPoolIndex.v
TxPoolPayload.v
TxPoolInv.v
TxPoolProps.v
State.v
StateModel.v
StateLemmas.v
StateProps.v
StateEquiv.v
Precompile.v
PrecompileProps.v
Frames.v
Executor.v
ExecutorModel.v
ExecutorProps.v
Replication.v
Solvency.v
ExecutorPool.v
EndToEnd.v
Locks.v
Rpc.v
RpcProps.v
Host.v
GenesisDoc.v
Application.v
Node.v
NodeModel.v
NodeProps.v
Network.v
Cluster.v
Bench.v
BenchProps.v
BenchRun.v
PoolTests.v
StateTests.v
Keccak.v
