(* ===== verification/Prelude.v ===== *)
(** * Verification of nbnet

    nbnet is an EVM chain on the Hotmint consensus engine.  A node is made of
    these parts, with the files under src/ that hold them:

    - transactions (crates/types/src/tx.rs): decoding and signer recovery,
      validation against an account, intrinsic gas, the effective tip;
    - chain types (crates/types/src/config.rs, genesis.rs, receipt.rs), with two
      hand-written hexadecimal serializers;
    - the transaction pool (crates/txpool/src/lib.rs): per sender a map of
      pending and a map of queued transactions by nonce, and an index by hash;
    - the world state (crates/state/src/state.rs): a persistent store, a cache
      over it, and a trie for the state root;
    - the precompiles (crates/precompile/src/lib.rs): balances and staking;
    - the executor (crates/execution/src/executor.rs), which owns the state and
      the pool, runs blocks for the consensus engine and keeps receipts;
    - the JSON-RPC server (crates/rpc/src/lib.rs);
    - the node binary (crates/node/src): consensus wiring, sync, a cluster
      launcher and a benchmark client.

    The pool asks the executor for account nonces through a closure, the
    executor commits by telling the pool the new nonces, the precompiles share
    one staking state with the executor, the RPC server calls the executor, the
    consensus engine and the start-up sync reach it through the [Application]
    interface, and the benchmark talks to the RPC server.

    ** Files

    - [Prelude]: machine integers as [Z] with wrap-around and saturation written
      out, the [result] monad, bytes and their codecs, [BTreeMap] iteration in
      key order, [HashMap] iteration in an unspecified order (class [HashIter];
      theorems quantify over it), sums over maps, the stable descending sort,
      tactics and hint databases.
    - [Hex]: Rust's hexadecimal formatting and parsing; the modules [hex_bytes]
      (genesis.rs) and [bloom_serde] (receipt.rs).
    - [Types]: configuration, genesis and receipt types.
    - [Tx]: tx.rs.  alloy's decoder and signer recovery are the class [TxCodec].
    - [TxPool]: every method of [EvmTxPool] as a function on the pool's state.
      [TxPoolQueue] has the lemmas on one sender's queue (promotion, removal of
      stale nonces, bounds, contiguity), [TxPoolSubmit] the outcomes of a
      submission case by case, which the proofs share, [TxPoolIndex] the
      exactness of the hash index under every operation, [TxPoolPayload] the
      selection and framing of a payload, [TxPoolInv] the pool as a state
      machine over arbitrary sequences of calls, [TxPoolProps] the properties
      and concrete pools.
    - [State]: [StoredAccount], [VsdbStateDb] and [EvmState].  vsdb and the
      account types of revm are the classes [Vsdb], [Revm], [RevmInit], with
      their laws in [VsdbOk], [RevmOk]; [StateModel] is a model of them.
      [StateLemmas] treats the loop that writes accounts, [StateProps] the
      properties and the state as a step relation, [StateEquiv] states up to the
      layout of their stores, an equivalence that every read, the block loop and
      the flush respect.
    - [Precompile], [PrecompileProps]: staking state and precompiles over revm's
      journal (class [RevmCall], laws [JournalOk]; module [Ledger] is a model).
      [Frames] runs them inside trees of call frames that commit or revert
      (class [JournalRevert]).
    - [Executor]: [EvmExecutor], its [Application] methods and the mempool
      adapter over an EVM (class [Evm], laws [EvmOk]; [ExecutorModel] is a
      model).  [ExecutorProps] treats blocks, receipts and replay, and the
      executor as a state machine; [ExecutorPool] the pool inside it;
      [EndToEnd] the way of one transaction through pool, payload, block,
      receipt and commit; [Replication] the abstract ledger that the executor
      refines (class [EvmPure]: the EVM sees the database only through its
      reads); [Solvency] the staking account of the world state against the
      delegations (class [EvmFrames]: a run of the EVM is a tree of frames on the
      precompiles; module [StakingEvm] is a model).
    - [Locks]: the order in which the methods take the mutexes of pool, state,
      receipts and staking state, with threads as interleaved lock sequences.
    - [Rpc], [RpcProps]: JSON values, parameter parsing, [dispatch] and the
      HTTP handler.
    - [Host]: paths, file system (class [Os]), error chains, and the genesis
      document as a JSON file (class [GenesisJson]).  [GenesisDoc] has the
      serializers derived for the document, which satisfy that interface's laws
      [GenesisJsonOk] over any JSON text format (class [JsonText]).
    - [Application]: hotmint's [Application] trait as a class, with [EvmExecutor]
      and [SharedExecutor] as instances; what a client of the interface can do
      is a run of executor operations.
    - [Node]: main.rs.  [run_init] and [run_node] are the two commands,
      [handle_sync_request] and [gossip_recv] the tasks, [NodeState] what a
      running node shares between them.  hotmint is the classes [HotmintTypes]
      and [Hotmint], with laws [HotmintOk]; [NodeModel] is a model of all of
      these.  [NodeProps] has the properties and the running node as a step
      relation.
    - [Network]: nodes that share a decided chain, execute it each at its own
      pace, serve JSON-RPC and hear each other's broadcasts; consensus is
      abstracted to its agreement on one chain.
    - [Cluster]: cluster.rs over hotmint-mgmt (class [Mgmt], laws [MgmtOk]).
    - [Bench], [BenchProps]: bench.rs against any server, and against
      [Rpc.handle_rpc]; alloy's signer is the class [Signer], laws [SignerOk].
      [BenchRun] is the program around it: cluster, processes, files, [main].
    - [PoolTests], [StateTests]: the unit tests of the crates, as programs on the
      model; [Keccak] has Keccak-256 for the test of the function selectors.

    ** What the theorems show

    - Pool: after any sequence of calls the hash index and the queues agree, the
      queues are bounded (pending by the sum of both limits) and no queued
      transaction directly follows the last pending one; when a submission is
      accepted and what it then does to the pooled transactions is stated in full
      ([TxPoolProps.submit_tx_transition]); a commit evicts exactly the stale
      transactions; a payload is a sequence of frames of the heads of distinct
      senders, in order of tip, within its byte limit and, when no head asks for
      2^63 gas or more, within its gas limit, and leaves the pool.
    - State: genesis reads back; the store after a flush answers what the state
      answered before it; the trie holds exactly the leaves of the stored
      accounts, so the root is a function of them and independent of iteration
      order; setters and the window of 256 block hashes behave as documented.
    - Precompiles: the staking account stays solvent, over any tree of call
      frames up to what reverted frames delegated, and over any execution of a
      node up to that and what [eth_call] delegated ([Solvency.chain_solvency]);
      with a solvent staking account a delegator can withdraw, delegate and
      unbond are inverse, and a failed call changes nothing; without one, only an
      unbond that cannot be paid leaves a trace
      ([PrecompileProps.staking_failure_atomic]).
    - Executor: no transaction is executed twice, a block's receipts add up and
      respect the gas limits, receipts are found by hash, and a commit leaves
      nothing executed in the pool.  Whatever else it is asked (other than
      [eth_call]) and whatever the orders of its hash maps, an executor's ledger
      is that of the machine that only applies its blocks
      ([Replication.executor_refines_ledger]).
    - Locks: methods other than [on_commit] never deadlock; [submit_tx] and
      [on_commit] can.
    - RPC: requests change the node only through the executor's operations,
      account queries are exact, and the log query returns exactly what its
      filter, as the code reads it, lets through.
    - Whole node: a transaction with the next nonce and the best tip, that the EVM
      accepts, is proposed first, executed, recorded and evicted; from its start on, whatever its
      tasks interleave, a node executes nothing twice and keeps its pool index
      exact; a restart keeps the persisted height, view and certificates; the
      sync responder answers exactly one bounded batch; the sync loop stops at
      the first success; [nb init] and the cluster launcher write a genesis the
      nodes load back.
    - Network: any run, whatever is asked of the nodes, is a run of a replicated
      state machine; nodes at the same position that have served no [eth_call]
      (or [eth_estimateGas]) agree on receipts, validation, queries and
      application hashes, whatever the others have served; pools and payloads
      hold only transactions accepted over JSON-RPC somewhere; a valid broadcast
      transaction with its sender's next nonce enters the pools it is delivered
      to.
    - Benchmark: its client and the server agree through JSON, and its report is
      exact about what is on chain.
    - Genesis document: read back exactly from its JSON; which objects are read
      as a document, with which defaults, and which are refused.
    - Unit tests: those of the pool, the transaction types, the world state, the
      staking state, the executor and the genesis document pass on the model, not
      for one random key and one hash map but for all of them; the function
      selectors are the Keccak-256 hashes of their signatures.
    - Theorems on concrete inputs show behaviour that departs from what the code
      documents or intends, among them [TxPoolProps.pending_limit_exceeded],
      [TxPoolProps.payload_gas_wraps], [StateProps.genesis_code_lost],
      [StateProps.set_nonce_hides_balance],
      [PrecompileProps.reverted_delegation_steals], [Solvency.call_mints_stake],
      [ExecutorProps.receipt_index_counts_skipped],
      [RpcProps.block_query_misses_transactions],
      [NodeProps.fullnode_mode_still_signs] and
      [BenchProps.bench_counts_rejected].  Others are general:
      [Frames.reverted_frame_drains] (whoever owns an amount can take it from the
      staking account), [Replication.call_splits_replicas] ([eth_call] changes
      the next application hash of the node that serves it),
      [Network.rpc_skips_validation], [NodeProps.sync_status_frozen] and
      [NodeProps.restart_forgets_execution].

    ** Conventions and bounds

    A w-bit integer is a [Z]; [in_u w] is its range.  Addresses, hashes and
    256-bit words are the integers their big-endian bytes denote.  The only
    loops with fuel are [TxPool.promote_loop] (fuel: the size of the queued map
    plus one; each round removes an entry, and
    [TxPoolProps.promote_queued_complete] shows any more fuel changes nothing)
    and [Hex.lower_hex_digits] (64 digits hold 256 bits).  Loops that wait (for a
    peer, for blocks, for confirmations) recur on the list of what they observe
    in each round and return [None] while they still wait; theorems state when
    they return.  Nonces of submitted transactions are assumed below [2^64 - 1],
    as EIP-2681 demands.

    ** Not modelled

    Logging, the binding of sockets, and elapsed times and the printed
    throughput of the benchmark; methods and events are atomic except in [Locks].
    hotmint itself (consensus engine, network, block store, sync protocol), revm,
    vsdb, alloy and serde_json are parameters, so the one unit test that only
    exercises alloy ([test_decode_garbage]) is not there.  In [Network] consensus
    is one chain of decided blocks, its messages and faults are hotmint's; nodes
    there do not restart, and gossip brings only what nodes of the network have
    broadcast.  Requests that run the EVM on the live database are part of it, but
    since they break replication the network remembers the nodes that have served
    one, and agreement is claimed of the others. *)
From stdpp Require Export base gmap list sorting strings pretty.
From Stdlib Require Export ZArith Lia.
From Stdlib Require Strings.Byte.

Notation byte := Init.Byte.byte.

#[global] Open Scope Z_scope.

(** ** Notation, automation and hint databases *)

Declare Scope nbnet_scope.
Delimit Scope nbnet_scope with nb.
#[global] Open Scope nbnet_scope.

Create HintDb nb discriminated.
Create HintDb nb_arith.

(** ** Machine integers

    An unsigned Rust integer of width [w] is a [Z] in [0, 2^w).  The operators
    of the source are written out: [+] and [*] wrap (release profile), the
    [saturating_*] methods clamp, and [as] truncates. *)

Definition in_u (w z : Z) : Prop := 0 ≤ z < 2 ^ w.
Definition max_u (w : Z) : Z := 2 ^ w - 1.
Definition wrap (w z : Z) : Z := z mod 2 ^ w.

Definition wrapping_add (w a b : Z) : Z := wrap w (a + b).
Definition wrapping_mul (w a b : Z) : Z := wrap w (a * b).
Definition saturating_add (w a b : Z) : Z := Z.min (a + b) (max_u w).
Definition saturating_mul (w a b : Z) : Z := Z.min (a * b) (max_u w).
Definition saturating_sub (a b : Z) : Z := Z.max (a - b) 0.

#[global] Instance in_u_dec w z : Decision (in_u w z).
Proof. unfold in_u. apply _. Defined.

Lemma pow2_pos w : 0 ≤ w → 0 < 2 ^ w.
Proof. intros. by apply Z.pow_pos_nonneg. Qed.

Lemma wrap_small w z : in_u w z → wrap w z = z.
Proof. apply Z.mod_small. Qed.

Lemma wrap_range w z : 0 ≤ w → in_u w (wrap w z).
Proof. intros. by apply Z.mod_pos_bound, pow2_pos. Qed.

Lemma wrapping_add_small w a b : in_u w (a + b) → wrapping_add w a b = a + b.
Proof. apply wrap_small. Qed.

Lemma saturating_add_small w a b : a + b < 2 ^ w → saturating_add w a b = a + b.
Proof. unfold saturating_add, max_u. lia. Qed.

Lemma saturating_add_range w a b :
  0 ≤ w → 0 ≤ a → 0 ≤ b → in_u w (saturating_add w a b).
Proof. intros Hw%pow2_pos ??. unfold saturating_add, in_u, max_u. lia. Qed.

Lemma saturating_add_comm w a b : saturating_add w a b = saturating_add w b a.
Proof. unfold saturating_add. by rewrite Z.add_comm. Qed.

(** Saturating addition clamps once at the top, so a chain of additions of
    non-negative numbers equals the clamped sum. *)
Lemma saturating_add_assoc w a b c :
  0 ≤ a → 0 ≤ b → 0 ≤ c →
  saturating_add w (saturating_add w a b) c = saturating_add w a (saturating_add w b c).
Proof. unfold saturating_add, max_u. lia. Qed.

#[export] Hint Resolve wrap_range saturating_add_range : nb.
#[export] Hint Rewrite wrap_small wrapping_add_small saturating_add_small using (unfold in_u; lia) : nb_arith.

(** ** Results: Rust's [Result<A, E>] *)

Inductive result (E A : Type) : Type :=
| Ok (a : A)
| Err (e : E).
Arguments Ok {E A} a.
Arguments Err {E A} e.

#[global] Instance result_ret E : MRet (result E) := λ A a, Ok a.
#[global] Instance result_bind E : MBind (result E) := λ A B f r,
  match r with Ok a => f a | Err e => Err e end.
#[global] Instance result_fmap E : FMap (result E) := λ A B f r,
  match r with Ok a => Ok (f a) | Err e => Err e end.

Lemma result_bind_Ok {E A B} (r : result E A) (f : A → result E B) b :
  r ≫= f = Ok b ↔ ∃ a, r = Ok a ∧ f a = Ok b.
Proof.
  destruct r as [a|e]; simpl; split; [eauto|by intros (? & [= ->] & ?)|done|by intros (? & ? & _)].
Qed.

Definition map_err {E F A : Type} (f : E → F) (r : result E A) : result F A :=
  match r with Ok a => Ok a | Err e => Err (f e) end.
Definition ok_or {E A : Type} (o : option A) (e : E) : result E A :=
  match o with Some a => Ok a | None => Err e end.
Definition ok {E A : Type} (r : result E A) : option A :=
  match r with Ok a => Some a | Err _ => None end.
Definition is_ok {E A : Type} (r : result E A) : bool :=
  match r with Ok _ => true | Err _ => false end.

#[global] Instance result_eq_dec E A `{EqDecision E, EqDecision A} : EqDecision (result E A).
Proof. solve_decision. Defined.

(** ** Bytes *)

Definition Z_of_byte (b : byte) : Z := Z.of_N (Byte.to_N b).
Definition byte_of_Z (z : Z) : byte := default Init.Byte.x00 (Byte.of_N (Z.to_N (z mod 256))).

#[global] Instance byte_eq_dec : EqDecision byte := Byte.byte_eq_dec.
#[global] Program Instance byte_countable : Countable byte :=
  inj_countable Byte.to_N Byte.of_N _.
Next Obligation. intros b. apply Byte.of_to_N. Qed.

Lemma Z_of_byte_range b : 0 ≤ Z_of_byte b < 256.
Proof. unfold Z_of_byte. pose proof (Byte.to_N_bounded b). lia. Qed.

Lemma Z_of_byte_of_Z z : Z_of_byte (byte_of_Z z) = z mod 256.
Proof.
  unfold Z_of_byte, byte_of_Z.
  pose proof (Z.mod_pos_bound z 256 ltac:(lia)).
  destruct (Byte.of_N (Z.to_N (z mod 256))) as [b|] eqn:E; simpl.
  - apply Byte.to_of_N in E. rewrite E. lia.
  - apply Byte.of_N_None_iff in E. lia.
Qed.

Lemma byte_of_Z_of_byte b : byte_of_Z (Z_of_byte b) = b.
Proof.
  unfold byte_of_Z, Z_of_byte.
  pose proof (Byte.to_N_bounded b).
  rewrite Z.mod_small by lia. by rewrite N2Z.id, Byte.of_to_N.
Qed.

Lemma Z_of_byte_inj b1 b2 : Z_of_byte b1 = Z_of_byte b2 → b1 = b2.
Proof. intros E. rewrite <- (byte_of_Z_of_byte b1), E. apply byte_of_Z_of_byte. Qed.

(** [to_le_bytes], [to_be_bytes], [from_le_bytes], [from_be_bytes]: fixed-width
    encodings of unsigned integers; [n] is the number of bytes. *)
Fixpoint to_le_bytes (n : nat) (z : Z) : list byte :=
  match n with
  | O => []
  | S n' => byte_of_Z z :: to_le_bytes n' (z / 256)
  end.
Fixpoint from_le_bytes (bs : list byte) : Z :=
  match bs with
  | [] => 0
  | b :: bs' => Z_of_byte b + 256 * from_le_bytes bs'
  end.
Definition to_be_bytes (n : nat) (z : Z) : list byte := reverse (to_le_bytes n z).
Definition from_be_bytes (bs : list byte) : Z := from_le_bytes (reverse bs).

Lemma length_to_le_bytes n z : length (to_le_bytes n z) = n.
Proof. revert z. induction n; intros; simpl; auto. Qed.

Lemma length_to_be_bytes n z : length (to_be_bytes n z) = n.
Proof. unfold to_be_bytes. by rewrite length_reverse, length_to_le_bytes. Qed.

Lemma from_to_le_bytes n z : from_le_bytes (to_le_bytes n z) = z mod 2 ^ (8 * Z.of_nat n).
Proof.
  revert z. induction n as [|n IH]; intros z.
  - by rewrite Z.mod_1_r.
  - cbn [to_le_bytes from_le_bytes]. rewrite IH, Z_of_byte_of_Z.
    replace (2 ^ (8 * Z.of_nat (S n))) with (256 * 2 ^ (8 * Z.of_nat n)).
    + rewrite Z.rem_mul_r; lia.
    + replace (8 * Z.of_nat (S n)) with (8 + 8 * Z.of_nat n) by lia.
      by rewrite Z.pow_add_r by lia.
Qed.

Lemma to_from_le_bytes bs : to_le_bytes (length bs) (from_le_bytes bs) = bs.
Proof.
  induction bs as [|b bs IH]; [done|].
  cbn [length to_le_bytes from_le_bytes]. pose proof (Z_of_byte_range b). f_equal.
  - apply Z_of_byte_inj. rewrite Z_of_byte_of_Z, (Z.mul_comm 256).
    rewrite Z.mod_add, Z.mod_small; lia.
  - by rewrite (Z.mul_comm 256), Z.div_add, (Z.div_small (Z_of_byte b)), Z.add_0_l by lia.
Qed.

Lemma from_le_bytes_inj bs1 bs2 :
  length bs1 = length bs2 → from_le_bytes bs1 = from_le_bytes bs2 → bs1 = bs2.
Proof. intros Hl E. by rewrite <- (to_from_le_bytes bs1), <- (to_from_le_bytes bs2), E, Hl. Qed.

Lemma from_le_bytes_range bs : in_u (8 * Z.of_nat (length bs)) (from_le_bytes bs).
Proof.
  rewrite <- (to_from_le_bytes bs) at 2. rewrite from_to_le_bytes.
  apply wrap_range. lia.
Qed.

Lemma from_to_be_bytes n z : from_be_bytes (to_be_bytes n z) = z mod 2 ^ (8 * Z.of_nat n).
Proof. unfold from_be_bytes, to_be_bytes. by rewrite reverse_involutive, from_to_le_bytes. Qed.

Lemma to_from_be_bytes bs : to_be_bytes (length bs) (from_be_bytes bs) = bs.
Proof.
  unfold from_be_bytes, to_be_bytes. rewrite <- (length_reverse bs), to_from_le_bytes.
  apply reverse_involutive.
Qed.

Lemma from_be_bytes_range bs : in_u (8 * Z.of_nat (length bs)) (from_be_bytes bs).
Proof. unfold from_be_bytes. rewrite <- length_reverse. apply from_le_bytes_range. Qed.

Lemma from_to_be_bytes_id n w z :
  w = 8 * Z.of_nat n → in_u w z → from_be_bytes (to_be_bytes n z) = z.
Proof. intros -> Hz. rewrite from_to_be_bytes. by apply wrap_small. Qed.

Lemma to_be_bytes_inj n w x y :
  w = 8 * Z.of_nat n → in_u w x → in_u w y → to_be_bytes n x = to_be_bytes n y → x = y.
Proof.
  intros Hw Hx Hy E. rewrite <- (from_to_be_bytes_id n w x), E by done.
  by apply (from_to_be_bytes_id n w).
Qed.

#[export] Hint Rewrite length_to_le_bytes length_to_be_bytes : nb.

Lemma sublist_fmap {A B} (f : A → B) (l1 l2 : list A) :
  l1 `sublist_of` l2 → f <$> l1 `sublist_of` f <$> l2.
Proof. induction 1; simpl; by constructor. Qed.

(** [Iterator::find] returns the first match. *)
Lemma find_first {A} (f : A → bool) (l : list A) x :
  find f l = Some x → ∃ k, l !! k = Some x ∧ f x = true ∧ ∀ j y, (j < k)%nat → l !! j = Some y → f y = false.
Proof.
  induction l as [|a l IH]; simpl; [done|]. destruct (f a) eqn:Ha.
  - intros [= <-]. exists O. split_and!; [done..|lia].
  - intros (k & Hk & Hx & Hfirst)%IH. exists (S k). split_and!; [done..|].
    intros [|j] y Hj Hy; simplify_eq/=; [done|]. apply (Hfirst j y); [lia|done].
Qed.

(** ** [BTreeMap<u64, V>]

    A finite map whose iteration is by ascending key. *)

Section BTree.
Context {V : Type}.
Implicit Types (m : gmap Z V).

Definition key_le (x y : Z * V) : Prop := x.1 ≤ y.1.

#[export] Instance key_le_dec : RelDecision key_le.
Proof. intros x y. unfold key_le. apply _. Defined.
#[export] Instance key_le_total : Total key_le.
Proof. intros x y. unfold key_le. lia. Qed.
#[export] Instance key_le_trans : Transitive key_le.
Proof. intros x y z. unfold key_le. lia. Qed.

(** [iter()] *)
Definition btree_iter (m : gmap Z V) : list (Z * V) := merge_sort key_le (map_to_list m).
(** [iter().next()] *)
Definition btree_first (m : gmap Z V) : option (Z * V) := head (btree_iter m).
(** [keys().last()] *)
Definition btree_last_key (m : gmap Z V) : option Z := fst <$> last (btree_iter m).
(** [range(..hi)], keys only *)
Definition btree_range_to (hi : Z) (m : gmap Z V) : list Z :=
  fst <$> filter (λ kv : Z * V, kv.1 < hi) (btree_iter m).

Lemma btree_iter_perm m : btree_iter m ≡ₚ map_to_list m.
Proof. apply merge_sort_Permutation. Qed.

Lemma elem_of_btree_iter m k v : (k, v) ∈ btree_iter m ↔ m !! k = Some v.
Proof. rewrite btree_iter_perm. apply elem_of_map_to_list. Qed.

Lemma btree_iter_sorted m : StronglySorted key_le (btree_iter m).
Proof. apply (StronglySorted_merge_sort _). Qed.

Lemma btree_iter_NoDup m : NoDup (btree_iter m).*1.
Proof. rewrite btree_iter_perm. apply NoDup_fst_map_to_list. Qed.

Lemma btree_first_Some m k v :
  btree_first m = Some (k, v) ↔ m !! k = Some v ∧ ∀ k', is_Some (m !! k') → k ≤ k'.
Proof.
  unfold btree_first. rewrite <- elem_of_btree_iter.
  assert (∀ k', is_Some (m !! k') ↔ ∃ v', (k', v') ∈ btree_iter m) as Hdom.
  { intros k'. setoid_rewrite elem_of_btree_iter. done. }
  setoid_rewrite Hdom. pose proof (btree_iter_sorted m) as Hs.
  pose proof (btree_iter_NoDup m) as Hnd.
  destruct (btree_iter m) as [|[k0 v0] l]; simpl.
  - split; [done|]. intros [?%not_elem_of_nil _]. done.
  - apply StronglySorted_inv in Hs as [_ Hall]. rewrite Forall_forall in Hall.
    unfold key_le in Hall. apply NoDup_cons in Hnd as [Hk0 _]. split.
    + intros [= -> ->]. split; [left|]. intros k' [v' [[= -> ->]|?]%elem_of_cons]; [lia|].
      by apply (Hall (k', v')).
    + intros [[[= -> ->]|Hin]%elem_of_cons Hmin]; [done|].
      pose proof (Hall _ Hin). pose proof (Hmin k0 (ex_intro _ v0 (list_elem_of_here _ _))).
      simpl in *. assert (k = k0) as -> by lia. contradict Hk0.
      apply list_elem_of_fmap. by exists (k0, v).
Qed.

Lemma btree_first_None m : btree_first m = None ↔ m = ∅.
Proof.
  unfold btree_first. split.
  - intros H. apply map_empty. intros k. apply eq_None_not_Some. intros [v Hv].
    apply elem_of_btree_iter in Hv. destruct (btree_iter m); [|done].
    by apply not_elem_of_nil in Hv.
  - intros ->. unfold btree_iter. by rewrite map_to_list_empty.
Qed.

Lemma StronglySorted_last (l : list (Z * V)) x y :
  StronglySorted key_le l → last l = Some x → y ∈ l → y.1 ≤ x.1.
Proof.
  intros Hs [l' ->]%last_Some [Hy|Hy]%elem_of_app.
  - apply StronglySorted_app in Hs as (Hs & _ & _). apply Hs; set_solver.
  - apply list_elem_of_singleton in Hy as ->. lia.
Qed.

Lemma btree_last_key_Some m k :
  btree_last_key m = Some k ↔ is_Some (m !! k) ∧ ∀ k', is_Some (m !! k') → k' ≤ k.
Proof.
  unfold btree_last_key. pose proof (btree_iter_sorted m) as Hs. split.
  - rewrite fmap_Some. intros ([k0 v0] & Hl & ->). split.
    + exists v0. apply elem_of_btree_iter. by eapply last_Some_elem_of.
    + intros k' [v' ?%elem_of_btree_iter].
      by apply (StronglySorted_last (btree_iter m) (k0, v0) (k', v')).
  - intros [[v Hv] Hmax]. apply elem_of_btree_iter in Hv.
    destruct (last (btree_iter m)) as [[k0 v0]|] eqn:Hl; simpl.
    + pose proof (StronglySorted_last _ _ _ Hs Hl Hv). simpl in *.
      apply last_Some_elem_of, elem_of_btree_iter in Hl.
      pose proof (Hmax k0 ltac:(eauto)). f_equal. lia.
    + apply last_None in Hl. rewrite Hl in Hv. by apply not_elem_of_nil in Hv.
Qed.

Lemma btree_last_key_None m : btree_last_key m = None ↔ m = ∅.
Proof.
  unfold btree_last_key. rewrite fmap_None, last_None. split.
  - intros H. apply btree_first_None. unfold btree_first. by rewrite H.
  - intros ->. unfold btree_iter. by rewrite map_to_list_empty.
Qed.

Lemma elem_of_btree_range_to hi m k : k ∈ btree_range_to hi m ↔ k < hi ∧ is_Some (m !! k).
Proof.
  unfold btree_range_to. rewrite list_elem_of_fmap. split.
  - intros ([k0 v] & -> & [? Hin]%list_elem_of_filter). simpl in *. split; [done|].
    exists v. by apply elem_of_btree_iter.
  - intros [? [v Hv]]. exists (k, v). split; [done|]. apply list_elem_of_filter.
    split; [done|]. by apply elem_of_btree_iter.
Qed.

Lemma btree_range_to_NoDup hi m : NoDup (btree_range_to hi m).
Proof.
  unfold btree_range_to. eapply sublist_NoDup; [apply (btree_iter_NoDup m)|].
  apply sublist_fmap, sublist_filter.
Qed.
End BTree.

(** ** [HashMap] iteration

    Rust leaves the iteration order of a [HashMap] unspecified; an instance
    fixes one order per map value.  Every client theorem quantifies over it. *)
Class HashIter (K V : Type) `{Countable K} : Type := {
  hash_iter : gmap K V → list (K * V);
  hash_iter_perm m : hash_iter m ≡ₚ map_to_list m;
}.
#[global] Hint Mode HashIter ! ! - - : typeclass_instances.

Section HashIter.
Context `{HashIter K V}.
Implicit Types (m : gmap K V) (k : K) (v : V).

(** [keys().cloned().collect()] *)
Definition hash_keys (m : gmap K V) : list K := (hash_iter m).*1.

Lemma elem_of_hash_iter m k v : (k, v) ∈ hash_iter m ↔ m !! k = Some v.
Proof. rewrite hash_iter_perm. apply elem_of_map_to_list. Qed.

Lemma hash_keys_NoDup m : NoDup (hash_keys m).
Proof. unfold hash_keys. rewrite hash_iter_perm. apply NoDup_fst_map_to_list. Qed.

Lemma elem_of_hash_keys m k : k ∈ hash_keys m ↔ is_Some (m !! k).
Proof.
  unfold hash_keys. rewrite list_elem_of_fmap. split.
  - intros ([k' v] & -> & Hin%elem_of_hash_iter). by exists v.
  - intros [v Hv%elem_of_hash_iter]. by exists (k, v).
Qed.
End HashIter.

(** Two orders to instantiate with: the one of the map's own enumeration and
    its reverse. *)
Definition hash_iter_forward (K V : Type) `{Countable K} : HashIter K V :=
  {| hash_iter := map_to_list; hash_iter_perm m := reflexivity _ |}.
Definition hash_iter_backward (K V : Type) `{Countable K} : HashIter K V :=
  {| hash_iter m := reverse (map_to_list m); hash_iter_perm m := reverse_Permutation _ |}.

(** ** Sums *)

Definition sumZ (l : list Z) : Z := foldr Z.add 0 l.

Lemma sumZ_app l1 l2 : sumZ (l1 ++ l2) = sumZ l1 + sumZ l2.
Proof. induction l1; simpl; lia. Qed.

Lemma sumZ_snoc l x : sumZ (l ++ [x]) = sumZ l + x.
Proof. rewrite sumZ_app. simpl. lia. Qed.

#[global] Instance sumZ_proper : Proper ((≡ₚ) ==> (=)) sumZ.
Proof. induction 1; simpl; lia. Qed.

Lemma sumZ_nonneg l : Forall (λ x, 0 ≤ x) l → 0 ≤ sumZ l.
Proof. induction 1; simpl; lia. Qed.

(** The sum of a function over the entries of a map, and how one insertion
    changes it. *)
Definition map_sumZ `{Countable K} {V} (f : K → V → Z) (m : gmap K V) : Z :=
  sumZ ((λ kv, f kv.1 kv.2) <$> map_to_list m).

Section MapSum.
Context `{Countable K} {V : Type} (f : K → V → Z).
Implicit Types (m : gmap K V) (k : K) (v : V).

Lemma map_sumZ_insert_new m k v :
  m !! k = None → map_sumZ f (<[k:=v]> m) = f k v + map_sumZ f m.
Proof. intros. unfold map_sumZ. by rewrite map_to_list_insert. Qed.

Lemma map_sumZ_delete m k v :
  m !! k = Some v → map_sumZ f m = f k v + map_sumZ f (delete k m).
Proof.
  intros Hk. rewrite <- (insert_delete_id m k v) at 1 by done.
  apply map_sumZ_insert_new, lookup_delete_eq.
Qed.

Lemma map_sumZ_insert m k v v0 :
  m !! k = Some v0 → map_sumZ f (<[k:=v]> m) = map_sumZ f m - f k v0 + f k v.
Proof.
  intros Hk. rewrite (map_sumZ_delete m k v0), <- insert_delete_eq by done.
  rewrite map_sumZ_insert_new by apply lookup_delete_eq. lia.
Qed.

Lemma map_sumZ_nonneg m : (∀ k v, m !! k = Some v → 0 ≤ f k v) → 0 ≤ map_sumZ f m.
Proof.
  intros Hf. apply sumZ_nonneg, Forall_fmap, Forall_forall.
  intros [k v] Hin%elem_of_map_to_list. by apply Hf.
Qed.

Lemma map_sumZ_lookup_le m k v :
  (∀ k' v', m !! k' = Some v' → 0 ≤ f k' v') → m !! k = Some v → f k v ≤ map_sumZ f m.
Proof.
  intros Hf Hk. rewrite (map_sumZ_delete m k v) by done.
  pose proof (map_sumZ_nonneg (delete k m)) as Hn.
  enough (0 ≤ map_sumZ f (delete k m)) by lia. apply Hn.
  intros k' v' [? ?]%lookup_delete_Some. by apply Hf.
Qed.
End MapSum.

(** ** [sort_by_key(|b| Reverse(key))]: a stable descending sort *)

Section SortDesc.
Context {A : Type} (key : A → Z).

Fixpoint insert_desc (x : A) (l : list A) : list A :=
  match l with
  | [] => [x]
  | y :: l' => if key y <=? key x then x :: l else y :: insert_desc x l'
  end.
Definition sort_desc (l : list A) : list A := foldr insert_desc [] l.

Definition desc (x y : A) : Prop := key y ≤ key x.

Lemma insert_desc_perm x l : insert_desc x l ≡ₚ x :: l.
Proof.
  induction l as [|y l IH]; simpl; [done|].
  destruct (key y <=? key x); [done|]. rewrite IH. constructor.
Qed.

Lemma sort_desc_perm l : sort_desc l ≡ₚ l.
Proof. induction l as [|x l IH]; simpl; [done|]. by rewrite insert_desc_perm, IH. Qed.

Lemma insert_desc_sorted x l : StronglySorted desc l → StronglySorted desc (insert_desc x l).
Proof.
  induction 1 as [|y l Hl IH Hall]; simpl; [repeat constructor|].
  destruct (Z.leb_spec (key y) (key x)) as [Hle|Hlt].
  - constructor; [by constructor|]. constructor; [done|].
    eapply Forall_impl; [done|]. unfold desc. simpl. lia.
  - constructor; [done|]. rewrite insert_desc_perm. constructor; [unfold desc; lia|done].
Qed.

Lemma sort_desc_sorted l : StronglySorted desc (sort_desc l).
Proof. induction l; simpl; [constructor|]. by apply insert_desc_sorted. Qed.

Lemma sort_desc_stable k l :
  filter (λ x, key x = k) (sort_desc l) = filter (λ x, key x = k) l.
Proof.
  induction l as [|x l IH]; simpl; [done|]. rewrite filter_cons, <- IH. clear IH.
  induction (sort_desc l) as [|y l' IH]; simpl; [done|].
  destruct (Z.leb_spec (key y) (key x)); rewrite !filter_cons; [done|].
  rewrite IH. repeat case_decide; try done. lia.
Qed.
End SortDesc.

(** ** Lists *)

Lemma StronglySorted_snoc_lt (xs : list Z) i :
  StronglySorted Z.lt xs → Forall (λ x, x < i) xs → StronglySorted Z.lt (xs ++ [i]).
Proof.
  intros Hs. induction Hs as [|x xs Hs IH Hx]; intros Hall; [repeat constructor|].
  apply Forall_cons in Hall as [Hxi Hall]. simpl. constructor; [by apply IH|].
  apply Forall_app. split; [done|by repeat constructor].
Qed.

Lemma concat_reverse_perm {A} (ls : list (list A)) : concat (reverse ls) ≡ₚ concat ls.
Proof.
  induction ls as [|l ls IH]; [done|]. rewrite reverse_cons, concat_app. simpl.
  by rewrite app_nil_r, IH, Permutation_app_comm.
Qed.

Lemma NoDup_fmap_eq {A B} (f : A → B) l x y : NoDup (f <$> l) → x ∈ l → y ∈ l → f x = f y → x = y.
Proof.
  induction l as [|z l IH]; [by intros _ ?%not_elem_of_nil|]. rewrite fmap_cons.
  intros [Hz Hnd]%NoDup_cons [->|Hx]%elem_of_cons [->|Hy]%elem_of_cons E; [done|..].
  - destruct Hz. rewrite E. by apply list_elem_of_fmap_2.
  - destruct Hz. rewrite <- E. by apply list_elem_of_fmap_2.
  - by apply IH.
Qed.

(** ** Tactics *)

(** Case analysis on every boolean comparison of the goal and hypotheses, with
    the resulting inequalities in the context. *)
Ltac zb :=
  repeat match goal with
  | |- context [?a <? ?b] => destruct (Z.ltb_spec a b)
  | |- context [?a <=? ?b] => destruct (Z.leb_spec a b)
  | |- context [?a =? ?b] => destruct (Z.eqb_spec a b)
  | H : context [?a <? ?b] |- _ => destruct (Z.ltb_spec a b)
  | H : context [?a <=? ?b] |- _ => destruct (Z.leb_spec a b)
  | H : context [?a =? ?b] |- _ => destruct (Z.eqb_spec a b)
  end.

(** Unfolds the ranges of machine integers and calls [lia]. *)
Ltac ulia := unfold in_u, max_u in *; lia.
