(* ===== verification/Hex.v ===== *)
(** Hexadecimal text: the parts of Rust's standard formatting and parsing the
    code uses ([{b:02x}], [{v:x}], [from_str_radix(_, 16)]), the [hex_bytes]
    codec of genesis code bytes (crates/types/src/genesis.rs) and the
    [bloom_serde] codec of the receipt's log bloom
    (crates/types/src/receipt.rs).  A Rust [String] is a [string] of bytes. *)
From S2P Require Import Prelude.
From Stdlib Require Import Ascii.

(** ** Digits *)

Definition char_code (c : ascii) : Z := Z.of_N (N_of_ascii c).

(** [char::to_digit(16)] *)
Definition to_digit (c : ascii) : option Z :=
  let n := char_code c in
  if (48 <=? n) && (n <=? 57) then Some (n - 48)
  else if (97 <=? n) && (n <=? 102) then Some (n - 87)
  else if (65 <=? n) && (n <=? 70) then Some (n - 55)
  else None.

(** The digit character a lower-case hexadecimal format writes for a nibble. *)
Definition hex_digit (d : Z) : ascii :=
  ascii_of_N (Z.to_N (if d <? 10 then 48 + d else 87 + d)).

(** [format!("{b:02x}")] on a byte. *)
Definition format_02x (b : byte) : string :=
  String (hex_digit (Z_of_byte b / 16)) (String (hex_digit (Z_of_byte b mod 16)) "").

(** [format!("{v:x}")]: no leading zeros, ["0"] for zero.  [fuel] bounds the
    number of digits; 64 nibbles hold every value of at most 256 bits. *)
Fixpoint lower_hex_digits (fuel : nat) (v : Z) (acc : string) : string :=
  match fuel with
  | O => acc
  | S fuel' =>
    let acc' := String (hex_digit (v mod 16)) acc in
    if v <? 16 then acc' else lower_hex_digits fuel' (v / 16) acc'
  end.
Definition format_x (v : Z) : string := lower_hex_digits 64 v "".

(** ** [uN::from_str_radix(s, 16)] *)

Inductive ParseIntError :=
| Empty
| InvalidDigit
| PosOverflow.

Fixpoint parse_digits (w : Z) (acc : Z) (s : string) : result ParseIntError Z :=
  match s with
  | "" => Ok acc
  | String c s' =>
    match to_digit c with
    | None => Err InvalidDigit
    | Some d =>
      if 2 ^ w <=? acc * 16 + d then Err PosOverflow
      else parse_digits w (acc * 16 + d) s'
    end
  end.

(** A leading [+] is accepted; a lone sign is an invalid digit. *)
Definition from_str_radix_16 (w : Z) (s : string) : result ParseIntError Z :=
  match s with
  | "" => Err Empty
  | String c s' =>
    if bool_decide (c = "+"%char) then
      match s' with "" => Err InvalidDigit | _ => parse_digits w 0 s' end
    else parse_digits w 0 s
  end.

(** [s.strip_prefix("0x").unwrap_or(s)] *)
Definition strip_0x (s : string) : string :=
  match s with
  | String "0" (String "x" s') => s'
  | _ => s
  end.

(** ** crates/types/src/genesis.rs, module [hex_bytes] *)
Module hex_bytes.

(** [hex::encode] *)
Fixpoint encode (bytes : list byte) : string :=
  match bytes with
  | [] => ""
  | b :: bytes' => format_02x b +:+ encode bytes'
  end.

(** A byte that continues a multi-byte UTF-8 character. *)
Definition is_continuation (c : ascii) : bool :=
  (128 <=? char_code c) && (char_code c <=? 191).

(** [s.is_char_boundary(0)] of the rest of a string. *)
Definition at_boundary (s : string) : bool :=
  match s with String c _ => negb (is_continuation c) | "" => true end.

Inductive DecodeError :=
| OddLength                      (* "odd length hex string" *)
| InvalidHex (e : ParseIntError) (* "invalid hex: {e}" *).

(** The loop over [(0..s.len()).step_by(2)].  [None] is the panic of
    [&s[i..i + 2]] at an index that is not a character boundary; [collect]
    stops at the first error. *)
Fixpoint decode_pairs (s : string) : option (result DecodeError (list byte)) :=
  match s with
  | String c1 (String c2 s') =>
    if at_boundary s' then
      match from_str_radix_16 8 (String c1 (String c2 "")) with
      | Err e => Some (Err (InvalidHex e))
      | Ok v => (λ r, bs ← r; Ok (byte_of_Z v :: bs)) <$> decode_pairs s'
      end
    else None
  | _ => Some (Ok [])
  end.

(** [hex::decode] *)
Definition decode (s : string) : option (result DecodeError (list byte)) :=
  if negb (Z.of_nat (String.length s) mod 2 =? 0) then Some (Err OddLength)
  else decode_pairs s.

Definition serialize (bytes : list byte) : string := "0x" +:+ encode bytes.
Definition deserialize (s : string) : option (result DecodeError (list byte)) :=
  decode (strip_0x s).
End hex_bytes.

(** ** crates/types/src/receipt.rs, module [bloom_serde] *)
Module bloom_serde.

Inductive BloomError :=
| BadLength (* "bloom must be 256 bytes hex" *)
| BadUtf8
| BadDigit (e : ParseIntError).

(** [std::str::from_utf8] on a chunk of two bytes. *)
Definition utf8_pair (c1 c2 : ascii) : bool :=
  let a := char_code c1 in let b := char_code c2 in
  (a <? 128) && (b <? 128)
  || (194 <=? a) && (a <=? 223) && (128 <=? b) && (b <=? 191).

(** The loop over [s.as_bytes().chunks(2)]. *)
Fixpoint parse_chunks (s : string) : result BloomError (list byte) :=
  match s with
  | String c1 (String c2 s') =>
    if utf8_pair c1 c2 then
      v ← map_err BadDigit (from_str_radix_16 8 (String c1 (String c2 "")));
      bs ← parse_chunks s';
      Ok (byte_of_Z v :: bs)
    else Err BadUtf8
  | _ => Ok []
  end.

Definition serialize (bloom : list byte) : string := "0x" +:+ hex_bytes.encode bloom.
Definition deserialize (s : string) : result BloomError (list byte) :=
  let s := strip_0x s in
  if negb (Z.of_nat (String.length s) =? 512) then Err BadLength
  else parse_chunks s.
End bloom_serde.

(** ** Digit lemmas *)

Lemma to_digit_hex_digit d : 0 ≤ d < 16 → to_digit (hex_digit d) = Some d.
Proof.
  intros Hd. assert (d ∈ seqZ 0 16) as Hin by (apply elem_of_seqZ; lia). clear Hd.
  revert d Hin. apply Forall_forall. by repeat constructor.
Qed.

Lemma hex_digit_ascii d : 0 ≤ d < 16 → char_code (hex_digit d) < 128 ∧ hex_digit d ≠ "+"%char.
Proof.
  intros Hd. assert (d ∈ seqZ 0 16) as Hin by (apply elem_of_seqZ; lia). clear Hd.
  revert d Hin. apply Forall_forall. by repeat constructor.
Qed.

Lemma nibbles_of_byte b : 0 ≤ Z_of_byte b / 16 < 16 ∧ 0 ≤ Z_of_byte b mod 16 < 16.
Proof.
  pose proof (Z_of_byte_range b).
  split; [split; [apply Z.div_pos|apply Z.div_lt_upper_bound]|apply Z.mod_pos_bound]; lia.
Qed.

Lemma from_str_radix_format_02x b : from_str_radix_16 8 (format_02x b) = Ok (Z_of_byte b).
Proof.
  destruct (nibbles_of_byte b) as [Hh Hl]. pose proof (Z_of_byte_range b).
  pose proof (Z.div_mod (Z_of_byte b) 16 ltac:(lia)) as Hdm.
  unfold from_str_radix_16, format_02x.
  rewrite bool_decide_eq_false_2 by (by apply hex_digit_ascii).
  cbn [parse_digits]. rewrite !to_digit_hex_digit by done.
  change (2 ^ 8) with 256. zb; try lia. f_equal. lia.
Qed.

Lemma encode_cons b bs :
  hex_bytes.encode (b :: bs) =
    String (hex_digit (Z_of_byte b / 16)) (String (hex_digit (Z_of_byte b mod 16)) (hex_bytes.encode bs)).
Proof. reflexivity. Qed.

Lemma length_encode bs : String.length (hex_bytes.encode bs) = (2 * length bs)%nat.
Proof.
  induction bs as [|b bs IH]; [done|]. rewrite encode_cons. simpl. lia.
Qed.

Lemma hex_digit_not_continuation d s :
  0 ≤ d < 16 → hex_bytes.at_boundary (String (hex_digit d) s) = true.
Proof.
  intros Hd. pose proof (hex_digit_ascii d Hd) as [? _]. unfold hex_bytes.at_boundary, hex_bytes.is_continuation.
  zb; simpl; auto; lia.
Qed.

Lemma encode_at_boundary bs : hex_bytes.at_boundary (hex_bytes.encode bs) = true.
Proof.
  destruct bs as [|b bs]; [done|]. rewrite encode_cons.
  apply hex_digit_not_continuation, nibbles_of_byte.
Qed.

Lemma decode_pairs_encode bs : hex_bytes.decode_pairs (hex_bytes.encode bs) = Some (Ok bs).
Proof.
  induction bs as [|b bs IH]; [done|]. rewrite encode_cons. cbn [hex_bytes.decode_pairs].
  rewrite encode_at_boundary. change (String _ (String _ "")) with (format_02x b).
  by rewrite from_str_radix_format_02x, IH, byte_of_Z_of_byte.
Qed.

Lemma parse_chunks_encode bs : bloom_serde.parse_chunks (hex_bytes.encode bs) = Ok bs.
Proof.
  induction bs as [|b bs IH]; [done|]. rewrite encode_cons. cbn [bloom_serde.parse_chunks].
  destruct (nibbles_of_byte b) as [[H1 _]%hex_digit_ascii [H2 _]%hex_digit_ascii].
  unfold bloom_serde.utf8_pair. apply Z.ltb_lt in H1 as ->. apply Z.ltb_lt in H2 as ->.
  change (String _ (String _ "")) with (format_02x b).
  by rewrite from_str_radix_format_02x, IH; simpl; rewrite byte_of_Z_of_byte.
Qed.

Lemma parse_lower_hex fuel w v acc :
  0 ≤ v < 2 ^ w → v < 16 ^ Z.of_nat fuel → (0 < fuel)%nat →
  parse_digits w 0 (lower_hex_digits fuel v acc) = parse_digits w v acc.
Proof.
  revert v acc. induction fuel as [|fuel IH]; intros v acc Hv Hf Hpos; [lia|].
  cbn [lower_hex_digits]. pose proof (Z.mod_pos_bound v 16 ltac:(lia)).
  pose proof (Z.div_mod v 16 ltac:(lia)) as Hdm.
  assert (∀ a, a * 16 + v mod 16 = v →
    parse_digits w a (String (hex_digit (v mod 16)) acc) = parse_digits w v acc) as Hstep.
  { intros a Ha. cbn [parse_digits]. rewrite to_digit_hex_digit, Ha by done. zb; [lia|done]. }
  destruct (Z.ltb_spec v 16); [apply Hstep; rewrite (Z.div_small v) in Hdm; lia|].
  replace (Z.of_nat (S fuel)) with (1 + Z.of_nat fuel) in Hf by lia.
  rewrite Z.pow_add_r in Hf by lia. assert (v / 16 < 16 ^ Z.of_nat fuel) by (apply Z.div_lt_upper_bound; lia).
  rewrite IH; [apply Hstep; lia|split; [apply Z.div_pos; lia|]|done|].
  - eapply Z.le_lt_trans; [apply Z.div_le_upper_bound with (q := v); lia|lia].
  - destruct fuel; [|lia]. simpl in *. lia.
Qed.

Lemma lower_hex_digits_head fuel v acc :
  0 ≤ v → (0 < fuel)%nat → ∃ d s, 0 ≤ d < 16 ∧ lower_hex_digits fuel v acc = String (hex_digit d) s.
Proof.
  revert v acc. induction fuel as [|fuel IH]; intros v acc Hv Hpos; [lia|].
  cbn [lower_hex_digits]. pose proof (Z.mod_pos_bound v 16 ltac:(lia)).
  destruct (v <? 16); [eauto|]. destruct fuel; [simpl; eauto|].
  apply IH; [apply Z.div_pos|]; lia.
Qed.

Lemma parse_chunks_length s bs :
  bloom_serde.parse_chunks s = Ok bs → (String.length s < 2 + 2 * length bs)%nat ∧ (2 * length bs ≤ String.length s)%nat.
Proof.
  revert bs. induction s as [[|c1 [|c2 s]] IH] using (induction_ltof1 _ String.length); intros bs; cbn [bloom_serde.parse_chunks]; intros Hp.
  1,2: simplify_eq; simpl; lia.
  destruct (bloom_serde.utf8_pair c1 c2); [|done].
  destruct (from_str_radix_16 8 _) as [v|]; simpl in Hp; [|done].
  destruct (bloom_serde.parse_chunks s) as [bs'|] eqn:E; simpl in Hp; simplify_eq.
  apply IH in E; [simpl; lia|unfold ltof; simpl; lia].
Qed.

(** ** Properties *)

(** Reading back the code field of a genesis document gives the bytes that
    were written, for every byte string. *)
Theorem hex_bytes_roundtrip (bytes : list byte) :
  hex_bytes.deserialize (hex_bytes.serialize bytes) = Some (Ok bytes).
Proof.
  change (hex_bytes.decode (hex_bytes.encode bytes) = Some (Ok bytes)).
  unfold hex_bytes.decode. rewrite length_encode.
  replace (Z.of_nat (2 * length bytes) mod 2) with 0 by (rewrite Nat2Z.inj_mul, Z.mul_comm, Z.mod_mul; lia).
  apply decode_pairs_encode.
Qed.

(** Reading back the bloom filter of a receipt gives the 256 bytes that were
    written. *)
Theorem bloom_roundtrip (bloom : list byte) :
  length bloom = 256%nat → bloom_serde.deserialize (bloom_serde.serialize bloom) = Ok bloom.
Proof.
  intros Hl. unfold bloom_serde.deserialize.
  change (strip_0x (bloom_serde.serialize bloom)) with (hex_bytes.encode bloom).
  rewrite length_encode, Hl. apply parse_chunks_encode.
Qed.

(** A bloom filter that parses has 256 bytes. *)
Theorem bloom_deserialize_length (s : string) (bloom : list byte) :
  bloom_serde.deserialize s = Ok bloom → length bloom = 256%nat.
Proof.
  unfold bloom_serde.deserialize. zb; simpl; [|done].
  intros Hp%parse_chunks_length. lia.
Qed.

Lemma parse_digits_range w acc str v : in_u w acc → parse_digits w acc str = Ok v → in_u w v.
Proof.
  revert acc. induction str as [|c str IH]; intros acc Hacc; cbn [parse_digits]; [by intros [= <-]|].
  destruct (to_digit c) as [d|] eqn:Hd; [|done].
  assert (0 ≤ d) by (unfold to_digit in Hd; zb; simplify_eq/=; lia).
  destruct (Z.leb_spec (2 ^ w) (acc * 16 + d)); [done|]. apply IH. ulia.
Qed.

Lemma from_str_radix_16_range w str v : 0 ≤ w → from_str_radix_16 w str = Ok v → in_u w v.
Proof.
  intros Hw. assert (in_u w 0) as H0 by (pose proof (pow2_pos w Hw); ulia).
  unfold from_str_radix_16. destruct str as [|c str]; [done|].
  case_bool_decide; [destruct str; [done|]|]; by apply parse_digits_range.
Qed.

(** A quantity printed with [0x{:x}] and read back with [from_str_radix] at a
    width that holds it is unchanged, for every width up to 256 bits. *)
Lemma format_x_parse (w v : Z) :
  0 ≤ w ≤ 256 → in_u w v → from_str_radix_16 w (format_x v) = Ok v.
Proof.
  intros Hw Hv. unfold format_x.
  assert (v < 16 ^ Z.of_nat 64).
  { change (16 ^ Z.of_nat 64) with (2 ^ 256). eapply Z.lt_le_trans; [apply Hv|].
    apply Z.pow_le_mono_r; lia. }
  pose proof (parse_lower_hex 64 w v "" Hv ltac:(done) ltac:(lia)) as Hp.
  destruct (lower_hex_digits_head 64 v "") as (d & s & Hd & E); [apply Hv|lia|].
  rewrite E in *. unfold from_str_radix_16.
  rewrite bool_decide_eq_false_2 by (by apply hex_digit_ascii). done.
Qed.

(** ** Witnesses *)

Lemma bloom_roundtrip_witness :
  bloom_serde.deserialize (bloom_serde.serialize (replicate 256 (byte_of_Z 171))) = Ok (replicate 256 (byte_of_Z 171)).
Proof. exact (bloom_roundtrip (replicate 256 (byte_of_Z 171)) eq_refl). Defined.
