(* ===== verification/Types.v ===== *)
(** The data types of crates/types: [EvmChainConfig] (config.rs), [EvmGenesis]
    and [GenesisAlloc] (genesis.rs), [EvmLog] and [EvmReceipt] (receipt.rs).

    Fixed-width integers are [Z]; an [Address] (20 bytes), a [B256] and a [U256]
    (32 bytes) are the integers their big-endian bytes denote.  [wf] predicates
    state the ranges the Rust types guarantee. *)
From S2P Require Import Prelude.

Notation Address := Z (only parsing).
Notation B256 := Z (only parsing).
Notation U256 := Z (only parsing).
Notation Bytes := (list byte) (only parsing).

(** [addr.as_slice()] and [hash.as_slice()] *)
Definition address_as_slice (a : Address) : list byte := to_be_bytes 20 a.
Definition b256_as_slice (h : B256) : list byte := to_be_bytes 32 h.
(** [Address::from_slice] *)
Definition address_from_slice (bs : list byte) : Address := from_be_bytes bs.

Notation is_address := (in_u 160).
Notation is_u64 := (in_u 64).
Notation is_u128 := (in_u 128).
Notation is_u256 := (in_u 256).

(** ** config.rs *)

Inductive CompatProfile := Modern | Legacy.

Record EvmChainConfig := mkConfig {
  chain_id : Z;
  block_gas_limit : Z;
  base_fee_per_gas : Z;
  compat_profile : CompatProfile;
  min_base_fee : Z;
  base_fee_change_denominator : Z;
  elasticity_multiplier : Z;
}.

Definition default_min_base_fee : Z := 1000000000.
Definition default_base_fee_change_denom : Z := 8.
Definition default_elasticity_multiplier : Z := 2.

Definition config_default : EvmChainConfig := {|
  chain_id := 1337;
  block_gas_limit := 30000000;
  base_fee_per_gas := 1000000000;
  compat_profile := Modern;
  min_base_fee := default_min_base_fee;
  base_fee_change_denominator := default_base_fee_change_denom;
  elasticity_multiplier := default_elasticity_multiplier;
|}.

(** ** genesis.rs *)

Record GenesisAlloc := mkAlloc {
  alloc_balance : U256;
  alloc_nonce : Z;
  alloc_code : list byte;
  alloc_storage : gmap Z Z; (* BTreeMap<U256, U256> *)
}.

Record EvmGenesis := mkGenesis {
  genesis_chain_id : Z;
  genesis_alloc : gmap Z GenesisAlloc; (* BTreeMap<Address, GenesisAlloc> *)
  genesis_gas_limit : Z;
  genesis_base_fee_per_gas : Z;
  genesis_coinbase : Address;
  genesis_timestamp : Z;
}.

Definition default_gas_limit : Z := 30000000.
Definition default_base_fee : Z := 1000000000.

(** The ranges the field types of a genesis document guarantee. *)
Definition alloc_wf (a : GenesisAlloc) : Prop :=
  is_u256 (alloc_balance a) ∧ is_u64 (alloc_nonce a) ∧
  map_Forall (λ slot value, is_u256 slot ∧ is_u256 value) (alloc_storage a).
Definition genesis_wf (g : EvmGenesis) : Prop :=
  map_Forall (λ addr a, is_address addr ∧ alloc_wf a) (genesis_alloc g).
Definition genesis_doc_wf (g : EvmGenesis) : Prop :=
  genesis_wf g ∧ is_u64 (genesis_chain_id g) ∧ is_u64 (genesis_gas_limit g) ∧ is_u64 (genesis_base_fee_per_gas g) ∧
  is_address (genesis_coinbase g) ∧ is_u64 (genesis_timestamp g).

(** ** receipt.rs *)

Record EvmLog := mkLog {
  log_address : Address;
  log_topics : list B256;
  log_data : Bytes;
}.

Record EvmReceipt := mkReceipt {
  tx_hash : B256;
  tx_index : Z;
  block_hash : B256;
  block_number : Z;
  from : Address;
  to : option Address;
  cumulative_gas_used : Z;
  gas_used : Z;
  contract_address : option Address;
  logs : list EvmLog;
  logs_bloom : list byte; (* [u8; 256] *)
  status : Z;
  effective_gas_price : U256;
}.

Lemma length_address_as_slice a : length (address_as_slice a) = 20%nat.
Proof. apply length_to_be_bytes. Qed.

Lemma length_b256_as_slice h : length (b256_as_slice h) = 32%nat.
Proof. apply length_to_be_bytes. Qed.

Lemma address_as_slice_inj a b :
  is_address a → is_address b → address_as_slice a = address_as_slice b → a = b.
Proof. by apply (to_be_bytes_inj 20 160). Qed.

Lemma b256_as_slice_inj a b :
  is_u256 a → is_u256 b → b256_as_slice a = b256_as_slice b → a = b.
Proof. by apply (to_be_bytes_inj 32 256). Qed.

Lemma address_from_as_slice a : is_address a → address_from_slice (address_as_slice a) = a.
Proof. by apply (from_to_be_bytes_id 20 160). Qed.

#[export] Hint Rewrite length_address_as_slice length_b256_as_slice : nb.
