(* ===== verification/Tx.v ===== *)
(** crates/types/src/tx.rs: decoding, sender recovery, validation against chain
    state, intrinsic gas and the effective tip.

    [TxEnvelope] and its signature scheme belong to the alloy crates.  The
    envelope is the record of what the code observes of it through the
    [Transaction] trait; decoding and signer recovery are the operations of the
    class [TxCodec]. *)
From S2P Require Import Prelude Types.

Record TxEnvelope := mkEnvelope {
  env_tx_type : Z;                          (* tx_type() as u8 *)
  env_chain_id : option Z;                  (* chain_id() : Option<u64> *)
  env_nonce : Z;                            (* nonce() : u64 *)
  env_gas_limit : Z;                        (* gas_limit() : u64 *)
  env_max_fee_per_gas : Z;                  (* max_fee_per_gas() : u128 *)
  env_max_priority_fee_per_gas : option Z;  (* max_priority_fee_per_gas() : Option<u128> *)
  env_to : option Address;                  (* to() *)
  env_value : U256;                         (* value() *)
  env_input : Bytes;                        (* input() *)
  env_tx_hash : B256;                       (* tx_hash() *)
}.

(** The ranges the accessors' types guarantee. *)
Definition envelope_wf (e : TxEnvelope) : Prop :=
  is_u64 (env_nonce e) ∧ is_u64 (env_gas_limit e) ∧ is_u128 (env_max_fee_per_gas e) ∧
  is_u128 (default 0 (env_max_priority_fee_per_gas e)) ∧ is_u256 (env_value e).

#[global] Instance envelope_wf_dec e : Decision (envelope_wf e).
Proof. unfold envelope_wf. apply _. Defined.

(** alloy's [TxEnvelope::decode_2718] and [recover_signer]; errors are carried
    as the text the code formats them to. *)
Class TxCodec : Type := {
  decode_2718 : list byte → result string TxEnvelope;
  recover_signer : TxEnvelope → result string Address;
}.

(** What the types of the two functions guarantee. *)
Class TxCodecOk `{TxCodec} : Prop := {
  decode_2718_wf raw e : decode_2718 raw = Ok e → envelope_wf e;
  recover_signer_wf e a : recover_signer e = Ok a → is_address a;
}.

Record VerifiedTx := mkVerified {
  raw : list byte;
  envelope : TxEnvelope;
  sender : Address;
  vtx_hash : B256; (* tx_hash *)
}.

Inductive TxError :=
| RlpDecode (e : string)
| SignatureRecovery (e : string)
| ChainIdMismatch (expected : Z) (got : option Z)
| NonceTooLow (expected got : Z)
| InsufficientBalance (required available : U256)
| IntrinsicGasTooLow (required got : Z)
| GasLimitExceedsBlock (tx_gas block_limit : Z).

(** [{x:?}] on an [Option<u64>] *)
Definition debug_option (o : option Z) : string :=
  match o with None => "None" | Some x => "Some(" +:+ pretty x +:+ ")" end.

(** [impl Display for TxError] *)
Definition TxError_fmt (err : TxError) : string :=
  match err with
  | RlpDecode e => "RLP decode: " +:+ e
  | SignatureRecovery e => "signature recovery: " +:+ e
  | ChainIdMismatch expected got =>
    "chain_id mismatch: expected " +:+ pretty expected +:+ ", got " +:+ debug_option got
  | NonceTooLow expected got =>
    "nonce too low: expected >= " +:+ pretty expected +:+ ", got " +:+ pretty got
  | InsufficientBalance required available =>
    "insufficient balance: need " +:+ pretty required +:+ ", have " +:+ pretty available
  | IntrinsicGasTooLow required got =>
    "intrinsic gas too low: need " +:+ pretty required +:+ ", got " +:+ pretty got
  | GasLimitExceedsBlock tx_gas block_limit =>
    "gas limit " +:+ pretty tx_gas +:+ " exceeds block limit " +:+ pretty block_limit
  end.

Definition decode_and_recover `{TxCodec} (bytes : list byte) : result TxError VerifiedTx :=
  env ← map_err RlpDecode (decode_2718 bytes);
  signer ← map_err SignatureRecovery (recover_signer env);
  Ok {| raw := bytes; envelope := env; sender := signer; vtx_hash := env_tx_hash env |}.

(** The per-byte cost folded by [intrinsic_gas]. *)
Definition byte_gas (b : byte) : Z := if Z_of_byte b =? 0 then 4 else 16.

Definition intrinsic_gas (tx : TxEnvelope) : Z :=
  let base_cost := match env_to tx with Some _ => 21000 | None => 53000 end in
  let data_cost := fold_left (λ acc b, saturating_add 64 acc (byte_gas b)) (env_input tx) 0 in
  saturating_add 64 base_cost data_cost.

(** [U256::from(tx_gas) * U256::from(max_fee) + value], in 256-bit modular
    arithmetic. *)
Definition upfront_cost (tx : TxEnvelope) (base_fee : Z) : U256 :=
  let max_fee := Z.max (env_max_fee_per_gas tx) base_fee in
  wrapping_add 256 (wrapping_mul 256 (env_gas_limit tx) max_fee) (env_value tx).

Definition validate_tx (tx : VerifiedTx) (cid account_nonce : Z) (account_balance : U256)
    (gas_limit base_fee : Z) : result TxError unit :=
  let env := envelope tx in
  if match env_chain_id env with Some id => negb (id =? cid) | None => false end
  then Err (ChainIdMismatch cid (env_chain_id env))
  else if env_nonce env <? account_nonce
  then Err (NonceTooLow account_nonce (env_nonce env))
  else if gas_limit <? env_gas_limit env
  then Err (GasLimitExceedsBlock (env_gas_limit env) gas_limit)
  else if env_gas_limit env <? intrinsic_gas env
  then Err (IntrinsicGasTooLow (intrinsic_gas env) (env_gas_limit env))
  else if account_balance <? upfront_cost env base_fee
  then Err (InsufficientBalance (upfront_cost env base_fee) account_balance)
  else Ok tt.

(** [as u64] truncates the 128-bit fee fields. *)
Definition effective_gas_tip (tx : TxEnvelope) (base_fee : Z) : Z :=
  let max_fee := wrap 64 (env_max_fee_per_gas tx) in
  let max_priority := wrap 64 (default 0 (env_max_priority_fee_per_gas tx)) in
  Z.min (saturating_sub max_fee base_fee) max_priority.

(** ** Intrinsic gas *)

(** Reference definition: 4 gas per zero byte and 16 per non-zero byte. *)
Definition calldata_gas (input : list byte) : Z := sumZ (byte_gas <$> input).

Lemma byte_gas_pos b : 0 < byte_gas b.
Proof. unfold byte_gas. zb; lia. Qed.

Lemma calldata_gas_nonneg input : 0 ≤ calldata_gas input.
Proof.
  apply sumZ_nonneg, Forall_fmap, Forall_forall. intros b _.
  pose proof (byte_gas_pos b). simpl. lia.
Qed.

Lemma fold_byte_gas input acc :
  0 ≤ acc →
  fold_left (λ acc b, saturating_add 64 acc (byte_gas b)) input (Z.min acc (max_u 64)) =
    Z.min (acc + calldata_gas input) (max_u 64).
Proof.
  revert acc. induction input as [|b input IH]; intros acc Hacc; cbn [fold_left].
  - change (calldata_gas []) with 0. f_equal. lia.
  - pose proof (byte_gas_pos b).
    replace (saturating_add 64 (Z.min acc (max_u 64)) (byte_gas b))
      with (Z.min (acc + byte_gas b) (max_u 64)) by (unfold saturating_add; ulia).
    rewrite IH by lia. change (calldata_gas (b :: input)) with (byte_gas b + calldata_gas input).
    f_equal. lia.
Qed.

Lemma intrinsic_gas_eq tx :
  intrinsic_gas tx =
    Z.min ((match env_to tx with Some _ => 21000 | None => 53000 end) + calldata_gas (env_input tx)) (max_u 64).
Proof.
  unfold intrinsic_gas. change 0 with (Z.min 0 (max_u 64)) at 1.
  rewrite (fold_byte_gas _ 0) by done. pose proof (calldata_gas_nonneg (env_input tx)).
  unfold saturating_add. destruct (env_to tx); ulia.
Qed.

(** ** The upfront cost *)

(** The cost in unbounded arithmetic. *)
Definition true_cost (tx : TxEnvelope) (base_fee : Z) : Z :=
  env_gas_limit tx * Z.max (env_max_fee_per_gas tx) base_fee + env_value tx.

Lemma gas_fee_product_range tx base_fee :
  envelope_wf tx → is_u64 base_fee →
  in_u 192 (env_gas_limit tx * Z.max (env_max_fee_per_gas tx) base_fee).
Proof.
  intros (_ & Hg & Hf & _) Hb. unfold in_u in *.
  change (2 ^ 192) with (2 ^ 64 * 2 ^ 128). split; [nia|].
  apply Z.mul_lt_mono_nonneg; lia.
Qed.

Lemma upfront_cost_eq tx base_fee :
  envelope_wf tx → is_u64 base_fee → upfront_cost tx base_fee = true_cost tx base_fee mod 2 ^ 256.
Proof.
  intros Hwf Hb. pose proof (gas_fee_product_range tx base_fee Hwf Hb).
  unfold upfront_cost, wrapping_mul, wrapping_add. by rewrite (wrap_small 256 (env_gas_limit tx * _)) by ulia.
Qed.

(** ** Validation *)

Definition chain_id_ok (tx : TxEnvelope) (cid : Z) : Prop :=
  ∀ id, env_chain_id tx = Some id → id = cid.

Lemma chain_id_test tx cid :
  (match env_chain_id tx with Some id => negb (id =? cid) | None => false end = false) ↔ chain_id_ok tx cid.
Proof.
  unfold chain_id_ok. destruct (env_chain_id tx) as [id|]; [|naive_solver].
  zb; simpl; naive_solver.
Qed.

(** Splits the cascade of checks of [validate_tx]. *)
Ltac validate_cases :=
  unfold validate_tx;
  match goal with |- context [if (match env_chain_id ?t with _ => _ end) then Err (ChainIdMismatch ?c _) else _] =>
    let H := fresh "Hid" in
    pose proof (chain_id_test t c) as H;
    destruct (match env_chain_id t with Some id => negb (id =? c) | None => false end)
  end; zb.

Lemma validate_tx_Ok tx cid nonce balance gas_limit base_fee :
  validate_tx tx cid nonce balance gas_limit base_fee = Ok tt ↔
    chain_id_ok (envelope tx) cid ∧ nonce ≤ env_nonce (envelope tx) ∧
    intrinsic_gas (envelope tx) ≤ env_gas_limit (envelope tx) ≤ gas_limit ∧
    upfront_cost (envelope tx) base_fee ≤ balance.
Proof.
  validate_cases; (split; [intros Hv; try done|intros (Hc & ? & [? ?] & ?)]); try tauto; try lia;
    try (apply Hid in Hc; done).
Qed.

(** What each error of [validate_tx] says: which check failed, with the earlier
    ones passed. *)
Definition error_reason (env : TxEnvelope) (cid nonce balance gas_limit base_fee : Z) (err : TxError) : Prop :=
  match err with
  | ChainIdMismatch expected got =>
    expected = cid ∧ got = env_chain_id env ∧ ¬ chain_id_ok env cid
  | NonceTooLow expected got =>
    expected = nonce ∧ got = env_nonce env ∧ got < expected ∧ chain_id_ok env cid
  | GasLimitExceedsBlock tx_gas block_limit =>
    tx_gas = env_gas_limit env ∧ block_limit = gas_limit ∧ block_limit < tx_gas ∧
    chain_id_ok env cid ∧ nonce ≤ env_nonce env
  | IntrinsicGasTooLow required got =>
    required = intrinsic_gas env ∧ got = env_gas_limit env ∧ got < required ∧
    chain_id_ok env cid ∧ nonce ≤ env_nonce env ∧ got ≤ gas_limit
  | InsufficientBalance required available =>
    required = upfront_cost env base_fee ∧ available = balance ∧ available < required ∧
    chain_id_ok env cid ∧ nonce ≤ env_nonce env ∧ intrinsic_gas env ≤ env_gas_limit env ≤ gas_limit
  | RlpDecode _ | SignatureRecovery _ => False
  end.

(** ** Properties *)

(** The saturating fold of [intrinsic_gas] computes the reference price:
    21000 (53000 for a creation) plus 4 per zero byte and 16 per non-zero byte
    of call data. *)
Theorem intrinsic_gas_reference (tx : TxEnvelope) :
  Z.of_nat (length (env_input tx)) < 2 ^ 59 →
  intrinsic_gas tx =
    (if bool_decide (is_Some (env_to tx)) then 21000 else 53000)
    + 4 * Z.of_nat (length (filter (λ b, Z_of_byte b = 0) (env_input tx)))
    + 16 * Z.of_nat (length (filter (λ b, Z_of_byte b ≠ 0) (env_input tx))).
Proof.
  intros Hl. rewrite intrinsic_gas_eq.
  assert (calldata_gas (env_input tx) =
    4 * Z.of_nat (length (filter (λ b, Z_of_byte b = 0) (env_input tx)))
    + 16 * Z.of_nat (length (filter (λ b, Z_of_byte b ≠ 0) (env_input tx)))
    ∧ calldata_gas (env_input tx) ≤ 16 * Z.of_nat (length (env_input tx))) as [E Hle].
  { clear Hl. induction (env_input tx) as [|b l IH]; [done|].
    change (calldata_gas (b :: l)) with (byte_gas b + calldata_gas l).
    rewrite !filter_cons. unfold byte_gas. zb; repeat case_decide; try done; cbn [length]; lia. }
  pose proof (calldata_gas_nonneg (env_input tx)).
  destruct (env_to tx); case_bool_decide as Hs; try (by destruct Hs); try (by contradict Hs; eauto); ulia.
Qed.

(** C39. [validate_tx] accepts exactly the transactions with a matching (or
    absent) chain id, a nonce not below the account's, a gas limit of at least
    21000 (53000 for a creation) plus 4 per zero byte and 16 per non-zero byte of
    call data and at most the block limit, and a balance not below gas limit
    times the higher of fee cap and base fee, plus value, where that cost is
    reckoned modulo [2^256] ([validate_tx_cost_wraps] below). *)
Theorem validate_tx_sound (tx : VerifiedTx) (cid nonce balance gas_limit base_fee : Z) :
  let env := envelope tx in
  envelope_wf env → is_u64 base_fee → Z.of_nat (length (env_input env)) < 2 ^ 59 →
  validate_tx tx cid nonce balance gas_limit base_fee = Ok tt ↔
    (∀ id, env_chain_id env = Some id → id = cid) ∧ nonce ≤ env_nonce env ∧
    (if bool_decide (is_Some (env_to env)) then 21000 else 53000)
      + 4 * Z.of_nat (length (filter (λ b, Z_of_byte b = 0) (env_input env)))
      + 16 * Z.of_nat (length (filter (λ b, Z_of_byte b ≠ 0) (env_input env)))
      ≤ env_gas_limit env ≤ gas_limit ∧
    (env_gas_limit env * Z.max (env_max_fee_per_gas env) base_fee + env_value env) mod 2 ^ 256 ≤ balance.
Proof.
  intros env Hwf Hb Hl. rewrite validate_tx_Ok, upfront_cost_eq by done. by rewrite <- intrinsic_gas_reference.
Qed.

(** Every error [validate_tx] returns names the first check that failed, with
    the values compared, and each failing check is reported by its error. *)
Theorem validate_tx_errors (tx : VerifiedTx) (cid nonce balance gas_limit base_fee : Z) (err : TxError) :
  validate_tx tx cid nonce balance gas_limit base_fee = Err err ↔
    error_reason (envelope tx) cid nonce balance gas_limit base_fee err.
Proof.
  validate_cases; split.
  all: try (intros [= <-]; simpl; repeat split; try tauto; try lia; intros Hc; apply Hid in Hc; done).
  all: destruct err; simpl; intros; destruct_and?; subst; try done; try lia; try tauto.
  all: exfalso.
  all: first [match goal with H : chain_id_ok _ _ |- _ => by apply Hid in H end
             |match goal with H : ¬ chain_id_ok _ _ |- _ => contradict H; by apply Hid end].
Qed.

(** With fees that fit in 64 bits, [effective_gas_tip] is the lesser of the
    priority fee and what the fee cap leaves above the base fee, and fits in 64
    bits. *)
Theorem effective_gas_tip_spec (tx : TxEnvelope) (base_fee : Z) :
  envelope_wf tx → is_u64 base_fee →
  env_max_fee_per_gas tx < 2 ^ 64 → default 0 (env_max_priority_fee_per_gas tx) < 2 ^ 64 →
  effective_gas_tip tx base_fee =
    Z.min (Z.max (env_max_fee_per_gas tx - base_fee) 0) (default 0 (env_max_priority_fee_per_gas tx)) ∧
  is_u64 (effective_gas_tip tx base_fee).
Proof.
  intros (_ & _ & Hf & Hp & _) Hb Hf' Hp'. unfold effective_gas_tip, saturating_sub.
  rewrite !wrap_small by ulia. split; [done|ulia].
Qed.

(** A transfer of [2^256 - 1] wei whose cost wraps to less than one wei of
    balance below zero: used as a concrete input below. *)
Definition overflow_tx : VerifiedTx := {|
  raw := []; sender := 1; vtx_hash := 0;
  envelope := {| env_tx_type := 2; env_chain_id := Some 1337; env_nonce := 0; env_gas_limit := 21000;
    env_max_fee_per_gas := 1; env_max_priority_fee_per_gas := Some 1; env_to := Some 2;
    env_value := 2 ^ 256 - 21000; env_input := []; env_tx_hash := 0 |} |}.

(** The upfront cost is computed modulo [2^256]: a transaction that needs far
    more than exists passes the balance check with balance 0. *)
Theorem validate_tx_cost_wraps :
  envelope_wf (envelope overflow_tx) ∧
  validate_tx overflow_tx 1337 0 0 30000000 1 = Ok tt ∧
  0 < true_cost (envelope overflow_tx) 1.
Proof. split; [by apply (bool_decide_unpack _)|by vm_compute]. Qed.

(** The 128-bit fees are truncated to 64 bits: a fee cap of [2^64] plus the base
    fee gives tip 0. *)
Theorem effective_gas_tip_truncates :
  ∃ tx base_fee, envelope_wf tx ∧ is_u64 base_fee ∧
    env_max_fee_per_gas tx = 2 ^ 64 + base_fee ∧ env_max_priority_fee_per_gas tx = Some (2 ^ 32) ∧
    effective_gas_tip tx base_fee = 0.
Proof.
  exists {| env_tx_type := 2; env_chain_id := None; env_nonce := 0; env_gas_limit := 21000;
    env_max_fee_per_gas := 2 ^ 64 + 1000000000; env_max_priority_fee_per_gas := Some (2 ^ 32);
    env_to := None; env_value := 0; env_input := []; env_tx_hash := 0 |}, 1000000000.
  by split; [apply (bool_decide_unpack _)|vm_compute].
Qed.

(** ** A concrete codec

    Four bytes (sender, nonce, tip, thousands of gas) stand for a signed
    transaction; gas byte 255 stands for the largest gas limit.  It makes the
    pool and the executor computable on concrete inputs. *)
Definition toy_envelope (s n f g : byte) : TxEnvelope := {|
  env_tx_type := 2; env_chain_id := Some 1337; env_nonce := Z_of_byte n;
  env_gas_limit := if Z_of_byte g =? 255 then 2 ^ 64 - 1 else 1000 * Z_of_byte g;
  env_max_fee_per_gas := 1000000000 + Z_of_byte f; env_max_priority_fee_per_gas := Some (Z_of_byte f);
  env_to := Some 2; env_value := Z_of_byte s; env_input := []; env_tx_hash := from_le_bytes [s; n; f; g] |}.

Definition toy_codec : TxCodec := {|
  decode_2718 bs := match bs with [s; n; f; g] => Ok (toy_envelope s n f g) | _ => Err "input too short" end;
  recover_signer e := Ok (env_value e mod 2 ^ 160);
|}.

Lemma toy_codec_ok : @TxCodecOk toy_codec.
Proof.
  split; cbn [decode_2718 recover_signer toy_codec].
  - intros [|s [|n [|f [|g []]]]] e [= <-]. pose proof (Z_of_byte_range s). pose proof (Z_of_byte_range n).
    pose proof (Z_of_byte_range f). pose proof (Z_of_byte_range g). unfold toy_envelope, envelope_wf.
    cbn. zb; ulia.
  - intros e a [= <-]. by apply wrap_range.
Qed.

(** The bytes of a toy transaction. *)
Definition toy_tx (s n tip gas : Z) : list byte := byte_of_Z <$> [s; n; tip; gas].

(** ** Witnesses *)

Lemma validate_tx_sound_witness :
  validate_tx (mkVerified [] (toy_envelope Init.Byte.x05 Init.Byte.x00 Init.Byte.x03 Init.Byte.x1e) 5 0) 1337 0 (10 ^ 18) 30000000 1000000000 = Ok tt.
Proof.
  apply (validate_tx_sound (mkVerified [] (toy_envelope Init.Byte.x05 Init.Byte.x00 Init.Byte.x03 Init.Byte.x1e) 5 0) 1337 0 (10 ^ 18) 30000000 1000000000);
    [by apply (bool_decide_unpack _)|ulia|by vm_compute|].
  split; [by intros id [= <-]|by vm_compute].
Defined.

Lemma intrinsic_gas_reference_witness :
  intrinsic_gas (mkEnvelope 2 None 0 30000 0 None None 0 [Init.Byte.x00; Init.Byte.x01; Init.Byte.x02] 0) = 53000 + 4 + 32.
Proof. exact (intrinsic_gas_reference (mkEnvelope 2 None 0 30000 0 None None 0 [Init.Byte.x00; Init.Byte.x01; Init.Byte.x02] 0) ltac:(by vm_compute)). Defined.

Lemma effective_gas_tip_spec_witness : effective_gas_tip (toy_envelope Init.Byte.x05 Init.Byte.x00 Init.Byte.x03 Init.Byte.x1e) 1000000000 = 3.
Proof.
  exact (proj1 (effective_gas_tip_spec (toy_envelope Init.Byte.x05 Init.Byte.x00 Init.Byte.x03 Init.Byte.x1e) 1000000000
    ltac:(by apply (bool_decide_unpack _)) ltac:(ulia) ltac:(by vm_compute) ltac:(by vm_compute))).
Defined.
