(* ===== verification/TxPool.v ===== *)
(** crates/txpool/src/lib.rs: the transaction pool.

    The pool's [Mutex<PoolInner>] is the state [PoolInner]; each method is a
    function on the pool.  [nonce_fn] is a closure over mutable state (the
    executor's world state): it is a function of an environment [Env], read when
    the closure is called.  [HashMap] iteration goes through [HashIter]; the
    [BTreeMap]s of a sender are finite maps with ordered iteration. *)
From S2P Require Import Prelude Types Tx.

(** ** Data *)

Record EvmTxPoolConfig := mkPoolConfig {
  max_pending_per_sender : Z;
  max_queued_per_sender : Z;
  replacement_bump_pct : Z;
  base_fee : Z;
}.

Definition pool_config_default : EvmTxPoolConfig := {|
  max_pending_per_sender := 64;
  max_queued_per_sender := 64;
  replacement_bump_pct := 10;
  base_fee := 1000000000;
|}.

Record PoolEntry := mkEntry {
  verified : VerifiedTx;
  effective_tip : Z;
}.

Record SenderQueue := mkQueue {
  pending : gmap Z PoolEntry;
  queued : gmap Z PoolEntry;
}.

(** [SenderQueue::default()] *)
Definition queue_default : SenderQueue := {| pending := ∅; queued := ∅ |}.

Record PoolInner {Env : Type} := mkInner {
  senders : gmap Z SenderQueue;     (* HashMap<Address, SenderQueue> *)
  by_hash : gmap Z Z;               (* HashMap<B256, Address> *)
  nonce_fn : option (Env → Address → Z);
}.
Arguments PoolInner : clear implicits.
Arguments mkInner {Env} _ _ _.

Record EvmTxPool {Env : Type} := mkPool {
  config : EvmTxPoolConfig;
  inner : PoolInner Env;
}.
Arguments EvmTxPool : clear implicits.
Arguments mkPool {Env} _ _.

(** ** Operations *)

Section Pool.
Context {Env : Type} `{!TxCodec} `{!HashIter Z SenderQueue}.

Definition set_senders (i : PoolInner Env) (s : gmap Z SenderQueue) : PoolInner Env :=
  mkInner s (by_hash i) (nonce_fn i).
Definition set_by_hash (i : PoolInner Env) (h : gmap Z Z) : PoolInner Env :=
  mkInner (senders i) h (nonce_fn i).

Definition new (cfg : EvmTxPoolConfig) : EvmTxPool Env := mkPool cfg (mkInner ∅ ∅ None).

Definition set_nonce_fn (p : EvmTxPool Env) (f : Env → Address → Z) : EvmTxPool Env :=
  mkPool (config p) (mkInner (senders (inner p)) (by_hash (inner p)) (Some f)).

(** [while let Some(entry) = queue.queued.remove(&next)]; every iteration
    removes an entry of [queued], so [size queued + 1] rounds reach the exit. *)
Fixpoint promote_loop (fuel : nat) (next : Z) (q : SenderQueue) : SenderQueue :=
  match fuel with
  | O => q
  | S fuel' =>
    match queued q !! next with
    | Some entry =>
      promote_loop fuel' (wrapping_add 64 next 1)
        {| pending := <[next := entry]> (pending q); queued := delete next (queued q) |}
    | None => q
    end
  end.

Definition promote_next (q : SenderQueue) (current_nonce : Z) : Z :=
  match btree_last_key (pending q) with
  | Some n => wrapping_add 64 n 1
  | None => current_nonce
  end.

Definition promote_queued_static (q : SenderQueue) (current_nonce : Z) : SenderQueue :=
  promote_loop (S (size (queued q))) (promote_next q current_nonce) q.

(** The least tip that may replace an entry of tip [old]. *)
Definition min_replacement_tip (cfg : EvmTxPoolConfig) (old : Z) : Z :=
  saturating_mul 64 old (wrapping_add 64 100 (replacement_bump_pct cfg)) / 100.

(** The map a transaction goes to, [pending] or [queued]. *)
Definition get_target (is_pending : bool) (q : SenderQueue) : gmap Z PoolEntry :=
  if is_pending then pending q else queued q.
Definition set_target (is_pending : bool) (q : SenderQueue) (m : gmap Z PoolEntry) : SenderQueue :=
  if is_pending then {| pending := m; queued := queued q |}
  else {| pending := pending q; queued := m |}.

Definition current_nonce_of (i : PoolInner Env) (env : Env) (s : Address) : Z :=
  match nonce_fn i with Some f => f env s | None => 0 end.

Definition goes_pending (q : SenderQueue) (tx_nonce current_nonce : Z) : bool :=
  (tx_nonce =? current_nonce) || bool_decide (is_Some (pending q !! saturating_sub tx_nonce 1)).

(** The body of [submit_tx] from the moment the pool's lock is held. *)
Definition submit_locked (cfg : EvmTxPoolConfig) (i : PoolInner Env) (env : Env) (entry : PoolEntry)
    : PoolInner Env * result string B256 :=
  let tx_hash := vtx_hash (verified entry) in
  match by_hash i !! tx_hash with
  | Some _ => (i, Err "transaction already known")
  | None =>
    let sender := sender (verified entry) in
    let tx_nonce := env_nonce (envelope (verified entry)) in
    let current_nonce := current_nonce_of i env sender in
    if tx_nonce <? current_nonce then
      (i, Err ("nonce too low: tx nonce " +:+ pretty tx_nonce +:+ " < current " +:+ pretty current_nonce))
    else
      let queue := default queue_default (senders i !! sender) in
      (* entry(sender).or_default() has stored the queue, whatever happens next *)
      let i := set_senders i (<[sender := queue]> (senders i)) in
      let is_pending := goes_pending queue tx_nonce current_nonce in
      let target := get_target is_pending queue in
      let limit := if is_pending then max_pending_per_sender cfg else max_queued_per_sender cfg in
      let insert old_hash :=
        let queue := set_target is_pending queue (<[tx_nonce := entry]> target) in
        let by_hash := match old_hash with Some h => delete h (by_hash i) | None => by_hash i end in
        let by_hash := <[tx_hash := sender]> by_hash in
        let queue := promote_queued_static queue current_nonce in
        (mkInner (<[sender := queue]> (senders i)) by_hash (nonce_fn i), Ok tx_hash) in
      match target !! tx_nonce with
      | Some existing =>
        let min_tip := min_replacement_tip cfg (effective_tip existing) in
        if effective_tip entry <? min_tip then
          (i, Err ("replacement underpriced: need tip >= " +:+ pretty min_tip +:+ ", got " +:+ pretty (effective_tip entry)))
        else insert (Some (vtx_hash (verified existing)))
      | None =>
        if limit <=? Z.of_nat (size target) then (i, Err "sender queue full")
        else insert None
      end
  end.

Definition make_entry (cfg : EvmTxPoolConfig) (v : VerifiedTx) : PoolEntry :=
  {| verified := v; effective_tip := effective_gas_tip (envelope v) (base_fee cfg) |}.

Definition submit_tx (p : EvmTxPool Env) (env : Env) (raw : list byte)
    : EvmTxPool Env * result string B256 :=
  match decode_and_recover raw with
  | Err e => (p, Err (TxError_fmt e))
  | Ok v =>
    let '(i, r) := submit_locked (config p) (inner p) env (make_entry (config p) v) in
    (mkPool (config p) i, r)
  end.

(** *** collect_payload *)

(** (sender, nonce, tip, raw) *)
Record Candidate := mkCandidate {
  cand_sender : Address;
  cand_nonce : Z;
  cand_tip : Z;
  cand_raw : list byte;
}.

Definition candidate_of (sq : Address * SenderQueue) : option Candidate :=
  '(nonce, entry) ← btree_first (pending sq.2);
  Some {| cand_sender := sq.1; cand_nonce := nonce; cand_tip := effective_tip entry;
          cand_raw := raw (verified entry) |}.

Definition candidates (i : PoolInner Env) : list Candidate :=
  sort_desc cand_tip (omap candidate_of (hash_iter (senders i))).

Record Selection := mkSelection {
  payload : list byte;
  total_gas : Z;
  included : list (Address * Z);
}.

Definition candidate_gas (i : PoolInner Env) (c : Candidate) : Z :=
  default 0 (q ← senders i !! cand_sender c;
             e ← pending q !! cand_nonce c;
             Some (env_gas_limit (envelope (verified e)))).

(** [(raw.len() as u32).to_le_bytes()] followed by [raw] *)
Definition frame (raw : list byte) : list byte :=
  to_le_bytes 4 (wrap 32 (Z.of_nat (length raw))) ++ raw.

(** The loop over the candidates; the byte limit breaks out of it, the gas
    limit skips a candidate. *)
Fixpoint select (i : PoolInner Env) (max_bytes max_gas : Z) (cs : list Candidate) (acc : Selection) : Selection :=
  match cs with
  | [] => acc
  | c :: cs' =>
    let gas := candidate_gas i c in
    if max_bytes <? Z.of_nat (length (payload acc)) + 4 + Z.of_nat (length (cand_raw c)) then acc
    else if (0 <? max_gas) && (max_gas <? wrapping_add 64 (total_gas acc) gas) then
      select i max_bytes max_gas cs' acc
    else
      select i max_bytes max_gas cs'
        {| payload := payload acc ++ frame (cand_raw c);
           total_gas := wrapping_add 64 (total_gas acc) gas;
           included := included acc ++ [(cand_sender c, cand_nonce c)] |}
  end.

(** One round of the removal loop. *)
Definition remove_included (i : PoolInner Env) (sn : Address * Z) : PoolInner Env :=
  match senders i !! sn.1 with
  | Some q =>
    match pending q !! sn.2 with
    | Some e =>
      mkInner (<[sn.1 := {| pending := delete sn.2 (pending q); queued := queued q |}]> (senders i))
        (delete (vtx_hash (verified e)) (by_hash i)) (nonce_fn i)
    | None => i
    end
  | None => i
  end.

Definition select_all (i : PoolInner Env) (max_bytes max_gas : Z) : Selection :=
  select i max_bytes max_gas (candidates i) {| payload := []; total_gas := 0; included := [] |}.

Definition collect_payload (p : EvmTxPool Env) (max_bytes max_gas : Z) : EvmTxPool Env * list byte :=
  let sel := select_all (inner p) max_bytes max_gas in
  (mkPool (config p) (fold_left remove_included (included sel) (inner p)), payload sel).

(** *** on_commit *)

(** The two [stale] loops: removes the keys below [hi], collecting the hashes
    of the removed entries. *)
Definition stale_step (acc : gmap Z PoolEntry * list B256) (n : Z) : gmap Z PoolEntry * list B256 :=
  match acc.1 !! n with
  | Some e => (delete n acc.1, acc.2 ++ [vtx_hash (verified e)])
  | None => acc
  end.
Definition remove_stale (hi : Z) (m : gmap Z PoolEntry) : gmap Z PoolEntry * list B256 :=
  fold_left stale_step (btree_range_to hi m) (m, []).

(** What one round of the loop of [on_commit] does to a queue. *)
Definition commit_queue (q : SenderQueue) (current_nonce : Z) : SenderQueue * list B256 :=
  let '(pending', stale_p) := remove_stale current_nonce (pending q) in
  let '(queued', stale_q) := remove_stale current_nonce (queued q) in
  (promote_queued_static {| pending := pending'; queued := queued' |} current_nonce, stale_p ++ stale_q).

Definition queue_is_empty (q : SenderQueue) : bool :=
  bool_decide (pending q = ∅) && bool_decide (queued q = ∅).

Record CommitAcc := mkCommitAcc {
  acc_senders : gmap Z SenderQueue;
  hashes_to_remove : list B256;
  empty_senders : list Address;
}.

Definition commit_sender (nonce_of : Address → Z) (acc : CommitAcc) (s : Address) : CommitAcc :=
  match acc_senders acc !! s with
  | Some q =>
    let '(q', stale) := commit_queue q (nonce_of s) in
    {| acc_senders := <[s := q']> (acc_senders acc);
       hashes_to_remove := hashes_to_remove acc ++ stale;
       empty_senders := empty_senders acc ++ (if queue_is_empty q' then [s] else []) |}
  | None => acc
  end.

Definition on_commit (p : EvmTxPool Env) (nonce_of : Address → Z) : EvmTxPool Env :=
  let i := inner p in
  let acc := fold_left (commit_sender nonce_of) (hash_keys (senders i))
    {| acc_senders := senders i; hashes_to_remove := []; empty_senders := [] |} in
  mkPool (config p)
    (mkInner (fold_left (λ m s, delete s m) (empty_senders acc) (acc_senders acc))
       (fold_left (λ m h, delete h m) (hashes_to_remove acc) (by_hash i))
       (nonce_fn i)).

(** *** Queries *)

Definition pending_count (p : EvmTxPool Env) : Z :=
  sumZ ((λ sq, Z.of_nat (size (pending sq.2))) <$> hash_iter (senders (inner p))).
Definition queued_count (p : EvmTxPool Env) : Z :=
  sumZ ((λ sq, Z.of_nat (size (queued sq.2))) <$> hash_iter (senders (inner p))).
Definition contains (p : EvmTxPool Env) (h : B256) : bool :=
  bool_decide (is_Some (by_hash (inner p) !! h)).

(** Only logs the new fee. *)
Definition update_base_fee (p : EvmTxPool Env) (new_base_fee : Z) : EvmTxPool Env := p.
End Pool.
