(* ===== verification/TxPoolQueue.v ===== *)
(** One sender's queue: what promotion and the removal of stale entries do to
    its two maps, the capacity bounds that hold, and nonce contiguity. *)
From S2P Require Import Prelude Types Tx TxPool.

Implicit Types (q : SenderQueue) (m : gmap Z PoolEntry).

(** Nonces stay below [2^64 - 1] (the bound of EIP-2681). *)
Definition nonce_ok (n : Z) : Prop := 0 ≤ n < 2 ^ 64 - 1.
Definition keys_ok m : Prop := map_Forall (λ n _, nonce_ok n) m.

Lemma succ_nonce n : nonce_ok n → wrapping_add 64 n 1 = n + 1.
Proof. unfold nonce_ok. intros. apply wrapping_add_small. ulia. Qed.

(** ** Promotion *)

(** [k] consecutive entries from [next] on have moved from [queued] to
    [pending], and the one after them is not queued. *)
Definition promoted (next : Z) (k : nat) q q' : Prop :=
  (∀ n, pending q' !! n =
     if decide (next ≤ n < next + Z.of_nat k) then queued q !! n else pending q !! n) ∧
  (∀ n, queued q' !! n =
     if decide (next ≤ n < next + Z.of_nat k) then None else queued q !! n) ∧
  (∀ n, next ≤ n < next + Z.of_nat k → is_Some (queued q !! n)) ∧
  queued q !! (next + Z.of_nat k) = None.

Lemma promote_loop_step fuel next q e :
  queued q !! next = Some e →
  promote_loop (S fuel) next q = promote_loop fuel (wrapping_add 64 next 1)
    {| pending := <[next := e]> (pending q); queued := delete next (queued q) |}.
Proof. intros He. cbn [promote_loop]. by rewrite He. Qed.

Lemma promote_loop_stop fuel next q : queued q !! next = None → promote_loop fuel next q = q.
Proof. intros He. destruct fuel; [done|]. cbn [promote_loop]. by rewrite He. Qed.

Lemma size_delete_lt m n e : m !! n = Some e → size m = S (size (delete n m)).
Proof.
  intros Hn. rewrite <- (insert_delete_id m n e) at 1 by done.
  apply map_size_insert_None, lookup_delete_eq.
Qed.

Lemma promoted_cons next k q q' e :
  queued q !! next = Some e →
  promoted (next + 1) k {| pending := <[next := e]> (pending q); queued := delete next (queued q) |} q' →
  promoted next (S k) q q'.
Proof.
  intros He (Hp & Hq & Hs & Hend). cbn [pending queued] in *. repeat split.
  - intros n. rewrite Hp. destruct (decide (n = next)) as [->|].
    + rewrite decide_False, decide_True, lookup_insert_eq by lia. done.
    + rewrite lookup_insert_ne, lookup_delete_ne by done.
      repeat case_decide; try done; lia.
  - intros n. rewrite Hq. destruct (decide (n = next)) as [->|].
    + rewrite decide_False, decide_True, lookup_delete_eq by lia. done.
    + rewrite lookup_delete_ne by done. repeat case_decide; try done; lia.
  - intros n Hn. destruct (decide (n = next)) as [->|]; [eauto|].
    destruct (Hs n) as [e' He']; [lia|]. apply lookup_delete_Some in He' as [_ ?]. eauto.
  - rewrite lookup_delete_ne in Hend by lia. rewrite <- Hend. f_equal. lia.
Qed.

(** The loop reaches its exit within [size queued + 1] rounds. *)
Lemma promote_loop_spec fuel next q :
  keys_ok (queued q) → (size (queued q) < fuel)%nat → ∃ k, promoted next k q (promote_loop fuel next q).
Proof.
  revert next q. induction fuel as [|fuel IH]; intros next q Hk Hf; [lia|].
  destruct (queued q !! next) as [e|] eqn:He.
  - pose proof (Hk _ _ He) as Hnext. simpl in Hnext.
    rewrite (promote_loop_step _ _ _ e), succ_nonce by done.
    destruct (IH (next + 1) {| pending := <[next := e]> (pending q); queued := delete next (queued q) |})
      as [k Hprom]; cbn [queued].
    + by apply map_Forall_delete.
    + rewrite (size_delete_lt _ next e) in Hf by done. lia.
    + exists (S k). by eapply promoted_cons.
  - rewrite promote_loop_stop by done. exists 0%nat.
    repeat split; intros; try (rewrite decide_False by lia; done); [lia|].
    by rewrite Z.add_0_r.
Qed.

(** Running the loop longer changes nothing: the fuel is enough. *)
Lemma promote_loop_fuel fuel1 fuel2 next q :
  (size (queued q) < fuel1)%nat → (size (queued q) < fuel2)%nat →
  promote_loop fuel1 next q = promote_loop fuel2 next q.
Proof.
  revert fuel2 next q. induction fuel1 as [|fuel1 IH]; intros [|fuel2] next q H1 H2; try lia.
  destruct (queued q !! next) as [e|] eqn:He; [|by rewrite !promote_loop_stop].
  rewrite !(promote_loop_step _ _ _ e) by done.
  rewrite (size_delete_lt _ next e) in H1, H2 by done. apply IH; cbn [queued]; lia.
Qed.

(** Promotion moves entries; it neither drops nor duplicates any. *)
Lemma promote_loop_size fuel next q :
  keys_ok (queued q) → (∀ n, next ≤ n → pending q !! n = None) →
  let q' := promote_loop fuel next q in
  (size (pending q') + size (queued q') = size (pending q) + size (queued q) ∧
   size (queued q') ≤ size (queued q))%nat.
Proof.
  cbv zeta. revert next q. induction fuel as [|fuel IH]; intros next q Hk Hfree; [done|].
  destruct (queued q !! next) as [e|] eqn:He; [|by rewrite promote_loop_stop].
  pose proof (Hk _ _ He) as Hnext. simpl in Hnext.
  rewrite (promote_loop_step _ _ _ e), succ_nonce by done.
  specialize (IH (next + 1) {| pending := <[next := e]> (pending q); queued := delete next (queued q) |}).
  cbn [pending queued] in IH. rewrite (size_delete_lt (queued q) next e) by done.
  rewrite map_size_insert_None in IH by (by apply Hfree; lia).
  destruct IH; [by apply map_Forall_delete| |lia].
  intros n Hn. rewrite lookup_insert_ne by lia. apply Hfree. lia.
Qed.

Lemma promote_next_free q c :
  keys_ok (pending q) → ∀ n, promote_next q c ≤ n → pending q !! n = None.
Proof.
  unfold promote_next. intros Hk n. destruct (btree_last_key (pending q)) as [l|] eqn:Hl.
  - apply btree_last_key_Some in Hl as [[e He] Hmax]. pose proof (Hk _ _ He) as Hn. simpl in Hn.
    rewrite succ_nonce by done. intros Hle. apply eq_None_not_Some. intros Hs%Hmax. lia.
  - apply btree_last_key_None in Hl as ->. intros _. apply lookup_empty.
Qed.

(** The next nonce to promote is not queued. *)
Definition promotion_closed q : Prop :=
  ∀ l, btree_last_key (pending q) = Some l → queued q !! (l + 1) = None.

Lemma promoted_last next k q q' l :
  promoted next k q q' → (∀ n, next ≤ n → pending q !! n = None) →
  btree_last_key (pending q') = Some l →
  (k = 0%nat ∧ btree_last_key (pending q) = Some l) ∨ (0 < k)%nat ∧ l = next + Z.of_nat k - 1.
Proof.
  intros (Hp & _ & Hs & _) Hfree [[e He] Hmax]%btree_last_key_Some. destruct k as [|k].
  - left. split; [done|]. apply btree_last_key_Some.
    assert (∀ n, pending q' !! n = pending q !! n) as E.
    { intros n. rewrite Hp, decide_False by lia. done. }
    rewrite <- E. split; [eauto|]. intros n. rewrite <- E. apply Hmax.
  - right. split; [lia|]. rewrite Hp in He. case_decide as Hd.
    + enough (next + Z.of_nat k ≤ l) by lia. apply Hmax.
      rewrite Hp, decide_True by lia. apply Hs. lia.
    + assert (l < next) as Hlt.
      { destruct (Z.lt_ge_cases l next) as [|Hge]; [done|]. by rewrite Hfree in He. }
      enough (next ≤ l) by lia. apply Hmax. rewrite Hp, decide_True by lia. apply Hs. lia.
Qed.

Lemma promote_queued_static_spec q c :
  keys_ok (queued q) → ∃ k, promoted (promote_next q c) k q (promote_queued_static q c).
Proof. intros. apply promote_loop_spec; [done|lia]. Qed.

Lemma promote_queued_static_closed q c :
  keys_ok (pending q) → keys_ok (queued q) → promotion_closed (promote_queued_static q c).
Proof.
  intros Hp Hq l Hl. destruct (promote_queued_static_spec q c Hq) as [k Hprom].
  pose proof (promote_next_free q c Hp) as Hfree.
  destruct (promoted_last _ _ _ _ _ Hprom Hfree Hl) as [[-> Hl']|[Hk ->]].
  - destruct Hprom as (_ & Hqq & _ & Hend). rewrite Hqq, decide_False by lia.
    rewrite Z.add_0_r in Hend. unfold promote_next in Hend. rewrite Hl', succ_nonce in Hend; [done|].
    apply btree_last_key_Some in Hl' as [[e He] _]. apply (Hp _ _ He).
  - destruct Hprom as (_ & Hqq & _ & Hend). rewrite Hqq. case_decide; [done|].
    rewrite <- Hend. f_equal. lia.
Qed.

(** ** Stale entries *)

Lemma stale_fold_lookup ns acc k :
  (fold_left stale_step ns acc).1 !! k = if decide (k ∈ ns) then None else acc.1 !! k.
Proof.
  revert acc. induction ns as [|n ns IH]; intros acc; cbn [fold_left]; [by rewrite decide_False by set_solver|].
  rewrite IH. assert ((stale_step acc n).1 !! k = if decide (k = n) then None else acc.1 !! k) as ->.
  { unfold stale_step. destruct (decide (k = n)) as [->|], (acc.1 !! n) as [e|] eqn:He; cbn [fst]; try done;
      [apply lookup_delete_eq|by apply lookup_delete_ne]. }
  pose proof (elem_of_cons ns k n). repeat case_decide; tauto.
Qed.

Lemma remove_stale_lookup hi m k :
  (remove_stale hi m).1 !! k = if decide (k < hi) then None else m !! k.
Proof.
  unfold remove_stale. rewrite stale_fold_lookup. simpl.
  destruct (m !! k) as [e|] eqn:He; repeat case_decide; try done.
  - apply elem_of_btree_range_to in H as [? _]. lia.
  - contradict H. apply elem_of_btree_range_to. rewrite He. eauto.
Qed.

Lemma remove_stale_subseteq hi m : (remove_stale hi m).1 ⊆ m.
Proof.
  apply map_subseteq_spec. intros k e. rewrite remove_stale_lookup. by case_decide.
Qed.

Lemma remove_stale_empty hi : remove_stale hi ∅ = (∅, []).
Proof. unfold remove_stale, btree_range_to, btree_iter. by rewrite map_to_list_empty. Qed.

(** ** Capacity *)

Record queue_ok (cfg : EvmTxPoolConfig) q : Prop := {
  qk_pending : keys_ok (pending q);
  qk_queued : keys_ok (queued q);
  qk_queued_size : Z.of_nat (size (queued q)) ≤ max_queued_per_sender cfg;
  qk_pending_size : Z.of_nat (size (pending q)) ≤ max_pending_per_sender cfg + max_queued_per_sender cfg;
  qk_closed : promotion_closed q;
}.

Definition limits_ok (cfg : EvmTxPoolConfig) : Prop :=
  0 ≤ max_pending_per_sender cfg ∧ 0 ≤ max_queued_per_sender cfg.

Lemma queue_default_ok cfg : limits_ok cfg → queue_ok cfg queue_default.
Proof.
  intros [? ?]. split; unfold queue_default; cbn [pending queued]; rewrite ?map_size_empty; try lia.
  1,2: apply map_Forall_empty.
  intros l Hl. unfold queue_default in Hl. cbn [pending] in Hl.
  by rewrite (proj2 (btree_last_key_None ∅) eq_refl) in Hl.
Qed.

Lemma promote_queued_static_keys q c :
  keys_ok (pending q) → keys_ok (queued q) →
  keys_ok (pending (promote_queued_static q c)) ∧ keys_ok (queued (promote_queued_static q c)).
Proof.
  intros Hp Hq. destruct (promote_queued_static_spec q c Hq) as (k & Hpp & Hqq & _).
  split; intros n e.
  - rewrite Hpp. case_decide; [apply Hq|apply Hp].
  - rewrite Hqq. case_decide; [done|apply Hq].
Qed.

Lemma promote_queued_static_size q c :
  keys_ok (pending q) → keys_ok (queued q) →
  (size (pending (promote_queued_static q c)) + size (queued (promote_queued_static q c)) =
     size (pending q) + size (queued q) ∧
   size (queued (promote_queued_static q c)) ≤ size (queued q))%nat.
Proof. intros Hp Hq. apply promote_loop_size; [done|]. by apply promote_next_free. Qed.

(** A closed queue with pending transactions has nothing to promote. *)
Lemma promote_queued_static_closed_id q c :
  keys_ok (pending q) → promotion_closed q → pending q ≠ ∅ → promote_queued_static q c = q.
Proof.
  intros Hk Hc Hne. apply promote_loop_stop. unfold promote_next.
  destruct (btree_last_key (pending q)) as [l|] eqn:Hl.
  - rewrite succ_nonce; [by apply Hc|]. apply btree_last_key_Some in Hl as [[e He] _]. apply (Hk _ _ He).
  - by apply btree_last_key_None in Hl.
Qed.

Lemma promote_queued_static_ok cfg q c :
  limits_ok cfg → keys_ok (pending q) → keys_ok (queued q) →
  Z.of_nat (size (queued q)) ≤ max_queued_per_sender cfg →
  (promotion_closed q ∧ Z.of_nat (size (pending q)) ≤ max_pending_per_sender cfg + max_queued_per_sender cfg
   ∨ Z.of_nat (size (pending q)) ≤ max_pending_per_sender cfg) →
  queue_ok cfg (promote_queued_static q c).
Proof.
  intros [Hl1 Hl2] Hp Hq Hsq Hsp.
  destruct (promote_queued_static_keys q c Hp Hq), (promote_queued_static_size q c Hp Hq) as [Hsum Hle].
  pose proof (promote_queued_static_closed q c Hp Hq). split; try done; [lia|].
  destruct Hsp as [[Hc Hsp]|Hsp]; [|lia].
  destruct (decide (pending q = ∅)) as [E|Hne].
  - rewrite E, map_size_empty in Hsum. lia.
  - by rewrite promote_queued_static_closed_id.
Qed.

(** Dropping entries below some nonce keeps a queue closed. *)
Lemma promotion_closed_shrink q m1 m2 :
  promotion_closed q → m2 ⊆ queued q → m1 ⊆ pending q →
  (∀ a b, a ≤ b → is_Some (m1 !! a) → is_Some (pending q !! b) → is_Some (m1 !! b)) →
  promotion_closed {| pending := m1; queued := m2 |}.
Proof.
  intros Hc Hs2 Hs1 Hup l Hl. cbn [pending queued] in *.
  apply btree_last_key_Some in Hl as [[e He] Hmax].
  assert (btree_last_key (pending q) = Some l) as Hlast.
  { apply btree_last_key_Some. split; [exists e; by eapply lookup_weaken|].
    intros k Hk. destruct (Z.le_gt_cases k l) as [|Hgt]; [done|]. apply Hmax.
    apply (Hup l); [lia|eauto|done]. }
  apply eq_None_not_Some. intros [e' He']. eapply lookup_weaken in He'; [|done].
  by rewrite Hc in He'.
Qed.

Lemma size_weaken m m' : m ⊆ m' → Z.of_nat (size m) ≤ Z.of_nat (size m').
Proof. intros. apply Nat2Z.inj_le. by apply map_subseteq_size. Qed.

Lemma keys_ok_weaken m m' : keys_ok m' → m ⊆ m' → keys_ok m.
Proof. intros Hk Hs n e He. apply (Hk n e). by eapply lookup_weaken. Qed.

Lemma commit_queue_eq q c :
  (commit_queue q c).1 = promote_queued_static
    {| pending := (remove_stale c (pending q)).1; queued := (remove_stale c (queued q)).1 |} c.
Proof. unfold commit_queue. by destruct (remove_stale c (pending q)), (remove_stale c (queued q)). Qed.

Lemma commit_queue_ok cfg q c : limits_ok cfg → queue_ok cfg q → queue_ok cfg (commit_queue q c).1.
Proof.
  intros Hl [Hp Hq Hsq Hsp Hc]. rewrite commit_queue_eq.
  pose proof (remove_stale_subseteq c (pending q)) as H1.
  pose proof (remove_stale_subseteq c (queued q)) as H2.
  apply promote_queued_static_ok; cbn [pending queued]; try done.
  - apply (keys_ok_weaken _ _ Hp H1).
  - apply (keys_ok_weaken _ _ Hq H2).
  - pose proof (size_weaken _ _ H2). lia.
  - left. pose proof (size_weaken _ _ H1). split; [|lia].
    eapply promotion_closed_shrink; try done. intros a b Hab.
    rewrite !remove_stale_lookup. repeat case_decide; try (by intros []); lia || done.
Qed.

Lemma delete_first_ok cfg q n e :
  queue_ok cfg q → btree_first (pending q) = Some (n, e) →
  queue_ok cfg {| pending := delete n (pending q); queued := queued q |}.
Proof.
  intros [Hp Hq Hsq Hsp Hc] [Hn Hmin]%btree_first_Some.
  pose proof (delete_subseteq (pending q) n) as Hsub.
  split; cbn [pending queued]; try done.
  - apply (keys_ok_weaken _ _ Hp Hsub).
  - pose proof (size_weaken _ _ Hsub). lia.
  - eapply promotion_closed_shrink; try done. intros a b Hab [ea [Hne Ha]%lookup_delete_Some] Hb.
    rewrite lookup_delete_ne; [done|]. intros <-. pose proof (Hmin a ltac:(eauto)). lia.
Qed.

(** ** Contiguity *)

(** The nonces of a map form an interval. *)
Definition contiguous m : Prop :=
  ∀ a b c, a ≤ b ≤ c → is_Some (m !! a) → is_Some (m !! c) → is_Some (m !! b).

Lemma contiguous_empty : contiguous (∅ : gmap Z PoolEntry).
Proof. intros a b c _ Ha. rewrite lookup_empty in Ha. by destruct Ha. Qed.

Lemma promote_contiguous q c :
  keys_ok (pending q) → keys_ok (queued q) → contiguous (pending q) →
  contiguous (pending (promote_queued_static q c)).
Proof.
  intros Hp Hq Hcon. destruct (promote_queued_static_spec q c Hq) as (k & Hpp & _ & Hs & _).
  pose proof (promote_next_free q c Hp) as Hfree.
  intros x y z Hxyz. rewrite !Hpp.
  assert (∀ n, is_Some (pending q !! n) → n < promote_next q c) as Hlt.
  { intros n [e He]. destruct (Z.lt_ge_cases n (promote_next q c)) as [|Hge]; [done|]. by rewrite Hfree in He. }
  destruct (decide (promote_next q c ≤ y < promote_next q c + Z.of_nat k)) as [|Hny]; [intros; by apply Hs|].
  case_decide; case_decide; intros Hx Hz.
  { lia. }
  { apply Hlt in Hz. lia. }
  2: { by apply (Hcon x y z). }
  (* x is pending, z was promoted: y is at most the last pending nonce *)
  unfold promote_next in *. destruct (btree_last_key (pending q)) as [l|] eqn:Hl.
  - apply btree_last_key_Some in Hl as [[e He] _]. rewrite succ_nonce in * by apply (Hp _ _ He).
    apply (Hcon x y l); [lia|done|eauto].
  - apply btree_last_key_None in Hl. rewrite Hl, lookup_empty in Hx. by destruct Hx.
Qed.

Lemma remove_stale_contiguous hi m : contiguous m → contiguous (remove_stale hi m).1.
Proof.
  intros Hcon a b c Habc. rewrite !remove_stale_lookup. repeat case_decide; try lia; try (by intros []).
  by apply Hcon.
Qed.

Lemma commit_queue_contiguous cfg q c :
  queue_ok cfg q → contiguous (pending q) → contiguous (pending (commit_queue q c).1).
Proof.
  intros [Hp Hq _ _ _] Hcon. rewrite commit_queue_eq. apply promote_contiguous; cbn [pending queued].
  - apply (keys_ok_weaken _ _ Hp), remove_stale_subseteq.
  - apply (keys_ok_weaken _ _ Hq), remove_stale_subseteq.
  - by apply remove_stale_contiguous.
Qed.

Lemma delete_first_contiguous m n e :
  btree_first m = Some (n, e) → contiguous m → contiguous (delete n m).
Proof.
  intros [Hn Hmin]%btree_first_Some Hcon a b c Habc [ea [Ha1 Ha2]%lookup_delete_Some] [ec [_ Hc]%lookup_delete_Some].
  pose proof (Hmin a ltac:(eauto)). rewrite lookup_delete_ne by lia. apply (Hcon a b c); eauto.
Qed.

(** Inserting next to, or inside, an interval of nonces. *)
Lemma insert_contiguous m n e :
  contiguous m →
  (m = ∅ ∨ ∃ k, is_Some (m !! k) ∧ k - 1 ≤ n ≤ k + 1) →
  contiguous (<[n := e]> m).
Proof.
  intros Hcon Hadj a b c Habc.
  destruct (decide (b = n)) as [->|Hbn]; [intros; rewrite lookup_insert_eq; eauto|].
  rewrite (lookup_insert_ne m n b) by done.
  destruct (decide (a = n)) as [->|], (decide (c = n)) as [->|]; rewrite ?lookup_insert_eq, ?lookup_insert_ne by done; intros Ha Hc.
  - lia.
  - destruct Hadj as [->|(k & Hk & Hkn)]; [by rewrite lookup_empty in Hc; destruct Hc|].
    apply (Hcon k b c); [lia|done|done].
  - destruct Hadj as [->|(k & Hk & Hkn)]; [by rewrite lookup_empty in Ha; destruct Ha|].
    apply (Hcon a b k); [lia|done|done].
  - by apply (Hcon a b c).
Qed.
