(* ===== verification/TxPoolSubmit.v ===== *)
(** The outcomes of [submit_locked], one constructor per path through its body.
    This is the case analysis that the proofs about submissions share, not a
    specification: what a submission does to a pool is stated, without the
    functions of the code, in [TxPoolProps.submit_tx_transition]. *)
From S2P Require Import Prelude Types Tx TxPool.

Definition entry_hash (e : PoolEntry) : B256 := vtx_hash (verified e).
Definition entry_nonce (e : PoolEntry) : Z := env_nonce (envelope (verified e)).
Definition entry_sender (e : PoolEntry) : Address := sender (verified e).

Section Admission.
Context {Env : Type} (cfg : EvmTxPoolConfig) (i : PoolInner Env) (env : Env) (e : PoolEntry).

(** The sender's queue, its account nonce, and the side (pending or queued) the
    transaction belongs to. *)
Definition adm_queue : SenderQueue := default queue_default (senders i !! entry_sender e).
Definition adm_nonce : Z := current_nonce_of i env (entry_sender e).
Definition adm_side : bool := goes_pending adm_queue (entry_nonce e) adm_nonce.
Definition adm_target : gmap Z PoolEntry := get_target adm_side adm_queue.
Definition adm_limit : Z := if adm_side then max_pending_per_sender cfg else max_queued_per_sender cfg.

(** The pool after a rejection that came once the queue had been created. *)
Definition adm_touched : PoolInner Env :=
  mkInner (<[entry_sender e := adm_queue]> (senders i)) (by_hash i) (nonce_fn i).

(** The queue after insertion and promotion. *)
Definition adm_result : SenderQueue :=
  promote_queued_static (set_target adm_side adm_queue (<[entry_nonce e := e]> adm_target)) adm_nonce.

Definition adm_pool (bh : gmap Z Z) : PoolInner Env :=
  mkInner (<[entry_sender e := adm_result]> (<[entry_sender e := adm_queue]> (senders i)))
    (<[entry_hash e := entry_sender e]> bh) (nonce_fn i).

Inductive admission : PoolInner Env → result string B256 → Prop :=
| adm_known s :
  by_hash i !! entry_hash e = Some s →
  admission i (Err "transaction already known")
| adm_nonce_low :
  by_hash i !! entry_hash e = None → entry_nonce e < adm_nonce →
  admission i (Err ("nonce too low: tx nonce " +:+ pretty (entry_nonce e) +:+ " < current " +:+ pretty adm_nonce))
| adm_underpriced old :
  by_hash i !! entry_hash e = None → adm_nonce ≤ entry_nonce e →
  adm_target !! entry_nonce e = Some old →
  effective_tip e < min_replacement_tip cfg (effective_tip old) →
  admission adm_touched
    (Err ("replacement underpriced: need tip >= " +:+ pretty (min_replacement_tip cfg (effective_tip old))
          +:+ ", got " +:+ pretty (effective_tip e)))
| adm_full :
  by_hash i !! entry_hash e = None → adm_nonce ≤ entry_nonce e →
  adm_target !! entry_nonce e = None → adm_limit ≤ Z.of_nat (size adm_target) →
  admission adm_touched (Err "sender queue full")
| adm_replaced old :
  by_hash i !! entry_hash e = None → adm_nonce ≤ entry_nonce e →
  adm_target !! entry_nonce e = Some old →
  min_replacement_tip cfg (effective_tip old) ≤ effective_tip e →
  admission (adm_pool (delete (entry_hash old) (by_hash i))) (Ok (entry_hash e))
| adm_new :
  by_hash i !! entry_hash e = None → adm_nonce ≤ entry_nonce e →
  adm_target !! entry_nonce e = None → Z.of_nat (size adm_target) < adm_limit →
  admission (adm_pool (by_hash i)) (Ok (entry_hash e)).

Lemma submit_locked_admission : admission (submit_locked cfg i env e).1 (submit_locked cfg i env e).2.
Proof.
  unfold submit_locked. fold (entry_hash e) (entry_sender e) (entry_nonce e) adm_nonce adm_queue.
  destruct (by_hash i !! entry_hash e) as [s|] eqn:Hh; [by eapply adm_known|].
  destruct (Z.ltb_spec (entry_nonce e) adm_nonce); [by apply adm_nonce_low|].
  cbn [set_senders senders by_hash nonce_fn]. fold adm_side. fold adm_target.
  destruct (adm_target !! entry_nonce e) as [old|] eqn:Ht.
  - fold (entry_hash old). destruct (Z.ltb_spec (effective_tip e) (min_replacement_tip cfg (effective_tip old))).
    + by eapply adm_underpriced.
    + by eapply adm_replaced.
  - fold adm_limit. destruct (Z.leb_spec adm_limit (Z.of_nat (size adm_target))).
    + by apply adm_full.
    + by apply adm_new.
Qed.

End Admission.
