(* ===== verification/TxPoolIndex.v ===== *)
(** The hash index of the transaction pool: [by_hash] lists exactly the
    transactions held by the sender queues, every entry sits under its own
    sender and nonce, and no two slots hold the same hash.  Every operation of
    the pool preserves this. *)
From S2P Require Import Prelude Types Tx TxPool TxPoolQueue TxPoolSubmit.

(** The content of one slot of the pool: pending ([true]) or queued ([false]),
    sender, nonce. *)
Definition slots : Type := bool → Z → Z → option PoolEntry.
Definition slot (S : gmap Z SenderQueue) : slots := λ b s n, q ← S !! s; get_target b q !! n.

Record index_ok (sl : slots) (bh : gmap Z Z) : Prop := {
  ix_key b s n e : sl b s n = Some e → entry_sender e = s ∧ entry_nonce e = n ∧ nonce_ok n;
  ix_index h s : bh !! h = Some s ↔ ∃ b n e, sl b s n = Some e ∧ entry_hash e = h;
  ix_uniq b1 s1 n1 e1 b2 s2 n2 e2 :
    sl b1 s1 n1 = Some e1 → sl b2 s2 n2 = Some e2 → entry_hash e1 = entry_hash e2 →
    b1 = b2 ∧ s1 = s2 ∧ n1 = n2;
}.

(** ** Updating one slot *)

Definition slot_upd (sl : slots) (b : bool) (s n : Z) (o : option PoolEntry) : slots :=
  λ b' s' n', if decide (b' = b ∧ s' = s ∧ n' = n) then o else sl b' s' n'.

(** Slot functions that agree everywhere. *)
Definition slots_eq (sl1 sl2 : slots) : Prop := ∀ b s n, sl1 b s n = sl2 b s n.

#[global] Instance slots_eq_equiv : Equivalence slots_eq.
Proof.
  split; [by intros ????|by intros ??????|].
  intros ??? H1 H2 b s n. by rewrite H1, H2.
Qed.

#[global] Instance index_ok_proper : Proper (slots_eq ==> (=) ==> iff) index_ok.
Proof.
  assert (∀ sl1 sl2 bh, slots_eq sl1 sl2 → index_ok sl1 bh → index_ok sl2 bh) as Himp.
  { unfold slots_eq. intros sl1 sl2 bh E [Hk Hi Hu]. split.
    - intros b s n e. rewrite <- E. apply Hk.
    - intros h s. rewrite Hi. split; intros (b & n & e & ? & ?); exists b, n, e; [by rewrite <- E|by rewrite E].
    - intros *. rewrite <- !E. apply Hu. }
  intros sl1 sl2 E bh ? <-. split; apply Himp; [done|by symmetry].
Qed.

Lemma index_ok_remove sl bh b s n e :
  index_ok sl bh → sl b s n = Some e → index_ok (slot_upd sl b s n None) (delete (entry_hash e) bh).
Proof.
  intros [Hk Hi Hu] Hs. unfold slot_upd. split.
  - intros b' s' n' e'. case_decide; [done|]. apply Hk.
  - intros h s'. rewrite lookup_delete_Some, Hi. split.
    + intros (Hne & b' & n' & e' & He' & <-). exists b', n', e'. split; [|done].
      case_decide as Hd; [|done]. destruct Hd as (-> & -> & ->). congruence.
    + intros (b' & n' & e' & He' & <-). case_decide as Hd; [done|]. split; [|eauto].
      intros Heq. apply Hd. by apply (Hu _ _ _ _ _ _ _ _ He' Hs).
  - intros *. do 2 (case_decide; [done|]). apply Hu.
Qed.

Lemma index_ok_insert sl bh b s n e :
  index_ok sl bh → sl b s n = None → bh !! entry_hash e = None →
  entry_sender e = s → entry_nonce e = n → nonce_ok n →
  index_ok (slot_upd sl b s n (Some e)) (<[entry_hash e := s]> bh).
Proof.
  intros [Hk Hi Hu] Hs Hh Hes Hen Hno. unfold slot_upd.
  assert (∀ b' s' n' e', sl b' s' n' = Some e' → entry_hash e' ≠ entry_hash e) as Hfresh.
  { intros b' s' n' e' He' Heq. assert (bh !! entry_hash e = Some s') as ?; [|congruence].
    apply Hi. eauto. }
  split.
  - intros b' s' n' e'. case_decide as Hd; [|apply Hk].
    destruct Hd as (-> & -> & ->). by intros [= <-].
  - intros h s'. rewrite lookup_insert_Some, Hi. split.
    + intros [[<- <-]|(Hne & b' & n' & e' & He' & <-)].
      * exists b, n, e. by rewrite decide_True.
      * exists b', n', e'. split; [|done]. rewrite decide_False; [done|].
        intros (-> & -> & ->). congruence.
    + intros (b' & n' & e' & He' & <-). case_decide as Hd.
      * destruct Hd as (-> & -> & ->). simplify_eq. by left.
      * right. split; [|eauto]. intros Heq. by eapply Hfresh.
  - intros b1 s1 n1 e1 b2 s2 n2 e2. case_decide as H1; case_decide as H2; intros ?? E; simplify_eq.
    + by destruct H1 as (-> & -> & ->), H2 as (-> & -> & ->).
    + exfalso. by eapply Hfresh.
    + exfalso. by eapply Hfresh.
    + by eapply Hu.
Qed.

(** Moving an entry from [queued] to [pending] under the same nonce leaves the
    index as it is. *)
Lemma index_ok_move sl bh s n e :
  index_ok sl bh → sl false s n = Some e → sl true s n = None →
  index_ok (slot_upd (slot_upd sl false s n None) true s n (Some e)) bh.
Proof.
  intros Hok Hq Hp. destruct (ix_key _ _ Hok _ _ _ _ Hq) as (? & ? & ?).
  assert (bh !! entry_hash e = Some s) as Hh by (apply Hok; eauto).
  rewrite <- (insert_id bh (entry_hash e) s Hh), <- insert_delete_eq.
  apply index_ok_insert; try done.
  - by apply index_ok_remove.
  - apply lookup_delete_eq.
Qed.

Lemma index_ok_replace sl bh b s n e e0 :
  index_ok sl bh → sl b s n = Some e0 → bh !! entry_hash e = None →
  entry_sender e = s → entry_nonce e = n → nonce_ok n →
  index_ok (slot_upd sl b s n (Some e)) (<[entry_hash e := s]> (delete (entry_hash e0) bh)).
Proof.
  intros Hok Hs Hh ???.
  assert (slots_eq (slot_upd sl b s n (Some e)) (slot_upd (slot_upd sl b s n None) b s n (Some e))) as ->.
  { intros b' s' n'. unfold slot_upd. by repeat case_decide. }
  apply index_ok_insert; try done.
  - by apply index_ok_remove.
  - unfold slot_upd. by rewrite decide_True.
  - apply lookup_delete_None. by right.
Qed.

(** ** Slots of a pool after updating one queue *)

Lemma get_set_target b b' q m :
  get_target b' (set_target b q m) = if decide (b' = b) then m else get_target b' q.
Proof. by destruct b, b'. Qed.

Lemma set_get_target b q : set_target b q (get_target b q) = q.
Proof. by destruct b, q. Qed.

Lemma slot_upd_target S s q b n o :
  slots_eq (slot (<[s := set_target b q (partial_alter (λ _, o) n (get_target b q))]> S))
           (slot_upd (slot (<[s := q]> S)) b s n o).
Proof.
  intros b' s' n'. unfold slot, slot_upd. destruct (decide (s' = s)) as [->|Hs].
  - rewrite !lookup_insert_eq. simpl. rewrite get_set_target. destruct (decide (b' = b)) as [->|Hb].
    + destruct (decide (n' = n)) as [->|Hn].
      * by rewrite decide_True, lookup_partial_alter_eq.
      * rewrite decide_False by tauto. by rewrite lookup_partial_alter_ne.
    + by rewrite decide_False by tauto.
  - rewrite !lookup_insert_ne by done. by rewrite decide_False by tauto.
Qed.

Lemma slot_insert S s q b n e :
  slots_eq (slot (<[s := set_target b q (<[n := e]> (get_target b q))]> S))
           (slot_upd (slot (<[s := q]> S)) b s n (Some e)).
Proof. apply slot_upd_target. Qed.

Lemma slot_delete S s q b n :
  slots_eq (slot (<[s := set_target b q (delete n (get_target b q))]> S))
           (slot_upd (slot (<[s := q]> S)) b s n None).
Proof. apply slot_upd_target. Qed.

(** Storing the default queue of an absent sender changes no slot. *)
Lemma slot_default S s : slots_eq (slot (<[s := default queue_default (S !! s)]> S)) (slot S).
Proof.
  intros b s' n. unfold slot. destruct (decide (s' = s)) as [->|].
  - rewrite lookup_insert_eq. destruct (S !! s); [done|]. by destruct b.
  - by rewrite lookup_insert_ne.
Qed.

Lemma slot_at S s q b n : slot (<[s := q]> S) b s n = get_target b q !! n.
Proof. unfold slot. by rewrite lookup_insert_eq. Qed.

(** ** Operations preserve the index *)

(** A pool whose index is exact. *)
Definition pool_index {Env} (i : PoolInner Env) : Prop := index_ok (slot (senders i)) (by_hash i).

Lemma index_keys_ok S bh s q b : index_ok (slot (<[s := q]> S)) bh → keys_ok (get_target b q).
Proof. intros Hok n e He. apply (ix_key _ _ Hok b s n e). by rewrite slot_at. Qed.

Lemma promote_loop_index fuel next q S s bh :
  (∀ n, next ≤ n → pending q !! n = None) →
  index_ok (slot (<[s := q]> S)) bh → index_ok (slot (<[s := promote_loop fuel next q]> S)) bh.
Proof.
  revert next q. induction fuel as [|fuel IH]; intros next q Hfree Hok; [done|].
  destruct (queued q !! next) as [e|] eqn:He; [|by rewrite promote_loop_stop].
  pose proof (index_keys_ok _ _ _ _ false Hok _ _ He) as Hnext. simpl in Hnext.
  rewrite (promote_loop_step _ _ _ e), succ_nonce by done. apply IH; cbn [pending].
  { intros n Hn. rewrite lookup_insert_ne by lia. apply Hfree. lia. }
  set (q1 := set_target false q (delete next (get_target false q))).
  change {| pending := _; queued := _ |} with (set_target true q1 (<[next := e]> (get_target true q1))).
  rewrite slot_insert.
  assert (slots_eq (slot_upd (slot (<[s := q1]> S)) true s next (Some e))
    (slot_upd (slot_upd (slot (<[s := q]> S)) false s next None) true s next (Some e))) as ->.
  { intros b' s' n'. unfold slot_upd at 1 2. case_decide; [done|]. apply slot_delete. }
  apply index_ok_move; [done|by rewrite slot_at|rewrite slot_at; apply Hfree; lia].
Qed.

Lemma promote_index q c S s bh :
  index_ok (slot (<[s := q]> S)) bh → index_ok (slot (<[s := promote_queued_static q c]> S)) bh.
Proof.
  intros Hok. apply promote_loop_index; [|done].
  apply promote_next_free, (index_keys_ok _ _ _ _ true Hok).
Qed.

(** *** Commit *)

Definition dels (hs : list B256) (bh : gmap Z Z) : gmap Z Z := fold_left (λ m h, delete h m) hs bh.

Lemma dels_app hs1 hs2 bh : dels (hs1 ++ hs2) bh = dels hs2 (dels hs1 bh).
Proof. apply fold_left_app. Qed.

Lemma stale_fold_index S s b q ns m hs bh :
  index_ok (slot (<[s := set_target b q m]> S)) (dels hs bh) →
  let r := fold_left stale_step ns (m, hs) in
  index_ok (slot (<[s := set_target b q r.1]> S)) (dels r.2 bh).
Proof.
  cbv zeta. revert m hs. induction ns as [|n ns IH]; intros m hs Hok; [done|]. cbn [fold_left].
  unfold stale_step at 2 4. cbn [fst snd]. destruct (m !! n) as [e|] eqn:He; [|by apply IH].
  apply IH. rewrite dels_app. cbn [dels fold_left]. set (q1 := set_target b q m).
  assert (get_target b q1 = m) as Hget by (unfold q1; by rewrite get_set_target, decide_True).
  replace (set_target b q (delete n m)) with (set_target b q1 (delete n (get_target b q1)))
    by (rewrite Hget; unfold q1; by destruct b).
  rewrite slot_delete. apply index_ok_remove; [done|]. by rewrite slot_at, Hget.
Qed.

Lemma remove_stale_index S s b q c bh :
  index_ok (slot (<[s := q]> S)) bh →
  index_ok (slot (<[s := set_target b q (remove_stale c (get_target b q)).1]> S))
    (dels (remove_stale c (get_target b q)).2 bh).
Proof. intros Hok. apply (stale_fold_index _ _ _ _ _ _ []). by rewrite set_get_target. Qed.

Lemma commit_queue_index S s q c bh :
  index_ok (slot (<[s := q]> S)) bh →
  index_ok (slot (<[s := (commit_queue q c).1]> S)) (dels (commit_queue q c).2 bh).
Proof.
  intros Hok. unfold commit_queue.
  apply (remove_stale_index _ _ true _ c) in Hok. apply (remove_stale_index _ _ false _ c) in Hok.
  cbn [get_target set_target pending queued] in Hok.
  destruct (remove_stale c (pending q)) as [m1 hs1], (remove_stale c (queued q)) as [m2 hs2].
  cbn [fst snd] in *. rewrite dels_app. by apply promote_index.
Qed.

(** The fold over the senders treats every queue on its own. *)
Lemma commit_fold_lookup f ks acc s :
  NoDup ks →
  acc_senders (fold_left (commit_sender f) ks acc) !! s =
    if decide (s ∈ ks) then (λ q, (commit_queue q (f s)).1) <$> acc_senders acc !! s
    else acc_senders acc !! s.
Proof.
  revert acc. induction ks as [|k ks IH]; intros acc Hnd; cbn [fold_left]; [by rewrite decide_False by set_solver|].
  apply NoDup_cons in Hnd as [Hk Hnd]. rewrite IH by done.
  assert (acc_senders (commit_sender f acc k) !! s =
    if decide (s = k) then (λ q, (commit_queue q (f s)).1) <$> acc_senders acc !! s else acc_senders acc !! s) as ->.
  { unfold commit_sender. destruct (decide (s = k)) as [->|Hne].
    - destruct (acc_senders acc !! k) as [q|] eqn:Hq; [|by rewrite Hq].
      destruct (commit_queue q (f k)) as [q' hs] eqn:E. simpl. by rewrite lookup_insert_eq, E.
    - destruct (acc_senders acc !! k) as [q|]; [|done].
      destruct (commit_queue q (f k)) as [q' hs]. simpl. by rewrite lookup_insert_ne. }
  pose proof (elem_of_cons ks s k). repeat case_decide; subst; tauto.
Qed.

Lemma commit_fold_empty f ks acc s :
  NoDup ks →
  s ∈ empty_senders (fold_left (commit_sender f) ks acc) ↔
    s ∈ empty_senders acc ∨
    s ∈ ks ∧ ∃ q, acc_senders acc !! s = Some q ∧ queue_is_empty (commit_queue q (f s)).1 = true.
Proof.
  revert acc. induction ks as [|k ks IH]; intros acc Hnd; cbn [fold_left]; [set_solver|].
  apply NoDup_cons in Hnd as [Hk Hnd]. rewrite IH by done. rewrite elem_of_cons.
  assert (s ≠ k → acc_senders (commit_sender f acc k) !! s = acc_senders acc !! s) as Hother.
  { intros Hne. unfold commit_sender. destruct (acc_senders acc !! k) as [q|]; [|done].
    destruct (commit_queue q (f k)). simpl. by rewrite lookup_insert_ne. }
  assert (s ∈ empty_senders (commit_sender f acc k) ↔ s ∈ empty_senders acc ∨
    s = k ∧ ∃ q, acc_senders acc !! s = Some q ∧ queue_is_empty (commit_queue q (f s)).1 = true) as ->.
  { unfold commit_sender. destruct (acc_senders acc !! k) as [q|] eqn:Hq; [|naive_solver].
    destruct (commit_queue q (f k)) as [q' hs] eqn:Hcq. cbn [empty_senders]. rewrite elem_of_app.
    destruct (queue_is_empty q') eqn:He; rewrite ?list_elem_of_singleton, ?elem_of_nil; split.
    - intros [?| ->]; [by left|]. right. split; [done|]. exists q. by rewrite Hcq.
    - intros [?|[-> _]]; auto.
    - intros [?|[]]; by left.
    - intros [?|(-> & q0 & ? & He0)]; [by left|]. simplify_eq. rewrite Hcq in He0. simpl in He0. congruence. }
  destruct (decide (s = k)) as [->|Hne]; [tauto|]. rewrite Hother by done. tauto.
Qed.

Lemma commit_fold_index f ks acc bh :
  index_ok (slot (acc_senders acc)) (dels (hashes_to_remove acc) bh) →
  index_ok (slot (acc_senders (fold_left (commit_sender f) ks acc)))
    (dels (hashes_to_remove (fold_left (commit_sender f) ks acc)) bh).
Proof.
  revert acc. induction ks as [|k ks IH]; intros acc Hok; [done|]. cbn [fold_left]. apply IH.
  unfold commit_sender. destruct (acc_senders acc !! k) as [q|] eqn:Hq; [|done].
  pose proof (commit_queue_index (acc_senders acc) k q (f k) (dels (hashes_to_remove acc) bh)) as Hc.
  destruct (commit_queue q (f k)) as [q' hs]. cbn [acc_senders hashes_to_remove fst snd] in *.
  rewrite dels_app. apply Hc. by rewrite insert_id.
Qed.

Lemma fold_delete_lookup (ks : list Z) (S : gmap Z SenderQueue) s :
  fold_left (λ m k, delete k m) ks S !! s = if decide (s ∈ ks) then None else S !! s.
Proof.
  revert S. induction ks as [|k ks IH]; intros S; cbn [fold_left]; [by rewrite decide_False by set_solver|].
  rewrite IH. pose proof (elem_of_cons ks s k).
  destruct (decide (s = k)) as [->|]; [rewrite lookup_delete_eq|rewrite lookup_delete_ne by done];
    repeat case_decide; tauto.
Qed.

Section Ops.
Context {Env : Type} `{!TxCodec} `{!HashIter Z SenderQueue}.
Implicit Types (i : PoolInner Env) (p : EvmTxPool Env) (env : Env).

Lemma new_index cfg : pool_index (inner (new (Env := Env) cfg)).
Proof.
  split; unfold slot; cbn [senders by_hash inner new]; intros *; rewrite ?lookup_empty; simpl; try done.
  split; [done|]. by intros (b & n & e & He & _).
Qed.

Lemma admission_index cfg i env e i' r :
  pool_index i → nonce_ok (entry_nonce e) → admission cfg i env e i' r → pool_index i'.
Proof.
  intros Hok Hn Hadm. unfold pool_index in *.
  assert (index_ok (slot (<[entry_sender e := adm_queue i e]> (senders i))) (by_hash i)) as Hok1
    by (by setoid_rewrite slot_default).
  destruct Hadm as [| |old|Hh|old Hh _ Ht _|Hh _ Ht _]; try done;
    unfold adm_pool, adm_result; cbn [senders by_hash]; apply promote_index;
    rewrite slot_insert, insert_insert_eq; [eapply index_ok_replace|apply index_ok_insert];
    rewrite ?slot_at; done.
Qed.

Lemma submit_index p env bytes :
  pool_index (inner p) →
  (∀ v, decode_and_recover bytes = Ok v → nonce_ok (env_nonce (envelope v))) →
  pool_index (inner (submit_tx p env bytes).1).
Proof.
  intros Hok Hn. unfold submit_tx. destruct (decode_and_recover bytes) as [v|] eqn:Hd; [|done].
  pose proof (submit_locked_admission (config p) (inner p) env (make_entry (config p) v)) as Hadm.
  destruct (submit_locked _ _ _ _) as [i' r]. cbn [fst snd inner] in *.
  eapply admission_index; [done| |done]. by apply Hn.
Qed.

Lemma remove_included_index i sn : pool_index i → pool_index (remove_included i sn).
Proof.
  intros Hok. unfold remove_included. destruct (senders i !! sn.1) as [q|] eqn:Hq; [|done].
  destruct (pending q !! sn.2) as [e|] eqn:He; [|done]. unfold pool_index. cbn [senders by_hash].
  change {| pending := _; queued := _ |} with (set_target true q (delete sn.2 (get_target true q))).
  rewrite slot_delete. rewrite insert_id by done. apply index_ok_remove; [done|].
  unfold slot. by rewrite Hq.
Qed.

Lemma collect_index p max_bytes max_gas :
  pool_index (inner p) → pool_index (inner (collect_payload p max_bytes max_gas).1).
Proof.
  unfold collect_payload. cbn [fst inner]. generalize (included (select_all (inner p) max_bytes max_gas)).
  generalize (inner p). intros i l. revert i. induction l as [|sn l IH]; intros i Hok; [done|].
  cbn [fold_left]. by apply IH, remove_included_index.
Qed.

(** [on_commit] in one equation: every queue is committed at its sender's nonce
    and dropped when nothing is left of it. *)
Lemma on_commit_lookup p f s :
  senders (inner (on_commit p f)) !! s =
    (q ← senders (inner p) !! s;
     let q' := (commit_queue q (f s)).1 in if queue_is_empty q' then None else Some q').
Proof.
  unfold on_commit. cbn [inner senders]. rewrite fold_delete_lookup.
  pose proof (hash_keys_NoDup (senders (inner p))) as Hnd.
  pose proof (elem_of_hash_keys (senders (inner p)) s) as Hin.
  rewrite commit_fold_lookup by done. pose proof (commit_fold_empty f _
    {| acc_senders := senders (inner p); hashes_to_remove := []; empty_senders := [] |} s Hnd) as Hemp.
  cbn [acc_senders empty_senders] in *. rewrite elem_of_nil in Hemp.
  destruct (senders (inner p) !! s) as [q|] eqn:Hq; simpl.
  - rewrite (decide_True (P := s ∈ hash_keys _)) by (apply Hin; eauto).
    destruct (queue_is_empty _) eqn:He.
    + rewrite decide_True; [done|]. apply Hemp. right. split; [apply Hin; eauto|eauto].
    + rewrite decide_False; [done|]. intros [[]|(_ & q0 & ? & He0)]%Hemp. simplify_eq. congruence.
  - rewrite (decide_False (P := s ∈ hash_keys _)); [by case_decide|]. intros [? ?]%Hin. done.
Qed.

Lemma on_commit_index p f : pool_index (inner p) → pool_index (inner (on_commit p f)).
Proof.
  intros Hok. unfold pool_index.
  pose proof (commit_fold_index f (hash_keys (senders (inner p)))
    {| acc_senders := senders (inner p); hashes_to_remove := []; empty_senders := [] |} _ Hok) as Hc.
  revert Hc. apply index_ok_proper; [|done]. intros b s n. unfold slot. rewrite on_commit_lookup.
  pose proof (elem_of_hash_keys (senders (inner p)) s) as Hin.
  rewrite commit_fold_lookup by apply hash_keys_NoDup. cbn [acc_senders].
  destruct (senders (inner p) !! s) as [q|] eqn:Hq; simpl; [|by case_decide].
  rewrite decide_True by (apply Hin; eauto). simpl. destruct (queue_is_empty _) eqn:He; [|done].
  apply andb_true_iff in He as [Hp%bool_decide_eq_true Hqq%bool_decide_eq_true].
  simpl. destruct b; simpl; by rewrite ?Hp, ?Hqq, lookup_empty.
Qed.
End Ops.
