(* ===== verification/TxPoolPayload.v ===== *)
(** Block payloads: what [collect_payload] puts into a payload and what it
    takes out of the pool. *)
From S2P Require Import Prelude Types Tx TxPool TxPoolQueue TxPoolSubmit TxPoolIndex.

(** ** The wire format

    Reference decoder of the length-prefixed format: a little-endian [u32]
    length, then that many bytes, repeated to the end of the payload.  Each
    frame takes at least four bytes, so the payload's length is enough fuel. *)
Fixpoint decode_frames (fuel : nat) (bs : list byte) : option (list (list byte)) :=
  match bs with
  | [] => Some []
  | _ =>
    match fuel with
    | O => None
    | S fuel' =>
      if (length bs <? 4)%nat then None
      else
        let len := Z.to_nat (from_le_bytes (take 4 bs)) in
        let rest := drop 4 bs in
        if (length rest <? len)%nat then None
        else raws ← decode_frames fuel' (drop len rest); Some (take len rest :: raws)
    end
  end.
Definition parse_payload (bs : list byte) : option (list (list byte)) := decode_frames (length bs) bs.

Lemma length_frame (bs : list byte) : length (frame bs) = (4 + length bs)%nat.
Proof. unfold frame. by rewrite length_app, length_to_le_bytes. Qed.

Lemma frame_len (bs : list byte) :
  Z.of_nat (length bs) < 2 ^ 32 →
  from_le_bytes (to_le_bytes 4 (wrap 32 (Z.of_nat (length bs)))) = Z.of_nat (length bs).
Proof.
  intros. rewrite from_to_le_bytes. unfold wrap.
  change (8 * Z.of_nat 4) with 32. rewrite Z.mod_mod by lia. apply Z.mod_small. lia.
Qed.

Lemma take_frame (r rest : list byte) :
  take 4 (frame r ++ rest) = to_le_bytes 4 (wrap 32 (Z.of_nat (length r))).
Proof. unfold frame. rewrite <- app_assoc. apply take_app_length'. by rewrite length_to_le_bytes. Qed.

Lemma drop_frame (r rest : list byte) : drop 4 (frame r ++ rest) = r ++ rest.
Proof. unfold frame. rewrite <- app_assoc. apply drop_app_length'. by rewrite length_to_le_bytes. Qed.

Lemma decode_frames_concat fuel (raws : list (list byte)) :
  (length (concat (frame <$> raws)) ≤ fuel)%nat →
  Forall (λ r, Z.of_nat (length r) < 2 ^ 32) raws →
  decode_frames fuel (concat (frame <$> raws)) = Some raws.
Proof.
  revert fuel. induction raws as [|r raws IH]; intros fuel Hf Hall; [by destruct fuel|].
  inversion Hall as [|?? Hr Hall']; subst. cbn [fmap list_fmap concat] in *.
  rewrite length_app, length_frame in Hf. destruct fuel as [|fuel]; [lia|].
  assert (∃ b bs, frame r ++ concat (frame <$> raws) = b :: bs) as (b & bs & E).
  { unfold frame. cbn [to_le_bytes]. eauto. }
  assert (decode_frames (S fuel) (frame r ++ concat (frame <$> raws)) =
    let bs := frame r ++ concat (frame <$> raws) in
    if (length bs <? 4)%nat then None
    else let len := Z.to_nat (from_le_bytes (take 4 bs)) in
         let rest := drop 4 bs in
         if (length rest <? len)%nat then None
         else raws ← decode_frames fuel (drop len rest); Some (take len rest :: raws)) as ->.
  { by rewrite E. }
  cbv zeta. rewrite take_frame, drop_frame, frame_len, Nat2Z.id, take_app_length, drop_app_length by done.
  rewrite !length_app, length_frame.
  rewrite (proj2 (Nat.ltb_ge _ _)) by lia. rewrite (proj2 (Nat.ltb_ge _ _)) by lia.
  rewrite IH; [done|lia|done].
Qed.

Lemma parse_concat (raws : list (list byte)) :
  Z.of_nat (length (concat (frame <$> raws))) < 2 ^ 32 → parse_payload (concat (frame <$> raws)) = Some raws.
Proof.
  intros Hlen. apply decode_frames_concat; [done|]. apply Forall_forall. intros r Hr.
  eapply (list_elem_of_fmap_2 frame) in Hr. apply list_elem_of_split in Hr as (l1 & l2 & E).
  rewrite E, concat_app in Hlen. cbn [concat] in Hlen. rewrite !length_app, length_frame in Hlen. lia.
Qed.

(** ** Selection *)

Section Select.
Context {Env : Type} (i : PoolInner Env) (max_bytes max_gas : Z).

Definition cand_slot (c : Candidate) : Address * Z := (cand_sender c, cand_nonce c).

(** The candidates the loop picked, read back from the accumulator. *)
Definition picked (acc acc' : Selection) (chosen : list Candidate) : Prop :=
  payload acc' = payload acc ++ concat (frame <$> (cand_raw <$> chosen)) ∧
  included acc' = included acc ++ (cand_slot <$> chosen).

Lemma picked_nil acc : picked acc acc [].
Proof. split; by rewrite app_nil_r. Qed.

Lemma picked_cons acc acc' c g chosen :
  picked {| payload := payload acc ++ frame (cand_raw c); total_gas := g;
            included := included acc ++ [cand_slot c] |} acc' chosen →
  picked acc acc' (c :: chosen).
Proof. intros [Hp Hi]. split; [rewrite Hp|rewrite Hi]; simpl; by rewrite <- !app_assoc. Qed.

Lemma select_picked cs acc :
  Z.of_nat (length (payload acc)) ≤ max_bytes →
  ∃ chosen, chosen `sublist_of` cs ∧ picked acc (select i max_bytes max_gas cs acc) chosen ∧
    Z.of_nat (length (payload (select i max_bytes max_gas cs acc))) ≤ max_bytes.
Proof.
  revert acc. induction cs as [|c cs IH]; intros acc Hlen; cbn [select].
  { exists []. repeat split; [constructor|by rewrite app_nil_r..|done]. }
  destruct (Z.ltb_spec max_bytes (Z.of_nat (length (payload acc)) + 4 + Z.of_nat (length (cand_raw c)))).
  { exists []. repeat split; [apply sublist_nil_l|by rewrite app_nil_r..|done]. }
  destruct (_ && _).
  - destruct (IH acc Hlen) as (chosen & ? & ? & ?). exists chosen. split; [by apply sublist_cons|done].
  - match goal with |- context [select _ _ _ cs ?a] => destruct (IH a) as (chosen & ? & ? & ?) end.
    { cbn [payload]. rewrite length_app, length_frame. lia. }
    exists (c :: chosen). split; [by apply sublist_skip|]. split; [by eapply picked_cons|done].
Qed.

(** The total gas of the picked candidates, when no addition wraps. *)
Lemma select_gas cs acc :
  0 < max_gas < 2 ^ 63 → Forall (λ c, 0 ≤ candidate_gas i c < 2 ^ 63) cs → 0 ≤ total_gas acc ≤ max_gas →
  ∃ chosen, chosen `sublist_of` cs ∧ picked acc (select i max_bytes max_gas cs acc) chosen ∧
    total_gas (select i max_bytes max_gas cs acc) = total_gas acc + sumZ (candidate_gas i <$> chosen) ∧
    total_gas (select i max_bytes max_gas cs acc) ≤ max_gas.
Proof.
  intros Hmax. revert acc. induction cs as [|c cs IH]; intros acc Hall Hacc; cbn [select].
  { exists []. repeat split; [constructor|by rewrite app_nil_r..|simpl; lia|lia]. }
  inversion Hall as [|?? Hc Hall']; subst. destruct (_ <? _).
  { exists []. repeat split; [apply sublist_nil_l|by rewrite app_nil_r..|simpl; lia|lia]. }
  rewrite wrapping_add_small by ulia. zb; try lia; simpl.
  - destruct (IH acc Hall' Hacc) as (chosen & ? & ? & ? & ?). exists chosen.
    split; [by apply sublist_cons|done].
  - match goal with |- context [select _ _ _ cs ?a] =>
      destruct (IH a Hall') as (chosen & Hsub & Hp & Hg & Hle); [cbn [total_gas]; lia|] end.
    exists (c :: chosen). split; [by apply sublist_skip|]. split; [by eapply picked_cons|].
    split; [|exact Hle]. rewrite Hg.
    change (sumZ (candidate_gas i <$> c :: chosen)) with (candidate_gas i c + sumZ (candidate_gas i <$> chosen)).
    cbn [total_gas]. lia.
Qed.
End Select.

Section Payload.
Context {Env : Type} `{!HashIter Z SenderQueue}.
Implicit Types (i : PoolInner Env) (p : EvmTxPool Env).

(** [c] is the lowest-nonce pending transaction of its sender. *)
Definition is_head i (c : Candidate) : Prop :=
  ∃ q e, senders i !! cand_sender c = Some q ∧ btree_first (pending q) = Some (cand_nonce c, e) ∧
         cand_tip c = effective_tip e ∧ cand_raw c = raw (verified e).

Lemma candidate_of_Some sq c :
  candidate_of sq = Some c ↔
    cand_sender c = sq.1 ∧ ∃ e, btree_first (pending sq.2) = Some (cand_nonce c, e) ∧
      cand_tip c = effective_tip e ∧ cand_raw c = raw (verified e).
Proof.
  unfold candidate_of. destruct (btree_first (pending sq.2)) as [[n e]|]; simpl; [|naive_solver].
  split; [by intros [= <-]; eauto 6|]. destruct c; simpl. intros (-> & e' & [= <- <-] & -> & ->). done.
Qed.

Lemma candidates_head i c : c ∈ candidates i ↔ is_head i c.
Proof.
  unfold candidates. rewrite sort_desc_perm, list_elem_of_omap. split.
  - intros ([s q] & Hin%elem_of_hash_iter & Hc%candidate_of_Some).
    simpl in Hc. destruct Hc as (Hs & e & ? & ? & ?). exists q, e. by rewrite Hs.
  - intros (q & e & Hq & ? & ? & ?). exists (cand_sender c, q). split; [by apply elem_of_hash_iter|].
    apply candidate_of_Some. eauto.
Qed.

Lemma candidates_sorted i : StronglySorted (desc cand_tip) (candidates i).
Proof. apply sort_desc_sorted. Qed.

Lemma candidates_NoDup i : NoDup (cand_sender <$> candidates i).
Proof.
  unfold candidates. rewrite sort_desc_perm. pose proof (hash_keys_NoDup (senders i)) as Hnd.
  unfold hash_keys in Hnd. induction (hash_iter (senders i)) as [|sq l IH]; [constructor|].
  cbn [fmap list_fmap] in Hnd. apply NoDup_cons in Hnd as [Hn Hnd]. cbn [omap list_omap].
  destruct (candidate_of sq) as [c|] eqn:Hc; [|by apply IH]. cbn [fmap list_fmap].
  constructor; [|by apply IH]. apply candidate_of_Some in Hc as [-> _]. contradict Hn.
  apply list_elem_of_fmap in Hn as (c' & -> & (sq' & Hin & Hc')%list_elem_of_omap).
  apply candidate_of_Some in Hc' as [-> _]. by apply list_elem_of_fmap_2.
Qed.

Lemma StronglySorted_sublist {A} (R : relation A) (l1 l2 : list A) :
  l1 `sublist_of` l2 → StronglySorted R l2 → StronglySorted R l1.
Proof.
  induction 1 as [|x l1 l2 Hsub IH|x l1 l2 Hsub IH]; intros Hs; [done| |].
  - apply StronglySorted_inv in Hs as [Hs Hall]. constructor; [by apply IH|].
    rewrite Forall_forall in *. eauto using elem_of_sublist.
  - apply StronglySorted_inv in Hs as [Hs _]. by apply IH.
Qed.

Lemma select_all_picked i mb mg :
  0 ≤ mb → ∃ chosen, chosen `sublist_of` candidates i ∧
    picked {| payload := []; total_gas := 0; included := [] |} (select_all i mb mg) chosen ∧
    Z.of_nat (length (payload (select_all i mb mg))) ≤ mb.
Proof. intros. apply select_picked. done. Qed.

(** A payload is made of heads. *)
Lemma collect_heads p mb mg :
  0 ≤ mb < 2 ^ 32 →
  ∃ chosen, parse_payload (collect_payload p mb mg).2 = Some (cand_raw <$> chosen) ∧ Forall (is_head (inner p)) chosen.
Proof.
  intros Hmb. destruct (select_all_picked (inner p) mb mg) as (chosen & Hsub & [Hpay _] & Hlen); [lia|].
  cbn [payload app] in Hpay. exists chosen. unfold collect_payload. cbn [snd]. split.
  - rewrite Hpay in *. apply parse_concat. lia.
  - apply Forall_forall. intros c Hc. apply candidates_head. by eapply elem_of_sublist.
Qed.

(** A sorted list of candidates begins with a strictly best one. *)
Lemma sorted_best (c0 : Candidate) cs :
  StronglySorted (desc cand_tip) cs → c0 ∈ cs → (∀ c, c ∈ cs → c = c0 ∨ cand_tip c < cand_tip c0) →
  ∃ rest, cs = c0 :: rest.
Proof.
  intros Hs Hin Hbest. destruct cs as [|c cs]; [by apply not_elem_of_nil in Hin|].
  destruct (Hbest c (list_elem_of_here _ _)) as [->|Hlt]; [eauto|].
  apply StronglySorted_inv in Hs as [_ Hall]. rewrite Forall_forall in Hall.
  apply elem_of_cons in Hin as [->|Hin]; [lia|]. specialize (Hall c0 Hin). unfold desc in Hall. lia.
Qed.

(** The strictly best head is the first transaction of the payload, if it fits. *)
Lemma collect_best p mb mg c0 :
  0 ≤ mb < 2 ^ 32 → is_head (inner p) c0 →
  (∀ c, is_head (inner p) c → c = c0 ∨ cand_tip c < cand_tip c0) →
  4 + Z.of_nat (length (cand_raw c0)) ≤ mb → 0 ≤ candidate_gas (inner p) c0 ≤ mg → is_u64 mg →
  ∃ raws, parse_payload (collect_payload p mb mg).2 = Some (cand_raw c0 :: raws).
Proof.
  intros Hmb Hhead Hbest Hfit Hgas Hmg.
  destruct (sorted_best c0 (candidates (inner p))) as [rest Ec]; [apply candidates_sorted|by apply candidates_head|..].
  { intros c Hc. by apply Hbest, candidates_head. }
  unfold collect_payload, select_all. rewrite Ec. cbn [snd select payload total_gas included length app].
  rewrite wrapping_add_small by ulia.
  destruct (Z.ltb_spec mb (Z.of_nat 0 + 4 + Z.of_nat (length (cand_raw c0)))); [lia|].
  destruct (Z.ltb_spec mg (0 + candidate_gas (inner p) c0)); [lia|]. rewrite andb_false_r.
  match goal with |- context [select _ _ _ rest ?acc] =>
    destruct (select_picked (inner p) mb mg rest acc) as (chosen & _ & [Hpay _] & Hlen) end.
  { cbn [payload]. rewrite length_frame. lia. }
  cbn [payload] in Hpay. exists (cand_raw <$> chosen).
  change (frame (cand_raw c0) ++ concat (frame <$> (cand_raw <$> chosen)))
    with (concat (frame <$> (cand_raw c0 :: (cand_raw <$> chosen)))) in Hpay.
  rewrite Hpay in *. apply parse_concat. lia.
Qed.

(** ** Removal *)

Lemma remove_included_slot i sn b s n :
  slot (senders (remove_included i sn)) b s n =
    if decide (b = true ∧ (s, n) = sn) then None else slot (senders i) b s n.
Proof.
  destruct sn as [s0 n0]. unfold remove_included. cbn [fst snd].
  destruct (senders i !! s0) as [q|] eqn:Hq; [destruct (pending q !! n0) as [e|] eqn:He|].
  2,3: case_decide as Hd; [|done]; destruct Hd as [-> [= -> ->]]; unfold slot; rewrite Hq; simpl; done.
  cbn [senders]. change {| pending := _; queued := _ |} with (set_target true q (delete n0 (get_target true q))).
  rewrite slot_delete. unfold slot_upd. rewrite insert_id by done. repeat case_decide; naive_solver.
Qed.

Lemma fold_remove_slot (l : list (Address * Z)) i b s n :
  slot (senders (fold_left remove_included l i)) b s n =
    if decide (b = true ∧ (s, n) ∈ l) then None else slot (senders i) b s n.
Proof.
  revert i. induction l as [|sn l IH]; intros i; cbn [fold_left].
  - rewrite decide_False; [done|]. intros [_ ?%elem_of_nil]. done.
  - rewrite IH, remove_included_slot. pose proof (elem_of_cons l (s, n) sn).
    repeat case_decide; tauto.
Qed.

(** A property of queues that survives the removal of the lowest pending
    nonce survives [collect_payload]. *)
Definition all_queues (P : SenderQueue → Prop) i : Prop := map_Forall (λ _ q, P q) (senders i).

Lemma fold_remove_queues P (l : list (Address * Z)) i :
  (∀ q n e, P q → btree_first (pending q) = Some (n, e) → P {| pending := delete n (pending q); queued := queued q |}) →
  NoDup l.*1 →
  (∀ s n, (s, n) ∈ l → ∃ q e, senders i !! s = Some q ∧ btree_first (pending q) = Some (n, e)) →
  all_queues P i → all_queues P (fold_left remove_included l i).
Proof.
  intros HP. revert i. induction l as [|[s n] l IH]; intros i Hnd Hin Hall; [done|].
  cbn [fold_left fmap list_fmap] in *. apply NoDup_cons in Hnd as [Hs Hnd].
  destruct (Hin s n (list_elem_of_here _ _)) as (q & e & Hq & Hf).
  pose proof Hf as [He _]%btree_first_Some. unfold remove_included. cbn [fst snd]. rewrite Hq, He.
  apply IH; [done| |].
  - intros s' n' Hin'. cbn [senders]. rewrite lookup_insert_ne; [by apply Hin, list_elem_of_further|].
    intros <-. apply Hs. apply list_elem_of_fmap. by exists (s, n').
  - intros s' q'. cbn [senders]. rewrite lookup_insert_Some. intros [[_ <-]|[_ ?]]; [|by eapply Hall].
    apply (HP q n e); [by eapply Hall|done].
Qed.

Lemma collect_queues P p mb mg :
  (∀ q n e, P q → btree_first (pending q) = Some (n, e) → P {| pending := delete n (pending q); queued := queued q |}) →
  0 ≤ mb → all_queues P (inner p) → all_queues P (inner (collect_payload p mb mg).1).
Proof.
  intros HP Hmb Hall. destruct (select_all_picked (inner p) mb mg Hmb) as (chosen & Hsub & [_ Hinc] & _).
  cbn [included app] in Hinc. unfold collect_payload. cbn [fst inner]. rewrite Hinc.
  apply fold_remove_queues; try done.
  - rewrite <- list_fmap_compose. eapply sublist_NoDup; [apply (candidates_NoDup (inner p))|].
    by apply (sublist_fmap cand_sender).
  - intros s n (c & [= -> ->] & Hc)%list_elem_of_fmap. eapply elem_of_sublist in Hc; [|done].
    apply candidates_head in Hc as (q & e & ? & ? & _). eauto.
Qed.
End Payload.
