(* ===== verification/TxPoolInv.v ===== *)
(** The pool as a state machine: every pool reached from an empty one by any
    sequence of the pool's operations has an exact hash index, bounded queues
    and closed promotion; plus what one operation does to nonce contiguity and
    to the set of known transactions. *)
From S2P Require Import Prelude Types Tx TxPool TxPoolQueue TxPoolSubmit TxPoolIndex TxPoolPayload.

(** ** Admission keeps the queues within bounds *)

Section AdmissionQueues.
Context {Env : Type}.
Implicit Types (i : PoolInner Env) (env : Env) (e : PoolEntry).

Lemma adm_queue_lookup P i e :
  P queue_default → all_queues P i → P (adm_queue i e).
Proof. intros Hd Hall. unfold adm_queue. destruct (senders i !! _) eqn:E; [by eapply Hall|done]. Qed.

Lemma all_queues_insert P i s q bh (nf : option (Env → Z → Z)) :
  all_queues P i → P q → all_queues P (mkInner (<[s := q]> (senders i)) bh nf).
Proof. intros. by apply map_Forall_insert_2. Qed.

(** Inserting an entry at its side of the queue and promoting. *)
Lemma adm_result_ok cfg i env e :
  limits_ok cfg → nonce_ok (entry_nonce e) → queue_ok cfg (adm_queue i e) →
  (is_Some (adm_target i env e !! entry_nonce e) ∨
   adm_target i env e !! entry_nonce e = None ∧ Z.of_nat (size (adm_target i env e)) < adm_limit cfg i env e) →
  queue_ok cfg (adm_result i env e).
Proof.
  intros Hl Hn [Hp Hq Hsq Hsp Hc] Hcase. unfold adm_result.
  assert (∀ m, keys_ok m → keys_ok (<[entry_nonce e := e]> m)) as Hkeys.
  { intros m Hm. by apply map_Forall_insert_2. }
  assert (∀ m : gmap Z PoolEntry, is_Some (m !! entry_nonce e) → size (<[entry_nonce e := e]> m) = size m) as Hsame.
  { intros m Hm. by rewrite map_size_insert_Some. }
  assert (∀ m : gmap Z PoolEntry, m !! entry_nonce e = None → size (<[entry_nonce e := e]> m) = S (size m)) as Hnew.
  { intros m Hm. by rewrite map_size_insert_None. }
  unfold adm_target, adm_limit in *. destruct (adm_side i env e) eqn:Hside; cbn [get_target set_target] in *.
  - apply promote_queued_static_ok; cbn [pending queued]; auto.
    destruct Hcase as [Hs|[Hs Hlim]]; [left|right; rewrite Hnew by done; lia].
    rewrite Hsame by done. split; [|done]. intros l Hlast. cbn [pending queued] in *. apply Hc.
    rewrite btree_last_key_Some in *. setoid_rewrite lookup_insert_is_Some' in Hlast. naive_solver.
  - assert (queued (adm_queue i e) !! entry_nonce e = None ∨ ∃ old, queued (adm_queue i e) !! entry_nonce e = Some old)
      as Hold by (destruct (queued _ !! _); eauto).
    apply promote_queued_static_ok; cbn [pending queued]; auto.
    + destruct Hcase as [Hs|[Hs Hlim]]; [by rewrite Hsame|rewrite Hnew by done; lia].
    + left. split; [|done]. intros l Hlast. cbn [pending queued] in *.
      rewrite lookup_insert_ne; [by apply Hc|]. intros Heq.
      apply btree_last_key_Some in Hlast as [Hsome _]. pose proof Hsome as [el Hel].
      pose proof (Hp _ _ Hel) as Hlok. simpl in Hlok. unfold adm_side, goes_pending in Hside.
      apply orb_false_iff in Hside as [_ Hside%bool_decide_eq_false]. apply Hside.
      replace (saturating_sub (entry_nonce e) 1) with l; [done|]. unfold saturating_sub, nonce_ok in *. lia.
Qed.

Lemma admission_ok cfg i env e i' r :
  limits_ok cfg → nonce_ok (entry_nonce e) → all_queues (queue_ok cfg) i →
  admission cfg i env e i' r → all_queues (queue_ok cfg) i'.
Proof.
  intros Hl Hn Hall Hadm. pose proof (queue_default_ok cfg Hl) as Hd.
  pose proof (adm_queue_lookup _ i e Hd Hall) as Hq.
  destruct Hadm as [| |old|Hh|old Hh ? Ht ?|Hh ? Ht ?]; try done.
  1,2: by apply all_queues_insert.
  all: unfold adm_pool; rewrite insert_insert_eq; apply all_queues_insert; [done|].
  all: apply adm_result_ok; eauto.
Qed.

(** An entry goes next to, or inside, the pending interval when the account
    nonce does. *)
Lemma admission_contiguous cfg i env e i' r :
  nonce_ok (entry_nonce e) → queue_ok cfg (adm_queue i e) →
  all_queues (λ q, contiguous (pending q)) i → contiguous (pending (adm_queue i e)) →
  (pending (adm_queue i e) = ∅ ∨
   ∃ k, is_Some (pending (adm_queue i e) !! k) ∧ k - 1 ≤ adm_nonce i env e ≤ k + 1) →
  admission cfg i env e i' r → all_queues (λ q, contiguous (pending q)) i'.
Proof.
  intros Hn [Hp Hq _ _ _] Hall Hcon Hadj Hadm.
  assert (contiguous (pending (adm_result i env e))) as Hres.
  { unfold adm_result, adm_target. destruct (adm_side i env e) eqn:Hside; cbn [get_target set_target].
    - apply promote_contiguous; cbn [pending queued]; [by apply map_Forall_insert_2|done|].
      apply insert_contiguous; [done|]. unfold adm_side, goes_pending in Hside.
      apply orb_true_iff in Hside as [->%Z.eqb_eq|Hk%bool_decide_eq_true]; [done|].
      right. exists (saturating_sub (entry_nonce e) 1). split; [done|].
      unfold saturating_sub, nonce_ok in *. lia.
    - apply promote_contiguous; cbn [pending queued]; [done|by apply map_Forall_insert_2|done]. }
  destruct Hadm as [| |old|Hh|old Hh ? Ht ?|Hh ? Ht ?]; try done.
  1,2: by apply all_queues_insert.
  all: unfold adm_pool; rewrite insert_insert_eq; by apply all_queues_insert.
Qed.
End AdmissionQueues.

(** ** Sequences of operations *)

Section Machine.
Context {Env : Type} `{!TxCodec}.
Implicit Types (p : EvmTxPool Env) (env : Env).

(** One call of a pool method.  Calls that iterate over a [HashMap] carry the
    order they meet. *)
Inductive pool_op : Type :=
| OpSetNonceFn (f : Env → Address → Z)
| OpSubmit (env : Env) (bytes : list byte)
| OpCollect (order : HashIter Z SenderQueue) (max_bytes max_gas : Z)
| OpCommit (order : HashIter Z SenderQueue) (nonce_of : Address → Z)
| OpUpdateBaseFee (fee : Z).

Definition exec (p : EvmTxPool Env) (op : pool_op) : EvmTxPool Env :=
  match op with
  | OpSetNonceFn f => set_nonce_fn p f
  | OpSubmit env bytes => (submit_tx p env bytes).1
  | OpCollect order max_bytes max_gas => (collect_payload p max_bytes max_gas).1
  | OpCommit order nonce_of => on_commit p nonce_of
  | OpUpdateBaseFee fee => update_base_fee p fee
  end.

Definition run (cfg : EvmTxPoolConfig) (ops : list pool_op) : EvmTxPool Env := fold_left exec ops (new cfg).

(** Submitted nonces respect EIP-2681, and byte limits are not negative. *)
Definition op_ok (op : pool_op) : Prop :=
  match op with
  | OpSubmit _ bytes => ∀ v, decode_and_recover bytes = Ok v → nonce_ok (env_nonce (envelope v))
  | OpCollect _ max_bytes _ => 0 ≤ max_bytes
  | _ => True
  end.

Lemma config_exec p op : config (exec p op) = config p.
Proof.
  destruct op; simpl; try done. unfold submit_tx. destruct (decode_and_recover bytes); [|done].
  by destruct (submit_locked _ _ _ _).
Qed.

Lemma run_snoc cfg ops op : run cfg (ops ++ [op]) = exec (run cfg ops) op.
Proof. unfold run. by rewrite fold_left_app. Qed.

Lemma config_run cfg ops : config (run cfg ops) = cfg.
Proof.
  induction ops as [|op ops IH] using rev_ind; [done|]. by rewrite run_snoc, config_exec.
Qed.

Lemma exec_index p op : op_ok op → pool_index (inner p) → pool_index (inner (exec p op)).
Proof.
  destruct op; simpl; intros Hop Hok; try done.
  - by apply submit_index.
  - by apply collect_index.
  - by apply on_commit_index.
Qed.

Lemma run_index cfg ops : Forall op_ok ops → pool_index (inner (run cfg ops)).
Proof.
  induction ops as [|op ops IH] using rev_ind; intros Hops; [apply new_index|].
  rewrite Forall_app, Forall_singleton in Hops. destruct Hops as [? Hop]. rewrite run_snoc. by apply exec_index, IH.
Qed.

Lemma on_commit_queues P p f `{!HashIter Z SenderQueue} :
  (∀ q c, P q → P (commit_queue q c).1) → all_queues P (inner p) → all_queues P (inner (on_commit p f)).
Proof.
  intros HP Hall s q. rewrite on_commit_lookup. intros (q0 & Hq0 & Hif)%bind_Some.
  cbv zeta in Hif. destruct (queue_is_empty _); simplify_eq. by apply HP, (Hall s).
Qed.

Lemma submit_tx_inner p env bytes :
  inner (submit_tx p env bytes).1 = inner p ∨
  ∃ v r, decode_and_recover bytes = Ok v ∧
    admission (config p) (inner p) env (make_entry (config p) v) (inner (submit_tx p env bytes).1) r ∧
    r = (submit_tx p env bytes).2.
Proof.
  unfold submit_tx. destruct (decode_and_recover bytes) as [v|]; [|by left].
  pose proof (submit_locked_admission (config p) (inner p) env (make_entry (config p) v)) as Hadm.
  destruct (submit_locked _ _ _ _) as [i' r]. right. by exists v, r.
Qed.

Lemma exec_queues p op :
  limits_ok (config p) → op_ok op →
  all_queues (queue_ok (config p)) (inner p) → all_queues (queue_ok (config p)) (inner (exec p op)).
Proof.
  intros Hl Hop Hall. destruct op; simpl in *; try done.
  - destruct (submit_tx_inner p env bytes) as [->|(v & r & Hv & Hadm & _)]; [done|].
    eapply admission_ok; [done| |done|done]. by apply Hop.
  - apply collect_queues; [|done|done]. intros. by eapply delete_first_ok.
  - apply on_commit_queues; [|done]. intros. by apply commit_queue_ok.
Qed.

Lemma run_queues cfg ops :
  limits_ok cfg → Forall op_ok ops → all_queues (queue_ok cfg) (inner (run cfg ops)).
Proof.
  intros Hl. induction ops as [|op ops IH] using rev_ind; intros Hops; [apply map_Forall_empty|].
  rewrite Forall_app, Forall_singleton in Hops. destruct Hops as [? Hop]. rewrite run_snoc.
  rewrite <- (config_run cfg ops) at 1. apply exec_queues; rewrite ?config_run; auto.
Qed.

(** ** Counting *)

(** The hashes of the entries of one queue. *)
Definition queue_hashes (q : SenderQueue) : list B256 :=
  (entry_hash ∘ snd <$> map_to_list (pending q)) ++ (entry_hash ∘ snd <$> map_to_list (queued q)).

Lemma elem_of_queue_hashes q h :
  h ∈ queue_hashes q ↔ ∃ b n e, get_target b q !! n = Some e ∧ entry_hash e = h.
Proof.
  unfold queue_hashes. rewrite elem_of_app, !list_elem_of_fmap. split.
  - intros [([n e] & -> & Hin%elem_of_map_to_list)|([n e] & -> & Hin%elem_of_map_to_list)];
      [exists true, n, e|exists false, n, e]; done.
  - intros ([|] & n & e & He & <-); [left|right]; exists (n, e); split; try done; by apply elem_of_map_to_list.
Qed.

Lemma NoDup_fmap_entries (m : gmap Z PoolEntry) :
  (∀ n1 e1 n2 e2, m !! n1 = Some e1 → m !! n2 = Some e2 → entry_hash e1 = entry_hash e2 → n1 = n2) →
  NoDup (entry_hash ∘ snd <$> map_to_list m).
Proof.
  intros Hinj. apply NoDup_fmap_2_strong; [|apply NoDup_map_to_list].
  intros [n1 e1] [n2 e2] H1%elem_of_map_to_list H2%elem_of_map_to_list E. simpl in E.
  assert (n1 = n2) as -> by eauto. congruence.
Qed.

Lemma pool_hashes_NoDup (i : PoolInner Env) (l : list (Z * SenderQueue)) :
  pool_index i → NoDup l.*1 → (∀ s q, (s, q) ∈ l → senders i !! s = Some q) →
  NoDup (l ≫= λ sq, queue_hashes sq.2).
Proof.
  intros Hok. assert (∀ b1 s1 n1 e1 b2 s2 n2 e2, slot (senders i) b1 s1 n1 = Some e1 →
    slot (senders i) b2 s2 n2 = Some e2 → entry_hash e1 = entry_hash e2 → b1 = b2 ∧ s1 = s2 ∧ n1 = n2) as Hu
    by apply (ix_uniq _ _ Hok).
  induction l as [|[s q] l IH]; intros Hnd Hin; [constructor|].
  cbn [fmap list_fmap mbind list_bind] in *. apply NoDup_cons in Hnd as [Hs Hnd].
  assert (∀ b n, slot (senders i) b s n = get_target b q !! n) as Hslot.
  { intros b n. unfold slot. by rewrite (Hin s q (list_elem_of_here _ _)). }
  apply NoDup_app. repeat split.
  - unfold queue_hashes. apply NoDup_app. repeat split.
    + apply NoDup_fmap_entries. intros n1 e1 n2 e2 H1 H2 E.
      destruct (Hu true s n1 e1 true s n2 e2) as (? & _ & ?); by rewrite ?Hslot.
    + intros h ([n1 e1] & -> & H1%elem_of_map_to_list)%list_elem_of_fmap
        ([n2 e2] & E & H2%elem_of_map_to_list)%list_elem_of_fmap.
      destruct (Hu true s n1 e1 false s n2 e2) as (? & _ & ?); by rewrite ?Hslot.
    + apply NoDup_fmap_entries. intros n1 e1 n2 e2 H1 H2 E.
      destruct (Hu false s n1 e1 false s n2 e2) as (? & _ & ?); by rewrite ?Hslot.
  - intros h (b1 & n1 & e1 & H1 & <-)%elem_of_queue_hashes ([s' q'] & Hh & Hl)%list_elem_of_bind.
    apply elem_of_queue_hashes in Hh as (b2 & n2 & e2 & H2 & E). simpl in H2.
    assert (slot (senders i) b2 s' n2 = Some e2) as H2'.
    { unfold slot. by rewrite (Hin s' q' (list_elem_of_further _ _ _ Hl)). }
    destruct (Hu b1 s n1 e1 b2 s' n2 e2) as (_ & -> & _); [by rewrite Hslot|done|done|].
    apply Hs, list_elem_of_fmap. by exists (s', q').
  - apply IH; [done|]. intros. by apply Hin, list_elem_of_further.
Qed.
End Machine.
