(* ===== verification/TxPoolProps.v ===== *)
(** The properties of the transaction pool, with witnesses on concrete pools. *)
From S2P Require Import Prelude Types Tx TxPool TxPoolQueue TxPoolSubmit TxPoolIndex TxPoolPayload TxPoolInv.

(** ** Lemmas *)

(** Promotion loses and invents nothing. *)
Lemma promote_entries q c n e :
  keys_ok (pending q) → keys_ok (queued q) →
  (∃ b, get_target b (promote_queued_static q c) !! n = Some e) ↔ (∃ b, get_target b q !! n = Some e).
Proof.
  intros Hp Hq. destruct (promote_queued_static_spec q c Hq) as (k & Hpp & Hqq & _ & _).
  pose proof (promote_next_free q c Hp n) as Hfree. split; intros [b Hb].
  - destruct b; cbn [get_target] in Hb; [rewrite Hpp in Hb|rewrite Hqq in Hb]; case_decide; try done;
      [by exists false|by exists true|by exists false].
  - destruct (decide (promote_next q c ≤ n < promote_next q c + Z.of_nat k)) as [Hrun|Hno].
    + exists true. cbn [get_target]. rewrite Hpp, decide_True by done.
      destruct b; cbn [get_target] in Hb; [rewrite Hfree in Hb by lia; done|done].
    + exists b. destruct b; cbn [get_target] in *; [rewrite Hpp|rewrite Hqq]; by rewrite decide_False.
Qed.

Lemma commit_queue_entries cfg q c n e :
  queue_ok cfg q →
  (∃ b, get_target b (commit_queue q c).1 !! n = Some e) ↔ c ≤ n ∧ ∃ b, get_target b q !! n = Some e.
Proof.
  intros [Hp Hq _ _ _]. rewrite commit_queue_eq, promote_entries; cbn [pending queued].
  - assert (∀ b, get_target b {| pending := (remove_stale c (pending q)).1; queued := (remove_stale c (queued q)).1 |} !! n
      = if decide (n < c) then None else get_target b q !! n) as E.
    { intros []; cbn [get_target pending queued]; apply remove_stale_lookup. }
    setoid_rewrite E. case_decide; [split; [by intros []|lia]|]. split; [intros; split; [lia|done]|naive_solver].
  - apply (keys_ok_weaken _ _ Hp), remove_stale_subseteq.
  - apply (keys_ok_weaken _ _ Hq), remove_stale_subseteq.
Qed.

Section Props.
Context {Env : Type} `{!TxCodec}.

Lemma length_bind_hashes (l : list (Z * SenderQueue)) :
  Z.of_nat (length (l ≫= λ sq, queue_hashes sq.2)) =
    sumZ ((λ sq, Z.of_nat (size (pending sq.2))) <$> l) + sumZ ((λ sq, Z.of_nat (size (queued sq.2))) <$> l).
Proof.
  induction l as [|[s q] l IH]; [done|]. cbn [mbind list_bind fmap list_fmap sumZ foldr].
  rewrite length_app, Nat2Z.inj_add, IH. unfold queue_hashes at 1.
  rewrite length_app, !length_fmap, !length_map_to_list. unfold sumZ. cbn [snd]. lia.
Qed.

Lemma pool_size_eq `{!HashIter Z SenderQueue} (p : EvmTxPool Env) :
  pool_index (inner p) → pending_count p + queued_count p = Z.of_nat (size (by_hash (inner p))).
Proof.
  intros Hok. unfold pending_count, queued_count. rewrite <- length_bind_hashes. f_equal.
  rewrite <- size_dom.
  assert (NoDup (hash_iter (senders (inner p)) ≫= λ sq, queue_hashes sq.2)) as Hnd.
  { apply (pool_hashes_NoDup (inner p)); [done|apply hash_keys_NoDup|].
    intros s q. by rewrite elem_of_hash_iter. }
  rewrite <- (size_list_to_set (C := gset Z)) by done. f_equal. apply set_eq. intros h.
  rewrite elem_of_list_to_set, elem_of_dom, list_elem_of_bind. split.
  - intros ([s q] & Hh & Hin%elem_of_hash_iter). apply elem_of_queue_hashes in Hh as (b & n & e & He & <-).
    exists s. apply (ix_index _ _ Hok). exists b, n, e. split; [|done]. unfold slot. by rewrite Hin.
  - intros [s (b & n & e & He & <-)%(ix_index _ _ Hok)]. unfold slot in He.
    apply bind_Some in He as (q & Hq & He). exists (s, q). split; [|by apply elem_of_hash_iter].
    apply elem_of_queue_hashes. eauto.
Qed.

(** ** State-machine invariants *)

(** C1. After any sequence of calls (submissions with nonces below [2^64 - 1],
    payload collections, commits, in any order and with any [HashMap] iteration
    order), the hash index of the pool is exact: [by_hash] maps a hash to a
    sender exactly when some slot of that sender holds a transaction of that
    hash, no hash occurs in two slots, and every transaction sits under its own
    sender and nonce. *)
Theorem pool_index_exact (cfg : EvmTxPoolConfig) (ops : list (pool_op (Env := Env))) :
  Forall op_ok ops →
  let i := inner (run cfg ops) in index_ok (slot (senders i)) (by_hash i).
Proof. apply run_index. Qed.

(** C17. After any such sequence, no sender has more than
    [max_queued_per_sender] queued transactions nor more than
    [max_pending_per_sender + max_queued_per_sender] pending ones (promotion does
    not look at the limit of pending ones), and when something is pending, the
    nonce after the last pending one is not queued. *)
Theorem pool_bounded (cfg : EvmTxPoolConfig) (ops : list (pool_op (Env := Env))) (s : Address) (q : SenderQueue) :
  limits_ok cfg → Forall op_ok ops → senders (inner (run cfg ops)) !! s = Some q →
  Z.of_nat (size (queued q)) ≤ max_queued_per_sender cfg ∧
  Z.of_nat (size (pending q)) ≤ max_pending_per_sender cfg + max_queued_per_sender cfg ∧
  promotion_closed q.
Proof. intros Hl Hops Hq. by destruct (run_queues cfg ops Hl Hops s q Hq). Qed.

(** After any such sequence the size the pool reports to the mempool
    framework ([pending_count() + queued_count()]) is the number of hashes in
    the index, whatever the iteration order of the senders. *)
Theorem pool_size_is_index `{!HashIter Z SenderQueue} (cfg : EvmTxPoolConfig) (ops : list (pool_op (Env := Env))) :
  Forall op_ok ops →
  pending_count (run cfg ops) + queued_count (run cfg ops) = Z.of_nat (size (by_hash (inner (run cfg ops)))).
Proof. intros Hops. by apply pool_size_eq, run_index. Qed.

(** C16. [on_commit] evicts exactly the stale transactions: for every reachable
    pool, a transaction is in the pool after the commit (pending or queued) if
    and only if it was in the pool before and its nonce is not below its
    sender's new account nonce. *)
Theorem on_commit_evicts_stale `{!HashIter Z SenderQueue} (cfg : EvmTxPoolConfig)
    (ops : list (pool_op (Env := Env))) (nonce_of : Address → Z) (s n : Z) (e : PoolEntry) :
  limits_ok cfg → Forall op_ok ops →
  let p := run cfg ops in
  (∃ b, slot (senders (inner (on_commit p nonce_of))) b s n = Some e) ↔
  nonce_of s ≤ n ∧ ∃ b, slot (senders (inner p)) b s n = Some e.
Proof.
  intros Hl Hops p. pose proof (run_queues cfg ops Hl Hops) as Hall. fold p in Hall.
  unfold slot. rewrite on_commit_lookup. destruct (senders (inner p) !! s) as [q|] eqn:Hq; cbn [mbind option_bind].
  - rewrite <- (commit_queue_entries cfg) by (by apply (Hall s)). cbv zeta.
    destruct (queue_is_empty _) eqn:He; [|done].
    apply andb_true_iff in He as [Hp%bool_decide_eq_true Hqq%bool_decide_eq_true].
    split; intros [b Hb]; [done|]. destruct b; simpl in Hb; by rewrite ?Hp, ?Hqq, lookup_empty in Hb.
  - split; [by intros []|by intros (_ & ? & ?)].
Qed.
End Props.

(** ** Payload properties *)

Section PayloadProps.
Context {Env : Type} `{!HashIter Z SenderQueue}.

(** C30. A block payload is well formed and fair: it respects the byte limit;
    read as length-prefixed frames it is exactly the raw bytes of the chosen
    transactions; these are the lowest-nonce pending transactions of distinct
    senders, ordered by non-increasing effective tip. *)
Theorem collect_payload_wellformed (p : EvmTxPool Env) (max_bytes max_gas : Z) :
  0 ≤ max_bytes < 2 ^ 32 →
  let bytes := (collect_payload p max_bytes max_gas).2 in
  ∃ chosen : list Candidate,
    parse_payload bytes = Some (cand_raw <$> chosen) ∧
    Z.of_nat (length bytes) ≤ max_bytes ∧
    Forall (is_head (inner p)) chosen ∧
    NoDup (cand_sender <$> chosen) ∧
    StronglySorted (desc cand_tip) chosen.
Proof.
  intros Hmb bytes. destruct (select_all_picked (inner p) max_bytes max_gas) as (chosen & Hsub & [Hpay _] & Hlen); [lia|].
  cbn [payload app] in Hpay. exists chosen. unfold bytes, collect_payload. cbn [snd]. repeat split.
  - rewrite Hpay in *. apply parse_concat. lia.
  - done.
  - apply Forall_forall. intros c Hc. apply candidates_head. by eapply elem_of_sublist.
  - eapply sublist_NoDup; [apply (candidates_NoDup (inner p))|]. by apply sublist_fmap.
  - eapply StronglySorted_sublist; [done|apply candidates_sorted].
Qed.

(** C31. When no pending head asks for [2^63] gas or more and the gas limit is
    positive and below [2^63], the gas limits of the transactions of a payload
    add up to at most the gas limit; without that the sum can wrap
    ([payload_gas_wraps]). *)
Theorem collect_payload_gas (p : EvmTxPool Env) (max_bytes max_gas : Z) :
  0 ≤ max_bytes < 2 ^ 32 → 0 < max_gas < 2 ^ 63 →
  (∀ c, is_head (inner p) c → 0 ≤ candidate_gas (inner p) c < 2 ^ 63) →
  ∃ chosen : list Candidate,
    (collect_payload p max_bytes max_gas).2 = concat (frame <$> (cand_raw <$> chosen)) ∧
    Forall (is_head (inner p)) chosen ∧
    sumZ (candidate_gas (inner p) <$> chosen) ≤ max_gas.
Proof.
  intros Hmb Hmg Hgas.
  destruct (select_gas (inner p) max_bytes max_gas (candidates (inner p))
    {| payload := []; total_gas := 0; included := [] |}) as (chosen & Hsub & [Hpay _] & Hsum & Hle).
  - done.
  - apply Forall_forall. intros c Hc. by apply Hgas, candidates_head.
  - simpl. lia.
  - exists chosen. split; [done|]. split; [|cbn [total_gas] in Hsum; fold (select_all (inner p) max_bytes max_gas) in *; lia].
    apply Forall_forall. intros c Hc. apply candidates_head. by eapply elem_of_sublist.
Qed.

(** Collecting a payload takes exactly the transactions of the payload out
    of the pool: the slots of the chosen transactions become empty, every other
    slot keeps its content. *)
Theorem collect_payload_removes (p : EvmTxPool Env) (max_bytes max_gas : Z) :
  0 ≤ max_bytes →
  let '(p', bytes) := collect_payload p max_bytes max_gas in
  ∃ chosen : list Candidate,
    bytes = concat (frame <$> (cand_raw <$> chosen)) ∧
    Forall (is_head (inner p)) chosen ∧
    ∀ b s n, slot (senders (inner p')) b s n =
      if decide (b = true ∧ (s, n) ∈ cand_slot <$> chosen) then None else slot (senders (inner p)) b s n.
Proof.
  intros Hmb. destruct (select_all_picked (inner p) max_bytes max_gas Hmb) as (chosen & Hsub & [Hpay Hinc] & _).
  cbn [payload included app] in *. unfold collect_payload. exists chosen. split; [done|]. split.
  - apply Forall_forall. intros c Hc. apply candidates_head. by eapply elem_of_sublist.
  - intros b s n. cbn [inner]. rewrite Hinc. apply fold_remove_slot.
Qed.
End PayloadProps.

(** ** Replacement, contiguity, known transactions *)

Section SubmitProps.
Context {Env : Type} `{!TxCodec}.

(** The set of known hashes after an accepted submission is the old one plus
    the new hash, minus the hash of the transaction it replaced, if any; a
    rejected submission changes no slot and no hash. *)
Theorem submit_tx_known_set (p : EvmTxPool Env) (env : Env) (bytes : list byte) :
  let '(p', r) := submit_tx p env bytes in
  match r with
  | Err _ => by_hash (inner p') = by_hash (inner p) ∧
             ∀ b s n, slot (senders (inner p')) b s n = slot (senders (inner p)) b s n
  | Ok h => contains p h = false ∧
            ∃ v, decode_and_recover bytes = Ok v ∧ vtx_hash v = h ∧
              let e := make_entry (config p) v in
              let old := adm_target (inner p) env e !! entry_nonce e in
              ∀ h', contains p' h' = true ↔ h' = h ∨ contains p h' = true ∧ entry_hash <$> old ≠ Some h'
  end.
Proof.
  unfold submit_tx. destruct (decode_and_recover bytes) as [v|err] eqn:Hv; [|done].
  pose proof (submit_locked_admission (config p) (inner p) env (make_entry (config p) v)) as Hadm.
  destruct (submit_locked _ _ _ _) as [i' r]. cbn [fst snd] in Hadm. cbv zeta. unfold contains. cbn [inner].
  destruct Hadm as [s Hh|Hh|old Hh ? Ht|Hh ? Ht|old Hh ? Ht ?|Hh ? Ht ?]; try done.
  1,2: split; [done|apply slot_default].
  all: rewrite Hh; split; [done|]; exists v; split; [done|]; split; [done|]; rewrite Ht; intros h';
    rewrite !bool_decide_eq_true; unfold adm_pool; cbn [by_hash].
  - rewrite lookup_insert_is_Some. change (vtx_hash v) with (entry_hash (make_entry (config p) v)).
    rewrite lookup_delete_is_Some. cbn [fmap option_fmap option_map]. split.
    + intros [<-|(? & ? & ?)]; [by left|]. right. split; [done|]. congruence.
    + intros [->|[? Hne]]; [by left|]. destruct (decide (entry_hash (make_entry (config p) v) = h')); [by left|].
      right. split; [done|]. split; [congruence|done].
  - rewrite lookup_insert_is_Some. split.
    + intros [<-|[? ?]]; [by left|]. by right.
    + intros [->|[? _]]; [by left|]. destruct (decide (entry_hash (make_entry (config p) v) = h')); [by left|by right].
Qed.

(** A pool holds an entry for a sender and a nonce, pending or queued. *)
Definition pooled (p : EvmTxPool Env) (s : Address) (n : Z) (e : PoolEntry) : Prop :=
  ∃ q, senders (inner p) !! s = Some q ∧ (pending q !! n = Some e ∨ queued q !! n = Some e).

Lemma pooled_slot p s n e : pooled p s n e ↔ ∃ b, slot (senders (inner p)) b s n = Some e.
Proof.
  unfold pooled, slot. split.
  - intros (q & -> & [Hq|Hq]); [exists true|exists false]; done.
  - intros [b (q & Hq & He)%bind_Some]. exists q. split; [done|]. destruct b; auto.
Qed.

Lemma adm_side_spec (i : PoolInner Env) env e :
  adm_side i env e = true ↔
  entry_nonce e = adm_nonce i env e ∨ is_Some (pending (adm_queue i e) !! Z.max 0 (entry_nonce e - 1)).
Proof. unfold adm_side, goes_pending, saturating_sub. by rewrite orb_true_iff, Z.eqb_eq, bool_decide_eq_true, Z.max_comm. Qed.

(** The entries of the pool after an insertion and the promotion that follows. *)
Lemma adm_pool_pooled cfg (i : PoolInner Env) env e bh s' n' e' :
  pool_index i → nonce_ok (entry_nonce e) →
  pooled (mkPool cfg (adm_pool i env e bh)) s' n' e' ↔
  (s' = entry_sender e ∧ n' = entry_nonce e ∧ e' = e) ∨
  (pooled (mkPool cfg i) s' n' e' ∧ ¬ (s' = entry_sender e ∧ n' = entry_nonce e ∧ adm_target i env e !! n' = Some e')).
Proof.
  intros Hix Hn. rewrite !pooled_slot. unfold adm_pool. cbn [inner senders]. rewrite insert_insert_eq.
  assert (∀ b n, get_target b (adm_queue i e) !! n = slot (senders i) b (entry_sender e) n) as Hold.
  { intros b n. rewrite <- slot_at with (S := senders i) (s := entry_sender e). apply slot_default. }
  destruct (decide (s' = entry_sender e)) as [->|Hne].
  2: { unfold slot. rewrite lookup_insert_ne by done. naive_solver. }
  assert (∀ b, keys_ok (get_target b (adm_queue i e))) as Hkeys.
  { intros b n e0. rewrite Hold. intros He. by apply (ix_key _ _ Hix) in He as (_ & _ & ?). }
  assert (∀ b, keys_ok (get_target b (set_target (adm_side i env e) (adm_queue i e) (<[entry_nonce e := e]> (adm_target i env e))))) as Hkeys'.
  { intros b. rewrite get_set_target. case_decide; [|done]. apply map_Forall_insert_2; [done|apply Hkeys]. }
  setoid_rewrite slot_at. unfold adm_result. rewrite promote_entries; [|exact (Hkeys' true)|exact (Hkeys' false)].
  setoid_rewrite get_set_target. setoid_rewrite <- Hold. fold (adm_target i env e). split.
  - intros [b Hb]. destruct (decide (b = adm_side i env e)) as [->|Hd].
    + apply lookup_insert_Some in Hb as [[<- <-]|[Hne Hb]]; [by left|]. right. split; [eauto|]. by intros (_ & -> & _).
    + right. split; [eauto|]. intros (_ & _ & Ht). apply Hd. unfold adm_target in Ht. rewrite Hold in Hb, Ht.
      by apply (ix_uniq _ _ Hix _ _ _ _ _ _ _ _ Hb Ht).
  - intros [(_ & -> & ->)|[[b Hb] Hno]].
    + exists (adm_side i env e). rewrite decide_True by done. by apply lookup_insert_eq.
    + exists b. case_decide as Hd; [|done]. subst b. rewrite lookup_insert_ne; [done|]. intros <-. by apply Hno.
Qed.


(** Replacement by fee: with the default bump of 10 percent, an accepted
    transaction that takes the slot of one with tip [t] (with [t] at least 10
    and below [2^57]) has a tip strictly above [t], at least [11 t / 10] rounded
    down. *)
Theorem replacement_needs_bump (cfg : EvmTxPoolConfig) (i i' : PoolInner Env) (env : Env) (e old : PoolEntry) (h : B256) :
  replacement_bump_pct cfg = 10 → 10 ≤ effective_tip old < 2 ^ 57 →
  adm_target i env e !! entry_nonce e = Some old →
  submit_locked cfg i env e = (i', Ok h) →
  effective_tip old < effective_tip e ∧ 11 * effective_tip old / 10 ≤ effective_tip e.
Proof.
  intros Hpct Ht Hold Hsub. pose proof (submit_locked_admission cfg i env e) as Hadm.
  rewrite Hsub in Hadm. cbn [fst snd] in Hadm. inversion Hadm as [| | | |old' ? ? Hold' Hmin|]; simplify_eq.
  unfold min_replacement_tip, saturating_mul in Hmin. rewrite Hpct in Hmin.
  change (wrapping_add 64 100 10) with 110 in Hmin. rewrite Z.min_l in Hmin by ulia.
  replace (effective_tip old * 110) with (11 * effective_tip old * 10) in Hmin by lia.
  change 100 with (10 * 10) in Hmin. rewrite Z.div_mul_cancel_r in Hmin by lia.
  assert (effective_tip old + 1 ≤ 11 * effective_tip old / 10) by (apply Z.div_le_lower_bound; lia). lia.
Qed.

(** Nonce continuity of the pending transactions survives every operation on
    a reachable pool, provided that a submission finds its sender's account
    nonce inside or next to the pending nonces of that sender. *)
Theorem pending_contiguous (cfg : EvmTxPoolConfig) (ops : list (pool_op (Env := Env))) (op : pool_op) :
  limits_ok cfg → Forall op_ok ops → op_ok op →
  let p := run cfg ops in
  all_queues (λ q, contiguous (pending q)) (inner p) →
  (∀ env bytes v, op = OpSubmit env bytes → decode_and_recover bytes = Ok v →
     let q := adm_queue (inner p) (make_entry cfg v) in
     pending q = ∅ ∨ ∃ k, is_Some (pending q !! k) ∧ k - 1 ≤ current_nonce_of (inner p) env (sender v) ≤ k + 1) →
  all_queues (λ q, contiguous (pending q)) (inner (exec p op)).
Proof.
  intros Hl Hops Hop p Hcon Hadj. pose proof (run_queues cfg ops Hl Hops) as Hall. fold p in Hall.
  assert (config p = cfg) as Hcfg by apply config_run. destruct op; cbn [exec op_ok] in *; try done.
  - destruct (submit_tx_inner p env bytes) as [->|(v & r & Hv & Hadm & _)]; [done|]. rewrite Hcfg in Hadm.
    eapply admission_contiguous; [| | | | |done].
    + by apply Hop.
    + apply adm_queue_lookup; [by apply queue_default_ok|done].
    + done.
    + apply (adm_queue_lookup (λ q, contiguous (pending q))); [apply contiguous_empty|done].
    + by apply (Hadj env bytes v).
  - apply collect_queues; [|done|done]. intros. by eapply delete_first_contiguous.
  - intros s q. rewrite on_commit_lookup. intros (q0 & Hq0 & Hif)%bind_Some. cbv zeta in Hif.
    destruct (queue_is_empty _); simplify_eq. eapply commit_queue_contiguous; [by apply (Hall s)|by apply (Hcon s)].
Qed.
End SubmitProps.

(** C40. Promotion terminates within the fuel of the model and moves the longest
    run of consecutive queued nonces: some number [k] of consecutive entries,
    starting after the last pending nonce (or at the account nonce when nothing
    is pending), leave [queued] for [pending] unchanged, the next nonce is not
    queued, and running the loop longer gives the same queue. *)
Theorem promote_queued_complete (q : SenderQueue) (current_nonce : Z) (fuel : nat) :
  keys_ok (queued q) → (size (queued q) < fuel)%nat →
  (∃ k, promoted (promote_next q current_nonce) k q (promote_queued_static q current_nonce)) ∧
  promote_loop fuel (promote_next q current_nonce) q = promote_queued_static q current_nonce.
Proof.
  intros Hk Hf. split; [by apply promote_queued_static_spec|]. apply promote_loop_fuel; lia.
Qed.

(** ** Concrete pools

    The environment is the account nonce every sender has. *)

Section Concrete.
#[local] Existing Instance toy_codec.
#[local] Existing Instance toy_codec_ok.
#[local] Instance forward_order : HashIter Z SenderQueue := hash_iter_forward Z SenderQueue.

Definition toy_nonce_fn : Z → Address → Z := λ env _, env.

(** Sender 1 fills nonces 0 to 2 out of order, sender 9 adds one transaction. *)
Definition toy_ops : list (pool_op (Env := Z)) :=
  [OpSetNonceFn toy_nonce_fn; OpSubmit 0 (toy_tx 1 2 7 21); OpSubmit 0 (toy_tx 1 0 5 21);
   OpSubmit 0 (toy_tx 1 1 6 21); OpSubmit 0 (toy_tx 9 0 50 30)].
#[local] Notation toy_pool := (run pool_config_default toy_ops).

Definition pending_nonces (p : EvmTxPool Z) (s : Address) : list Z :=
  match senders (inner p) !! s with Some q => (btree_iter (pending q)).*1 | None => [] end.
Definition queued_nonces (p : EvmTxPool Z) (s : Address) : list Z :=
  match senders (inner p) !! s with Some q => (btree_iter (queued q)).*1 | None => [] end.

Lemma toy_submit_ok env bs : op_ok (OpSubmit (Env := Z) env bs).
Proof.
  intros v. unfold decode_and_recover. cbn [decode_2718 recover_signer toy_codec].
  destruct bs as [|s [|n [|f [|g []]]]]; cbn; try done. intros [= <-]. cbn.
  pose proof (Z_of_byte_range n). unfold nonce_ok. lia.
Qed.

Lemma pool_config_default_limits : limits_ok pool_config_default.
Proof. by vm_compute. Qed.

Lemma toy_ops_ok : Forall op_ok toy_ops.
Proof. unfold toy_ops. repeat (apply Forall_cons_2; [first [apply toy_submit_ok|done]|]). apply Forall_nil_2. Qed.

Lemma pool_index_exact_witness :
  Forall op_ok toy_ops ∧
  index_ok (slot (senders (inner toy_pool))) (by_hash (inner toy_pool)).
Proof. split; [apply toy_ops_ok|apply (pool_index_exact pool_config_default toy_ops), toy_ops_ok]. Defined.

Lemma pool_bounded_witness :
  pending_nonces toy_pool 1 = [0; 1; 2] ∧
  ∃ q, senders (inner toy_pool) !! 1 = Some q ∧ Z.of_nat (size (pending q)) ≤ 128.
Proof.
  split; [by vm_compute|].
  destruct (senders (inner toy_pool) !! 1) as [q|] eqn:Hq.
  - exists q. split; [reflexivity|].
    destruct (pool_bounded pool_config_default toy_ops 1 q) as (_ & Hp & _);
      [apply pool_config_default_limits|exact toy_ops_ok|exact Hq|exact Hp].
  - exfalso. revert Hq. by vm_compute.
Defined.

Lemma pool_size_is_index_witness :
  Forall op_ok toy_ops ∧ pending_count toy_pool + queued_count toy_pool = 4.
Proof.
  split; [apply toy_ops_ok|].
  rewrite (pool_size_is_index pool_config_default toy_ops toy_ops_ok). by vm_compute.
Defined.

Lemma on_commit_evicts_stale_witness :
  Forall op_ok toy_ops ∧ pending_nonces (on_commit toy_pool (λ _, 2)) 1 = [2] ∧
  ∃ e, slot (senders (inner toy_pool)) true 1 2 = Some e ∧
       ∃ b, slot (senders (inner (on_commit toy_pool (λ _, 2)))) b 1 2 = Some e.
Proof.
  split; [apply toy_ops_ok|]. split; [by vm_compute|].
  destruct (slot (senders (inner toy_pool)) true 1 2) as [e|] eqn:He; [|exfalso; revert He; by vm_compute].
  exists e. split; [reflexivity|].
  apply (on_commit_evicts_stale pool_config_default toy_ops (λ _, 2) 1 2 e pool_config_default_limits toy_ops_ok).
  split; [lia|]. exists true. exact He.
Defined.

Lemma collect_payload_wellformed_witness :
  (collect_payload toy_pool 1000 30000000).2 = frame (toy_tx 9 0 50 30) ++ frame (toy_tx 1 0 5 21) ∧
  ∃ chosen, parse_payload (collect_payload toy_pool 1000 30000000).2 = Some (cand_raw <$> chosen).
Proof.
  split; [by vm_compute|].
  destruct (collect_payload_wellformed toy_pool 1000 30000000) as (chosen & Hc & _); [lia|].
  exists chosen. exact Hc.
Defined.

Lemma toy_heads_gas c : is_head (inner toy_pool) c → 0 ≤ candidate_gas (inner toy_pool) c < 2 ^ 63.
Proof.
  intros Hc%candidates_head. revert c Hc. apply Forall_forall.
  apply (bool_decide_unpack _). by vm_compute.
Qed.

Lemma collect_payload_gas_witness :
  ∃ chosen, (collect_payload toy_pool 1000 30000000).2 = concat (frame <$> (cand_raw <$> chosen)) ∧
    sumZ (candidate_gas (inner toy_pool) <$> chosen) ≤ 30000000.
Proof.
  destruct (collect_payload_gas toy_pool 1000 30000000) as (chosen & Hp & _ & Hg);
    [lia|lia|apply toy_heads_gas|]. exists chosen. exact (conj Hp Hg).
Defined.

Lemma collect_payload_removes_witness :
  pending_nonces (collect_payload toy_pool 1000 30000000).1 1 = [1; 2] ∧
  ∃ chosen, (collect_payload toy_pool 1000 30000000).2 = concat (frame <$> (cand_raw <$> chosen)).
Proof.
  split; [by vm_compute|].
  pose proof (collect_payload_removes toy_pool 1000 30000000 ltac:(lia)) as H.
  destruct (collect_payload toy_pool 1000 30000000) as [p' bytes].
  destruct H as (chosen & Hp & _). exists chosen. exact Hp.
Defined.

(** The entry of sender 1 at nonce 2 (tip 7) and a replacement with tip 90. *)
Definition toy_verified (s n tip gas : Z) : VerifiedTx :=
  {| raw := toy_tx s n tip gas; sender := s; vtx_hash := from_le_bytes (toy_tx s n tip gas);
     envelope := toy_envelope (byte_of_Z s) (byte_of_Z n) (byte_of_Z tip) (byte_of_Z gas) |}.

Lemma replacement_needs_bump_witness :
  let e := make_entry pool_config_default (toy_verified 9 0 90 30) in
  ∃ old h, adm_target (inner toy_pool) 0 e !! entry_nonce e = Some old ∧
    (submit_locked pool_config_default (inner toy_pool) 0 e).2 = Ok h ∧ effective_tip old < effective_tip e.
Proof.
  intros e. destruct (adm_target (inner toy_pool) 0 e !! entry_nonce e) as [old|] eqn:Hold;
    [|exfalso; revert Hold; by vm_compute].
  exists old, (entry_hash e). split; [reflexivity|].
  assert ((submit_locked pool_config_default (inner toy_pool) 0 e).2 = Ok (entry_hash e)) as Hok by (by vm_compute).
  split; [exact Hok|].
  assert (effective_tip old = 50) as Htip.
  { assert (effective_tip <$> Some old = Some 50) as E by (rewrite <- Hold; by vm_compute).
    by injection E. }
  apply (replacement_needs_bump pool_config_default (inner toy_pool)
    (submit_locked pool_config_default (inner toy_pool) 0 e).1 0 e old (entry_hash e)); [reflexivity|lia|exact Hold|].
  rewrite <- Hok. apply surjective_pairing.
Defined.


Lemma toy_contiguous : all_queues (λ q, contiguous (pending q)) (inner toy_pool).
Proof.
  assert (map_Forall (λ _ q, (btree_iter (pending q)).*1 = seqZ 0 (Z.of_nat (size (pending q)))) (senders (inner toy_pool)))
    as Hall by (apply (bool_decide_unpack _); by vm_compute).
  intros s q Hq a b c Habc Ha Hc. specialize (Hall s q Hq). simpl in Hall.
  assert (∀ n, is_Some (pending q !! n) ↔ n ∈ (btree_iter (pending q)).*1) as Hdom.
  { intros n. rewrite list_elem_of_fmap. split.
    - intros [e He]. exists (n, e). split; [done|]. by apply elem_of_btree_iter.
    - intros ([n' e] & -> & Hin%elem_of_btree_iter). by exists e. }
  rewrite Hdom, Hall, elem_of_seqZ in *. lia.
Qed.

Lemma pending_contiguous_witness :
  pending_nonces (exec toy_pool (OpSubmit 0 (toy_tx 1 3 1 21))) 1 = [0; 1; 2; 3] ∧
  all_queues (λ q, contiguous (pending q)) (inner (exec toy_pool (OpSubmit 0 (toy_tx 1 3 1 21)))).
Proof.
  split; [by vm_compute|].
  apply (pending_contiguous pool_config_default toy_ops (OpSubmit 0 (toy_tx 1 3 1 21)));
    [exact pool_config_default_limits|exact toy_ops_ok|apply toy_submit_ok|exact toy_contiguous|].
  intros env bytes v [= <- <-] Hv. vm_compute in Hv. injection Hv as <-.
  right. exists 0. split; [apply (bool_decide_unpack _)|]; by vm_compute.
Defined.

Lemma promote_queued_complete_witness :
  let q := {| pending := ∅; queued := {[5 := make_entry pool_config_default (toy_verified 1 5 1 21)]} |} in
  keys_ok (queued q) ∧ promote_loop 7 (promote_next q 5) q = promote_queued_static q 5.
Proof.
  intros q. assert (keys_ok (queued q)) as Hk.
  { unfold q. cbn [queued]. intros n e [<- _]%lookup_singleton_Some. unfold nonce_ok. lia. }
  split; [exact Hk|]. apply (promote_queued_complete q 5 7); [exact Hk|]. vm_compute. lia.
Defined.

(** ** What the pool does not guarantee *)

Definition small_config : EvmTxPoolConfig :=
  {| max_pending_per_sender := 1; max_queued_per_sender := 2; replacement_bump_pct := 10; base_fee := 1000000000 |}.

(** [max_pending_per_sender] does not bound the pending transactions of a
    sender: promotion does not check it.  With limits 1 and 2, submitting the
    nonces 1, 2 and then 0 leaves three pending transactions. *)
Theorem pending_limit_exceeded :
  let p := run small_config [OpSetNonceFn toy_nonce_fn; OpSubmit 0 (toy_tx 1 1 5 21);
                             OpSubmit 0 (toy_tx 1 2 5 21); OpSubmit 0 (toy_tx 1 0 5 21)] in
  ∃ q, senders (inner p) !! 1 = Some q ∧ max_pending_per_sender (config p) < Z.of_nat (size (pending q)).
Proof. eexists. split; by vm_compute. Qed.

(** A sender can hold two transactions with one nonce, one pending and one
    queued: a submission looks for the one to replace only on the side it goes
    to.  Here nonce 5 is queued while the account nonce is 0, the account nonce
    becomes 5, and a second transaction with nonce 5 is accepted as pending. *)
Theorem same_nonce_twice :
  let p := run pool_config_default [OpSetNonceFn toy_nonce_fn; OpSubmit 0 (toy_tx 1 5 5 21);
                                    OpSubmit 5 (toy_tx 1 5 6 21)] in
  pending_nonces p 1 = [5] ∧ queued_nonces p 1 = [5].
Proof. by vm_compute. Qed.

(** Pending nonces are not always contiguous: after two payloads were
    collected without a commit between them, resubmitting the first nonce
    leaves a gap inside [pending]. *)
Theorem pending_gap_after_collect :
  let p := run pool_config_default [OpSetNonceFn toy_nonce_fn; OpSubmit 0 (toy_tx 1 0 5 21);
      OpSubmit 0 (toy_tx 1 1 5 21); OpSubmit 0 (toy_tx 1 2 5 21);
      OpCollect forward_order 1000 0; OpCollect forward_order 1000 0; OpSubmit 0 (toy_tx 1 0 6 21)] in
  pending_nonces p 1 = [0; 2].
Proof. by vm_compute. Qed.

(** The gas budget of a payload is defeated by overflow: a head with gas
    limit [2^64 - 1] wraps the running total and enters a payload whose gas
    limit is 30,000,000 (in a build without overflow checks). *)
Theorem payload_gas_wraps :
  let p := run pool_config_default [OpSetNonceFn toy_nonce_fn; OpSubmit 0 (toy_tx 1 0 50 21);
                                    OpSubmit 0 (toy_tx 9 0 5 255)] in
  (collect_payload p 1000 30000000).2 = frame (toy_tx 1 0 50 21) ++ frame (toy_tx 9 0 5 255) ∧
  sumZ (candidate_gas (inner p) <$> candidates (inner p)) = 21000 + (2 ^ 64 - 1).
Proof. by vm_compute. Qed.

(** A transaction with tip 0 (every legacy transaction has tip 0) can be
    replaced without any bump: the replacement threshold rounds down to 0. *)
Theorem zero_tip_replaced_for_free :
  let p := run pool_config_default [OpSetNonceFn toy_nonce_fn; OpSubmit 0 (toy_tx 1 0 0 21)] in
  (submit_tx p 0 (toy_tx 1 0 0 22)).2 = Ok (from_le_bytes (toy_tx 1 0 0 22)).
Proof. by vm_compute. Qed.
End Concrete.
