(* ===== verification/State.v ===== *)
(** crates/state/src/state.rs: the EVM world state.

    [VsdbStateDb] is the persistent store, [EvmState] the state the executor
    works on: a [CacheDB] over the store, a trie for the state root, the chain
    configuration and recent block hashes.

    The ordered map and the Merkle-Patricia calculator of the vsdb crate and
    the account types of the revm crate are parameters: classes of operations,
    with what the code relies on of them in separate classes of laws. *)
From S2P Require Import Prelude Types.

(** ** vsdb *)

Class Vsdb : Type := {
  (* MapxOrdRawKey<V> *)
  Mapx : Type → Type;
  mapx_new {V} : Mapx V;
  mapx_get {V} : Mapx V → list byte → option V;
  mapx_insert {V} : Mapx V → list byte → V → Mapx V;
  (* MptCalc: insert(&mut self, key, value) and root_hash(&mut self), each
     with the calculator left behind *)
  MptCalc : Type;
  mpt_new : MptCalc;
  mpt_insert : MptCalc → list byte → list byte → MptCalc * result string unit;
  mpt_root_hash : MptCalc → MptCalc * result string (list byte);
}.

(** A [Mapx] is a map; the root of a trie is a function of the key-value pairs
    inserted into it (the empty value, which a trie does not store, apart). *)
Class VsdbOk `{Vsdb} : Type := {
  mapx_get_new V k : mapx_get (@mapx_new _ V) k = None;
  mapx_get_insert V (m : Mapx V) k v k' :
    mapx_get (mapx_insert m k v) k' = if decide (k = k') then Some v else mapx_get m k';
  mpt_content : MptCalc → gmap (list byte) (list byte);
  mpt_content_new : mpt_content mpt_new = ∅;
  mpt_content_insert t k v : v ≠ [] → mpt_content (mpt_insert t k v).1 = <[k := v]> (mpt_content t);
  mpt_content_root t : mpt_content (mpt_root_hash t).1 = mpt_content t;
  mpt_root_content t1 t2 :
    mpt_content t1 = mpt_content t2 → (mpt_root_hash t1).2 = (mpt_root_hash t2).2;
}.

(** ** revm *)

Class Revm : Type := {
  Bytecode : Type;
  new_raw : list byte → Bytecode;      (* Bytecode::new_raw *)
  bytecode_default : Bytecode;         (* Bytecode::default *)
  bytes_slice : Bytecode → list byte;  (* Bytecode::bytes_slice *)
  KECCAK_EMPTY : B256;
  CacheRest : Type;                    (* the fields of CacheDB the code never touches *)
}.

Record AccountInfo `{Revm} := mkInfo {
  info_balance : U256;
  info_nonce : Z;
  info_code_hash : B256;
  info_code : option Bytecode;
}.

(** revm's third field, the account's state tag, is left out: the code never reads
    it. *)
Record DbAccount `{Revm} := mkDbAccount {
  acc_info : AccountInfo;
  acc_storage : gmap Z Z; (* HashMap<U256, U256> *)
}.

(** ** StoredAccount *)

Record StoredAccount := mkStored {
  balance_be : list byte; (* [u8; 32] *)
  st_nonce : Z;
  code_hash : list byte;  (* [u8; 32] *)
}.

Record VsdbStateDb `{Vsdb} := mkVsdb {
  accounts : Mapx StoredAccount;
  contracts : Mapx (list byte);
  storage : Mapx (list byte);
  block_hashes_db : Mapx (list byte);
}.

Record CacheDB `{Vsdb} `{Revm} := mkCacheDB {
  cache_accounts : gmap Z DbAccount; (* cache.accounts : HashMap<Address, DbAccount> *)
  cache_rest : CacheRest;
  cache_db : VsdbStateDb;
}.

(** Values revm builds: [AccountInfo::default], [DbAccount::default] and
    [CacheDB::new]. *)
Class RevmInit `{Vsdb} `{Revm} : Type := {
  info_default : AccountInfo;
  dbaccount_default : DbAccount;
  cachedb_new : VsdbStateDb → CacheDB;
}.

Class RevmOk `{RevmInit} : Prop := {
  info_default_balance : info_balance info_default = 0;
  info_default_nonce : info_nonce info_default = 0;
  info_default_code_hash : info_code_hash info_default = KECCAK_EMPTY;
  dbaccount_default_info : acc_info dbaccount_default = info_default;
  dbaccount_default_storage : acc_storage dbaccount_default = ∅;
  cachedb_new_accounts db : cache_accounts (cachedb_new db) = ∅;
  cachedb_new_db db : cache_db (cachedb_new db) = db;
  KECCAK_EMPTY_range : is_u256 KECCAK_EMPTY;
}.

Section State.
Context `{RevmInit}.

Definition from_info (info : AccountInfo) : StoredAccount := {|
  balance_be := to_be_bytes 32 (info_balance info);
  st_nonce := info_nonce info;
  code_hash := b256_as_slice (info_code_hash info);
|}.

Definition to_info (s : StoredAccount) : AccountInfo := {|
  info_balance := from_be_bytes (balance_be s);
  info_nonce := st_nonce s;
  info_code_hash := from_be_bytes (code_hash s);
  info_code := info_code info_default;
|}.

(** ** VsdbStateDb *)

Definition vsdb_new : VsdbStateDb := {|
  accounts := mapx_new; contracts := mapx_new; storage := mapx_new; block_hashes_db := mapx_new |}.

Definition set_accounts (db : VsdbStateDb) m : VsdbStateDb :=
  mkVsdb _ m (contracts db) (storage db) (block_hashes_db db).

Definition insert_account (db : VsdbStateDb) (addr : Address) (info : AccountInfo) : VsdbStateDb :=
  let db := set_accounts db (mapx_insert (accounts db) (address_as_slice addr) (from_info info)) in
  match info_code info with
  | Some code =>
    let bytes := bytes_slice code in
    match bytes with
    | [] => db
    | _ => mkVsdb _ (accounts db) (mapx_insert (contracts db) (b256_as_slice (info_code_hash info)) bytes)
             (storage db) (block_hashes_db db)
    end
  | None => db
  end.

(** [key[..20] = addr; key[20..] = slot] *)
Definition storage_key (addr : Address) (slot : U256) : list byte :=
  address_as_slice addr ++ to_be_bytes 32 slot.

Definition insert_storage (db : VsdbStateDb) (addr : Address) (slot value : U256) : VsdbStateDb :=
  mkVsdb _ (accounts db) (contracts db)
    (mapx_insert (storage db) (storage_key addr slot) (to_be_bytes 32 value)) (block_hashes_db db).

Definition insert_block_hash (db : VsdbStateDb) (number : Z) (hash : B256) : VsdbStateDb :=
  mkVsdb _ (accounts db) (contracts db) (storage db)
    (mapx_insert (block_hashes_db db) (to_be_bytes 8 number) (b256_as_slice hash)).

Definition vsdb_get_account (db : VsdbStateDb) (addr : Address) : option AccountInfo :=
  to_info <$> mapx_get (accounts db) (address_as_slice addr).

Definition vsdb_get_balance (db : VsdbStateDb) (addr : Address) : U256 :=
  default 0 ((λ s, from_be_bytes (balance_be s)) <$> mapx_get (accounts db) (address_as_slice addr)).

Definition vsdb_get_nonce (db : VsdbStateDb) (addr : Address) : Z :=
  default 0 (st_nonce <$> mapx_get (accounts db) (address_as_slice addr)).

Definition vsdb_get_code (db : VsdbStateDb) (addr : Address) : list byte :=
  match mapx_get (accounts db) (address_as_slice addr) with
  | Some stored =>
    let h := from_be_bytes (code_hash stored) in
    if negb (h =? KECCAK_EMPTY) then default [] (mapx_get (contracts db) (b256_as_slice h)) else []
  | None => []
  end.

Definition vsdb_get_storage (db : VsdbStateDb) (addr : Address) (slot : U256) : U256 :=
  match mapx_get (storage db) (storage_key addr slot) with
  | Some be_bytes => from_be_bytes be_bytes
  | None => 0
  end.

(** The record [set_balance] and [set_nonce] start from for an absent account. *)
Definition stored_empty : StoredAccount := {|
  balance_be := replicate 32 (byte_of_Z 0); st_nonce := 0; code_hash := b256_as_slice KECCAK_EMPTY |}.

Definition vsdb_set_balance (db : VsdbStateDb) (addr : Address) (balance : U256) : VsdbStateDb :=
  let stored := default stored_empty (mapx_get (accounts db) (address_as_slice addr)) in
  set_accounts db (mapx_insert (accounts db) (address_as_slice addr)
    {| balance_be := to_be_bytes 32 balance; st_nonce := st_nonce stored; code_hash := code_hash stored |}).

Definition vsdb_set_nonce (db : VsdbStateDb) (addr : Address) (nonce : Z) : VsdbStateDb :=
  let stored := default stored_empty (mapx_get (accounts db) (address_as_slice addr)) in
  set_accounts db (mapx_insert (accounts db) (address_as_slice addr)
    {| balance_be := balance_be stored; st_nonce := nonce; code_hash := code_hash stored |}).

(** *** impl Database *)

Definition basic (db : VsdbStateDb) (addr : Address) : option AccountInfo :=
  (λ s, let info := to_info s in
        if negb (info_code_hash info =? KECCAK_EMPTY) then
          match mapx_get (contracts db) (b256_as_slice (info_code_hash info)) with
          | Some bytes => {| info_balance := info_balance info; info_nonce := info_nonce info;
                             info_code_hash := info_code_hash info; info_code := Some (new_raw bytes) |}
          | None => info
          end
        else info) <$> mapx_get (accounts db) (address_as_slice addr).

Definition code_by_hash (db : VsdbStateDb) (h : B256) : Bytecode :=
  match mapx_get (contracts db) (b256_as_slice h) with
  | Some bytes => new_raw bytes
  | None => bytecode_default
  end.

Definition db_storage (db : VsdbStateDb) (addr : Address) (index : U256) : U256 :=
  match mapx_get (storage db) (storage_key addr index) with
  | Some be_bytes => from_be_bytes be_bytes
  | None => 0
  end.

Definition db_block_hash (db : VsdbStateDb) (number : Z) : B256 :=
  match mapx_get (block_hashes_db db) (to_be_bytes 8 number) with
  | Some h => from_be_bytes h
  | None => 0
  end.

(** *** impl DatabaseRef *)

Definition basic_ref (db : VsdbStateDb) (addr : Address) : option AccountInfo :=
  (λ s, let info := to_info s in
        if negb (info_code_hash info =? KECCAK_EMPTY) then
          match mapx_get (contracts db) (b256_as_slice (info_code_hash info)) with
          | Some bytes => {| info_balance := info_balance info; info_nonce := info_nonce info;
                             info_code_hash := info_code_hash info; info_code := Some (new_raw bytes) |}
          | None => info
          end
        else info) <$> mapx_get (accounts db) (address_as_slice addr).

Definition code_by_hash_ref (db : VsdbStateDb) (h : B256) : Bytecode :=
  match mapx_get (contracts db) (b256_as_slice h) with
  | Some bytes => new_raw bytes
  | None => bytecode_default
  end.

Definition storage_ref (db : VsdbStateDb) (addr : Address) (index : U256) : U256 :=
  match mapx_get (storage db) (storage_key addr index) with
  | Some be_bytes => from_be_bytes be_bytes
  | None => 0
  end.

Definition block_hash_ref (db : VsdbStateDb) (number : Z) : B256 :=
  match mapx_get (block_hashes_db db) (to_be_bytes 8 number) with
  | Some h => from_be_bytes h
  | None => 0
  end.

(** ** EvmState *)

Record EvmState := mkEvmState {
  db : CacheDB;
  state_trie : MptCalc;
  st_config : EvmChainConfig;
  block_hashes : gmap Z Z; (* BTreeMap<u64, B256> *)
}.

(** [nonce(8) || balance(32) || code_hash(32)] *)
Definition encode_account_leaf (info : AccountInfo) : list byte :=
  to_be_bytes 8 (info_nonce info) ++ to_be_bytes 32 (info_balance info) ++ b256_as_slice (info_code_hash info).

(** The account an allocation of the genesis document describes. *)
Definition genesis_info (alloc : GenesisAlloc) : AccountInfo := {|
  info_balance := alloc_balance alloc;
  info_nonce := alloc_nonce alloc;
  info_code_hash := info_code_hash info_default;
  info_code := match alloc_code alloc with [] => info_code info_default | _ => Some (new_raw (alloc_code alloc)) end;
|}.

Definition genesis_step (acc : VsdbStateDb * MptCalc) (entry : Address * GenesisAlloc) : VsdbStateDb * MptCalc :=
  let '(addr, alloc) := entry in
  let info := genesis_info alloc in
  let db := insert_account acc.1 addr info in
  let db := fold_left (λ db kv, insert_storage db addr kv.1 kv.2) (btree_iter (alloc_storage alloc)) db in
  (db, (mpt_insert acc.2 (address_as_slice addr) (encode_account_leaf info)).1).

Definition from_genesis (genesis : EvmGenesis) : EvmState :=
  let '(vsdb_db, trie) := fold_left genesis_step (btree_iter (genesis_alloc genesis)) (vsdb_new, mpt_new) in
  {| db := cachedb_new vsdb_db;
     state_trie := trie;
     st_config := {|
       chain_id := genesis_chain_id genesis;
       block_gas_limit := genesis_gas_limit genesis;
       base_fee_per_gas := genesis_base_fee_per_gas genesis;
       compat_profile := compat_profile config_default;
       min_base_fee := min_base_fee config_default;
       base_fee_change_denominator := base_fee_change_denominator config_default;
       elasticity_multiplier := elasticity_multiplier config_default |};
     block_hashes := ∅ |}.

(** [arr[..len].copy_from_slice(&root[..len])] into 32 zero bytes *)
Definition state_root (s : EvmState) : EvmState * list byte :=
  let '(trie, r) := mpt_root_hash (state_trie s) in
  let root := match r with Ok bytes => bytes | Err _ => [] end in
  ({| db := db s; state_trie := trie; st_config := st_config s; block_hashes := block_hashes s |},
   take 32 root ++ replicate (32 - length (take 32 root)) (byte_of_Z 0)).

Definition get_balance (s : EvmState) (addr : Address) : U256 :=
  match cache_accounts (db s) !! addr with
  | Some acc => info_balance (acc_info acc)
  | None => vsdb_get_balance (cache_db (db s)) addr
  end.

Definition get_nonce (s : EvmState) (addr : Address) : Z :=
  match cache_accounts (db s) !! addr with
  | Some acc => info_nonce (acc_info acc)
  | None => vsdb_get_nonce (cache_db (db s)) addr
  end.

Definition get_code (s : EvmState) (addr : Address) : list byte :=
  match (acc ← cache_accounts (db s) !! addr; info_code (acc_info acc)) with
  | Some code => bytes_slice code
  | None => vsdb_get_code (cache_db (db s)) addr
  end.

Definition get_storage (s : EvmState) (addr : Address) (slot : U256) : U256 :=
  match (acc ← cache_accounts (db s) !! addr; acc_storage acc !! slot) with
  | Some val => val
  | None => vsdb_get_storage (cache_db (db s)) addr slot
  end.

Definition with_db (s : EvmState) (d : CacheDB) (t : MptCalc) : EvmState :=
  {| db := d; state_trie := t; st_config := st_config s; block_hashes := block_hashes s |}.

(** The common shape of [set_nonce] and [set_balance]: update the cached entry
    (created by default when absent), the store, and the trie leaf. *)
Definition set_account (s : EvmState) (addr : Address) (f : AccountInfo → AccountInfo) (store : VsdbStateDb → VsdbStateDb) : EvmState :=
  let entry := default dbaccount_default (cache_accounts (db s) !! addr) in
  let info := f (acc_info entry) in
  with_db s
    (mkCacheDB _ _ (<[addr := {| acc_info := info; acc_storage := acc_storage entry |}]> (cache_accounts (db s)))
       (cache_rest (db s)) (store (cache_db (db s))))
    (mpt_insert (state_trie s) (address_as_slice addr) (encode_account_leaf info)).1.

Definition set_nonce (s : EvmState) (addr : Address) (nonce : Z) : EvmState :=
  set_account s addr
    (λ info, {| info_balance := info_balance info; info_nonce := nonce;
                info_code_hash := info_code_hash info; info_code := info_code info |})
    (λ d, vsdb_set_nonce d addr nonce).

Definition set_balance (s : EvmState) (addr : Address) (balance : U256) : EvmState :=
  set_account s addr
    (λ info, {| info_balance := balance; info_nonce := info_nonce info;
                info_code_hash := info_code_hash info; info_code := info_code info |})
    (λ d, vsdb_set_balance d addr balance).

Definition record_block_hash (s : EvmState) (number : Z) (hash : B256) : EvmState :=
  let hs := <[number := hash]> (block_hashes s) in
  let d := mkCacheDB _ _ (cache_accounts (db s)) (cache_rest (db s)) (insert_block_hash (cache_db (db s)) number hash) in
  {| db := d; state_trie := state_trie s; st_config := st_config s;
     block_hashes :=
       if (256 <? Z.of_nat (size hs)) then
         match btree_first hs with Some (oldest, _) => delete oldest hs | None => hs end
       else hs |}.

Context `{!HashIter Z DbAccount} `{!HashIter Z Z}.

(** One account of the flush loop. *)
Definition flush_account (acc : VsdbStateDb * MptCalc) (entry : Address * DbAccount) : VsdbStateDb * MptCalc :=
  let '(addr, cached) := entry in
  let info := acc_info cached in
  let d := insert_account acc.1 addr info in
  let d := fold_left (λ d kv, insert_storage d addr kv.1 kv.2) (hash_iter (acc_storage cached)) d in
  (d, (mpt_insert acc.2 (address_as_slice addr) (encode_account_leaf info)).1).

Definition flush_cache_to_vsdb (s : EvmState) : EvmState :=
  let '(d, t) := fold_left flush_account (hash_iter (cache_accounts (db s))) (cache_db (db s), state_trie s) in
  with_db s (mkCacheDB _ _ (cache_accounts (db s)) (cache_rest (db s)) d) t.
End State.
