(* ===== verification/StateModel.v ===== *)
(** A model of the parameters of State.v: the stores as finite maps, the trie
    as the map of its leaves with their concatenation as root, and byte code as
    bytes.  It shows that the laws of the classes are consistent and lets the
    definitions evaluate. *)
From S2P Require Import Prelude Types State.

#[export] Instance map_vsdb : Vsdb := {|
  Mapx V := gmap (list byte) V;
  mapx_new V := ∅;
  mapx_get V m k := m !! k;
  mapx_insert V m k v := <[k := v]> m;
  MptCalc := gmap (list byte) (list byte);
  mpt_new := ∅;
  mpt_insert t k v := (<[k := v]> t, Ok tt);
  mpt_root_hash t := (t, Ok (concat (map_to_list t).*2));
|}.

#[export] Instance map_vsdb_ok : VsdbOk := {|
  mapx_get_new V k := eq_refl;
  mapx_get_insert V (m : Mapx V) k v k' := lookup_insert (m : gmap (list byte) V) k k' v;
  mpt_content := (λ t, t) : @MptCalc map_vsdb → gmap (list byte) (list byte);
  mpt_content_new := eq_refl;
  mpt_content_insert t k v _ := eq_refl;
  mpt_content_root t := eq_refl;
  mpt_root_content t1 t2 E := f_equal (λ t, (mpt_root_hash t).2) E;
|}.

Definition keccak_empty : B256 :=
  0xc5d2460186f7233c927e7db2dcc703c0e500b653ca82273b7bfad8045d85a470.

#[export] Instance byte_revm : Revm := {|
  Bytecode := list byte; new_raw b := b; bytecode_default := []; bytes_slice b := b;
  KECCAK_EMPTY := keccak_empty; CacheRest := unit |}.

#[export] Instance byte_revm_init : RevmInit := {|
  info_default := mkInfo _ 0 0 keccak_empty (Some []);
  dbaccount_default := mkDbAccount _ (mkInfo _ 0 0 keccak_empty (Some [])) ∅;
  cachedb_new d := mkCacheDB _ _ ∅ tt d |}.

#[export] Instance byte_revm_ok : RevmOk.
Proof. split; try done. Qed.
