(* ===== verification/StateLemmas.v ===== *)
(** Lemmas on crates/state/src/state.rs: what the loop that writes accounts to
    the store and the trie ([from_genesis] and [flush_cache_to_vsdb] share it)
    leaves at every key, whatever the order it visits the accounts in. *)
From S2P Require Import Prelude Types State.

Section StateLemmas.
Context {V : Vsdb} {VO : VsdbOk} {R : Revm} {RI : RevmInit} {RO : RevmOk}.

Definition info_wf (i : AccountInfo) : Prop :=
  is_u256 (info_balance i) ∧ is_u64 (info_nonce i) ∧ is_u256 (info_code_hash i).
Definition slots_wf (m : gmap Z Z) : Prop := map_Forall (λ s v, is_u256 s ∧ is_u256 v) m.
Definition cache_wf (m : gmap Z DbAccount) : Prop :=
  map_Forall (λ a acc, is_address a ∧ info_wf (acc_info acc) ∧ slots_wf (acc_storage acc)) m.

(** ** Encodings *)

Lemma storage_key_inj a s a' s' :
  is_address a → is_address a' → is_u256 s → is_u256 s' →
  storage_key a s = storage_key a' s' → a = a' ∧ s = s'.
Proof.
  intros Ha Ha' Hs Hs' E. unfold storage_key in E.
  apply app_inj_1 in E as [E1 E2]; [|by rewrite !length_address_as_slice].
  split; [by apply address_as_slice_inj|by apply (to_be_bytes_inj 32 256)].
Qed.

Lemma length_encode_account_leaf i : length (encode_account_leaf i) = 72%nat.
Proof. unfold encode_account_leaf, b256_as_slice. by rewrite !length_app, !length_to_be_bytes. Qed.

Lemma encode_account_leaf_ne i : encode_account_leaf i ≠ [].
Proof. intros E. pose proof (length_encode_account_leaf i). by rewrite E in *. Qed.

Lemma encode_account_leaf_inj i j :
  info_wf i → info_wf j → encode_account_leaf i = encode_account_leaf j →
  info_nonce i = info_nonce j ∧ info_balance i = info_balance j ∧ info_code_hash i = info_code_hash j.
Proof.
  intros (Hb & Hn & Hc) (Hb' & Hn' & Hc') E. unfold encode_account_leaf in E.
  apply app_inj_1 in E as [En E]; [|by rewrite !length_to_be_bytes].
  apply app_inj_1 in E as [Eb Ec]; [|by rewrite !length_to_be_bytes].
  split_and!; [by apply (to_be_bytes_inj 8 64)|by apply (to_be_bytes_inj 32 256)|by apply b256_as_slice_inj].
Qed.

Lemma to_from_info i :
  info_wf i →
  info_balance (to_info (from_info i)) = info_balance i ∧
  info_nonce (to_info (from_info i)) = info_nonce i ∧
  info_code_hash (to_info (from_info i)) = info_code_hash i.
Proof.
  intros (Hb & Hn & Hc). simpl. split_and!; [|done|].
  - by apply (from_to_be_bytes_id 32 256).
  - by apply (from_to_be_bytes_id 32 256).
Qed.

(** The leaf of a stored account, as the trie would hold it. *)
Definition stored_leaf (s : StoredAccount) : list byte :=
  to_be_bytes 8 (st_nonce s) ++ balance_be s ++ code_hash s.

Lemma stored_leaf_from_info i : stored_leaf (from_info i) = encode_account_leaf i.
Proof. done. Qed.

(** ** The writing loop *)

Notation entry := (Z * (AccountInfo * list (Z * Z)))%type.

Definition write_slots (d : VsdbStateDb) (addr : Address) (l : list (Z * Z)) : VsdbStateDb :=
  fold_left (λ d kv, insert_storage d addr kv.1 kv.2) l d.
Definition write_account (acc : VsdbStateDb * MptCalc) (e : entry) : VsdbStateDb * MptCalc :=
  (write_slots (insert_account acc.1 e.1 e.2.1) e.1 e.2.2,
   (mpt_insert acc.2 (address_as_slice e.1) (encode_account_leaf e.2.1)).1).
Definition write_all (l : list entry) (acc : VsdbStateDb * MptCalc) : VsdbStateDb * MptCalc :=
  fold_left write_account l acc.

Lemma write_slots_rest d addr l :
  accounts (write_slots d addr l) = accounts d ∧ contracts (write_slots d addr l) = contracts d ∧
  block_hashes_db (write_slots d addr l) = block_hashes_db d.
Proof. unfold write_slots. revert d. induction l as [|kv l IH]; intros d; simpl; [done|]. by destruct (IH (insert_storage d addr kv.1 kv.2)) as (-> & -> & ->). Qed.

Lemma write_slots_other d addr l k :
  Forall (λ kv, storage_key addr kv.1 ≠ k) l →
  mapx_get (storage (write_slots d addr l)) k = mapx_get (storage d) k.
Proof.
  unfold write_slots. intros Hl. revert d. induction Hl as [|kv l Hkv Hl IH]; intros d; simpl; [done|].
  rewrite IH. simpl. rewrite mapx_get_insert. by case_decide.
Qed.

Lemma write_slots_hit d addr l s v :
  is_address addr → Forall (λ kv, is_u256 kv.1) l → NoDup l.*1 → (s, v) ∈ l →
  mapx_get (storage (write_slots d addr l)) (storage_key addr s) = Some (to_be_bytes 32 v).
Proof.
  intros Ha Hl Hnd Hin. unfold write_slots. revert d.
  induction Hl as [|[s' v'] l Hkv Hl IH]; intros d; [by apply not_elem_of_nil in Hin|].
  apply NoDup_cons in Hnd as [Hs' Hnd]. simpl.
  apply elem_of_cons in Hin as [[= -> ->]|Hin]; [|by apply IH].
  fold (write_slots (insert_storage d addr s' v') addr l). rewrite write_slots_other.
  - simpl. rewrite mapx_get_insert. by rewrite decide_True.
  - apply Forall_forall. intros [s0 v0] Hin0 E. rewrite Forall_forall in Hl. specialize (Hl _ Hin0).
    apply storage_key_inj in E as [_ E]; [|done..]. simpl in *. subst.
    apply Hs', list_elem_of_fmap. by exists (s', v0).
Qed.

Lemma insert_account_accounts d addr i :
  accounts (insert_account d addr i) = mapx_insert (accounts d) (address_as_slice addr) (from_info i).
Proof. unfold insert_account. destruct (info_code i) as [c|]; [by destruct (bytes_slice c)|done]. Qed.

Lemma insert_account_storage d addr i :
  storage (insert_account d addr i) = storage d ∧ block_hashes_db (insert_account d addr i) = block_hashes_db d.
Proof. unfold insert_account. destruct (info_code i) as [c|]; [by destruct (bytes_slice c)|done]. Qed.

(** What one account leaves in the accounts map and the trie. *)
Lemma write_account_lookup acc e k :
  mapx_get (accounts (write_account acc e).1) k =
    (if decide (address_as_slice e.1 = k) then Some (from_info e.2.1) else mapx_get (accounts acc.1) k) ∧
  mpt_content (write_account acc e).2 !! k =
    (if decide (address_as_slice e.1 = k) then Some (encode_account_leaf e.2.1) else mpt_content acc.2 !! k).
Proof.
  unfold write_account. simpl. rewrite (proj1 (write_slots_rest _ _ _)), insert_account_accounts.
  rewrite mapx_get_insert, mpt_content_insert by apply encode_account_leaf_ne. split; [done|].
  case_decide; [subst; by rewrite lookup_insert_eq|by rewrite lookup_insert_ne].
Qed.

Lemma write_all_other l acc k :
  Forall (λ e : entry, address_as_slice e.1 ≠ k) l →
  mapx_get (accounts (write_all l acc).1) k = mapx_get (accounts acc.1) k ∧
  mpt_content (write_all l acc).2 !! k = mpt_content acc.2 !! k.
Proof.
  unfold write_all. intros Hl. revert acc. induction Hl as [|e l He Hl IH]; intros acc; [done|].
  cbn [fold_left]. destruct (IH (write_account acc e)) as [-> ->].
  destruct (write_account_lookup acc e k) as [-> ->]. by rewrite !decide_False.
Qed.

Lemma write_all_hit l acc addr i slots :
  Forall (λ e : entry, is_address e.1) l → NoDup l.*1 → (addr, (i, slots)) ∈ l →
  mapx_get (accounts (write_all l acc).1) (address_as_slice addr) = Some (from_info i) ∧
  mpt_content (write_all l acc).2 !! address_as_slice addr = Some (encode_account_leaf i).
Proof.
  unfold write_all. intros Hl Hnd Hin. revert acc.
  induction Hl as [|e l He Hl IH]; intros acc; [by apply not_elem_of_nil in Hin|].
  apply NoDup_cons in Hnd as [Hfresh Hnd]. cbn [fold_left].
  apply elem_of_cons in Hin as [<-|Hin]; [|by apply IH].
  destruct (write_all_other l (write_account acc (addr, (i, slots))) (address_as_slice addr)) as [E1 E2].
  - apply Forall_forall. intros e Hin E. rewrite Forall_forall in Hl. specialize (Hl _ Hin).
    apply address_as_slice_inj in E; [|done..]. simpl in Hfresh. apply Hfresh.
    apply list_elem_of_fmap. by exists e.
  - unfold write_all in *. rewrite E1, E2.
    destruct (write_account_lookup acc (addr, (i, slots)) (address_as_slice addr)) as [-> ->].
    by rewrite !decide_True.
Qed.

(** The same for storage slots. *)
Lemma write_account_storage acc e :
  storage (write_account acc e).1 = storage (write_slots acc.1 e.1 e.2.2).
Proof.
  unfold write_account, write_slots. simpl.
  destruct (insert_account_storage acc.1 e.1 e.2.1) as [E _]. revert E.
  generalize (insert_account acc.1 e.1 e.2.1) as d. generalize acc.1 as d'.
  induction e.2.2 as [|kv l IH]; intros d' d E; simpl; [done|]. apply IH. simpl. by rewrite E.
Qed.

Lemma write_all_storage_other l acc k :
  Forall (λ e : entry, Forall (λ kv, storage_key e.1 kv.1 ≠ k) e.2.2) l →
  mapx_get (storage (write_all l acc).1) k = mapx_get (storage acc.1) k.
Proof.
  unfold write_all. intros Hl. revert acc. induction Hl as [|e l He Hl IH]; intros acc; [done|].
  cbn [fold_left]. rewrite IH, write_account_storage. by apply write_slots_other.
Qed.

Lemma write_all_storage_hit l acc addr i slots s v :
  Forall (λ e : entry, is_address e.1 ∧ Forall (λ kv, is_u256 kv.1) e.2.2 ∧ NoDup e.2.2.*1) l →
  NoDup l.*1 → (addr, (i, slots)) ∈ l → (s, v) ∈ slots →
  mapx_get (storage (write_all l acc).1) (storage_key addr s) = Some (to_be_bytes 32 v).
Proof.
  unfold write_all. intros Hl Hnd Hin Hs. revert acc.
  induction Hl as [|e l He Hl IH]; intros acc; [by apply not_elem_of_nil in Hin|].
  apply NoDup_cons in Hnd as [Hfresh Hnd]. cbn [fold_left].
  apply elem_of_cons in Hin as [<-|Hin]; [|by apply IH]. simpl in *. destruct He as (Ha & Hu & Hn).
  pose proof (write_all_storage_other l (write_account acc (addr, (i, slots))) (storage_key addr s)) as E.
  unfold write_all in E. rewrite E.
  - rewrite write_account_storage. by apply write_slots_hit.
  - apply Forall_forall. intros e Hin. rewrite Forall_forall in Hl. destruct (Hl _ Hin) as (Ha' & Hu' & _).
    rewrite Forall_forall in Hu, Hu' |- *. intros kv Hkv Ek.
    apply storage_key_inj in Ek as [Ea _]; [|done|done|by apply Hu'|by apply (Hu _ Hs)].
    apply Hfresh, list_elem_of_fmap. by exists e.
Qed.

(** ** Contract code

    [codes] maps a code hash to the code it is the hash of. *)

Definition contracts_ok (codes : B256 → list byte) (d : VsdbStateDb) : Prop :=
  ∀ h b, is_u256 h → mapx_get (contracts d) (b256_as_slice h) = Some b → b = codes h.
Definition info_code_ok (codes : B256 → list byte) (i : AccountInfo) : Prop :=
  is_u256 (info_code_hash i) ∧ ∀ c, info_code i = Some c → bytes_slice c = codes (info_code_hash i).

Lemma insert_account_contracts d addr i k :
  mapx_get (contracts (insert_account d addr i)) k =
    match info_code i with
    | Some c => if decide (bytes_slice c ≠ [] ∧ b256_as_slice (info_code_hash i) = k)
                then Some (bytes_slice c) else mapx_get (contracts d) k
    | None => mapx_get (contracts d) k
    end.
Proof.
  unfold insert_account. destruct (info_code i) as [c|]; [|done].
  destruct (bytes_slice c) as [|b bs]; [by rewrite decide_False by (intros [? _]; done)|].
  cbn. rewrite mapx_get_insert. do 2 case_decide; naive_solver.
Qed.

Lemma write_account_contracts acc e :
  contracts (write_account acc e).1 = contracts (insert_account acc.1 e.1 e.2.1).
Proof. apply write_slots_rest. Qed.

Lemma write_all_contracts_ok codes l acc :
  Forall (λ e : entry, info_code_ok codes e.2.1) l → contracts_ok codes acc.1 →
  contracts_ok codes (write_all l acc).1.
Proof.
  unfold write_all. intros Hl. revert acc. induction Hl as [|e l [Hh He] Hl IH]; intros acc Hc; [done|].
  apply IH. intros h b Hh'. rewrite write_account_contracts, insert_account_contracts.
  destruct (info_code e.2.1) as [c|]; [|by apply Hc]. case_decide as Hd; [|by apply Hc].
  intros [= <-]. destruct Hd as [_ E]. apply b256_as_slice_inj in E as <-; [|done..]. by apply He.
Qed.

Lemma write_all_contracts_mono l acc k :
  is_Some (mapx_get (contracts acc.1) k) → is_Some (mapx_get (contracts (write_all l acc).1) k).
Proof.
  unfold write_all. revert acc. induction l as [|e l IH]; intros acc Hc; [done|].
  apply IH. rewrite write_account_contracts, insert_account_contracts.
  destruct (info_code e.2.1) as [c|]; [case_decide|]; eauto.
Qed.

Lemma write_all_contracts_hit l acc a i slots c :
  (a, (i, slots)) ∈ l → info_code i = Some c → bytes_slice c ≠ [] →
  is_Some (mapx_get (contracts (write_all l acc).1) (b256_as_slice (info_code_hash i))).
Proof.
  intros (l1 & l2 & ->)%list_elem_of_split Hc Hne. unfold write_all. rewrite fold_left_app.
  cbn [fold_left]. apply (write_all_contracts_mono l2). rewrite write_account_contracts, insert_account_contracts.
  cbn. rewrite Hc, decide_True by done. eauto.
Qed.

(** ** The loop over the entries of a map *)

Section WriteMap.
Context {X : Type} (fi : X → AccountInfo) (fs : X → gmap Z Z).
Context (it : gmap Z Z → list (Z * Z)) (Hit : ∀ m, it m ≡ₚ map_to_list m).
Context (M : gmap Z X) (l : list (Z * X)) (Hperm : l ≡ₚ map_to_list M).
Context (Hwf : map_Forall (λ a x, is_address a ∧ slots_wf (fs x)) M).

Definition entries : list entry := (λ kv, (kv.1, (fi kv.2, it (fs kv.2)))) <$> l.

Lemma elem_of_entries a i slots :
  (a, (i, slots)) ∈ entries ↔ ∃ x, M !! a = Some x ∧ i = fi x ∧ slots = it (fs x).
Proof.
  unfold entries. rewrite list_elem_of_fmap. setoid_rewrite Hperm. split.
  - intros ([a' x] & [= -> -> ->] & Hin%elem_of_map_to_list). eauto.
  - intros (x & Hx & -> & ->). exists (a, x). split; [done|]. by apply elem_of_map_to_list.
Qed.

Lemma entries_NoDup : NoDup entries.*1.
Proof.
  unfold entries. rewrite <- list_fmap_compose, Hperm. apply NoDup_fst_map_to_list.
Qed.

Lemma entries_wf :
  Forall (λ e : entry, is_address e.1 ∧ Forall (λ kv, is_u256 kv.1) e.2.2 ∧ NoDup e.2.2.*1) entries.
Proof.
  apply Forall_forall. intros (a & i & slots) (x & Hx & -> & ->)%elem_of_entries. simpl.
  destruct (Hwf a x Hx) as [Ha Hs]. split_and!; [done|..].
  - rewrite Hit. apply Forall_forall. intros [s v] Hin%elem_of_map_to_list. by apply (Hs s v).
  - rewrite Hit. apply NoDup_fst_map_to_list.
Qed.

Lemma entries_address : Forall (λ e : entry, is_address e.1) entries.
Proof. eapply Forall_impl; [apply entries_wf|]. by intros e (? & _). Qed.

Lemma write_map_lookup acc addr :
  is_address addr →
  mapx_get (accounts (write_all entries acc).1) (address_as_slice addr) =
    (match M !! addr with
     | Some x => Some (from_info (fi x))
     | None => mapx_get (accounts acc.1) (address_as_slice addr)
     end) ∧
  mpt_content (write_all entries acc).2 !! address_as_slice addr =
    (match M !! addr with
     | Some x => Some (encode_account_leaf (fi x))
     | None => mpt_content acc.2 !! address_as_slice addr
     end).
Proof.
  intros Ha. destruct (M !! addr) as [x|] eqn:Hx.
  - eapply write_all_hit; [apply entries_address|apply entries_NoDup|].
    apply elem_of_entries. eauto.
  - apply write_all_other, Forall_forall. intros (a & i & slots) Hin E.
    pose proof entries_address as Had. rewrite Forall_forall in Had. specialize (Had _ Hin).
    apply address_as_slice_inj in E; [|done..]. simpl in E. subst a.
    apply elem_of_entries in Hin as (x & ? & _). congruence.
Qed.

Lemma write_map_other acc k :
  (∀ a, is_Some (M !! a) → address_as_slice a ≠ k) →
  mpt_content (write_all entries acc).2 !! k = mpt_content acc.2 !! k.
Proof.
  intros Hk. apply write_all_other, Forall_forall.
  intros (a & i & slots) (x & Hx & _)%elem_of_entries. by apply Hk.
Qed.

Lemma write_map_storage acc addr s :
  is_address addr → is_u256 s →
  mapx_get (storage (write_all entries acc).1) (storage_key addr s) =
    (match (x ← M !! addr; fs x !! s) with
     | Some v => Some (to_be_bytes 32 v)
     | None => mapx_get (storage acc.1) (storage_key addr s)
     end).
Proof.
  intros Ha Hs. destruct (x ← M !! addr; fs x !! s) as [v|] eqn:Hv.
  - apply bind_Some in Hv as (x & Hx & Hv).
    eapply write_all_storage_hit; [apply entries_wf|apply entries_NoDup|apply elem_of_entries; eauto|].
    rewrite Hit. by apply elem_of_map_to_list.
  - apply write_all_storage_other, Forall_forall. intros (a & i & slots) Hin.
    apply elem_of_entries in Hin as (x & Hx & -> & ->). simpl. apply Forall_forall. intros [s' v'] Hin E.
    rewrite Hit in Hin. apply elem_of_map_to_list in Hin. destruct (Hwf a x Hx) as [Ha' Hs'].
    apply storage_key_inj in E as [E1 E2]; [|done|done|by apply (Hs' _ _ Hin)|done].
    simpl in *. subst. rewrite Hx in Hv. simpl in Hv. congruence.
Qed.
End WriteMap.

(** A trie key is the address of an entry of the map, or of none. *)
Lemma slice_of_map {X} (M : gmap Z X) k :
  (∃ a x, M !! a = Some x ∧ k = address_as_slice a) ∨ (∀ a, is_Some (M !! a) → address_as_slice a ≠ k).
Proof.
  destruct (decide (Exists (λ a, address_as_slice a = k) (map_to_list M).*1)) as [He|Hne]; [left|right].
  - apply Exists_exists in He as (a & ([a' x] & -> & Hx%elem_of_map_to_list)%list_elem_of_fmap & <-). eauto.
  - intros a [x Hx] E. apply Hne, Exists_exists. exists a. split; [|done].
    apply list_elem_of_fmap. exists (a, x). split; [done|]. by apply elem_of_map_to_list.
Qed.

(** The root is a function of the content. *)
Lemma state_root_content s1 s2 :
  mpt_content (state_trie s1) = mpt_content (state_trie s2) → (state_root s1).2 = (state_root s2).2.
Proof.
  intros E%mpt_root_content. unfold state_root.
  by destruct (mpt_root_hash (state_trie s1)), (mpt_root_hash (state_trie s2)); simpl in *; subst.
Qed.

(** The trie does not depend on the order the map is visited in. *)
Lemma write_map_trie_order {X} (fi : X → AccountInfo) (fs : X → gmap Z Z) it1 it2 (M : gmap Z X) l1 l2 acc :
  (∀ m, it1 m ≡ₚ map_to_list m) → (∀ m, it2 m ≡ₚ map_to_list m) →
  l1 ≡ₚ map_to_list M → l2 ≡ₚ map_to_list M →
  map_Forall (λ a x, is_address a ∧ slots_wf (fs x)) M →
  mpt_content (write_all (entries fi fs it1 l1) acc).2 = mpt_content (write_all (entries fi fs it2 l2) acc).2.
Proof.
  intros Hi1 Hi2 Hl1 Hl2 Hwf. apply map_eq. intros k.
  destruct (slice_of_map M k) as [(a & x & Hx & ->)|Hk].
  - destruct (Hwf a x Hx) as [Ha _].
    by rewrite (proj2 (write_map_lookup fi fs it1 Hi1 M l1 Hl1 Hwf acc a Ha)),
      (proj2 (write_map_lookup fi fs it2 Hi2 M l2 Hl2 Hwf acc a Ha)).
  - by rewrite (write_map_other fi fs it1 M l1 Hl1 acc k Hk), (write_map_other fi fs it2 M l2 Hl2 acc k Hk).
Qed.

(** ** The two loops of the code *)

Lemma fold_genesis_step l acc :
  fold_left genesis_step l acc = write_all (entries genesis_info alloc_storage btree_iter l) acc.
Proof.
  unfold write_all. revert acc. induction l as [|[a x] l IH]; intros acc; [done|]. apply IH.
Qed.

Lemma fold_flush_account `{!HashIter Z DbAccount} `{!HashIter Z Z} l acc :
  fold_left flush_account l acc = write_all (entries acc_info acc_storage hash_iter l) acc.
Proof.
  unfold write_all. revert acc. induction l as [|[a x] l IH]; intros acc; [done|]. apply IH.
Qed.

Lemma cache_wf_entries m :
  cache_wf m → map_Forall (λ a acc, is_address a ∧ slots_wf (acc_storage acc)) m.
Proof. intros Hm a acc Ha. by destruct (Hm a acc Ha) as (? & ? & ?). Qed.

Lemma genesis_wf_entries g :
  genesis_wf g → map_Forall (λ a x, is_address a ∧ slots_wf (alloc_storage x)) (genesis_alloc g).
Proof. intros Hm a x Ha. by destruct (Hm a x Ha) as (? & ? & ? & ?). Qed.
End StateLemmas.
