(* ===== verification/StateProps.v ===== *)
(** Correctness of crates/state/src/state.rs. *)
From S2P Require Import Prelude Types State StateModel StateLemmas.

Section StateProps.
Context {V : Vsdb} {VO : VsdbOk} {R : Revm} {RI : RevmInit} {RO : RevmOk}.

(** ** Two readers of one store *)

(** The EVM reads the store through [Database] (or [DatabaseRef]), the node's
    queries through the getters: both see the same balance, nonce, storage and
    code, and a code lookup by the account's hash finds the account's code. *)
Theorem database_agrees d a slot :
  basic_ref d a = basic d a ∧ storage_ref d a slot = db_storage d a slot ∧
  vsdb_get_balance d a = default 0 (info_balance <$> basic d a) ∧
  vsdb_get_nonce d a = default 0 (info_nonce <$> basic d a) ∧
  vsdb_get_storage d a slot = db_storage d a slot ∧
  (∀ info, basic d a = Some info → info_code_hash info ≠ KECCAK_EMPTY → vsdb_get_code d a ≠ [] →
     info_code info = Some (new_raw (vsdb_get_code d a)) ∧
     code_by_hash_ref d (info_code_hash info) = new_raw (vsdb_get_code d a)).
Proof.
  split_and!; [done|done|..].
  - unfold vsdb_get_balance, basic. destruct (mapx_get (accounts d) _) as [st|]; [|done]. simpl. by repeat case_match.
  - unfold vsdb_get_nonce, basic. destruct (mapx_get (accounts d) _) as [st|]; [|done]. simpl. by repeat case_match.
  - done.
  - intros info. unfold basic, vsdb_get_code, code_by_hash_ref.
    destruct (mapx_get (accounts d) _) as [st|]; [|done]. cbn [fmap option_fmap option_map]. intros [= <-]. simpl.
    destruct (Z.eqb_spec (from_be_bytes (code_hash st)) KECCAK_EMPTY) as [E|Hne]; simpl; [by rewrite E|].
    destruct (mapx_get (contracts d) (b256_as_slice (from_be_bytes (code_hash st)))) as [bytes|] eqn:Hb; simpl; [|done].
    by rewrite Hb.
Qed.

(** ** Genesis *)

Lemma from_genesis_db g :
  cache_accounts (db (from_genesis g)) = ∅ ∧
  cache_db (db (from_genesis g)) =
    (write_all (entries genesis_info alloc_storage btree_iter (btree_iter (genesis_alloc g))) (vsdb_new, mpt_new)).1 ∧
  state_trie (from_genesis g) =
    (write_all (entries genesis_info alloc_storage btree_iter (btree_iter (genesis_alloc g))) (vsdb_new, mpt_new)).2.
Proof.
  unfold from_genesis. rewrite fold_genesis_step. destruct (write_all _ _) as [d t]. simpl.
  by rewrite cachedb_new_accounts, cachedb_new_db.
Qed.

Lemma genesis_reads g addr slot :
  genesis_wf g → is_address addr → is_u256 slot →
  get_balance (from_genesis g) addr = default 0 (alloc_balance <$> genesis_alloc g !! addr) ∧
  get_nonce (from_genesis g) addr = default 0 (alloc_nonce <$> genesis_alloc g !! addr) ∧
  get_storage (from_genesis g) addr slot = default 0 (a ← genesis_alloc g !! addr; alloc_storage a !! slot) ∧
  mpt_content (state_trie (from_genesis g)) !! address_as_slice addr =
    (λ a, encode_account_leaf (genesis_info a)) <$> genesis_alloc g !! addr.
Proof.
  intros Hwf Ha Hs. destruct (from_genesis_db g) as (Ec & Ed & Et).
  pose proof (genesis_wf_entries g Hwf) as He.
  destruct (write_map_lookup genesis_info alloc_storage btree_iter btree_iter_perm _ _
    (btree_iter_perm (genesis_alloc g)) He (vsdb_new, mpt_new) addr Ha) as [Eacc Etrie].
  pose proof (write_map_storage genesis_info alloc_storage btree_iter btree_iter_perm _ _
    (btree_iter_perm (genesis_alloc g)) He (vsdb_new, mpt_new) addr slot Ha Hs) as Est.
  unfold get_balance, get_nonce, get_storage, vsdb_get_balance, vsdb_get_nonce, vsdb_get_storage.
  rewrite Ec, Ed, Et, lookup_empty. simpl. rewrite Eacc, Etrie, Est. simpl.
  rewrite !mapx_get_new, mpt_content_new, lookup_empty.
  destruct (genesis_alloc g !! addr) as [a|] eqn:Hg; simpl; [|done].
  destruct (Hwf addr a Hg) as (_ & Hb & _ & Hst). split_and!; [|done| |done].
  - by apply (from_to_be_bytes_id 32 256).
  - destruct (alloc_storage a !! slot) as [v|] eqn:Hv; simpl; [|done].
    apply (from_to_be_bytes_id 32 256); [done|]. by apply (Hst slot v).
Qed.

(** The state built from a genesis document reads back as the document:
    every address has the balance and the nonce of its allocation (zero when it
    has none), every slot the value of the allocation's storage (zero when
    absent), and the trie holds exactly one leaf per allocation. *)
Theorem genesis_readable g addr slot :
  genesis_wf g → is_address addr → is_u256 slot →
  get_balance (from_genesis g) addr = default 0 (alloc_balance <$> genesis_alloc g !! addr) ∧
  get_nonce (from_genesis g) addr = default 0 (alloc_nonce <$> genesis_alloc g !! addr) ∧
  get_storage (from_genesis g) addr slot = default 0 (a ← genesis_alloc g !! addr; alloc_storage a !! slot) ∧
  mpt_content (state_trie (from_genesis g)) !! address_as_slice addr =
    (λ a, encode_account_leaf (genesis_info a)) <$> genesis_alloc g !! addr.
Proof. apply genesis_reads. Qed.

(** The code of a genesis allocation is not readable: the account is stored
    with the hash of empty code, which [get_code] takes to mean no code. *)
Theorem genesis_code_lost g addr :
  genesis_wf g → is_address addr → get_code (from_genesis g) addr = [].
Proof.
  intros Hwf Ha. destruct (from_genesis_db g) as (Ec & Ed & _).
  destruct (write_map_lookup genesis_info alloc_storage btree_iter btree_iter_perm _ _
    (btree_iter_perm (genesis_alloc g)) (genesis_wf_entries g Hwf) (vsdb_new, mpt_new) addr Ha) as [Eacc _].
  unfold get_code, vsdb_get_code. rewrite Ec, Ed, lookup_empty. simpl. rewrite Eacc. simpl.
  rewrite mapx_get_new. destruct (genesis_alloc g !! addr) as [a|]; [|done]. simpl.
  rewrite (from_to_be_bytes_id 32 256), info_default_code_hash, Z.eqb_refl; [done..|].
  rewrite info_default_code_hash. apply KECCAK_EMPTY_range.
Qed.

(** ** flush_cache_to_vsdb *)

Section Flush.
Context {IA : HashIter Z DbAccount} {IS : HashIter Z Z}.

Lemma flush_db s :
  cache_accounts (db (flush_cache_to_vsdb s)) = cache_accounts (db s) ∧
  cache_db (db (flush_cache_to_vsdb s)) =
    (write_all (entries acc_info acc_storage hash_iter (hash_iter (cache_accounts (db s))))
       (cache_db (db s), state_trie s)).1 ∧
  state_trie (flush_cache_to_vsdb s) =
    (write_all (entries acc_info acc_storage hash_iter (hash_iter (cache_accounts (db s))))
       (cache_db (db s), state_trie s)).2.
Proof.
  unfold flush_cache_to_vsdb. rewrite fold_flush_account. by destruct (write_all _ _) as [d t].
Qed.

Lemma flush_accounts s addr :
  cache_wf (cache_accounts (db s)) → is_address addr →
  mapx_get (accounts (cache_db (db (flush_cache_to_vsdb s)))) (address_as_slice addr) =
    (match cache_accounts (db s) !! addr with
     | Some acc => Some (from_info (acc_info acc))
     | None => mapx_get (accounts (cache_db (db s))) (address_as_slice addr)
     end) ∧
  mpt_content (state_trie (flush_cache_to_vsdb s)) !! address_as_slice addr =
    (match cache_accounts (db s) !! addr with
     | Some acc => Some (encode_account_leaf (acc_info acc))
     | None => mpt_content (state_trie s) !! address_as_slice addr
     end).
Proof.
  intros Hwf Ha. destruct (flush_db s) as (_ & -> & ->).
  apply (write_map_lookup acc_info acc_storage hash_iter hash_iter_perm _ _
    (hash_iter_perm _) (cache_wf_entries _ Hwf) (cache_db (db s), state_trie s) addr Ha).
Qed.

Lemma flush_storage s addr slot :
  cache_wf (cache_accounts (db s)) → is_address addr → is_u256 slot →
  vsdb_get_storage (cache_db (db (flush_cache_to_vsdb s))) addr slot = get_storage s addr slot.
Proof.
  intros Hwf Ha Hs. unfold vsdb_get_storage, get_storage. destruct (flush_db s) as (_ & -> & _).
  rewrite (write_map_storage acc_info acc_storage hash_iter hash_iter_perm _ _
    (hash_iter_perm _) (cache_wf_entries _ Hwf) (cache_db (db s), state_trie s) addr slot Ha Hs).
  destruct (acc ← cache_accounts (db s) !! addr; acc_storage acc !! slot) as [v|] eqn:Hv; [|done].
  apply bind_Some in Hv as (acc & Hacc & Hv). destruct (Hwf _ _ Hacc) as (_ & _ & Hst).
  apply (from_to_be_bytes_id 32 256); [done|]. by apply (Hst slot v).
Qed.

(** C12. After a flush the store alone answers what the state answered before
    it: dropping the cache loses no balance, nonce or storage slot, of cached
    and uncached accounts alike, and the state itself answers the same. *)
Theorem flush_persists s addr slot :
  cache_wf (cache_accounts (db s)) → is_address addr → is_u256 slot →
  let s' := flush_cache_to_vsdb s in
  (vsdb_get_balance (cache_db (db s')) addr = get_balance s addr ∧
   vsdb_get_nonce (cache_db (db s')) addr = get_nonce s addr ∧
   vsdb_get_storage (cache_db (db s')) addr slot = get_storage s addr slot) ∧
  (get_balance s' addr = get_balance s addr ∧ get_nonce s' addr = get_nonce s addr ∧
   get_storage s' addr slot = get_storage s addr slot).
Proof.
  intros Hwf Ha Hs s'. destruct (flush_accounts s addr Hwf Ha) as [Eacc _].
  pose proof (flush_storage s addr slot Hwf Ha Hs) as Est.
  assert (vsdb_get_balance (cache_db (db s')) addr = get_balance s addr ∧
          vsdb_get_nonce (cache_db (db s')) addr = get_nonce s addr) as [Eb En].
  { unfold vsdb_get_balance, vsdb_get_nonce, get_balance, get_nonce. subst s'. rewrite Eacc.
    destruct (cache_accounts (db s) !! addr) as [acc|] eqn:Hacc; [|done]. simpl. split; [|done].
    destruct (Hwf _ _ Hacc) as (_ & (Hb & _) & _). by apply (from_to_be_bytes_id 32 256). }
  split; [done|]. unfold get_balance at 1, get_nonce at 1, get_storage at 1.
  fold s' in Est. rewrite Eb, En, Est. destruct (flush_db s) as (Ec & _). subst s'. rewrite Ec.
  unfold get_balance, get_nonce, get_storage.
  destruct (cache_accounts (db s) !! addr) as [acc|]; simpl; [|done].
  by destruct (acc_storage acc !! slot).
Qed.

(** A code store that agrees with a hash function: every code hash an account
    names is in the store, under the code it is the hash of; a cached account
    either carries its code or has the code hash of its stored version. *)
Record code_ok (codes : B256 → list byte) (s : EvmState) : Prop := {
  code_empty : codes KECCAK_EMPTY = [];
  code_contracts : contracts_ok codes (cache_db (db s));
  code_stored a st : is_address a →
    mapx_get (accounts (cache_db (db s))) (address_as_slice a) = Some st →
    ∃ h, is_u256 h ∧ code_hash st = b256_as_slice h ∧
      (h ≠ KECCAK_EMPTY → is_Some (mapx_get (contracts (cache_db (db s))) (b256_as_slice h)));
  code_cached a acc : cache_accounts (db s) !! a = Some acc →
    match info_code (acc_info acc) with
    | Some c => bytes_slice c = codes (info_code_hash (acc_info acc))
    | None => default (b256_as_slice KECCAK_EMPTY)
                (code_hash <$> mapx_get (accounts (cache_db (db s))) (address_as_slice a)) =
              b256_as_slice (info_code_hash (acc_info acc))
    end;
}.

Lemma vsdb_get_code_hash codes d a st h :
  codes KECCAK_EMPTY = [] → contracts_ok codes d →
  mapx_get (accounts d) (address_as_slice a) = Some st → is_u256 h → code_hash st = b256_as_slice h →
  (h ≠ KECCAK_EMPTY → codes h ≠ [] → is_Some (mapx_get (contracts d) (b256_as_slice h))) →
  vsdb_get_code d a = codes h.
Proof.
  intros H0 Hc Hst Hh Eh Hs. unfold vsdb_get_code. rewrite Hst, Eh.
  assert (from_be_bytes (b256_as_slice h) = h) as -> by by apply (from_to_be_bytes_id 32 256).
  destruct (Z.eqb_spec h KECCAK_EMPTY) as [->|Hne]; simpl; [done|].
  destruct (mapx_get (contracts d) (b256_as_slice h)) as [b|] eqn:Hb; simpl.
  - by apply Hc.
  - destruct (codes h) as [|x l] eqn:Ecodes; [done|]. by destruct (Hs Hne ltac:(done)).
Qed.

Lemma flush_contracts_ok codes s :
  cache_wf (cache_accounts (db s)) → code_ok codes s →
  contracts_ok codes (cache_db (db (flush_cache_to_vsdb s))).
Proof.
  intros Hwf Hok. destruct (flush_db s) as (_ & -> & _).
  apply write_all_contracts_ok; [|by apply Hok]. apply Forall_forall.
  intros (a & i & slots) (acc & Hacc & -> & ->)%(elem_of_entries acc_info acc_storage hash_iter _ _ (hash_iter_perm _)).
  destruct (Hwf _ _ Hacc) as (_ & (_ & _ & Hh) & _). split; [done|]. simpl.
  intros c Hc. pose proof (code_cached _ _ Hok _ _ Hacc) as E. by rewrite Hc in E.
Qed.

Lemma stored_code codes s addr st :
  code_ok codes s → is_address addr →
  mapx_get (accounts (cache_db (db s))) (address_as_slice addr) = Some st →
  ∃ h, is_u256 h ∧ code_hash st = b256_as_slice h ∧ vsdb_get_code (cache_db (db s)) addr = codes h ∧
    (h ≠ KECCAK_EMPTY → is_Some (mapx_get (contracts (cache_db (db s))) (b256_as_slice h))).
Proof.
  intros [H0 Hc Hst _] Ha Est. destruct (Hst _ _ Ha Est) as (h & Hh & E & Hs).
  exists h. split_and!; [done|done| |done]. eapply vsdb_get_code_hash; eauto.
Qed.

(** The code of a cached account that does not carry it is the store's. *)
Lemma uncarried_code codes s addr acc :
  code_ok codes s → is_address addr → cache_accounts (db s) !! addr = Some acc →
  info_code (acc_info acc) = None → is_u256 (info_code_hash (acc_info acc)) →
  vsdb_get_code (cache_db (db s)) addr = codes (info_code_hash (acc_info acc)) ∧
  (info_code_hash (acc_info acc) ≠ KECCAK_EMPTY →
   is_Some (mapx_get (contracts (cache_db (db s))) (b256_as_slice (info_code_hash (acc_info acc))))).
Proof.
  intros Hok Ha Hacc Hnone Hh. pose proof (code_cached _ _ Hok _ _ Hacc) as Hcache. rewrite Hnone in Hcache.
  destruct (mapx_get (accounts (cache_db (db s))) (address_as_slice addr)) as [st|] eqn:Est; simpl in Hcache.
  - destruct (stored_code codes s addr st Hok Ha Est) as (h & Hh' & E & Eg & Hs). rewrite Hcache in E.
    by apply b256_as_slice_inj in E as <-.
  - apply b256_as_slice_inj in Hcache as <-; [|apply KECCAK_EMPTY_range|done].
    unfold vsdb_get_code. rewrite Est. split; [|done]. symmetry. apply Hok.
Qed.

Lemma flush_contracts_mono s k :
  is_Some (mapx_get (contracts (cache_db (db s))) k) →
  is_Some (mapx_get (contracts (cache_db (db (flush_cache_to_vsdb s)))) k).
Proof. destruct (flush_db s) as (_ & -> & _). apply (write_all_contracts_mono _ (_, _)). Qed.

(** A flush persists contract code too: with code hashes that identify
    code, the store alone returns for every address the code the state
    returned before the flush. *)
Theorem flush_persists_code codes s addr :
  cache_wf (cache_accounts (db s)) → code_ok codes s → is_address addr →
  vsdb_get_code (cache_db (db (flush_cache_to_vsdb s))) addr = get_code s addr.
Proof.
  intros Hwf Hok Ha. destruct (flush_accounts s addr Hwf Ha) as [Eacc _].
  pose proof (flush_contracts_ok codes s Hwf Hok) as Hc'. pose proof (code_empty _ _ Hok) as H0.
  unfold get_code. destruct (cache_accounts (db s) !! addr) as [acc|] eqn:Hacc; simpl.
  - destruct (Hwf _ _ Hacc) as (_ & (_ & _ & Hh) & _). pose proof (code_cached _ _ Hok _ _ Hacc) as Hcache.
    destruct (info_code (acc_info acc)) as [c|] eqn:Hinfo.
    + rewrite Hcache. eapply vsdb_get_code_hash; [done..|]. intros _ Hne.
      destruct (flush_db s) as (_ & -> & _).
      eapply (write_all_contracts_hit _ _ addr _ (hash_iter (acc_storage acc)) c); [|done|by rewrite Hcache].
      apply (elem_of_entries acc_info acc_storage hash_iter _ _ (hash_iter_perm _)). eauto.
    + destruct (uncarried_code codes s addr acc Hok Ha Hacc Hinfo Hh) as [-> Hs].
      eapply vsdb_get_code_hash; [done..|]. intros Hne _. by apply flush_contracts_mono, Hs.
  - destruct (mapx_get (accounts (cache_db (db s))) (address_as_slice addr)) as [st|] eqn:Est.
    + destruct (stored_code codes s addr st Hok Ha Est) as (h & Hh & E & -> & Hs).
      eapply vsdb_get_code_hash; [done..|]. intros Hne _. by apply flush_contracts_mono, Hs.
    + unfold vsdb_get_code. by rewrite Eacc, Est.
Qed.
End Flush.

Lemma flush_root_order (IA1 IA2 : HashIter Z DbAccount) (IS1 IS2 : HashIter Z Z) s :
  cache_wf (cache_accounts (db s)) →
  (state_root (@flush_cache_to_vsdb _ _ IA1 IS1 s)).2 = (state_root (@flush_cache_to_vsdb _ _ IA2 IS2 s)).2.
Proof.
  intros Hwf. apply state_root_content.
  destruct (@flush_db IA1 IS1 s) as (_ & _ & ->), (@flush_db IA2 IS2 s) as (_ & _ & ->).
  apply (write_map_trie_order _ _ _ _ (cache_accounts (db s))); try apply hash_iter_perm.
  by apply cache_wf_entries.
Qed.

(** ** set_balance and set_nonce *)

Lemma info_default_wf : info_wf info_default.
Proof.
  unfold info_wf. rewrite info_default_balance, info_default_nonce, info_default_code_hash.
  split_and!; [ulia..|apply KECCAK_EMPTY_range].
Qed.

Lemma stored_empty_balance : from_be_bytes (balance_be stored_empty) = 0.
Proof. by vm_compute. Qed.

(** [set_balance] sets what [get_balance] and the store answer for the
    address, and changes no other address's balance, nonce or storage; the
    nonce of the address itself is kept when the account is cached. *)
Theorem set_balance_get s addr balance a slot :
  is_address addr → is_address a → is_u256 balance →
  let s' := set_balance s addr balance in
  get_balance s' a = (if decide (a = addr) then balance else get_balance s a) ∧
  vsdb_get_balance (cache_db (db s')) a =
    (if decide (a = addr) then balance else vsdb_get_balance (cache_db (db s)) a) ∧
  (a ≠ addr ∨ is_Some (cache_accounts (db s) !! addr) → get_nonce s' a = get_nonce s a) ∧
  vsdb_get_nonce (cache_db (db s')) a = vsdb_get_nonce (cache_db (db s)) a ∧
  get_storage s' a slot = get_storage s a slot.
Proof.
  intros Haddr Ha Hb s'. subst s'. unfold set_balance, set_account, get_balance, get_nonce, get_storage,
    vsdb_get_balance, vsdb_get_nonce, vsdb_set_balance. simpl.
  rewrite !mapx_get_insert. destruct (decide (a = addr)) as [->|Hne].
  - rewrite lookup_insert_eq, decide_True by done. simpl.
    split_and!; [done|by apply (from_to_be_bytes_id 32 256)| |..].
    + intros [?|[acc Hacc]]; [done|]. by rewrite Hacc.
    + by destruct (mapx_get (accounts (cache_db (db s))) (address_as_slice addr)).
    + destruct (cache_accounts (db s) !! addr) as [acc|]; simpl; [done|].
      by rewrite dbaccount_default_storage, lookup_empty.
  - rewrite lookup_insert_ne, decide_False by (done || intros E; apply Hne; by apply address_as_slice_inj in E).
    done.
Qed.

(** [set_nonce] sets what [get_nonce] and the store answer for the address,
    and changes no other address's nonce, balance or storage; the balance of the
    address itself is kept when the account is cached. *)
Theorem set_nonce_get s addr nonce a slot :
  is_address addr → is_address a →
  let s' := set_nonce s addr nonce in
  get_nonce s' a = (if decide (a = addr) then nonce else get_nonce s a) ∧
  vsdb_get_nonce (cache_db (db s')) a =
    (if decide (a = addr) then nonce else vsdb_get_nonce (cache_db (db s)) a) ∧
  (a ≠ addr ∨ is_Some (cache_accounts (db s) !! addr) → get_balance s' a = get_balance s a) ∧
  vsdb_get_balance (cache_db (db s')) a = vsdb_get_balance (cache_db (db s)) a ∧
  get_storage s' a slot = get_storage s a slot.
Proof.
  intros Haddr Ha s'. subst s'. unfold set_nonce, set_account, get_balance, get_nonce, get_storage,
    vsdb_get_balance, vsdb_get_nonce, vsdb_set_nonce. simpl.
  rewrite !mapx_get_insert. destruct (decide (a = addr)) as [->|Hne].
  - rewrite lookup_insert_eq, decide_True by done. simpl. split_and!; [done|done| |..].
    + intros [?|[acc Hacc]]; [done|]. by rewrite Hacc.
    + by destruct (mapx_get (accounts (cache_db (db s))) (address_as_slice addr)).
    + destruct (cache_accounts (db s) !! addr) as [acc|]; simpl; [done|].
      by rewrite dbaccount_default_storage, lookup_empty.
  - rewrite lookup_insert_ne, decide_False by (done || intros E; apply Hne; by apply address_as_slice_inj in E).
    done.
Qed.

(** On an account that is stored but not cached, [set_nonce] puts a default
    account in the cache: the state then answers balance 0, whatever the store
    holds. *)
Theorem set_nonce_hides_balance s addr nonce :
  is_address addr → cache_accounts (db s) !! addr = None →
  get_balance (set_nonce s addr nonce) addr = 0 ∧
  vsdb_get_balance (cache_db (db (set_nonce s addr nonce))) addr = get_balance s addr.
Proof.
  intros Ha Hnone. unfold get_balance, set_nonce, set_account, vsdb_get_balance, vsdb_set_nonce. simpl.
  rewrite lookup_insert_eq, mapx_get_insert, decide_True, Hnone by done. simpl. split.
  - by rewrite dbaccount_default_info, info_default_balance.
  - by destruct (mapx_get (accounts (cache_db (db s))) (address_as_slice addr)).
Qed.

(** ** The trie mirrors the stored accounts *)

Section Reachable.
Context {IA : HashIter Z DbAccount} {IS : HashIter Z Z}.

(** What happens to a state after genesis.  The EVM (and the storage reads of
    the code) only touch the cached accounts of the [CacheDB], and never drop
    one. *)
Inductive state_step : EvmState → EvmState → Prop :=
  | step_evm s d :
    cache_db d = cache_db (db s) → cache_wf (cache_accounts d) →
    (∀ a, is_Some (cache_accounts (db s) !! a) → is_Some (cache_accounts d !! a)) →
    state_step s (with_db s d (state_trie s))
  | step_set_nonce s addr nonce : is_address addr → is_u64 nonce → state_step s (set_nonce s addr nonce)
  | step_set_balance s addr balance : is_address addr → is_u256 balance → state_step s (set_balance s addr balance)
  | step_record s number hash : state_step s (record_block_hash s number hash)
  | step_flush s : state_step s (flush_cache_to_vsdb s)
  | step_root s : state_step s (state_root s).1.

Record trie_ok (s : EvmState) : Prop := {
  trie_cache_wf : cache_wf (cache_accounts (db s));
  trie_uncached a : is_address a → cache_accounts (db s) !! a = None →
    mpt_content (state_trie s) !! address_as_slice a =
      stored_leaf <$> mapx_get (accounts (cache_db (db s))) (address_as_slice a);
  trie_keys k : is_Some (mpt_content (state_trie s) !! k) → ∃ a, is_address a ∧ k = address_as_slice a;
}.

Lemma trie_ok_genesis g : genesis_wf g → trie_ok (from_genesis g).
Proof.
  intros Hwf. destruct (from_genesis_db g) as (Ec & Ed & Et). pose proof (genesis_wf_entries g Hwf) as He.
  split; rewrite ?Ec, ?Ed, ?Et.
  - apply map_Forall_empty.
  - intros a Ha _.
    destruct (write_map_lookup genesis_info alloc_storage btree_iter btree_iter_perm _ _
      (btree_iter_perm (genesis_alloc g)) He (vsdb_new, mpt_new) a Ha) as [-> ->]. simpl.
    rewrite mapx_get_new, mpt_content_new, lookup_empty. by destruct (genesis_alloc g !! a).
  - intros k Hk. destruct (slice_of_map (genesis_alloc g) k) as [(a & x & Hx & ->)|Hne].
    + exists a. by destruct (Hwf _ _ Hx).
    + rewrite (write_map_other genesis_info alloc_storage btree_iter _ _ (btree_iter_perm (genesis_alloc g))) in Hk by done.
      simpl in Hk. rewrite mpt_content_new, lookup_empty in Hk. by destruct Hk.
Qed.

Lemma trie_ok_set_account s addr f store :
  is_address addr → trie_ok s →
  (∀ i, info_wf i → info_wf (f i)) →
  (∀ d k, address_as_slice addr ≠ k → mapx_get (accounts (store d)) k = mapx_get (accounts d) k) →
  trie_ok (set_account s addr f store).
Proof.
  intros Ha [Hwf Hun Hk] Hf Hstore. unfold set_account. split; simpl.
  - apply map_Forall_insert_2; [|done]. simpl.
    destruct (cache_accounts (db s) !! addr) as [acc|] eqn:Hacc; simpl.
    + destruct (Hwf _ _ Hacc) as (_ & ? & ?). auto.
    + rewrite dbaccount_default_info, dbaccount_default_storage. split_and!; [done| |apply map_Forall_empty].
      apply Hf, info_default_wf.
  - intros a Ha' [Hnone Hne]%lookup_insert_None.
    assert (address_as_slice addr ≠ address_as_slice a) as Hs by (intros E; by apply address_as_slice_inj in E).
    rewrite mpt_content_insert, lookup_insert_ne, Hstore by (done || apply encode_account_leaf_ne). by apply Hun.
  - intros k. rewrite mpt_content_insert by apply encode_account_leaf_ne.
    rewrite lookup_insert_is_Some. intros [<-|[_ ?]]; eauto.
Qed.

Lemma trie_ok_flush s : trie_ok s → trie_ok (flush_cache_to_vsdb s).
Proof.
  intros [Hwf Hun Hk]. destruct (flush_db s) as (Ec & _ & Et). split; rewrite ?Ec; [done|..].
  - intros a Ha Hnone. destruct (flush_accounts s a Hwf Ha) as [-> ->]. rewrite Hnone. by apply Hun.
  - intros k Hsome. destruct (slice_of_map (cache_accounts (db s)) k) as [(a & x & Hx & ->)|Hne].
    + exists a. by destruct (Hwf _ _ Hx).
    + apply Hk. by rewrite Et, (write_map_other acc_info acc_storage hash_iter _ _ (hash_iter_perm _)) in Hsome.
Qed.

Lemma trie_ok_step s s' : state_step s s' → trie_ok s → trie_ok s'.
Proof.
  intros Hstep Hok. destruct Hstep as [s d Ed Hwf Hmono|s addr n Ha Hn|s addr b Ha Hb|s n h|s|s].
  - destruct Hok as [_ Hun Hk]. split; simpl; [done| |done]. rewrite Ed. intros a Ha Hnone.
    apply Hun; [done|]. apply eq_None_not_Some. intros Hs. apply Hmono in Hs as [? ?]. congruence.
  - apply trie_ok_set_account; [done|done|by intros i (? & ? & ?)|].
    intros d k Hk. simpl. rewrite mapx_get_insert. by rewrite decide_False.
  - apply trie_ok_set_account; [done|done|by intros i (? & ? & ?)|].
    intros d k Hk. simpl. rewrite mapx_get_insert. by rewrite decide_False.
  - by destruct Hok.
  - by apply trie_ok_flush.
  - destruct Hok as [Hwf Hun Hk]. unfold state_root. pose proof (mpt_content_root (state_trie s)) as E.
    destruct (mpt_root_hash (state_trie s)) as [t r]. split; simpl in *; rewrite ?E; auto.
Qed.

Lemma trie_ok_reachable g s : genesis_wf g → rtc state_step (from_genesis g) s → trie_ok s.
Proof.
  intros Hg Hr. assert (trie_ok (from_genesis g)) as Hok by by apply trie_ok_genesis.
  induction Hr; eauto using trie_ok_step.
Qed.

Lemma trie_flushed s addr :
  trie_ok s → is_address addr →
  mpt_content (state_trie (flush_cache_to_vsdb s)) !! address_as_slice addr =
    stored_leaf <$> mapx_get (accounts (cache_db (db (flush_cache_to_vsdb s)))) (address_as_slice addr).
Proof.
  intros [Hwf Hun Hk] Ha. destruct (flush_accounts s addr Hwf Ha) as [-> ->].
  destruct (cache_accounts (db s) !! addr) eqn:Hc; [by rewrite <- stored_leaf_from_info|]. by apply Hun.
Qed.

(** C13. In every state reachable from a genesis document, after a flush the
    trie holds exactly the leaves [nonce || balance || code_hash] of the stored
    accounts: one per stored account and none besides. *)
Theorem trie_mirrors_accounts g s k :
  genesis_wf g → rtc state_step (from_genesis g) s →
  mpt_content (state_trie (flush_cache_to_vsdb s)) !! k =
    if decide (length k = 20%nat)
    then stored_leaf <$> mapx_get (accounts (cache_db (db (flush_cache_to_vsdb s)))) k
    else None.
Proof.
  intros Hg Hr. pose proof (trie_ok_reachable g s Hg Hr) as Hok. case_decide as Hlen.
  - assert (k = address_as_slice (from_be_bytes k)) as ->
      by (unfold address_as_slice; by rewrite <- Hlen, to_from_be_bytes).
    apply trie_flushed; [done|]. pose proof (from_be_bytes_range k) as Hr'. by rewrite Hlen in Hr'.
  - apply eq_None_not_Some. intros (a & _ & ->)%(trie_keys _ (trie_ok_flush _ Hok)).
    apply Hlen, length_address_as_slice.
Qed.

(** The state root after a flush is a function of the stored accounts: two
    nodes that reached, by whatever steps and from whatever genesis documents,
    stores with the same accounts compute the same root. *)
Theorem state_root_of_accounts g1 g2 s1 s2 :
  genesis_wf g1 → genesis_wf g2 → rtc state_step (from_genesis g1) s1 → rtc state_step (from_genesis g2) s2 →
  (∀ k, mapx_get (accounts (cache_db (db (flush_cache_to_vsdb s1)))) k =
        mapx_get (accounts (cache_db (db (flush_cache_to_vsdb s2)))) k) →
  (state_root (flush_cache_to_vsdb s1)).2 = (state_root (flush_cache_to_vsdb s2)).2.
Proof.
  intros Hg1 Hg2 Hr1 Hr2 Eacc.
  pose proof (trie_ok_reachable _ _ Hg1 Hr1) as Hok1. pose proof (trie_ok_reachable _ _ Hg2 Hr2) as Hok2.
  apply state_root_content, map_eq. intros k. apply option_eq. intros v. split; intros Hv.
  - destruct (trie_keys _ (trie_ok_flush _ Hok1) k ltac:(eauto)) as (a & Ha & ->).
    rewrite trie_flushed in Hv |- * by done. by rewrite <- Eacc.
  - destruct (trie_keys _ (trie_ok_flush _ Hok2) k ltac:(eauto)) as (a & Ha & ->).
    rewrite trie_flushed in Hv |- * by done. by rewrite Eacc.
Qed.
End Reachable.

(** The root does not cover contract storage: changing only storage slots of
    cached accounts changes no root. *)
Theorem state_root_ignores_storage (IA : HashIter Z DbAccount) (IS : HashIter Z Z) s addr acc m :
  cache_wf (cache_accounts (db s)) → cache_accounts (db s) !! addr = Some acc → slots_wf m →
  let d := mkCacheDB _ _ (<[addr := {| acc_info := acc_info acc; acc_storage := m |}]> (cache_accounts (db s)))
             (cache_rest (db s)) (cache_db (db s)) in
  (state_root (flush_cache_to_vsdb (with_db s d (state_trie s)))).2 = (state_root (flush_cache_to_vsdb s)).2.
Proof.
  intros Hwf Hacc Hm d. set (s' := with_db s d (state_trie s)).
  assert (cache_wf (cache_accounts (db s'))) as Hwf'.
  { apply map_Forall_insert_2; [|done]. by destruct (Hwf _ _ Hacc) as (? & ? & _). }
  apply state_root_content, map_eq. intros k.
  destruct (slice_of_map (cache_accounts (db s')) k) as [(a & x & Hx & ->)|Hk].
  - destruct (Hwf' _ _ Hx) as [Ha _]. rewrite (proj2 (flush_accounts s' a Hwf' Ha)), (proj2 (flush_accounts s a Hwf Ha)).
    simpl. destruct (decide (a = addr)) as [->|]; [by rewrite lookup_insert_eq, Hacc|by rewrite lookup_insert_ne].
  - destruct (flush_db s) as (_ & _ & ->), (flush_db s') as (_ & _ & ->).
    rewrite !(write_map_other acc_info acc_storage hash_iter _ _ (hash_iter_perm _)); [done| |done].
    intros a Hs. apply Hk. simpl. rewrite lookup_insert_is_Some. destruct (decide (addr = a)); eauto.
Qed.

(** ** Recent block hashes *)

(** Blocks [n], [n+1], ... recorded in turn. *)
Definition record_from (s : EvmState) (n : Z) (hs : list B256) : EvmState :=
  (fold_left (λ acc h, (record_block_hash acc.1 acc.2 h, acc.2 + 1)) hs (s, n)).1.

Lemma record_from_snoc s n hs h :
  record_from s n (hs ++ [h]) = record_block_hash (record_from s n hs) (n + Z.of_nat (length hs)) h.
Proof.
  unfold record_from. rewrite fold_left_app. simpl. f_equal. revert s n.
  induction hs as [|h' hs IH]; intros s n; simpl; [lia|]. rewrite IH. lia.
Qed.

Lemma hash_window s n hs :
  block_hashes s = ∅ →
  Z.of_nat (size (block_hashes (record_from s n hs))) = Z.min 256 (Z.of_nat (length hs)) ∧
  ∀ i, block_hashes (record_from s n hs) !! i =
    if decide (n ≤ i ∧ n + Z.of_nat (length hs) - 256 ≤ i) then hs !! Z.to_nat (i - n) else None.
Proof.
  intros H0. induction hs as [|h hs [IHs IH]] using rev_ind.
  { cbn. rewrite H0, map_size_empty. split; [done|]. intros i. rewrite lookup_empty. by case_decide. }
  rewrite record_from_snoc, length_app. cbn [length]. set (t := record_from s n hs) in *.
  set (len := Z.of_nat (length hs)) in *. unfold record_block_hash. cbn [block_hashes].
  set (m := <[n + len := h]> (block_hashes t)).
  assert (block_hashes t !! (n + len) = None) as Hfresh.
  { rewrite IH. case_decide; [|done]. apply lookup_ge_None. lia. }
  assert (∀ i, m !! i = if decide (n ≤ i ∧ n + len - 256 ≤ i) then (hs ++ [h]) !! Z.to_nat (i - n) else None) as Hm.
  { intros i. subst m. destruct (decide (i = n + len)) as [->|Hne].
    - rewrite lookup_insert_eq, decide_True by lia. replace (Z.to_nat (n + len - n)) with (length hs) by lia.
      by rewrite list_lookup_middle.
    - rewrite lookup_insert_ne, IH by done. case_decide; [|done]. destruct (decide (i < n + len)).
      + rewrite lookup_app_l by lia. done.
      + rewrite !lookup_ge_None_2; [done|rewrite length_app; simpl; lia|lia]. }
  assert (Z.of_nat (size m) = Z.min 256 len + 1) as Hsize by (subst m; rewrite map_size_insert_None by done; lia).
  zb.
  - assert (256 ≤ len) as Hlen by lia. destruct (btree_first m) as [[o v]|] eqn:Hf.
    2: { apply btree_first_None in Hf. rewrite Hf, map_size_empty in Hsize. lia. }
    apply btree_first_Some in Hf as [Ho Hmin].
    assert (o = n + len - 256) as ->.
    { assert (n + len - 256 ≤ o) by (rewrite Hm in Ho; case_decide; [lia|done]).
      enough (o ≤ n + len - 256) by lia. apply Hmin. rewrite Hm, decide_True by lia.
      apply lookup_lt_is_Some. rewrite length_app. simpl. lia. }
    rewrite map_size_delete_Some by eauto. split; [lia|]. intros i.
    destruct (decide (i = n + len - 256)) as [->|].
    + rewrite lookup_delete_eq, decide_False by lia. done.
    + rewrite lookup_delete_ne, Hm by done. repeat case_decide; done || lia.
  - split; [lia|]. intros i. rewrite Hm. repeat case_decide; done || lia.
Qed.

Lemma record_from_store s n hs i h :
  0 ≤ n → n + Z.of_nat (length hs) ≤ 2 ^ 64 → Forall is_u256 hs → n ≤ i → hs !! Z.to_nat (i - n) = Some h →
  db_block_hash (cache_db (db (record_from s n hs))) i = h.
Proof.
  intros Hn. induction hs as [|h' hs IH] using rev_ind; intros Hlen Hhs Hi Hh; [done|].
  rewrite length_app in Hlen. simpl in Hlen. apply Forall_app in Hhs as [Hhs [Hh' _]%Forall_cons].
  rewrite record_from_snoc. unfold record_block_hash, db_block_hash. simpl. rewrite mapx_get_insert.
  pose proof (lookup_lt_Some _ _ _ Hh) as Hlt. rewrite length_app in Hlt. simpl in Hlt. case_decide as E.
  - apply (to_be_bytes_inj 8 64) in E; [|done|ulia|ulia].
    replace (Z.to_nat (i - n)) with (length hs) in Hh by lia. rewrite list_lookup_middle in Hh by done.
    injection Hh as <-. by apply (from_to_be_bytes_id 32 256).
  - apply IH; [lia|done|done|]. rewrite lookup_app_l in Hh; [done|].
    enough (i - n ≠ Z.of_nat (length hs)) by lia. intros E'. apply E. f_equal. lia.
Qed.

(** After blocks [n], [n+1], ... are recorded in turn, the in-memory window
    has exactly the hashes of the last 256 of them (all, when there are fewer),
    and the store answers for every one ever recorded. *)
Theorem block_hash_window s n hs i :
  block_hashes s = ∅ → 0 ≤ n → n + Z.of_nat (length hs) ≤ 2 ^ 64 → Forall is_u256 hs →
  n ≤ i < n + Z.of_nat (length hs) →
  block_hashes (record_from s n hs) !! i =
    (if decide (n + Z.of_nat (length hs) - 256 ≤ i) then hs !! Z.to_nat (i - n) else None) ∧
  Some (db_block_hash (cache_db (db (record_from s n hs))) i) = hs !! Z.to_nat (i - n) ∧
  Z.of_nat (size (block_hashes (record_from s n hs))) = Z.min 256 (Z.of_nat (length hs)).
Proof.
  intros H0 Hn Hlen Hhs Hi. destruct (hash_window s n hs H0) as [Hsize ->].
  destruct (hs !! Z.to_nat (i - n)) as [h|] eqn:Hh; [|apply lookup_ge_None in Hh; lia].
  rewrite (record_from_store s n hs i h) by (done || lia). split_and!; [|done|done].
  repeat case_decide; done || lia.
Qed.
End StateProps.

(** ** Witnesses *)

Section Concrete.
#[local] Instance iter_accounts : HashIter Z DbAccount := hash_iter_forward Z DbAccount.
#[local] Instance iter_slots : HashIter Z Z := hash_iter_forward Z Z.

Definition demo_genesis : EvmGenesis :=
  mkGenesis 7 {[ 1 := mkAlloc 100 3 [byte_of_Z 1] {[ 5 := 7 ]}; 2 := mkAlloc 50 0 [] ∅ ]} 30000000 10 0 0.
Definition demo_account (b n : Z) : DbAccount :=
  mkDbAccount _ (mkInfo _ b n keccak_empty (Some [])) {[ 5 := 9 ]}.
(** Account 1 is cached with changes, 3 is new, 2 is only stored. *)
Definition demo_cache : gmap Z DbAccount := {[ 1 := demo_account 90 4; 3 := demo_account 10 0 ]}.
Definition demo_state : EvmState :=
  with_db (from_genesis demo_genesis) (mkCacheDB _ _ demo_cache tt (cache_db (db (from_genesis demo_genesis))))
    (state_trie (from_genesis demo_genesis)).
(** Code hash 77 has code [[1]]; account 1 carries it, account 2 is stored without code. *)
Definition demo_codes (h : Z) : list byte := if h =? 77 then [byte_of_Z 1] else [].
Definition demo_coded : EvmState :=
  with_db demo_state
    (mkCacheDB _ _ {[ 1 := mkDbAccount _ (mkInfo _ 90 4 77 (Some [byte_of_Z 1])) ∅ ]} tt (vsdb_set_nonce vsdb_new 2 5))
    (state_trie demo_state).

Ltac by_compute := apply (bool_decide_unpack _); vm_compute; exact I.

Lemma demo_genesis_wf : genesis_wf demo_genesis.
Proof. unfold genesis_wf, alloc_wf. by_compute. Qed.

Lemma demo_cache_wf : cache_wf (cache_accounts (db demo_state)).
Proof. unfold cache_wf, info_wf, slots_wf. by_compute. Qed.

Lemma demo_reachable : rtc state_step (from_genesis demo_genesis) demo_state.
Proof.
  apply rtc_once, step_evm; [done|exact demo_cache_wf|].
  intros a [x Hx]. by destruct (not_elem_of_empty (C := gset Z) a).
Qed.

Lemma genesis_readable_witness :
  get_balance (from_genesis demo_genesis) 1 = 100 ∧ get_nonce (from_genesis demo_genesis) 1 = 3 ∧
  get_storage (from_genesis demo_genesis) 1 5 = 7.
Proof.
  destruct (genesis_readable demo_genesis 1 5 demo_genesis_wf ltac:(ulia) ltac:(ulia)) as (H1 & H2 & H3 & _).
  exact (conj H1 (conj H2 H3)).
Defined.

Lemma flush_persists_witness :
  vsdb_get_balance (cache_db (db (flush_cache_to_vsdb demo_state))) 1 = 90 ∧
  vsdb_get_nonce (cache_db (db (flush_cache_to_vsdb demo_state))) 1 = 4 ∧
  vsdb_get_storage (cache_db (db (flush_cache_to_vsdb demo_state))) 1 5 = 9.
Proof. exact (proj1 (flush_persists demo_state 1 5 demo_cache_wf ltac:(ulia) ltac:(ulia))). Defined.

Lemma demo_code_ok : code_ok demo_codes demo_coded.
Proof.
  split; [done|..].
  - intros h b _ Hb. by vm_compute in Hb.
  - intros a st Ha Hst. unfold demo_coded, with_db, vsdb_set_nonce, set_accounts in Hst.
    cbn [db cache_db accounts mapx_get map_vsdb mapx_insert] in Hst.
    apply lookup_insert_Some in Hst as [[_ <-]|[_ Hst]]; [|done].
    exists keccak_empty. split_and!; [by_compute|done|done].
  - intros a acc Hacc. cbn [demo_coded with_db db cache_accounts] in Hacc. apply lookup_singleton_Some in Hacc as [<- <-]. done.
Qed.

Lemma flush_persists_code_witness :
  vsdb_get_code (cache_db (db (flush_cache_to_vsdb demo_coded))) 1 = [byte_of_Z 1].
Proof.
  refine (flush_persists_code demo_codes demo_coded 1 _ demo_code_ok ltac:(ulia)).
  unfold cache_wf, info_wf, slots_wf. by_compute.
Defined.

Lemma set_balance_get_witness :
  get_balance (set_balance demo_state 1 77) 1 = 77 ∧ get_balance (set_balance demo_state 1 77) 2 = 50.
Proof.
  split.
  - exact (proj1 (set_balance_get demo_state 1 77 1 0 ltac:(ulia) ltac:(ulia) ltac:(ulia))).
  - rewrite (proj1 (set_balance_get demo_state 1 77 2 0 ltac:(ulia) ltac:(ulia) ltac:(ulia))). by vm_compute.
Defined.

Lemma set_nonce_get_witness :
  get_nonce (set_nonce demo_state 1 8) 1 = 8 ∧ get_balance (set_nonce demo_state 1 8) 1 = 90.
Proof.
  destruct (set_nonce_get demo_state 1 8 1 0 ltac:(ulia) ltac:(ulia)) as (H1 & _ & H2 & _).
  split; [exact H1|]. rewrite H2 by (right; by vm_compute; eauto). by vm_compute.
Defined.

Lemma trie_mirrors_accounts_witness :
  mpt_content (state_trie (flush_cache_to_vsdb demo_state)) !! address_as_slice 2 =
    Some (to_be_bytes 8 0 ++ to_be_bytes 32 50 ++ to_be_bytes 32 keccak_empty).
Proof.
  rewrite (trie_mirrors_accounts demo_genesis demo_state (address_as_slice 2) demo_genesis_wf demo_reachable).
  by vm_compute.
Defined.

Lemma state_root_of_accounts_witness :
  (state_root (flush_cache_to_vsdb demo_state)).2 =
  (state_root (flush_cache_to_vsdb (record_block_hash demo_state 1 2))).2.
Proof.
  refine (state_root_of_accounts demo_genesis demo_genesis demo_state (record_block_hash demo_state 1 2)
    demo_genesis_wf demo_genesis_wf demo_reachable _ (λ k, eq_refl)).
  eapply rtc_r; [apply demo_reachable|]. apply step_record.
Defined.

Definition demo_hashes : list B256 := Z.of_nat <$> seq 0 300.

Lemma block_hash_window_witness :
  block_hashes (record_from (from_genesis demo_genesis) 10 demo_hashes) !! 53 = None ∧
  block_hashes (record_from (from_genesis demo_genesis) 10 demo_hashes) !! 54 = Some 44.
Proof.
  assert (Forall is_u256 demo_hashes) as Hf by by_compute.
  assert (Z.of_nat (length demo_hashes) = 300) as Hl by done.
  pose proof (λ i, block_hash_window (from_genesis demo_genesis) 10 demo_hashes i eq_refl) as Hw.
  rewrite Hl in Hw. split.
  - by rewrite (proj1 (Hw 53 ltac:(lia) ltac:(lia) Hf ltac:(lia))).
  - by rewrite (proj1 (Hw 54 ltac:(lia) ltac:(lia) Hf ltac:(lia))).
Defined.
End Concrete.
