(* ===== verification/StateEquiv.v ===== *)
(** World states up to the layout of their stores.

    The flush loop visits the cache in the order of a hash map, so two nodes
    that did the same have stores that answer the same and need not be equal.
    [≡] relates states that no read can tell apart; the operations of the block
    executor respect it, and a flush forgets the order it was done in. *)
From S2P Require Import Prelude Types State StateLemmas StateProps.

Section StateEquiv.
Context {V : Vsdb} {VO : VsdbOk} {R : Revm} {RI : RevmInit} {RO : RevmOk}.

(** ** Equivalences *)

(** Stores that answer every key the code ever asks for alike. *)
Record store_equiv (d1 d2 : VsdbStateDb) : Prop := {
  se_accounts a : is_address a →
    mapx_get (accounts d1) (address_as_slice a) = mapx_get (accounts d2) (address_as_slice a);
  se_contracts h : is_u256 h →
    mapx_get (contracts d1) (b256_as_slice h) = mapx_get (contracts d2) (b256_as_slice h);
  se_storage a s : is_address a → is_u256 s →
    mapx_get (storage d1) (storage_key a s) = mapx_get (storage d2) (storage_key a s);
  se_hashes n : mapx_get (block_hashes_db d1) (to_be_bytes 8 n) = mapx_get (block_hashes_db d2) (to_be_bytes 8 n);
}.
#[export] Instance vsdb_equiv : Equiv VsdbStateDb := store_equiv.

Record cachedb_equiv (d1 d2 : CacheDB) : Prop := {
  ce_accounts : cache_accounts d1 = cache_accounts d2;
  ce_rest : cache_rest d1 = cache_rest d2;
  ce_store : cache_db d1 ≡ cache_db d2;
}.
#[export] Instance db_equiv : Equiv CacheDB := cachedb_equiv.

Record evm_state_equiv (s1 s2 : EvmState) : Prop := {
  st_db : db s1 ≡ db s2;
  st_trie : mpt_content (state_trie s1) = mpt_content (state_trie s2);
  st_cfg : st_config s1 = st_config s2;
  st_hashes : block_hashes s1 = block_hashes s2;
}.
#[export] Instance state_equiv : Equiv EvmState := evm_state_equiv.

#[export] Instance vsdb_equivalence : Equivalence (≡@{VsdbStateDb}).
Proof.
  split.
  - by intros d; split.
  - intros d1 d2 []; split; intros; symmetry; auto.
  - intros d1 d2 d3 [A1 C1 S1 H1] [A2 C2 S2 H2]. split; intros.
    + by rewrite A1, A2.
    + by rewrite C1, C2.
    + by rewrite S1, S2.
    + by rewrite H1, H2.
Qed.
#[export] Instance db_equivalence : Equivalence (≡@{CacheDB}).
Proof.
  split.
  - by intros d; split.
  - intros d1 d2 []; by split.
  - intros d1 d2 d3 [] []; split; etransitivity; eauto.
Qed.
#[export] Instance state_equivalence : Equivalence (≡@{EvmState}).
Proof.
  split.
  - by intros d; split.
  - intros d1 d2 []; by split.
  - intros d1 d2 d3 [] []; split; etransitivity; eauto.
Qed.

(** ** Reads *)

Lemma b256_as_slice_wrap h : b256_as_slice h = b256_as_slice (wrap 256 h).
Proof.
  unfold b256_as_slice. rewrite <- (to_from_be_bytes (to_be_bytes 32 h)), length_to_be_bytes at 1. by rewrite from_to_be_bytes.
Qed.

Section Reads.
Context (s1 s2 : EvmState) (Hs : s1 ≡ s2) (a : Address) (Ha : is_address a).

Lemma get_nonce_equiv : get_nonce s1 a = get_nonce s2 a.
Proof.
  destruct Hs as [[Ec _ Es] _ _ _]. unfold get_nonce, vsdb_get_nonce. by rewrite Ec, (se_accounts _ _ Es).
Qed.
Lemma get_balance_equiv : get_balance s1 a = get_balance s2 a.
Proof.
  destruct Hs as [[Ec _ Es] _ _ _]. unfold get_balance, vsdb_get_balance. by rewrite Ec, (se_accounts _ _ Es).
Qed.
Lemma get_storage_equiv slot : is_u256 slot → get_storage s1 a slot = get_storage s2 a slot.
Proof.
  intros Hslot. destruct Hs as [[Ec _ Es] _ _ _]. unfold get_storage, vsdb_get_storage.
  by rewrite Ec, (se_storage _ _ Es).
Qed.
Lemma get_code_equiv : get_code s1 a = get_code s2 a.
Proof.
  destruct Hs as [[Ec _ Es] _ _ _]. unfold get_code, vsdb_get_code. rewrite Ec, (se_accounts _ _ Es) by done.
  destruct (_ ≫= _); [done|]. destruct (mapx_get (accounts _) _) as [st|]; [|done]. destruct (negb _); [|done].
  rewrite (b256_as_slice_wrap (from_be_bytes _)), (se_contracts _ _ Es); [done|by apply wrap_range].
Qed.
End Reads.

(** ** Writes outside the flush *)

Lemma with_db_equiv s1 s2 d1 d2 : s1 ≡ s2 → d1 ≡ d2 → with_db s1 d1 (state_trie s1) ≡ with_db s2 d2 (state_trie s2).
Proof. intros [] Hd. by split. Qed.

#[export] Instance insert_block_hash_proper : Proper ((≡) ==> (=) ==> (=) ==> (≡)) insert_block_hash.
Proof.
  intros d1 d2 [Ea Ec Es Eh] n ? <- h ? <-. split; cbn [insert_block_hash accounts contracts storage block_hashes_db]; try done.
  intros k. rewrite !mapx_get_insert. by case_decide.
Qed.

#[export] Instance record_block_hash_proper : Proper ((≡) ==> (=) ==> (=) ==> (≡)) record_block_hash.
Proof.
  intros s1 s2 [[Ec Er Es] Et Ecfg Eh] n ? <- h ? <-. unfold record_block_hash. rewrite Eh.
  split; [split|..]; try done. cbn [db cache_db]. by rewrite Es.
Qed.

Lemma state_root_equiv s1 s2 : s1 ≡ s2 → (state_root s1).1 ≡ (state_root s2).1 ∧ (state_root s1).2 = (state_root s2).2.
Proof.
  intros Hs. pose proof (state_root_content s1 s2 (st_trie _ _ Hs)) as Er. destruct Hs as [Hd Ht Hc Hh].
  pose proof (mpt_content_root (state_trie s1)) as E1. pose proof (mpt_content_root (state_trie s2)) as E2.
  unfold state_root in *. destruct (mpt_root_hash (state_trie s1)), (mpt_root_hash (state_trie s2)). simpl in *.
  split; [|done]. split; [done| |done..]. simpl. congruence.
Qed.

(** ** The flush *)

(** Account [i] carries the code with hash [h]. *)
Definition carries (h : B256) (i : AccountInfo) : Prop :=
  ∃ c, info_code i = Some c ∧ bytes_slice c ≠ [] ∧ info_code_hash i = h.

#[export] Instance carries_dec h i : Decision (carries h i).
Proof.
  destruct (info_code i) as [c|] eqn:E; [|right; by intros (c & E' & _); rewrite E in E'].
  destruct (decide (bytes_slice c ≠ [] ∧ info_code_hash i = h)) as [[? ?]|Hd]; [left; by exists c|right].
  intros (c' & E' & ? & ?). rewrite E in E'. injection E' as <-. by destruct Hd.
Defined.

Lemma insert_account_carried codes d addr i h :
  info_code_ok codes i → is_u256 h →
  (carries h i → mapx_get (contracts (insert_account d addr i)) (b256_as_slice h) = Some (codes h)) ∧
  (¬ carries h i → mapx_get (contracts (insert_account d addr i)) (b256_as_slice h) = mapx_get (contracts d) (b256_as_slice h)).
Proof.
  intros [Hh Hc] Hu. rewrite insert_account_contracts. split.
  - intros (c & E & Hne & <-). rewrite E, decide_True by done. by rewrite (Hc c E).
  - intros Hn. destruct (info_code i) as [c|] eqn:E; [|done]. rewrite decide_False; [done|].
    intros [Hne Eh]. apply b256_as_slice_inj in Eh; [|done..]. apply Hn. by exists c.
Qed.

(** The code of a hash after the loop: that of an account that carries it, or
    what was there. *)
Lemma write_all_code codes (l : list (Z * (AccountInfo * list (Z * Z)))) acc h :
  Forall (λ e, info_code_ok codes e.2.1) l → is_u256 h →
  (Exists (λ e, carries h e.2.1) l → mapx_get (contracts (write_all l acc).1) (b256_as_slice h) = Some (codes h)) ∧
  (¬ Exists (λ e, carries h e.2.1) l →
   mapx_get (contracts (write_all l acc).1) (b256_as_slice h) = mapx_get (contracts acc.1) (b256_as_slice h)).
Proof.
  intros Hl Hu. revert acc. induction Hl as [|e l He Hl IH]; intros acc; unfold write_all; cbn [fold_left].
  { split; [by intros ?%Exists_nil|done]. }
  destruct (IH (write_account acc e)) as [IHy IHn]. unfold write_all in IHy, IHn.
  destruct (insert_account_carried codes acc.1 e.1 e.2.1 h He Hu) as [Hy Hn].
  rewrite write_account_contracts in IHn. rewrite Exists_cons.
  destruct (decide (Exists (λ e, carries h e.2.1) l)) as [Hex|Hnex].
  - split; [intros _; by apply IHy|tauto].
  - rewrite (IHn Hnex). split; [intros [?|?]; [by apply Hy|done]|]. intros Hne. apply Hn. tauto.
Qed.

Lemma write_all_contracts_other (l : list (Z * (AccountInfo * list (Z * Z)))) acc k :
  Forall (λ e, b256_as_slice (info_code_hash e.2.1) ≠ k) l →
  mapx_get (contracts (write_all l acc).1) k = mapx_get (contracts acc.1) k.
Proof.
  intros Hl. revert acc. induction Hl as [|e l He Hl IH]; intros acc; unfold write_all in *; cbn [fold_left]; [done|].
  rewrite IH, write_account_contracts, insert_account_contracts. destruct (info_code e.2.1); [|done].
  by rewrite decide_False by naive_solver.
Qed.

Lemma write_all_hashes (l : list (Z * (AccountInfo * list (Z * Z)))) acc :
  block_hashes_db (write_all l acc).1 = block_hashes_db acc.1.
Proof.
  unfold write_all. revert acc. induction l as [|e l IH]; intros acc; [done|]. cbn [fold_left]. rewrite IH.
  unfold write_account. simpl. rewrite (proj2 (proj2 (write_slots_rest _ _ _))). by apply insert_account_storage.
Qed.

(** Cached accounts carry code that their hash is the hash of. *)
Definition codes_ok (codes : B256 → list byte) (m : gmap Z DbAccount) : Prop :=
  map_Forall (λ _ acc, info_code_ok codes (acc_info acc)) m.

Section FlushOrder.
Context (it1 it2 : gmap Z Z → list (Z * Z)) (M : gmap Z DbAccount) (l1 l2 : list (Z * DbAccount)).
Context (Hi1 : ∀ m, it1 m ≡ₚ map_to_list m) (Hi2 : ∀ m, it2 m ≡ₚ map_to_list m).
Context (Hl1 : l1 ≡ₚ map_to_list M) (Hl2 : l2 ≡ₚ map_to_list M) (Hwf : cache_wf M).
Context (codes : B256 → list byte) (Hcodes : codes_ok codes M).
Context (d1 d2 : VsdbStateDb) (t1 t2 : MptCalc) (Hd : d1 ≡ d2) (Ht : mpt_content t1 = mpt_content t2).

Notation w1 := (write_all (entries acc_info acc_storage it1 l1) (d1, t1)).
Notation w2 := (write_all (entries acc_info acc_storage it2 l2) (d2, t2)).

Lemma carried_in_map it l h :
  l ≡ₚ map_to_list M →
  Exists (λ e, carries h e.2.1) (entries acc_info acc_storage it l) ↔ ∃ a acc, M !! a = Some acc ∧ carries h (acc_info acc).
Proof.
  intros Hl. rewrite Exists_exists. split.
  - intros ([a [i slots]] & (x & Hx & -> & _)%(elem_of_entries acc_info acc_storage it M l Hl) & Hc). by exists a, x.
  - intros (a & x & Hx & Hc). exists (a, (acc_info x, it (acc_storage x))). split; [|done].
    apply (elem_of_entries acc_info acc_storage it M l Hl). by exists x.
Qed.

Lemma entries_codes it l : l ≡ₚ map_to_list M → Forall (λ e, info_code_ok codes e.2.1) (entries acc_info acc_storage it l).
Proof.
  intros Hl. apply Forall_forall. intros [a [i slots]] (x & Hx & -> & _)%(elem_of_entries acc_info acc_storage it M l Hl).
  by apply (Hcodes a x).
Qed.

(** Two loops over the same cache, in any two orders, on equivalent stores. *)
Lemma write_all_equiv : w1.1 ≡ w2.1 ∧ mpt_content w1.2 = mpt_content w2.2.
Proof.
  pose proof (cache_wf_entries _ Hwf) as He. destruct Hd as [Ea Ec Es Eh]. split; [split|].
  - intros a Ha. rewrite (proj1 (write_map_lookup acc_info acc_storage it1 Hi1 M l1 Hl1 He (d1, t1) a Ha)),
      (proj1 (write_map_lookup acc_info acc_storage it2 Hi2 M l2 Hl2 He (d2, t2) a Ha)). by destruct (M !! a); [|apply Ea].
  - intros h Hh. destruct (write_all_code codes _ (d1, t1) h (entries_codes it1 l1 Hl1) Hh) as [Hy1 Hn1].
    destruct (write_all_code codes _ (d2, t2) h (entries_codes it2 l2 Hl2) Hh) as [Hy2 Hn2].
    rewrite (carried_in_map it1 l1 h Hl1) in Hy1, Hn1. rewrite (carried_in_map it2 l2 h Hl2) in Hy2, Hn2.
    destruct (decide (Exists (λ e, carries h e.2.1) (entries acc_info acc_storage it1 l1))) as [Hx|Hx];
      rewrite (carried_in_map it1 l1 h Hl1) in Hx; [by rewrite Hy1, Hy2|]. rewrite Hn1, Hn2 by done. by apply Ec.
  - intros a slot Ha Hs. rewrite (write_map_storage acc_info acc_storage it1 Hi1 M l1 Hl1 He (d1, t1) a slot Ha Hs),
      (write_map_storage acc_info acc_storage it2 Hi2 M l2 Hl2 He (d2, t2) a slot Ha Hs).
    destruct (x ← M !! a; acc_storage x !! slot); [done|]. by apply Es.
  - intros n. rewrite !write_all_hashes. apply Eh.
  - apply map_eq. intros k. destruct (slice_of_map M k) as [(a & x & Hx & ->)|Hk].
    + destruct (He a x Hx) as [Ha _].
      rewrite (proj2 (write_map_lookup acc_info acc_storage it1 Hi1 M l1 Hl1 He (d1, t1) a Ha)),
        (proj2 (write_map_lookup acc_info acc_storage it2 Hi2 M l2 Hl2 He (d2, t2) a Ha)). by rewrite Hx.
    + rewrite (write_map_other acc_info acc_storage it1 M l1 Hl1 (d1, t1) k Hk),
        (write_map_other acc_info acc_storage it2 M l2 Hl2 (d2, t2) k Hk). cbn [snd]. by rewrite Ht.
Qed.
End FlushOrder.

(** A flush on equivalent states, in any two iteration orders, leaves
    equivalent states. *)
Lemma flush_equiv (IA1 IA2 : HashIter Z DbAccount) (IS1 IS2 : HashIter Z Z) codes s1 s2 :
  s1 ≡ s2 → cache_wf (cache_accounts (db s1)) → codes_ok codes (cache_accounts (db s1)) →
  @flush_cache_to_vsdb _ _ IA1 IS1 s1 ≡ @flush_cache_to_vsdb _ _ IA2 IS2 s2.
Proof.
  intros [[Ec Er Es] Et Ecfg Eh] Hwf Hcodes. unfold flush_cache_to_vsdb. rewrite !fold_flush_account, <- Ec.
  destruct (write_all_equiv _ _ (cache_accounts (db s1)) _ _ (@hash_iter_perm _ _ _ _ IS1) (@hash_iter_perm _ _ _ _ IS2)
    (@hash_iter_perm _ _ _ _ IA1 _) (@hash_iter_perm _ _ _ _ IA2 _) Hwf codes Hcodes _ _ (state_trie s1) (state_trie s2) Es Et) as [Ew Em].
  destruct (write_all _ _) as [w1 m1], (write_all _ _) as [w2 m2]. simpl in *. split; [split|..]; done.
Qed.
End StateEquiv.
