(* ===== verification/Precompile.v ===== *)
(** crates/precompile/src/lib.rs: the Balances (0x0800) and Staking (0x0801)
    precompiles.

    revm's journal, gas meter and standard precompiles are parameters
    ([RevmCall]); [JournalOk] states what the code relies on of them.  The
    staking state, shared behind a mutex, and the call context are threaded
    through the calls. *)
From S2P Require Import Prelude Types.

(** ** revm *)

(** The instruction results the code produces; the standard precompiles may
    return others. *)
Inductive InstructionResult :=
  | Return | Revert | PrecompileError | PrecompileOOG | OtherResult (code : Z).

Inductive CallInput :=
  | SharedBuffer (start stop : nat) (* a Range<usize> of the shared memory *)
  | CallBytes (bytes : list byte).

Record CallInputs := mkCallInputs {
  input : CallInput;
  call_gas_limit : Z;
  bytecode_address : Address;
  caller : Address;
  is_static : bool;
}.

Class RevmCall : Type := {
  Ctx : Type;
  (* context.journal_mut() *)
  DbError : Type;
  TransferError : Type;
  load_account : Ctx → Address → Ctx * result DbError U256; (* acc.data.info.balance *)
  transfer : Ctx → Address → Address → U256 → Ctx * result DbError (option TransferError);
  (* context.local() *)
  shared_memory_buffer_slice : Ctx → nat → nat → option (list byte);
  Gas : Type;
  gas_new : Z → Gas;
  record_cost : Gas → Z → Gas * bool;
}.

Record InterpreterResult `{RevmCall} := mkResult {
  result_of : InstructionResult;
  gas : Gas;
  output : list byte;
}.

Class EthPrecompilesTr `{RevmCall} : Type := {
  SpecId : Type;
  EthPrecompiles : Type;
  eth_new : SpecId → EthPrecompiles;
  eth_set_spec : EthPrecompiles → SpecId → EthPrecompiles * bool;
  eth_run : EthPrecompiles → Ctx → CallInputs → EthPrecompiles * Ctx * result string (option InterpreterResult);
  eth_warm_addresses : EthPrecompiles → list Address;
  eth_contains : EthPrecompiles → Address → bool;
}.

(** What the journal does to balances: a transfer that succeeds moves the amount,
    and it succeeds when the sender can pay and the receiver's balance does not
    overflow.  A transfer that fails changes nothing, except that revm, when the
    receiver's balance overflows, may already have debited the sender and leaves
    it so. *)
Class JournalOk `{EthPrecompilesTr} : Type := {
  balance_of : Ctx → Address → Z;
  balance_range c a : is_u256 (balance_of c a);
  load_account_balance c a b :
    (load_account c a).2 = Ok b → b = balance_of c a;
  load_account_frame c a x : balance_of (load_account c a).1 x = balance_of c x;
  transfer_done c f t n x :
    (transfer c f t n).2 = Ok None →
    n ≤ balance_of c f ∧
    balance_of (transfer c f t n).1 x =
      balance_of c x - (if decide (x = f) then n else 0) + (if decide (x = t) then n else 0);
  transfer_failed c f t n x :
    (transfer c f t n).2 ≠ Ok None →
    x ≠ f ∨ balance_of c f < n ∨ f = t ∨ balance_of c t + n < 2 ^ 256 →
    balance_of (transfer c f t n).1 x = balance_of c x;
  transfer_failed_sender c f t n :
    is_u256 n → (transfer c f t n).2 ≠ Ok None →
    balance_of c f - n ≤ balance_of (transfer c f t n).1 f ≤ balance_of c f;
  transfer_succeeds c f t n :
    is_u256 n → n ≤ balance_of c f → f = t ∨ balance_of c t + n < 2 ^ 256 → (transfer c f t n).2 = Ok None;
  gas_remaining : Gas → Z;
  gas_remaining_new l : gas_remaining (gas_new l) = l;
  record_cost_spec g n :
    gas_remaining (record_cost g n).1 = (if n <=? gas_remaining g then gas_remaining g - n else gas_remaining g) ∧
    (record_cost g n).2 = (n <=? gas_remaining g);
  eth_run_balances e c i x : balance_of (eth_run e c i).1.2 x = balance_of c x;
}.

(** ** Constants *)

Definition BALANCES_ADDR : Address := 0x0800.
Definition STAKING_ADDR : Address := 0x0801.
Definition PRECOMPILE_BASE_GAS : Z := 150.
Definition PRECOMPILE_WRITE_GAS : Z := 500.

Definition SEL_BALANCE_OF : list byte := byte_of_Z <$> [0x70; 0xa0; 0x82; 0x31].
Definition SEL_TRANSFER : list byte := byte_of_Z <$> [0xa9; 0x05; 0x9c; 0xbb].
Definition SEL_DELEGATE : list byte := byte_of_Z <$> [0x02; 0x6e; 0x40; 0x2b].
Definition SEL_UNBOND : list byte := byte_of_Z <$> [0xa5; 0xd0; 0x59; 0xca].
Definition SEL_GET_STAKE : list byte := byte_of_Z <$> [0x82; 0xdd; 0xa2; 0x2d].
Definition SEL_TOTAL_STAKE : list byte := byte_of_Z <$> [0xb2; 0x73; 0xfc; 0x9a].

(** ** StakingState *)

Record StakingState := mkStaking {
  delegations : gmap (Z * Z) Z; (* HashMap<(Address, Address), U256> *)
}.

Definition staking_new : StakingState := {| delegations := ∅ |}.

Definition delegate (s : StakingState) (delegator validator : Address) (amount : U256) : StakingState :=
  let entry := default 0 (delegations s !! (delegator, validator)) in
  {| delegations := <[(delegator, validator) := saturating_add 256 entry amount]> (delegations s) |}.

(** [entry(..).or_default()] leaves a zero entry behind on the error path. *)
Definition unbond (s : StakingState) (delegator validator : Address) (amount : U256)
    : StakingState * result string unit :=
  let entry := default 0 (delegations s !! (delegator, validator)) in
  if entry <? amount then
    ({| delegations := <[(delegator, validator) := entry]> (delegations s) |}, Err "insufficient delegation"%string)
  else
    ({| delegations := <[(delegator, validator) := saturating_sub entry amount]> (delegations s) |}, Ok tt).

Definition get_stake (s : StakingState) (delegator validator : Address) : U256 :=
  default 0 (delegations s !! (delegator, validator)).

Definition total_stake `{!HashIter (Z * Z) Z} (s : StakingState) (validator : Address) : U256 :=
  fold_left (λ acc kv, saturating_add 256 acc kv.2)
    (filter (λ kv, kv.1.2 = validator) (hash_iter (delegations s))) 0.

(** ** HotmintPrecompiles *)

Section Precompiles.
Context `{EthPrecompilesTr} `{!HashIter (Z * Z) Z}.

Record HotmintPrecompiles := mkPrecompiles {
  eth : EthPrecompiles;
  staking : StakingState; (* Arc<Mutex<StakingState>> *)
}.

Definition precompiles_new (spec : SpecId) (st : StakingState) : HotmintPrecompiles :=
  {| eth := eth_new spec; staking := st |}.

Definition set_spec (p : HotmintPrecompiles) (spec : SpecId) : HotmintPrecompiles * bool :=
  let '(e, b) := eth_set_spec (eth p) spec in ({| eth := e; staking := staking p |}, b).

Definition extract_input (context : Ctx) (inputs : CallInputs) : list byte :=
  match input inputs with
  | SharedBuffer start stop => default [] (shared_memory_buffer_slice context start stop)
  | CallBytes bytes => bytes
  end.

(** [&input[i..j]]; every use is behind a check that the input is long enough. *)
Definition slice (i j : nat) (bs : list byte) : list byte := take (j - i) (drop i bs).

Definition set_result (r : InterpreterResult) (code : InstructionResult) : InterpreterResult :=
  {| result_of := code; gas := gas r; output := output r |}.
Definition set_gas (r : InterpreterResult) (g : Gas) : InterpreterResult :=
  {| result_of := result_of r; gas := g; output := output r |}.
Definition set_output (r : InterpreterResult) (v : U256) : InterpreterResult :=
  {| result_of := result_of r; gas := gas r; output := to_be_bytes 32 v |}.

Definition result_new (inputs : CallInputs) : InterpreterResult :=
  {| result_of := Return; gas := gas_new (call_gas_limit inputs); output := [] |}.

(** The two early returns every arm starts with: an input too short, and a gas
    limit below the cost. *)
Definition charged {A} (len : nat) (cost : Z) (inp : list byte) (r : InterpreterResult)
    (stop : InterpreterResult → A) (go : InterpreterResult → A) : A :=
  if (length inp <? len)%nat then stop (set_result r PrecompileError)
  else
    let '(g, paid) := record_cost (gas r) cost in
    let r := set_gas r g in
    if negb paid then stop (set_result r PrecompileOOG) else go r.

Definition run_balances (p : HotmintPrecompiles) (context : Ctx) (inputs : CallInputs) : Ctx * InterpreterResult :=
  let inp := extract_input context inputs in
  let result := result_new inputs in
  if (length inp <? 4)%nat then (context, set_result result PrecompileError) else
  let selector := take 4 inp in
  if decide (selector = SEL_BALANCE_OF) then
    charged 36 PRECOMPILE_BASE_GAS inp result (pair context) (λ result,
      let addr := address_from_slice (slice 16 36 inp) in
      let '(context, acc) := load_account context addr in
      let balance := match acc with Ok b => b | Err _ => 0 end in
      (context, set_output result balance))
  else if decide (selector = SEL_TRANSFER) then
    charged 68 PRECOMPILE_WRITE_GAS inp result (pair context) (λ result,
      let to := address_from_slice (slice 16 36 inp) in
      let amount := from_be_bytes (slice 36 68 inp) in
      match transfer context (caller inputs) to amount with
      | (context, Ok None) => (context, set_output result 1)
      | (context, Ok (Some _)) => (context, set_output (set_result result Revert) 0)
      | (context, Err _) => (context, set_output (set_result result Revert) 0)
      end)
  else (context, set_result result PrecompileError).

Definition with_staking (p : HotmintPrecompiles) (st : StakingState) : HotmintPrecompiles :=
  {| eth := eth p; staking := st |}.

Definition run_staking (p : HotmintPrecompiles) (context : Ctx) (inputs : CallInputs)
    : HotmintPrecompiles * Ctx * InterpreterResult :=
  let inp := extract_input context inputs in
  let result := result_new inputs in
  if (length inp <? 4)%nat then (p, context, set_result result PrecompileError) else
  let selector := take 4 inp in
  if decide (selector = SEL_DELEGATE) then
    charged 68 PRECOMPILE_WRITE_GAS inp result (pair (p, context)) (λ result,
      let validator := address_from_slice (slice 16 36 inp) in
      let amount := from_be_bytes (slice 36 68 inp) in
      let delegator := caller inputs in
      match transfer context delegator STAKING_ADDR amount with
      | (context, Ok None) =>
        (with_staking p (delegate (staking p) delegator validator amount), context, set_output result 1)
      | (context, _) => (p, context, set_output (set_result result Revert) 0)
      end)
  else if decide (selector = SEL_UNBOND) then
    charged 68 PRECOMPILE_WRITE_GAS inp result (pair (p, context)) (λ result,
      let validator := address_from_slice (slice 16 36 inp) in
      let amount := from_be_bytes (slice 36 68 inp) in
      let delegator := caller inputs in
      let '(st, r) := unbond (staking p) delegator validator amount in
      let p := with_staking p st in
      if negb (is_ok r) then (p, context, set_output (set_result result Revert) 0) else
      match transfer context STAKING_ADDR delegator amount with
      | (context, Ok None) => (p, context, set_output result 1)
      | (context, _) => (p, context, set_output (set_result result Revert) 0)
      end)
  else if decide (selector = SEL_GET_STAKE) then
    charged 68 PRECOMPILE_BASE_GAS inp result (pair (p, context)) (λ result,
      let delegator := address_from_slice (slice 16 36 inp) in
      let validator := address_from_slice (slice 48 68 inp) in
      (p, context, set_output result (get_stake (staking p) delegator validator)))
  else if decide (selector = SEL_TOTAL_STAKE) then
    charged 36 PRECOMPILE_BASE_GAS inp result (pair (p, context)) (λ result,
      let validator := address_from_slice (slice 16 36 inp) in
      (p, context, set_output result (total_stake (staking p) validator)))
  else (p, context, set_result result PrecompileError).

Definition run (p : HotmintPrecompiles) (context : Ctx) (inputs : CallInputs)
    : HotmintPrecompiles * Ctx * result string (option InterpreterResult) :=
  let target := bytecode_address inputs in
  if target =? BALANCES_ADDR then
    let '(context, r) := run_balances p context inputs in (p, context, Ok (Some r))
  else if target =? STAKING_ADDR then
    let '(p, context, r) := run_staking p context inputs in (p, context, Ok (Some r))
  else
    let '(e, context, r) := eth_run (eth p) context inputs in
    ({| eth := e; staking := staking p |}, context, r).

Definition warm_addresses (p : HotmintPrecompiles) : list Address :=
  eth_warm_addresses (eth p) ++ [BALANCES_ADDR; STAKING_ADDR].

Definition contains (p : HotmintPrecompiles) (address : Address) : bool :=
  (address =? BALANCES_ADDR) || (address =? STAKING_ADDR) || eth_contains (eth p) address.
End Precompiles.
