(* ===== verification/PrecompileProps.v ===== *)
(** Correctness of the Balances and Staking precompiles: solvency of the
    staking account, what each operation does to balances and delegations, and
    what a failed call leaves behind. *)
From S2P Require Import Prelude Types Precompile.

(** ** Delegations *)

Definition stakes_wf (s : StakingState) : Prop := map_Forall (λ _ v, is_u256 v) (delegations s).
Definition staked (s : StakingState) : Z := map_sumZ (λ _ v, v) (delegations s).
(** The delegations to one validator. *)
Definition staked_to (v : Address) (s : StakingState) : Z :=
  map_sumZ (λ k x, if decide (k.2 = v) then x else 0) (delegations s).

Lemma get_stake_range s d v : stakes_wf s → is_u256 (get_stake s d v).
Proof.
  intros Hs. unfold get_stake. destruct (delegations s !! (d, v)) as [x|] eqn:E; simpl; [|ulia]. by apply (Hs _ _ E).
Qed.

Lemma stakes_wf_insert s k x : stakes_wf s → is_u256 x → stakes_wf {| delegations := <[k := x]> (delegations s) |}.
Proof. intros. by apply map_Forall_insert_2. Qed.

Lemma staked_insert s d v x :
  staked {| delegations := <[(d, v) := x]> (delegations s) |} = staked s - get_stake s d v + x.
Proof.
  unfold staked, get_stake. simpl. destruct (delegations s !! (d, v)) as [x0|] eqn:E; simpl.
  - by rewrite (map_sumZ_insert _ _ _ _ x0).
  - rewrite map_sumZ_insert_new by done. lia.
Qed.

Lemma get_stake_insert s d v x d' v' :
  get_stake {| delegations := <[(d, v) := x]> (delegations s) |} d' v' =
    if decide ((d', v') = (d, v)) then x else get_stake s d' v'.
Proof.
  unfold get_stake. simpl. case_decide as E; [rewrite E; by rewrite lookup_insert_eq|by rewrite lookup_insert_ne].
Qed.

Lemma get_stake_le_staked s d v : stakes_wf s → get_stake s d v ≤ staked s.
Proof.
  intros Hs. assert (∀ k x, delegations s !! k = Some x → 0 ≤ x) as Hpos by (intros k x E; by apply (Hs _ _ E)).
  unfold get_stake, staked. destruct (delegations s !! (d, v)) as [x|] eqn:E; simpl.
  - by apply (map_sumZ_lookup_le (λ _ v, v) _ (d, v) x).
  - by apply map_sumZ_nonneg.
Qed.

Lemma delegate_wf s d v n : stakes_wf s → is_u256 n → stakes_wf (delegate s d v n).
Proof.
  intros Hs Hn. apply stakes_wf_insert; [done|]. pose proof (get_stake_range s d v Hs). unfold get_stake in *.
  apply saturating_add_range; ulia.
Qed.

Lemma delegate_staked s d v n : staked (delegate s d v n) ≤ staked s + n.
Proof. unfold delegate. rewrite staked_insert. unfold get_stake, saturating_add. lia. Qed.

Lemma unbond_ok s d v n :
  n ≤ get_stake s d v →
  unbond s d v n = ({| delegations := <[(d, v) := saturating_sub (get_stake s d v) n]> (delegations s) |}, Ok tt).
Proof. intros Hn. unfold unbond. fold (get_stake s d v). by rewrite (proj2 (Z.ltb_ge _ _)). Qed.

Lemma unbond_err s d v n :
  get_stake s d v < n → ∃ e,
  unbond s d v n = ({| delegations := <[(d, v) := get_stake s d v]> (delegations s) |}, Err e).
Proof. intros Hn. unfold unbond. fold (get_stake s d v). rewrite (proj2 (Z.ltb_lt _ _)) by done. eauto. Qed.

Lemma unbond_wf s d v n : stakes_wf s → 0 ≤ n → stakes_wf (unbond s d v n).1.
Proof.
  intros Hs Hn. pose proof (get_stake_range s d v Hs).
  destruct (Z.le_gt_cases n (get_stake s d v)) as [Hle|Hgt].
  - rewrite unbond_ok by done. apply stakes_wf_insert; [done|]. unfold saturating_sub. ulia.
  - destruct (unbond_err s d v n Hgt) as [e ->]. by apply stakes_wf_insert.
Qed.

(** *** total_stake *)

Lemma fold_saturating_add {A} (f : A → Z) l acc :
  0 ≤ acc < 2 ^ 256 → Forall (λ x, 0 ≤ f x) l →
  fold_left (λ acc x, saturating_add 256 acc (f x)) l acc = Z.min (acc + sumZ (f <$> l)) (max_u 256).
Proof.
  intros Hacc Hl. revert acc Hacc. induction Hl as [|x l Hx Hl IH]; intros acc Hacc; cbn [fold_left fmap list_fmap sumZ foldr].
  - unfold max_u. lia.
  - rewrite IH by (unfold saturating_add, max_u; lia). unfold saturating_add, max_u.
    fold (sumZ (f <$> l)). pose proof (sumZ_nonneg (f <$> l) ltac:(by apply Forall_fmap)). lia.
Qed.

Lemma sumZ_filter {A} (P : A → Prop) `{∀ x, Decision (P x)} (f : A → Z) l :
  sumZ (f <$> filter P l) = sumZ ((λ x, if decide (P x) then f x else 0) <$> l).
Proof.
  induction l as [|x l IH]; [done|]. rewrite filter_cons, fmap_cons.
  case_decide; rewrite ?fmap_cons; simpl; by rewrite IH.
Qed.

Lemma total_stake_eq `{!HashIter (Z * Z) Z} s v :
  stakes_wf s → total_stake s v = Z.min (staked_to v s) (max_u 256).
Proof.
  intros Hs. unfold total_stake. rewrite (fold_saturating_add snd).
  - rewrite (sumZ_filter _ snd). unfold staked_to, map_sumZ. rewrite hash_iter_perm. done.
  - ulia.
  - apply Forall_forall. intros [k x] [_ E%elem_of_hash_iter]%list_elem_of_filter. by apply (Hs _ _ E).
Qed.

(** C35. [totalStake] is the sum of the delegations to the validator, capped at
    [U256::MAX], whatever the iteration order of the map. *)
Theorem total_stake_sum `{!HashIter (Z * Z) Z} s v :
  stakes_wf s → total_stake s v = Z.min (staked_to v s) (max_u 256).
Proof. apply total_stake_eq. Qed.

Section PrecompileProps.
Context `{JournalOk} `{!HashIter (Z * Z) Z}.
Implicit Types (p : HotmintPrecompiles) (c : Ctx) (i : CallInputs).

(** ** What a call does

    The effect of a call on the staking state and the journal, by the arm it
    takes, and the instruction result it returns. *)

Notation arg_address inp := (address_from_slice (slice 16 36 inp)).
Notation arg_amount inp := (from_be_bytes (slice 36 68 inp)).

Inductive staking_effect p c i : HotmintPrecompiles → Ctx → InstructionResult → Prop :=
  | effect_none code : staking_effect p c i p c code
  | effect_delegate c' inp :
    transfer c (caller i) STAKING_ADDR (arg_amount inp) = (c', Ok None) →
    staking_effect p c i
      (with_staking p (delegate (staking p) (caller i) (arg_address inp) (arg_amount inp))) c' Return
  | effect_delegate_failed c' r inp :
    transfer c (caller i) STAKING_ADDR (arg_amount inp) = (c', r) → r ≠ Ok None →
    staking_effect p c i p c' Revert
  | effect_unbond_refused inp :
    get_stake (staking p) (caller i) (arg_address inp) < arg_amount inp →
    staking_effect p c i
      (with_staking p (unbond (staking p) (caller i) (arg_address inp) (arg_amount inp)).1) c Revert
  | effect_unbond c' inp :
    arg_amount inp ≤ get_stake (staking p) (caller i) (arg_address inp) →
    transfer c STAKING_ADDR (caller i) (arg_amount inp) = (c', Ok None) →
    staking_effect p c i
      (with_staking p (unbond (staking p) (caller i) (arg_address inp) (arg_amount inp)).1) c' Return
  | effect_unbond_failed c' r inp :
    arg_amount inp ≤ get_stake (staking p) (caller i) (arg_address inp) →
    transfer c STAKING_ADDR (caller i) (arg_amount inp) = (c', r) → r ≠ Ok None →
    staking_effect p c i
      (with_staking p (unbond (staking p) (caller i) (arg_address inp) (arg_amount inp)).1) c' Revert.

Lemma charged_ind {A} (P : A → Prop) len cost inp r stop go :
  (∀ r', P (stop r')) → (∀ r', result_of r' = result_of r → P (go r')) → P (charged len cost inp r stop go).
Proof.
  intros Hstop Hgo. unfold charged. destruct (length inp <? len)%nat; [done|].
  destruct (record_cost (gas r) cost) as [g paid]. destruct paid; [by apply Hgo|apply Hstop].
Qed.

Lemma run_staking_effect p c i :
  let '(p', c', r) := run_staking p c i in staking_effect p c i p' c' (result_of r).
Proof.
  set (Q := λ x : HotmintPrecompiles * Ctx * InterpreterResult, staking_effect p c i x.1.1 x.1.2 (result_of x.2)).
  enough (Q (run_staking p c i)) as HQ by (unfold Q in HQ; by destruct (run_staking p c i) as [[]]).
  unfold run_staking. set (inp := extract_input c i).
  destruct (length inp <? 4)%nat; [constructor|].
  case_decide; [|case_decide; [|case_decide; [|case_decide; [|constructor]]]].
  - apply charged_ind; [constructor|]. intros r Hr.
    destruct (transfer c (caller i) STAKING_ADDR (arg_amount inp)) as [c' [[e|]|e]] eqn:Et; unfold Q; cbn.
    + by eapply effect_delegate_failed.
    + rewrite Hr. by eapply effect_delegate.
    + by eapply effect_delegate_failed.
  - apply charged_ind; [constructor|]. intros r Hr.
    destruct (Z.le_gt_cases (arg_amount inp) (get_stake (staking p) (caller i) (arg_address inp))) as [Hle|Hgt].
    + pose proof (effect_unbond p c i) as Hok. pose proof (effect_unbond_failed p c i) as Hfail.
      destruct (transfer c STAKING_ADDR (caller i) (arg_amount inp)) as [c' r'] eqn:Et.
      specialize (Hok c' inp Hle). specialize (Hfail c' r' inp Hle Et).
      rewrite (unbond_ok _ _ _ _ Hle) in *. cbn [fst is_ok negb] in *.
      destruct r' as [[e|]|e]; unfold Q; cbn [fst snd set_output set_result result_of]; rewrite ?Hr; auto.
    + pose proof (effect_unbond_refused p c i inp Hgt) as Href.
      destruct (unbond_err _ _ _ _ Hgt) as [e Eu]. rewrite Eu in *. exact Href.
  - apply charged_ind; [constructor|]. intros r Hr. constructor.
  - apply charged_ind; [constructor|]. intros r Hr. constructor.
Qed.

Lemma arg_amount_range inp : is_u256 (arg_amount inp).
Proof.
  pose proof (from_be_bytes_range (slice 36 68 inp)) as Hr.
  assert (length (slice 36 68 inp) ≤ 32)%nat as Hlen by (unfold slice; rewrite length_take; lia).
  pose proof (Z.pow_le_mono_r 2 (8 * Z.of_nat (length (slice 36 68 inp))) 256 ltac:(lia) ltac:(lia)).
  unfold in_u in *. lia.
Qed.

(** What a call to the Balances precompile does: one transfer from the caller, or
    nothing to any other balance. *)
Lemma run_balances_effect p c i :
  let '(c', r) := run_balances p c i in
  (∀ x, x ≠ caller i → balance_of c' x = balance_of c x) ∨
  (∃ to n, transfer c (caller i) to n = (c', Ok None) ∧ is_u256 n ∧ result_of r = Return).
Proof.
  set (Q := λ x : Ctx * InterpreterResult, (∀ a, a ≠ caller i → balance_of x.1 a = balance_of c a) ∨
    (∃ to n, transfer c (caller i) to n = (x.1, Ok None) ∧ is_u256 n ∧ result_of x.2 = Return)).
  enough (Q (run_balances p c i)) as HQ by (unfold Q in HQ; by destruct (run_balances p c i)).
  assert (∀ r, Q (c, r)) as Hnone by (intros r; by left).
  unfold run_balances. set (inp := extract_input c i).
  destruct (length inp <? 4)%nat; [done|]. case_decide; [|case_decide; [|done]].
  - apply charged_ind; [done|]. intros r Hr.
    pose proof (load_account_frame c (arg_address inp)) as Hf.
    destruct (load_account c (arg_address inp)) as [c' acc]. left. intros x _. apply Hf.
  - apply charged_ind; [done|]. intros r Hr.
    pose proof (transfer_failed c (caller i) (arg_address inp) (arg_amount inp)) as Hf.
    destruct (transfer c (caller i) (arg_address inp) (arg_amount inp)) as [c' [[e|]|e]] eqn:Et; unfold Q; simpl in *.
    + left. intros x Hx. by apply Hf; auto.
    + right. exists (arg_address inp), (arg_amount inp). split_and!; [done|apply arg_amount_range|done].
    + left. intros x Hx. by apply Hf; auto.
Qed.

(** ** Solvency *)

Definition solvent p c : Prop := stakes_wf (staking p) ∧ staked (staking p) ≤ balance_of c STAKING_ADDR.

Lemma transfer_balance c f t n c' x :
  transfer c f t n = (c', Ok None) →
  n ≤ balance_of c f ∧
  balance_of c' x = balance_of c x - (if decide (x = f) then n else 0) + (if decide (x = t) then n else 0).
Proof. intros E. pose proof (transfer_done c f t n x) as Hd. rewrite E in Hd. by apply Hd. Qed.

Lemma transfer_balance_failed c f t n c' r x :
  transfer c f t n = (c', r) → r ≠ Ok None →
  x ≠ f ∨ balance_of c f < n ∨ f = t ∨ balance_of c t + n < 2 ^ 256 → balance_of c' x = balance_of c x.
Proof. intros E Hr. pose proof (transfer_failed c f t n x) as Hd. rewrite E in Hd. by apply Hd. Qed.

Lemma transfer_balance_debit c f t n c' r :
  transfer c f t n = (c', r) → r ≠ Ok None → is_u256 n → balance_of c f - n ≤ balance_of c' f ≤ balance_of c f.
Proof. intros E Hr Hn. pose proof (transfer_failed_sender c f t n Hn) as Hd. rewrite E in Hd. by apply Hd. Qed.

Lemma unbond_staked s d v n :
  0 ≤ n → n ≤ get_stake s d v → staked (unbond s d v n).1 = staked s - n.
Proof. intros Hpos Hn. rewrite unbond_ok by done. cbn. rewrite staked_insert. unfold saturating_sub. lia. Qed.

(** What the delegations exceed the staking account by: no call raises it. *)
Definition exposure p c : Z := staked (staking p) - balance_of c STAKING_ADDR.

Lemma run_staking_wf p c i : stakes_wf (staking p) → stakes_wf (staking (run_staking p c i).1.1).
Proof.
  intros Hwf. pose proof (run_staking_effect p c i) as He. destruct (run_staking p c i) as [[p' c'] r]. simpl.
  destruct He as [code|c' inp Et|c' r' inp Et Hr|inp Hlt|c' inp Hle Et|c' r' inp Hle Et Hr];
    try pose proof (arg_amount_range inp) as Hn; cbn [staking with_staking]; try done.
  1: by apply delegate_wf.
  all: apply unbond_wf; [done|ulia].
Qed.

Lemma run_staking_exposure p c i :
  caller i ≠ STAKING_ADDR → exposure (run_staking p c i).1.1 (run_staking p c i).1.2 ≤ exposure p c.
Proof.
  intros Hc. pose proof (run_staking_effect p c i) as He. unfold exposure.
  destruct (run_staking p c i) as [[p' c'] r]. simpl.
  destruct He as [code|c' inp Et|c' r' inp Et Hr|inp Hlt|c' inp Hle Et|c' r' inp Hle Et Hr];
    try pose proof (arg_amount_range inp) as Hn; cbn [staking with_staking]; try done.
  - pose proof (delegate_staked (staking p) (caller i) (arg_address inp) (arg_amount inp)).
    destruct (transfer_balance _ _ _ _ _ STAKING_ADDR Et) as [_ ->].
    rewrite decide_False, decide_True by done. lia.
  - by rewrite (transfer_balance_failed _ _ _ _ _ _ STAKING_ADDR Et Hr) by auto.
  - destruct (unbond_err _ _ _ _ Hlt) as [e ->]. cbn. rewrite staked_insert. lia.
  - rewrite unbond_staked by (done || ulia).
    destruct (transfer_balance _ _ _ _ _ STAKING_ADDR Et) as [_ ->].
    rewrite decide_True, decide_False by done. lia.
  - rewrite unbond_staked by (done || ulia).
    pose proof (transfer_balance_debit _ _ _ _ _ _ Et Hr Hn). lia.
Qed.

Lemma run_wf p c i : stakes_wf (staking p) → stakes_wf (staking (run p c i).1.1).
Proof.
  intros Hwf. unfold run. destruct (_ =? BALANCES_ADDR); [by destruct (run_balances p c i)|]. destruct (_ =? STAKING_ADDR).
  - pose proof (run_staking_wf p c i Hwf). by destruct (run_staking p c i) as [[p' c'] r].
  - by destruct (eth_run (eth p) c i) as [[e c'] r].
Qed.

Lemma run_exposure p c i :
  caller i ≠ STAKING_ADDR → exposure (run p c i).1.1 (run p c i).1.2 ≤ exposure p c.
Proof.
  intros Hc. unfold run. destruct (bytecode_address i =? BALANCES_ADDR).
  - pose proof (run_balances_effect p c i) as He. destruct (run_balances p c i) as [c' r].
    unfold exposure. simpl. destruct He as [E|(to & n & Et & Hn & _)]; [by rewrite E by done|].
    destruct (transfer_balance _ _ _ _ _ STAKING_ADDR Et) as [_ ->].
    rewrite decide_False by done. case_decide; ulia.
  - destruct (bytecode_address i =? STAKING_ADDR).
    + pose proof (run_staking_exposure p c i Hc) as He. by destruct (run_staking p c i) as [[p' c'] r].
    + pose proof (eth_run_balances (eth p) c i STAKING_ADDR) as He. destruct (eth_run (eth p) c i) as [[e c'] r].
      unfold exposure. simpl in *. by rewrite He.
Qed.

Lemma run_solvent p c i :
  caller i ≠ STAKING_ADDR → solvent p c →
  let '(p', c', r) := run p c i in solvent p' c'.
Proof.
  intros Hc [Hwf Hs]. pose proof (run_exposure p c i Hc) as He. pose proof (run_wf p c i Hwf) as Hwf'.
  destruct (run p c i) as [[p' c'] r]. split; [done|]. unfold exposure in He. simpl in He. lia.
Qed.

(** Precompile calls interleaved with other activity of the EVM.  The staking
    address has no key and no code, so it is never a caller and no other
    activity takes funds from it.  A frame that delegated and is then reverted
    is not such a step: see [reverted_delegation_steals]. *)
Inductive chain_step : HotmintPrecompiles * Ctx → HotmintPrecompiles * Ctx → Prop :=
  | chain_call p c i p' c' r :
    caller i ≠ STAKING_ADDR → run p c i = (p', c', r) → chain_step (p, c) (p', c')
  | chain_other p c c' :
    balance_of c STAKING_ADDR ≤ balance_of c' STAKING_ADDR → chain_step (p, c) (p, c').

(** The staking account is always able to pay back every delegation: from
    a state where the delegations sum to no more than its balance (the initial
    one has none), no sequence of precompile calls and of other activity that
    takes nothing from the staking account leads to one where they exceed it. *)
Theorem staking_solvent p c p' c' :
  solvent p c → rtc chain_step (p, c) (p', c') → solvent p' c'.
Proof.
  intros Hs Hr. revert Hs. remember (p, c) as x eqn:Ex. remember (p', c') as y eqn:Ey.
  enough (solvent x.1 x.2 → solvent y.1 y.2) by (by subst). clear Ex Ey.
  induction Hr as [x|x y z Hxy Hyz IH]; [done|]. intros Hs. apply IH.
  destruct Hxy as [q d i q' d' r Hc E|q d d' Hle].
  - pose proof (run_solvent q d i Hc Hs) as He. by rewrite E in He.
  - destruct Hs as [? ?]. split; simpl in *; [done|lia].
Qed.

(** ** Failed calls *)

Lemma unbond_refused_stake st d v n d' v' :
  get_stake st d v < n → get_stake (unbond st d v n).1 d' v' = get_stake st d' v'.
Proof.
  intros Hlt. destruct (unbond_err st d v n Hlt) as [e ->]. cbn [fst]. rewrite get_stake_insert.
  case_decide as E; [by injection E as -> ->|done].
Qed.

Lemma unbond_get_stake st d v n d' v' :
  n ≤ get_stake st d v → 0 ≤ n →
  get_stake (unbond st d v n).1 d' v' = get_stake st d' v' - (if decide ((d', v') = (d, v)) then n else 0).
Proof.
  intros Hle Hn. rewrite unbond_ok by done. cbn [fst]. rewrite get_stake_insert. unfold saturating_sub.
  case_decide as E; [injection E as -> ->|]; lia.
Qed.

(** C33. What a staking call that does not return successfully (too short an
    input, an unknown selector, out of gas, insufficient funds or delegation)
    leaves behind, when the balances of caller and staking account do not
    overflow together: every balance is as before, and so is every delegation,
    unless the call unbonds an amount that is delegated but that the staking
    account cannot pay; then exactly that delegation has shrunk by the amount
    ([failed_unbond_loses_delegation]).  A solvent staking account can pay, so
    that then nothing has changed. *)
Theorem staking_failure_atomic p c i :
  balance_of c STAKING_ADDR + balance_of c (caller i) < 2 ^ 256 →
  let '(p', c', r) := run_staking p c i in
  result_of r ≠ Return →
  (∀ x, balance_of c' x = balance_of c x) ∧
  ((∀ d v, get_stake (staking p') d v = get_stake (staking p) d v) ∨
   ∃ v n, balance_of c STAKING_ADDR < n ≤ get_stake (staking p) (caller i) v ∧
     ∀ d v', get_stake (staking p') d v' =
       get_stake (staking p) d v' - (if decide ((d, v') = (caller i, v)) then n else 0)) ∧
  (solvent p c → ∀ d v, get_stake (staking p') d v = get_stake (staking p) d v).
Proof.
  intros Hsum. pose proof (run_staking_effect p c i) as He.
  destruct (run_staking p c i) as [[p' c'] r]. intros Hr. revert He Hr. generalize (result_of r) as code.
  intros code He. destruct He as [code|c' inp Et|c' r' inp Et Hr'|inp Hlt|c' inp Hle Et|c' r' inp Hle Et Hr']; try done; intros _;
    try pose proof (arg_amount_range inp) as Hn.
  - by auto.
  - split; [|by auto]. intros x. apply (transfer_balance_failed _ _ _ _ _ _ _ Et Hr'). lia.
  - split_and!; [done|left; intros d v; by apply unbond_refused_stake|intros _ d v; by apply unbond_refused_stake].
  - assert (balance_of c STAKING_ADDR < arg_amount inp) as Hpoor.
    { apply Z.nle_gt. intros Hpay. destruct Hr'. pose proof (transfer_succeeds c STAKING_ADDR (caller i) (arg_amount inp)) as Ht.
      rewrite Et in Ht. apply Ht; [done|done|]. right. lia. }
    split_and!.
    + intros x. apply (transfer_balance_failed _ _ _ _ _ _ _ Et Hr'). auto.
    + right. exists (arg_address inp), (arg_amount inp). split; [done|]. intros d v'. apply unbond_get_stake; [done|ulia].
    + intros [Hwf Hs]. pose proof (get_stake_le_staked (staking p) (caller i) (arg_address inp) Hwf). lia.
Qed.

(** ** ABI calls *)

Definition abi_call (sel : list byte) (addr : Address) (amount : U256) : list byte :=
  sel ++ replicate 12 (byte_of_Z 0) ++ address_as_slice addr ++ to_be_bytes 32 amount.

Lemma abi_call_args sel addr amount :
  length sel = 4%nat → is_address addr → is_u256 amount →
  length (abi_call sel addr amount) = 68%nat ∧ take 4 (abi_call sel addr amount) = sel ∧
  arg_address (abi_call sel addr amount) = addr ∧ arg_amount (abi_call sel addr amount) = amount.
Proof.
  intros Hsel Ha Hn. unfold abi_call, slice. split_and!.
  - by rewrite !length_app, length_replicate, length_address_as_slice, length_to_be_bytes, Hsel.
  - rewrite take_app_le, take_ge by lia. done.
  - rewrite (app_assoc sel), drop_app_length', take_app_length'.
    + by apply address_from_as_slice.
    + by rewrite length_address_as_slice.
    + by rewrite length_app, length_replicate, Hsel.
  - rewrite !app_assoc, drop_app_length', take_ge.
    + by apply (from_to_be_bytes_id 32 256).
    + by rewrite length_to_be_bytes.
    + by rewrite !length_app, length_replicate, length_address_as_slice, Hsel.
Qed.

(** A successful write: its gas and its result word. *)
Definition wrote i : InterpreterResult :=
  set_output (set_gas (result_new i) (record_cost (gas_new (call_gas_limit i)) PRECOMPILE_WRITE_GAS).1) 1.

Lemma wrote_spec i :
  PRECOMPILE_WRITE_GAS ≤ call_gas_limit i →
  result_of (wrote i) = Return ∧ output (wrote i) = to_be_bytes 32 1 ∧
  gas_remaining (gas (wrote i)) = call_gas_limit i - PRECOMPILE_WRITE_GAS.
Proof.
  intros Hg. split_and!; [done|done|]. cbn [wrote set_output set_gas gas].
  rewrite (proj1 (record_cost_spec _ _)), gas_remaining_new. by rewrite (proj2 (Z.leb_le _ _)).
Qed.

Lemma charged_go {A} len inp i (stop go : InterpreterResult → A) :
  (len ≤ length inp)%nat → PRECOMPILE_WRITE_GAS ≤ call_gas_limit i →
  charged len PRECOMPILE_WRITE_GAS inp (result_new i) stop go =
    go (set_gas (result_new i) (record_cost (gas_new (call_gas_limit i)) PRECOMPILE_WRITE_GAS).1).
Proof.
  intros Hlen Hg. unfold charged. rewrite (proj2 (Nat.ltb_ge _ _)) by done. cbn [gas result_new].
  destruct (record_cost_spec (gas_new (call_gas_limit i)) PRECOMPILE_WRITE_GAS) as [_ Hp].
  rewrite gas_remaining_new in Hp. rewrite (proj2 (Z.leb_le _ _)) in Hp by done.
  destruct (record_cost _ _) as [g paid]. simpl in *. by subst.
Qed.

Lemma run_delegate p c i v n c' :
  input i = CallBytes (abi_call SEL_DELEGATE v n) → PRECOMPILE_WRITE_GAS ≤ call_gas_limit i →
  is_address v → is_u256 n → transfer c (caller i) STAKING_ADDR n = (c', Ok None) →
  run_staking p c i = (with_staking p (delegate (staking p) (caller i) v n), c', wrote i).
Proof.
  intros Hi Hg Hv Hn Ht. unfold run_staking, extract_input. rewrite Hi.
  destruct (abi_call_args SEL_DELEGATE v n eq_refl Hv Hn) as (Hlen & Hsel & Hav & Han).
  rewrite Hlen, Hsel, Hav, Han. cbn [Nat.ltb Nat.leb]. rewrite decide_True by done.
  rewrite charged_go by (done || lia). by rewrite Ht.
Qed.

Lemma run_unbond p c i v n c' :
  input i = CallBytes (abi_call SEL_UNBOND v n) → PRECOMPILE_WRITE_GAS ≤ call_gas_limit i →
  is_address v → is_u256 n → n ≤ get_stake (staking p) (caller i) v →
  transfer c STAKING_ADDR (caller i) n = (c', Ok None) →
  run_staking p c i = (with_staking p (unbond (staking p) (caller i) v n).1, c', wrote i).
Proof.
  intros Hi Hg Hv Hn Hle Ht. unfold run_staking, extract_input. rewrite Hi.
  destruct (abi_call_args SEL_UNBOND v n eq_refl Hv Hn) as (Hlen & Hsel & Hav & Han).
  rewrite Hlen, Hsel, Hav, Han. cbn [Nat.ltb Nat.leb]. rewrite decide_False, decide_True by done.
  rewrite charged_go by (done || lia). rewrite unbond_ok by done. cbn [is_ok negb fst]. by rewrite Ht.
Qed.

(** C32. A delegator can always withdraw: with a solvent staking account, a call
    [unbond(validator, amount)] of no more than what the caller has delegated,
    with enough gas, succeeds; it costs 500 gas, pays the amount out of the
    staking account to the caller, reduces that delegation by it, and changes
    no other balance or delegation. *)
Theorem unbond_withdraws p c i v n :
  solvent p c → input i = CallBytes (abi_call SEL_UNBOND v n) → PRECOMPILE_WRITE_GAS ≤ call_gas_limit i →
  is_address v → is_u256 n → n ≤ get_stake (staking p) (caller i) v →
  caller i = STAKING_ADDR ∨ balance_of c (caller i) + n < 2 ^ 256 →
  let '(p', c', r) := run_staking p c i in
  result_of r = Return ∧ output r = to_be_bytes 32 1 ∧
  gas_remaining (gas r) = call_gas_limit i - PRECOMPILE_WRITE_GAS ∧
  (∀ d' v', get_stake (staking p') d' v' =
    get_stake (staking p) d' v' - (if decide ((d', v') = (caller i, v)) then n else 0)) ∧
  (∀ x, balance_of c' x =
    balance_of c x - (if decide (x = STAKING_ADDR) then n else 0) + (if decide (x = caller i) then n else 0)).
Proof.
  intros [Hwf Hs] Hi Hg Hv Hn Hle Hovf. pose proof (get_stake_le_staked (staking p) (caller i) v Hwf).
  assert ((transfer c STAKING_ADDR (caller i) n).2 = Ok None) as Ht
    by (apply transfer_succeeds; [done|lia|destruct Hovf; auto]).
  destruct (transfer c STAKING_ADDR (caller i) n) as [c' r'] eqn:Et. simpl in Ht. subst r'.
  rewrite (run_unbond p c i v n c') by done. destruct (wrote_spec i Hg) as (H1' & H2' & H3').
  split_and!; [done|done|done|..].
  - intros d' v'. apply unbond_get_stake; [done|ulia].
  - intros x. apply (transfer_balance _ _ _ _ _ x Et).
Qed.

(** [delegate(validator, amount)] by a caller who can pay succeeds; it moves
    the amount from the caller to the staking account and adds it to that
    delegation (saturating), and changes no other balance or delegation. *)
Theorem delegate_locks p c i v n :
  input i = CallBytes (abi_call SEL_DELEGATE v n) → PRECOMPILE_WRITE_GAS ≤ call_gas_limit i →
  is_address v → is_u256 n → n ≤ balance_of c (caller i) →
  caller i = STAKING_ADDR ∨ balance_of c STAKING_ADDR + n < 2 ^ 256 →
  let '(p', c', r) := run_staking p c i in
  result_of r = Return ∧ output r = to_be_bytes 32 1 ∧
  gas_remaining (gas r) = call_gas_limit i - PRECOMPILE_WRITE_GAS ∧
  (∀ d' v', get_stake (staking p') d' v' =
    if decide ((d', v') = (caller i, v)) then saturating_add 256 (get_stake (staking p) d' v') n
    else get_stake (staking p) d' v') ∧
  (∀ x, balance_of c' x =
    balance_of c x - (if decide (x = caller i) then n else 0) + (if decide (x = STAKING_ADDR) then n else 0)).
Proof.
  intros Hi Hg Hv Hn Hle Hovf.
  pose proof (transfer_succeeds c (caller i) STAKING_ADDR n Hn Hle Hovf) as Ht.
  destruct (transfer c (caller i) STAKING_ADDR n) as [c' r'] eqn:Et. simpl in Ht. subst r'.
  rewrite (run_delegate p c i v n c') by done. destruct (wrote_spec i Hg) as (H1' & H2' & H3').
  split_and!; [done|done|done|..].
  - intros d' v'. cbn [staking with_staking]. unfold delegate. rewrite get_stake_insert.
    case_decide as E; [by injection E as -> ->|done].
  - intros x. apply (transfer_balance _ _ _ _ _ x Et).
Qed.

(** C34. Delegating an amount and unbonding it again restores every balance and
    every delegation: for a caller other than the staking account who can pay,
    with a solvent staking account, enough gas and no overflow. *)
Theorem delegate_unbond_roundtrip p c i j v n :
  solvent p c → input i = CallBytes (abi_call SEL_DELEGATE v n) → input j = CallBytes (abi_call SEL_UNBOND v n) →
  caller j = caller i → caller i ≠ STAKING_ADDR →
  PRECOMPILE_WRITE_GAS ≤ call_gas_limit i → PRECOMPILE_WRITE_GAS ≤ call_gas_limit j →
  is_address v → is_u256 n → n ≤ balance_of c (caller i) → balance_of c STAKING_ADDR + n < 2 ^ 256 →
  let '(p1, c1, r1) := run_staking p c i in
  let '(p2, c2, r2) := run_staking p1 c1 j in
  result_of r1 = Return ∧ result_of r2 = Return ∧
  (∀ x, balance_of c2 x = balance_of c x) ∧
  (∀ d' v', get_stake (staking p2) d' v' = get_stake (staking p) d' v').
Proof.
  intros [Hwf Hs] Hi Hj Hc Hne Hgi Hgj Hv Hn Hle Hovf.
  pose proof (transfer_succeeds c (caller i) STAKING_ADDR n Hn Hle (or_intror Hovf)) as Ht.
  destruct (transfer c (caller i) STAKING_ADDR n) as [c1 r1] eqn:Et. simpl in Ht. subst r1.
  rewrite (run_delegate p c i v n c1) by done. set (p1 := with_staking p _).
  pose proof (get_stake_le_staked (staking p) (caller i) v Hwf). pose proof (get_stake_range (staking p) (caller i) v Hwf).
  assert (∀ d' v', get_stake (staking p1) d' v' =
    get_stake (staking p) d' v' + (if decide ((d', v') = (caller i, v)) then n else 0)) as Hstake.
  { intros d' v'. subst p1. cbn [staking with_staking]. unfold delegate. rewrite get_stake_insert.
    case_decide as E; [injection E as -> ->|lia]. apply saturating_add_small. unfold get_stake in *. lia. }
  assert (n ≤ get_stake (staking p1) (caller j) v) as Hle1 by (rewrite Hstake, Hc, decide_True by done; ulia).
  destruct (transfer_balance _ _ _ _ _ STAKING_ADDR Et) as [_ Eb]. rewrite decide_False, decide_True in Eb by done.
  destruct (transfer_balance _ _ _ _ _ (caller i) Et) as [_ Ec]. rewrite decide_True, decide_False in Ec by done.
  pose proof (balance_range c (caller i)). pose proof (balance_range c STAKING_ADDR).
  assert ((transfer c1 STAKING_ADDR (caller j) n).2 = Ok None) as Ht2
    by (apply transfer_succeeds; [done|ulia|right; rewrite Hc; ulia]).
  destruct (transfer c1 STAKING_ADDR (caller j) n) as [c2 r2] eqn:Et2. simpl in Ht2. subst r2.
  rewrite (run_unbond p1 c1 j v n c2) by done. split_and!; [done|done|..].
  - intros x. rewrite (proj2 (transfer_balance _ _ _ _ _ x Et2)), (proj2 (transfer_balance _ _ _ _ _ x Et)), Hc.
    repeat case_decide; lia.
  - intros d' v'. cbn [staking with_staking]. rewrite unbond_get_stake, Hstake by (done || ulia).
    rewrite Hc. case_decide; lia.
Qed.
End PrecompileProps.

(** ** A ledger

    The journal as a map of balances, with no standard precompile: a model of
    the parameters. *)

Module Ledger.
Definition bal (c : gmap Z Z) (a : Z) : Z := wrap 256 (default 0 (c !! a)).
(** revm does not give the sender its funds back when the receiver overflows. *)
Definition move (c : gmap Z Z) (f t n : Z) : gmap Z Z * result unit (option string) :=
  if negb ((0 <=? n) && (n <=? bal c f)) then (c, Ok (Some "OutOfFunds"%string))
  else if f =? t then (c, Ok None)
  else if 2 ^ 256 <=? bal c t + n then (<[f := bal c f - n]> c, Ok (Some "OverflowPayment"%string))
  else (<[t := bal c t + n]> (<[f := bal c f - n]> c), Ok None).

Lemma bal_range c a : is_u256 (bal c a).
Proof. apply wrap_range. lia. Qed.

Lemma move_done c f t n x :
  (move c f t n).2 = Ok None →
  n ≤ bal c f ∧
  bal (move c f t n).1 x = bal c x - (if decide (x = f) then n else 0) + (if decide (x = t) then n else 0).
Proof.
  unfold move. pose proof (bal_range c f). pose proof (bal_range c t).
  destruct (Z.eqb_spec f t) as [->|Hne]; zb; simpl; try done; intros _; split; try done.
  - repeat case_decide; lia.
  - unfold bal at 1. destruct (decide (x = t)) as [->|].
    + rewrite lookup_insert_eq, decide_False by done. simpl. rewrite wrap_small; ulia.
    + rewrite lookup_insert_ne by done. destruct (decide (x = f)) as [->|].
      * rewrite lookup_insert_eq. simpl. rewrite wrap_small; ulia.
      * rewrite lookup_insert_ne by done. fold (bal c x). lia.
Qed.

Lemma move_failed c f t n x :
  (move c f t n).2 ≠ Ok None → x ≠ f ∨ bal c f < n ∨ f = t ∨ bal c t + n < 2 ^ 256 → bal (move c f t n).1 x = bal c x.
Proof.
  unfold move. zb; simpl; try done. intros _ Hx. unfold bal at 1. rewrite lookup_insert_ne; [done|]. intros <-.
  destruct Hx as [?|[?|[?|?]]]; [done|lia|done|lia].
Qed.

Lemma move_failed_sender c f t n :
  is_u256 n → (move c f t n).2 ≠ Ok None → bal c f - n ≤ bal (move c f t n).1 f ≤ bal c f.
Proof.
  intros Hn. pose proof (bal_range c f). unfold move. zb; simpl; try done; intros _; try ulia.
  assert (bal (<[f := bal c f - n]> c) f = bal c f - n) as -> by (unfold bal at 1; rewrite lookup_insert_eq; simpl; rewrite wrap_small; ulia).
  ulia.
Qed.

Lemma move_succeeds c f t n :
  is_u256 n → n ≤ bal c f → f = t ∨ bal c t + n < 2 ^ 256 → (move c f t n).2 = Ok None.
Proof. intros Hn Hle Ht. unfold move. zb; simpl; try done; unfold in_u in *; lia. Qed.

#[export] Instance ledger_call : RevmCall := {|
  Ctx := gmap Z Z; DbError := unit; TransferError := string;
  load_account c a := (c, Ok (bal c a)); transfer := move;
  shared_memory_buffer_slice c _ _ := None;
  Gas := Z; gas_new l := l; record_cost g n := if n <=? g then (g - n, true) else (g, false) |}.

#[export] Instance no_eth : EthPrecompilesTr := {|
  SpecId := unit; EthPrecompiles := unit; eth_new _ := tt; eth_set_spec e _ := (e, true);
  eth_run e c _ := (e, c, Ok None); eth_warm_addresses _ := []; eth_contains _ _ := false |}.

#[export] Instance ledger_ok : JournalOk.
Proof.
  refine {| balance_of := bal : Ctx → Address → Z; gas_remaining := (λ g, g) : Gas → Z |}; try done.
  - exact bal_range.
  - by intros c a b [= <-].
  - exact move_done.
  - exact move_failed.
  - exact move_failed_sender.
  - exact move_succeeds.
  - intros g n. simpl. by destruct (n <=? g).
Defined.
End Ledger.

(** ** Witnesses and concrete runs *)

Section Concrete.
Import Ledger.
#[local] Instance iter_stakes : HashIter (Z * Z) Z := hash_iter_forward (Z * Z) Z.

Definition alice : Address := 10.
Definition mallory : Address := 66.
Definition validator : Address := 7.
(** Alice has delegated 100; Mallory owns 100. *)
Definition demo_ledger : Ctx := {[ STAKING_ADDR := 100; mallory := 100 ]}.
Definition demo_precompiles : HotmintPrecompiles :=
  {| eth := tt; staking := {| delegations := {[ (alice, validator) := 100 ]} |} |}.
Definition call (sel : list byte) (who : Address) (static : bool) (amount : Z) : CallInputs :=
  mkCallInputs (CallBytes (abi_call sel validator amount)) 1000 STAKING_ADDR who static.

Ltac run_vm := vm_compute; repeat split; (reflexivity || intros ?; discriminate).

Lemma demo_solvent : solvent demo_precompiles demo_ledger.
Proof.
  split; [|by vm_compute]. unfold stakes_wf. apply map_Forall_singleton. ulia.
Qed.

Lemma total_stake_sum_witness : total_stake (staking demo_precompiles) validator = 100.
Proof. rewrite (total_stake_sum _ validator (proj1 demo_solvent)). by vm_compute. Defined.

Lemma staking_solvent_witness :
  solvent (run demo_precompiles demo_ledger (call SEL_DELEGATE mallory false 60)).1.1
          (run demo_precompiles demo_ledger (call SEL_DELEGATE mallory false 60)).1.2.
Proof.
  refine (staking_solvent demo_precompiles demo_ledger _ _ demo_solvent (rtc_once _ _ _)).
  eapply (chain_call _ _ (call SEL_DELEGATE mallory false 60)); [done|]. by rewrite <- !surjective_pairing.
Defined.

Lemma staking_failure_atomic_witness :
  balance_of (run_staking demo_precompiles demo_ledger (call SEL_DELEGATE mallory false 101)).1.2 mallory = 100.
Proof.
  assert (balance_of demo_ledger STAKING_ADDR + balance_of demo_ledger (caller (call SEL_DELEGATE mallory false 101)) < 2 ^ 256) as Hsum
    by (vm_compute; reflexivity).
  pose proof (staking_failure_atomic demo_precompiles demo_ledger (call SEL_DELEGATE mallory false 101) Hsum) as Hw.
  assert (result_of (run_staking demo_precompiles demo_ledger (call SEL_DELEGATE mallory false 101)).2 ≠ Return) as Hr
    by by vm_compute.
  destruct (run_staking demo_precompiles demo_ledger (call SEL_DELEGATE mallory false 101)) as [[p' c'] r].
  simpl in *. rewrite (proj1 (Hw Hr)). by vm_compute.
Defined.

Lemma unbond_withdraws_witness :
  balance_of (run_staking demo_precompiles demo_ledger (call SEL_UNBOND alice false 40)).1.2 alice = 40.
Proof.
  pose proof (unbond_withdraws demo_precompiles demo_ledger (call SEL_UNBOND alice false 40) validator 40
    demo_solvent eq_refl ltac:(done) ltac:(done) ltac:(done) ltac:(done) ltac:(right; by vm_compute)) as Hw.
  destruct (run_staking demo_precompiles demo_ledger (call SEL_UNBOND alice false 40)) as [[p' c'] r].
  destruct Hw as (_ & _ & _ & _ & Hb). simpl. rewrite Hb. by vm_compute.
Defined.

Lemma delegate_locks_witness :
  balance_of (run_staking demo_precompiles demo_ledger (call SEL_DELEGATE mallory false 60)).1.2 mallory = 40.
Proof.
  pose proof (delegate_locks demo_precompiles demo_ledger (call SEL_DELEGATE mallory false 60) validator 60
    eq_refl ltac:(done) ltac:(done) ltac:(done) ltac:(by vm_compute) ltac:(right; by vm_compute)) as Hw.
  destruct (run_staking demo_precompiles demo_ledger (call SEL_DELEGATE mallory false 60)) as [[p' c'] r].
  destruct Hw as (_ & _ & _ & _ & Hb). simpl. rewrite Hb. by vm_compute.
Defined.

Lemma delegate_unbond_roundtrip_witness :
  let '(p1, c1, _) := run_staking demo_precompiles demo_ledger (call SEL_DELEGATE mallory false 60) in
  balance_of (run_staking p1 c1 (call SEL_UNBOND mallory false 60)).1.2 mallory = 100.
Proof.
  pose proof (delegate_unbond_roundtrip demo_precompiles demo_ledger (call SEL_DELEGATE mallory false 60)
    (call SEL_UNBOND mallory false 60) validator 60 demo_solvent eq_refl eq_refl eq_refl ltac:(done) ltac:(done)
    ltac:(done) ltac:(done) ltac:(done) ltac:(by vm_compute) ltac:(by vm_compute)) as Hw.
  destruct (run_staking demo_precompiles demo_ledger (call SEL_DELEGATE mallory false 60)) as [[p1 c1] r1].
  destruct (run_staking p1 c1 (call SEL_UNBOND mallory false 60)) as [[p2 c2] r2].
  destruct Hw as (_ & _ & Hb & _). simpl. rewrite Hb. by vm_compute.
Defined.

(** The staking state is outside the journal.  Mallory delegates 100 in a call
    frame that then reverts: the journal goes back to [demo_ledger], the
    delegation stays.  She unbonds it and leaves with Alice's 100; Alice's own
    [unbond] now reverts. *)
Theorem reverted_delegation_steals :
  let p1 := (run_staking demo_precompiles demo_ledger (call SEL_DELEGATE mallory false 100)).1.1 in
  let '(p2, c2, r2) := run_staking p1 demo_ledger (call SEL_UNBOND mallory false 100) in
  let '(p3, c3, r3) := run_staking p2 c2 (call SEL_UNBOND alice false 100) in
  result_of r2 = Return ∧ balance_of c2 mallory = 200 ∧ balance_of c2 STAKING_ADDR = 0 ∧
  get_stake (staking p2) alice validator = 100 ∧ result_of r3 = Revert.
Proof. run_vm. Qed.

(** [unbond] removes the delegation before it pays out and does not put it back
    when the payment fails. *)
Theorem failed_unbond_loses_delegation :
  let '(p', c', r) := run_staking demo_precompiles ∅ (call SEL_UNBOND alice false 100) in
  result_of r = Revert ∧ balance_of c' alice = 0 ∧ get_stake (staking p') alice validator = 0.
Proof. run_vm. Qed.

(** A static call moves funds: no arm looks at [is_static]. *)
Theorem staticcall_moves_funds :
  let '(p', c', r) := run_staking demo_precompiles demo_ledger (call SEL_DELEGATE mallory true 60) in
  result_of r = Return ∧ balance_of c' mallory = 40 ∧ get_stake (staking p') mallory validator = 60.
Proof. run_vm. Qed.
End Concrete.
