(* ===== verification/Frames.v ===== *)
(** The precompiles inside call frames.

    A transaction is a tree of call frames: each frame starts with a checkpoint
    of the journal and ends by committing or by reverting to it.  The staking
    state is not in the journal: [HotmintPrecompiles] shares it behind an [Arc],
    and no frame restores it.  [exec] runs such a tree on the precompiles of
    crates/precompile/src/lib.rs.  The theorems bound what the staking account
    can lose by what reverted frames delegated, and show that the bound is
    reached. *)
From S2P Require Import Prelude Types Precompile PrecompileProps.

(** revm's [checkpoint_revert]: the journal as it was at the checkpoint, given
    the context of now. *)
Class JournalRevert `{JournalOk} : Type := {
  checkpoint_revert : Ctx → Ctx → Ctx;
  revert_balance c0 c x : balance_of (checkpoint_revert c0 c) x = balance_of c0 x;
}.

(** What happens in a frame, in order: precompile calls, other transfers of
    value, and inner frames. *)
Inductive activity : Type :=
  | Done
  | Precompile (i : CallInputs) (rest : activity)
  | Pay (f t : Address) (n : U256) (rest : activity)
  | Inner (body : activity) (reverts : bool) (rest : activity).

Section Frames.
Context `{JournalRevert} `{!HashIter (Z * Z) Z}.
Implicit Types (p : HotmintPrecompiles) (c : Ctx) (a : activity).

Definition call_step (s : HotmintPrecompiles * Ctx) (i : CallInputs) : HotmintPrecompiles * Ctx :=
  let '(p, c, _) := run s.1 s.2 i in (p, c).

Fixpoint exec a (s : HotmintPrecompiles * Ctx) : HotmintPrecompiles * Ctx :=
  match a with
  | Done => s
  | Precompile i rest => exec rest (call_step s i)
  | Pay f t n rest => exec rest (s.1, (transfer s.2 f t n).1)
  | Inner body reverts rest =>
    let s' := exec body s in
    exec rest (if reverts then (s'.1, checkpoint_revert s.2 s'.2) else s')
  end.

(** The staking account has no key and no code: it is never the caller or the
    payer. *)
Fixpoint callers_ok a : Prop :=
  match a with
  | Done => True
  | Precompile i rest => caller i ≠ STAKING_ADDR ∧ callers_ok rest
  | Pay f _ n rest => f ≠ STAKING_ADDR ∧ is_u256 n ∧ callers_ok rest
  | Inner body _ rest => callers_ok body ∧ callers_ok rest
  end.

(** What the delegations grew by in the outermost frames that reverted. *)
Fixpoint leaked a (s : HotmintPrecompiles * Ctx) : Z :=
  match a with
  | Done => 0
  | Precompile i rest => leaked rest (call_step s i)
  | Pay f t n rest => leaked rest (s.1, (transfer s.2 f t n).1)
  | Inner body reverts rest =>
    let s' := exec body s in
    if reverts then staked (staking s'.1) - staked (staking s.1) + leaked rest (s'.1, checkpoint_revert s.2 s'.2)
    else leaked body s + leaked rest s'
  end.

(** ** The bound *)

Lemma call_step_wf s i : stakes_wf (staking s.1) → stakes_wf (staking (call_step s i).1).
Proof. intros Hwf. pose proof (run_wf s.1 s.2 i Hwf). unfold call_step. by destruct (run s.1 s.2 i) as [[p' c'] r]. Qed.

Lemma call_step_exposure s i :
  caller i ≠ STAKING_ADDR → exposure (call_step s i).1 (call_step s i).2 ≤ exposure s.1 s.2.
Proof. intros Hc. pose proof (run_exposure s.1 s.2 i Hc). unfold call_step. by destruct (run s.1 s.2 i) as [[p' c'] r]. Qed.

Lemma exec_wf a s : stakes_wf (staking s.1) → stakes_wf (staking (exec a s).1).
Proof.
  revert s. induction a as [|i rest IH|f t n rest IH|body IHb reverts rest IH]; intros s Hwf; simpl; auto using call_step_wf.
  apply IH. destruct reverts; by apply IHb.
Qed.

Lemma pay_exposure p c f t n :
  f ≠ STAKING_ADDR → is_u256 n → exposure p (transfer c f t n).1 ≤ exposure p c.
Proof.
  intros Hf Hn. unfold exposure. destruct (transfer c f t n) as [c' r] eqn:Et. simpl.
  destruct r as [[e|]|e]; [by rewrite (transfer_balance_failed _ _ _ _ _ _ STAKING_ADDR Et) by auto|
                          |by rewrite (transfer_balance_failed _ _ _ _ _ _ STAKING_ADDR Et) by auto].
  destruct (transfer_balance _ _ _ _ _ STAKING_ADDR Et) as [_ ->]. rewrite decide_False by done. case_decide; ulia.
Qed.

(** Running an activity raises the exposure by no more than it leaks. *)
Lemma exec_exposure a s :
  callers_ok a → exposure (exec a s).1 (exec a s).2 ≤ exposure s.1 s.2 + leaked a s.
Proof.
  revert s. induction a as [|i rest IH|f t n rest IH|body IHb reverts rest IH]; intros s Hok; simpl in *.
  - lia.
  - destruct Hok as [Hc Hok]. pose proof (call_step_exposure s i Hc). pose proof (IH (call_step s i) Hok). lia.
  - destruct Hok as (Hf & Hn & Hok). pose proof (pay_exposure s.1 s.2 f t n Hf Hn).
    pose proof (IH (s.1, (transfer s.2 f t n).1) Hok) as He. simpl in He. lia.
  - destruct Hok as [Hb Hok]. pose proof (IHb s Hb) as He. destruct reverts.
    + pose proof (IH ((exec body s).1, checkpoint_revert s.2 (exec body s).2) Hok) as He'.
      simpl in He'. unfold exposure in *. rewrite revert_balance in He'. lia.
    + pose proof (IH (exec body s) Hok). lia.
Qed.

(** *** Frames that do not touch the staking precompile *)

Fixpoint no_staking a : Prop :=
  match a with
  | Done => True
  | Precompile i rest => bytecode_address i ≠ STAKING_ADDR ∧ no_staking rest
  | Pay _ _ _ rest => no_staking rest
  | Inner body _ rest => no_staking body ∧ no_staking rest
  end.

(** Only frames that leave the staking precompile alone revert. *)
Fixpoint reverts_harmless a : Prop :=
  match a with
  | Done => True
  | Precompile _ rest | Pay _ _ _ rest => reverts_harmless rest
  | Inner body reverts rest => (if reverts then no_staking body else reverts_harmless body) ∧ reverts_harmless rest
  end.

Lemma no_staking_stakes a s : no_staking a → staking (exec a s).1 = staking s.1.
Proof.
  revert s. induction a as [|i rest IH|f t n rest IH|body IHb reverts rest IH]; intros s Hno; simpl in *.
  - done.
  - destruct Hno as [Hi Hno]. rewrite IH by done. unfold call_step, run. apply Z.eqb_neq in Hi. rewrite Hi.
    destruct (_ =? BALANCES_ADDR); [by destruct (run_balances _ _ _)|]. by destruct (eth_run _ _ _) as [[? ?] ?].
  - by rewrite IH.
  - destruct Hno as [Hb Hno]. rewrite IH by done. destruct reverts; simpl; by rewrite IHb.
Qed.

Lemma harmless_leaks_nothing a s : reverts_harmless a → leaked a s = 0.
Proof.
  revert s. induction a as [|i rest IH|f t n rest IH|body IHb reverts rest IH]; intros s Hh; simpl in *; auto.
  destruct Hh as [Hb Hh]. destruct reverts; rewrite IH by done.
  - rewrite no_staking_stakes by done. lia.
  - rewrite IHb by done. lia.
Qed.

(** C7. Solvency inside call frames.  Whatever tree of call frames transactions
    run (precompile calls, other transfers, inner frames that commit or revert),
    the delegations exceed the staking account's balance by at most what they
    exceeded it before plus what they grew by in reverted frames; so an account
    that covers all delegations still does when only frames that did not call
    the staking precompile reverted. *)
Theorem frames_solvent a p c :
  callers_ok a → stakes_wf (staking p) →
  let '(p', c') := exec a (p, c) in
  staked (staking p') ≤ balance_of c' STAKING_ADDR + (staked (staking p) - balance_of c STAKING_ADDR) + leaked a (p, c) ∧
  (reverts_harmless a → solvent p c → solvent p' c').
Proof.
  intros Hok Hwf. pose proof (exec_exposure a (p, c) Hok) as He. pose proof (exec_wf a (p, c) Hwf) as Hwf'. unfold exposure in He.
  destruct (exec a (p, c)) as [p' c'] eqn:E. simpl in *. split; [lia|].
  intros Hh [_ Hs]. rewrite harmless_leaks_nothing in He by done. split; [done|lia].
Qed.

(** ** The bound is reached *)

(** [delegate] in a frame that reverts, then [unbond]. *)
Definition theft (i j : CallInputs) : activity := Inner (Precompile i Done) true (Precompile j Done).

(** C20. Reverted frames drain the staking account: whoever owns [n] can delegate
    [n] in a frame that reverts and unbond it, and is then richer by [n], paid
    from the staking account, while all delegations and their sum are as
    before. *)
Theorem reverted_frame_drains p c i j v n :
  stakes_wf (staking p) → bytecode_address i = STAKING_ADDR → bytecode_address j = STAKING_ADDR →
  input i = CallBytes (abi_call SEL_DELEGATE v n) → input j = CallBytes (abi_call SEL_UNBOND v n) →
  caller j = caller i → caller i ≠ STAKING_ADDR →
  PRECOMPILE_WRITE_GAS ≤ call_gas_limit i → PRECOMPILE_WRITE_GAS ≤ call_gas_limit j → is_address v → is_u256 n →
  n ≤ balance_of c (caller i) → n ≤ balance_of c STAKING_ADDR →
  balance_of c STAKING_ADDR + n < 2 ^ 256 → balance_of c (caller i) + n < 2 ^ 256 →
  get_stake (staking p) (caller i) v + n < 2 ^ 256 →
  let '(p', c') := exec (theft i j) (p, c) in
  balance_of c' (caller i) = balance_of c (caller i) + n ∧
  balance_of c' STAKING_ADDR = balance_of c STAKING_ADDR - n ∧
  (∀ d w, get_stake (staking p') d w = get_stake (staking p) d w) ∧ staked (staking p') = staked (staking p).
Proof.
  intros Hwf Ti Tj Hi Hj Hc Hne Hgi Hgj Hv Hn Hle1 Hle2 Hov1 Hov2 Hov3. unfold theft. cbn [exec].
  assert (∀ q d k, bytecode_address k = STAKING_ADDR → call_step (q, d) k = (run_staking q d k).1) as Hstep.
  { intros q d k Hk. unfold call_step, run. rewrite Hk. simpl. by destruct (run_staking q d k) as [[? ?] ?]. }
  pose proof (transfer_succeeds c (caller i) STAKING_ADDR n Hn Hle1 (or_intror Hov1)) as Ht.
  destruct (transfer c (caller i) STAKING_ADDR n) as [c1 r1] eqn:Et. simpl in Ht. subst r1.
  rewrite (Hstep p c i), (run_delegate p c i v n c1) by done. cbn [fst snd]. set (p1 := with_staking p _).
  set (c2 := checkpoint_revert c c1). assert (∀ x, balance_of c2 x = balance_of c x) as Hb by (intros; apply revert_balance).
  assert (∀ d w, get_stake (staking p1) d w = get_stake (staking p) d w + (if decide ((d, w) = (caller i, v)) then n else 0)) as Hst.
  { intros d w. unfold p1. cbn [staking with_staking]. unfold delegate. rewrite get_stake_insert.
    pose proof (get_stake_range (staking p) (caller i) v Hwf). case_decide as E; [injection E as -> ->|lia].
    apply saturating_add_small. unfold get_stake in *. ulia. }
  pose proof (get_stake_range (staking p) (caller i) v Hwf) as Hr.
  assert (n ≤ get_stake (staking p1) (caller j) v) as Hle by (rewrite Hst, Hc, decide_True by done; ulia).
  assert ((transfer c2 STAKING_ADDR (caller j) n).2 = Ok None) as Ht2
    by (apply transfer_succeeds; [done|by rewrite Hb|right; by rewrite Hc, Hb]).
  destruct (transfer c2 STAKING_ADDR (caller j) n) as [c3 r3] eqn:Et2. simpl in Ht2. subst r3.
  rewrite (Hstep p1 c2 j), (run_unbond p1 c2 j v n c3) by done. cbn [fst]. split_and!.
  - rewrite (proj2 (transfer_balance _ _ _ _ _ (caller i) Et2)), Hb, Hc, decide_False, decide_True by done. lia.
  - rewrite (proj2 (transfer_balance _ _ _ _ _ STAKING_ADDR Et2)), Hb, Hc, decide_True, decide_False by done. lia.
  - intros d w. cbn [staking with_staking]. rewrite unbond_get_stake, Hst, Hc by (done || ulia). case_decide; lia.
  - cbn [staking with_staking]. rewrite unbond_staked by (done || ulia). unfold p1, delegate. cbn [staking with_staking].
    rewrite staked_insert, saturating_add_small; unfold get_stake in *; ulia.
Qed.
End Frames.

(** ** Witnesses *)

Section Concrete.
Import Ledger.
#[local] Existing Instance iter_stakes.

#[local] Instance ledger_revert : JournalRevert.
Proof. refine {| checkpoint_revert := (λ c0 _, c0) : Ctx → Ctx → Ctx |}. done. Defined.

(** Mallory delegates 60 in an inner frame that commits, around one that calls
    no staking and reverts. *)
Definition nested : activity :=
  Inner (Precompile (call SEL_DELEGATE mallory false 60) (Inner (Pay mallory alice 20 Done) true Done)) false
    (Precompile (call SEL_UNBOND alice false 100) Done).

Lemma frames_solvent_witness :
  let '(p', c') := exec nested (demo_precompiles, demo_ledger) in solvent p' c' ∧ balance_of c' mallory = 40.
Proof.
  pose proof (frames_solvent nested demo_precompiles demo_ledger ltac:(split_and!; done) (proj1 demo_solvent)) as Hw.
  assert (balance_of (exec nested (demo_precompiles, demo_ledger)).2 mallory = 40) as Hb by by vm_compute.
  destruct (exec nested (demo_precompiles, demo_ledger)) as [p' c']. split; [|exact Hb].
  exact (proj2 Hw ltac:(split_and!; done) demo_solvent).
Defined.

Lemma reverted_frame_drains_witness :
  let '(p', c') := exec (theft (call SEL_DELEGATE mallory false 100) (call SEL_UNBOND mallory false 100)) (demo_precompiles, demo_ledger) in
  balance_of c' mallory = 200 ∧ balance_of c' STAKING_ADDR = 0 ∧ get_stake (staking p') alice validator = 100.
Proof.
  pose proof (reverted_frame_drains demo_precompiles demo_ledger (call SEL_DELEGATE mallory false 100) (call SEL_UNBOND mallory false 100)
    validator 100 (proj1 demo_solvent) eq_refl eq_refl eq_refl eq_refl eq_refl ltac:(done) ltac:(done) ltac:(done) ltac:(done)
    ltac:(done) ltac:(by vm_compute) ltac:(by vm_compute) ltac:(by vm_compute) ltac:(by vm_compute) ltac:(by vm_compute)) as Hw.
  destruct (exec _ _) as [p' c']. destruct Hw as (E1 & E2 & E3 & _). cbn [caller call] in E1. rewrite E1, E2, E3. by vm_compute.
Defined.
End Concrete.
