(* ===== verification/Executor.v ===== *)
(** crates/execution/src/executor.rs: the block executor, which implements the
    consensus engine's [Application], and the mempool adapter.

    The EVM of the revm crate is a parameter: the class [Evm] has its two entry
    points and the environment types; [EvmOk] states what the block loop relies
    on of them.  Each method is a function on the executor's state; its locks
    are in [Locks]. *)
From S2P Require Import Prelude Types Tx TxPool State StateLemmas Precompile.

(** ** revm's environments and results *)

Inductive TxKind := Call (to : Address) | Create.

Record TxEnv := mkTxEnv {
  txe_type : Z;
  txe_caller : Address;
  txe_gas_limit : Z;
  txe_gas_price : Z;
  txe_gas_priority_fee : option Z;
  txe_kind : TxKind;
  txe_value : U256;
  txe_data : list byte;
  txe_nonce : Z;
  txe_chain_id : option Z;
  txe_access_list : list (Address * list B256);
}.

Record BlockEnv := mkBlockEnv {
  blk_number : U256;
  blk_beneficiary : Address;
  blk_timestamp : U256;
  blk_gas_limit : Z;
  blk_basefee : Z;
}.

Record Log := mkRevmLog {
  rlog_address : Address;
  rlog_topics : list B256;
  rlog_data : list byte;
}.

Inductive Output := OutputCall (data : list byte) | OutputCreate (data : list byte) (address : option Address).

Inductive ExecutionResult {HaltReason : Type} :=
  | Success (used : Z) (slogs : list Log) (out : Output)
  | Revert (used : Z) (rlogs : list Log) (out : list byte)
  | Halt (used : Z) (reason : HaltReason).
Arguments ExecutionResult : clear implicits.

Definition result_gas_used {H} (r : ExecutionResult H) : Z :=
  match r with Success g _ _ => g | Revert g _ _ => g | Halt g _ => g end.

(** An EVM run is given the chain id, a block environment, a transaction, the
    database and the shared staking state of the precompiles (with
    [SpecId::CANCUN] and [HotmintPrecompiles::new] fixed by the code). *)
Class Evm `{RevmInit} : Type := {
  EvmError : Type;
  HaltReason : Type;
  debug_error : EvmError → string;    (* {e:?} *)
  debug_halt : HaltReason → string;   (* {reason:?} *)
  txenv_default : TxEnv;
  blockenv_default : BlockEnv;
  transact_commit : Z → BlockEnv → TxEnv → CacheDB → StakingState →
    CacheDB * StakingState * result EvmError (ExecutionResult HaltReason);
  transact_one : Z → BlockEnv → TxEnv → CacheDB → StakingState →
    CacheDB * StakingState * result EvmError (ExecutionResult HaltReason);
  create_address : Address → Z → Address; (* Address::create *)
}.

(** The hex crate. *)
Class HexCrate : Type := {
  hex_encode : list byte → string;                (* hex::encode *)
  hex_decode : string → result string (list byte) (* hex::decode, with the text of its error *)
}.
Class HexCrateOk `{HexCrate} : Prop := hex_decode_encode bs : hex_decode (hex_encode bs) = Ok bs.

(** The nonce a database answers for an address, cached or stored. *)
Definition view_nonce `{RevmInit} (d : CacheDB) (a : Address) : Z :=
  match cache_accounts d !! a with
  | Some acc => info_nonce (acc_info acc)
  | None => vsdb_get_nonce (cache_db d) a
  end.

(** What the block loop relies on of the EVM.  A run writes to the cache of the
    database, never to the store under it, and drops no cached account; it
    consumes no more gas than the transaction's limit; a transaction that is
    executed (even one that reverts or halts) had a nonce below [2^64 - 1]
    (EIP-2681) and moves its sender's nonce one past it; no nonce ever
    decreases. *)
Class EvmOk `{Evm} : Prop := {
  evm_store cid b t d st : cache_db (transact_commit cid b t d st).1.1 = cache_db d;
  evm_cached cid b t d st a :
    is_Some (cache_accounts d !! a) → is_Some (cache_accounts (transact_commit cid b t d st).1.1 !! a);
  evm_cache_wf cid b t d st :
    is_address (txe_caller t) → cache_wf (cache_accounts d) →
    cache_wf (cache_accounts (transact_commit cid b t d st).1.1);
  evm_gas cid b t d st r :
    (transact_commit cid b t d st).2 = Ok r → 0 ≤ result_gas_used r ≤ txe_gas_limit t;
  evm_nonce cid b t d st r :
    (transact_commit cid b t d st).2 = Ok r →
    txe_nonce t < 2 ^ 64 - 1 ∧ view_nonce (transact_commit cid b t d st).1.1 (txe_caller t) = txe_nonce t + 1;
  evm_nonce_mono cid b t d st a :
    view_nonce d a ≤ view_nonce (transact_commit cid b t d st).1.1 a;
  (* transact_one commits nothing; it may load accounts into the cache *)
  call_store cid b t d st : cache_db (transact_one cid b t d st).1.1 = cache_db d;
  call_cached cid b t d st a :
    is_Some (cache_accounts d !! a) → is_Some (cache_accounts (transact_one cid b t d st).1.1 !! a);
  call_cache_wf cid b t d st :
    is_address (txe_caller t) → cache_wf (cache_accounts d) →
    cache_wf (cache_accounts (transact_one cid b t d st).1.1);
  call_nonce cid b t d st a : view_nonce (transact_one cid b t d st).1.1 a = view_nonce d a;
}.

(** ** hotmint's types *)

Record BlockContext := mkBlockContext {
  height : Z;
  proposer : Z; (* ValidatorId(u64) *)
  timestamp : Z;
}.

(** [TxValidationResult::reject()] and [accept_with_gas(priority, gas_wanted)] *)
Inductive TxValidationResult := Reject | AcceptWithGas (priority gas_wanted : Z).

(** [EndBlockResponse { app_hash, ..Default::default() }] *)
Record EndBlockResponse := mkEndBlock { app_hash : list byte }.

Record QueryResponse := mkQueryResponse {
  q_data : list byte;
  q_proof : option (list byte);
  q_height : Z;
}.

Section Executor.
Context `{Evm} `{!TxCodec} `{!HexCrate}.
Context `{!HashIter Z SenderQueue} `{!HashIter Z DbAccount} `{!HashIter Z Z}.

(** The environment of the pool's [nonce_fn]: the state of the executor behind
    the weak pointer, while it is alive. *)
Definition NonceEnv : Type := option EvmState.

Record EvmExecutor := mkExecutor {
  state : EvmState;
  txpool : EvmTxPool NonceEnv;
  receipts : list (list EvmReceipt);
  block_height : Z;
  exec_staking : StakingState;
}.

Definition from_genesis (genesis : EvmGenesis) : EvmExecutor :=
  let state := State.from_genesis genesis in
  let config := st_config state in
  {| state := state;
     txpool := new {| max_pending_per_sender := max_pending_per_sender pool_config_default;
                      max_queued_per_sender := max_queued_per_sender pool_config_default;
                      replacement_bump_pct := replacement_bump_pct pool_config_default;
                      base_fee := base_fee_per_gas config |};
     receipts := [];
     block_height := 0;
     exec_staking := staking_new |}.

Definition config (x : EvmExecutor) : EvmChainConfig := st_config (state x).

Definition get_receipts (x : EvmExecutor) (block_index : nat) : option (list EvmReceipt) :=
  receipts x !! block_index.

Definition submit_raw_tx (x : EvmExecutor) (bytes : list byte) : EvmExecutor * result string B256 :=
  let '(p, r) := submit_tx (txpool x) (Some (state x)) bytes in
  ({| state := state x; txpool := p; receipts := receipts x; block_height := block_height x;
      exec_staking := exec_staking x |}, r).

(** The scan of one block, and of the blocks from the last to the first. *)
Definition find_receipt (h : B256) (rs : list EvmReceipt) : option EvmReceipt :=
  find (λ r, tx_hash r =? h) rs.

Fixpoint find_block (h : B256) (blocks : list (list EvmReceipt)) : option EvmReceipt :=
  match blocks with
  | [] => None
  | rs :: blocks' =>
    match find_receipt h rs with Some r => Some r | None => find_block h blocks' end
  end.

Definition get_receipt_by_tx_hash (x : EvmExecutor) (h : B256) : option EvmReceipt :=
  find_block h (reverse (receipts x)).

Definition kind_of (to : option Address) : TxKind := match to with Some a => Call a | None => Create end.

(** [format!("execution reverted: 0x{}", hex::encode(&output))] and the like *)
Definition call_result (r : result EvmError (ExecutionResult HaltReason)) : result string (list byte) :=
  match r with
  | Ok (Success _ _ (OutputCall data)) => Ok data
  | Ok (Success _ _ (OutputCreate data _)) => Ok data
  | Ok (Revert _ _ out) => Err ("execution reverted: 0x" +:+ hex_encode out)
  | Ok (Halt _ reason) => Err ("execution halted: " +:+ debug_halt reason)
  | Err e => Err ("EVM error: " +:+ debug_error e)
  end.

Definition eth_call (x : EvmExecutor) (from : Address) (to : option Address) (data : list byte) (value : U256)
    (gas : option Z) : EvmExecutor * result string (list byte) :=
  let config := st_config (state x) in
  let tx_env := {|
    txe_type := txe_type txenv_default;
    txe_caller := from;
    txe_gas_limit := default (block_gas_limit config) gas;
    txe_gas_price := base_fee_per_gas config;
    txe_gas_priority_fee := txe_gas_priority_fee txenv_default;
    txe_kind := kind_of to;
    txe_value := value;
    txe_data := data;
    txe_nonce := txe_nonce txenv_default;
    txe_chain_id := txe_chain_id txenv_default;
    txe_access_list := txe_access_list txenv_default |} in
  let block := {|
    blk_number := block_height x;
    blk_beneficiary := blk_beneficiary blockenv_default;
    blk_timestamp := blk_timestamp blockenv_default;
    blk_gas_limit := block_gas_limit config;
    blk_basefee := base_fee_per_gas config |} in
  let '(d, st, r) := transact_one (chain_id config) block tx_env (db (state x)) (exec_staking x) in
  ({| state := with_db (state x) d (state_trie (state x)); txpool := txpool x; receipts := receipts x;
      block_height := block_height x; exec_staking := st |}, call_result r).

(** The closure [setup_nonce_fn] hands to the pool. *)
Definition nonce_closure (env : NonceEnv) (addr : Address) : Z :=
  match env with Some st => get_nonce st addr | None => 0 end.

Definition setup_nonce_fn (x : EvmExecutor) : EvmExecutor :=
  {| state := state x; txpool := set_nonce_fn (txpool x) nonce_closure; receipts := receipts x;
     block_height := block_height x; exec_staking := exec_staking x |}.

(** ** impl Application *)

Definition validate_tx (x : EvmExecutor) (bytes : list byte) : TxValidationResult :=
  match decode_and_recover bytes with
  | Err _ => Reject
  | Ok verified =>
    let st := state x in
    match Tx.validate_tx verified (chain_id (st_config st)) (get_nonce st (sender verified))
            (get_balance st (sender verified)) (block_gas_limit (st_config st)) (base_fee_per_gas (st_config st)) with
    | Err _ => Reject
    | Ok _ =>
      AcceptWithGas (effective_gas_tip (envelope verified) (base_fee_per_gas (st_config st)))
        (env_gas_limit (envelope verified))
    end
  end.

(** The first loop: transactions that do not decode are dropped. *)
Definition decode_all (txs : list (list byte)) : list VerifiedTx :=
  omap (λ bytes, ok (decode_and_recover bytes)) txs.

(** [addr_bytes[12..20] = proposer.0.to_be_bytes()] *)
Definition coinbase_of (ctx : BlockContext) : Address :=
  address_from_slice (replicate 12 (byte_of_Z 0) ++ to_be_bytes 8 (proposer ctx)).

Definition effective_price (config : EvmChainConfig) (env : TxEnvelope) : U256 :=
  let base := base_fee_per_gas config in
  let tip := Z.min (saturating_sub (env_max_fee_per_gas env) base) (default 0 (env_max_priority_fee_per_gas env)) in
  saturating_add 128 base tip.

Definition tx_env_of (vtx : VerifiedTx) : TxEnv :=
  let env := envelope vtx in {|
    txe_type := env_tx_type env;
    txe_caller := sender vtx;
    txe_gas_limit := env_gas_limit env;
    txe_gas_price := env_max_fee_per_gas env;
    txe_gas_priority_fee := env_max_priority_fee_per_gas env;
    txe_kind := kind_of (env_to env);
    txe_value := env_value env;
    txe_data := env_input env;
    txe_nonce := env_nonce env;
    txe_chain_id := env_chain_id env;
    txe_access_list := [] |}.

Definition block_env_of (config : EvmChainConfig) (ctx : BlockContext) : BlockEnv := {|
  blk_number := height ctx;
  blk_beneficiary := coinbase_of ctx;
  blk_timestamp := timestamp ctx;
  blk_gas_limit := block_gas_limit config;
  blk_basefee := base_fee_per_gas config |}.

(** [(success, logs)] of an execution result *)
Definition outcome (r : ExecutionResult HaltReason) : bool * list Log :=
  match r with
  | Success _ ls _ => (true, ls)
  | Revert _ ls _ => (false, ls)
  | Halt _ _ => (false, [])
  end.

Definition receipt_of (config : EvmChainConfig) (ctx : BlockContext) (tx_idx : Z) (vtx : VerifiedTx)
    (r : ExecutionResult HaltReason) (cumulative : Z) : EvmReceipt :=
  let '(success, ls) := outcome r in {|
    tx_hash := vtx_hash vtx;
    tx_index := tx_idx;
    block_hash := 0;
    block_number := height ctx;
    from := sender vtx;
    to := env_to (envelope vtx);
    cumulative_gas_used := cumulative;
    gas_used := result_gas_used r;
    contract_address :=
      match env_to (envelope vtx) with
      | None => Some (create_address (sender vtx) (env_nonce (envelope vtx)))
      | Some _ => None
      end;
    logs := (λ l, mkLog (rlog_address l) (rlog_topics l) (rlog_data l)) <$> ls;
    logs_bloom := replicate 256 (byte_of_Z 0);
    status := if success then 1 else 0;
    effective_gas_price := effective_price config (envelope vtx) |}.

(** What the transaction loop changes. *)
Record LoopState := mkLoop {
  loop_state : EvmState;
  loop_staking : StakingState;
  loop_gas : Z;
  loop_receipts : list EvmReceipt;
}.

(** [transact_commit] of one transaction and its receipt. *)
Definition execute_tx (config : EvmChainConfig) (ctx : BlockContext) (tx_idx : Z) (vtx : VerifiedTx) (l : LoopState) : LoopState :=
  let '(d, st, r) := transact_commit (chain_id config) (block_env_of config ctx) (tx_env_of vtx)
                       (db (loop_state l)) (loop_staking l) in
  let s := with_db (loop_state l) d (state_trie (loop_state l)) in
  match r with
  | Ok res =>
    let cumulative := saturating_add 64 (loop_gas l) (result_gas_used res) in
    mkLoop s st cumulative (loop_receipts l ++ [receipt_of config ctx tx_idx vtx res cumulative])
  | Err _ => mkLoop s st (loop_gas l) (loop_receipts l)
  end.

Fixpoint execute_txs (config : EvmChainConfig) (ctx : BlockContext) (tx_idx : Z) (vtxs : list VerifiedTx) (l : LoopState) : LoopState :=
  match vtxs with
  | [] => l
  | vtx :: rest =>
    if negb (env_nonce (envelope vtx) =? get_nonce (loop_state l) (sender vtx)) then (* continue *)
      execute_txs config ctx (tx_idx + 1) rest l
    else if block_gas_limit config <? saturating_add 64 (loop_gas l) (env_gas_limit (envelope vtx)) then (* break *)
      l
    else execute_txs config ctx (tx_idx + 1) rest (execute_tx config ctx tx_idx vtx l)
  end.

Definition record_parent (s : EvmState) (ctx : BlockContext) : EvmState :=
  if 0 <? height ctx then record_block_hash s (saturating_sub (height ctx) 1) 0 else s.

Definition execute_block (x : EvmExecutor) (txs : list (list byte)) (ctx : BlockContext)
    : EvmExecutor * result string EndBlockResponse :=
  let config := st_config (state x) in
  let s := record_parent (state x) ctx in
  let l := execute_txs config ctx 0 (decode_all txs) (mkLoop s (exec_staking x) 0 []) in
  let s := flush_cache_to_vsdb (loop_state l) in
  let '(s, root) := state_root s in
  ({| state := s; txpool := txpool x; receipts := receipts x ++ [loop_receipts l];
      block_height := block_height x; exec_staking := loop_staking l |}, Ok (mkEndBlock root)).

Definition create_payload (x : EvmExecutor) : EvmExecutor * list byte :=
  let '(p, bytes) := collect_payload (txpool x) (4 * 1024 * 1024) (block_gas_limit (config x)) in
  ({| state := state x; txpool := p; receipts := receipts x; block_height := block_height x;
      exec_staking := exec_staking x |}, bytes).

Definition on_commit (x : EvmExecutor) (ctx : BlockContext) : EvmExecutor :=
  {| state := state x; txpool := TxPool.on_commit (txpool x) (get_nonce (state x)); receipts := receipts x;
     block_height := height ctx; exec_staking := exec_staking x |}.

Definition query (x : EvmExecutor) (path : string) (data : list byte) : QueryResponse :=
  let st := state x in
  let result :=
    if (path =? "eth_getBalance")%string && (length data =? 20)%nat then
      to_be_bytes 32 (get_balance st (address_from_slice data))
    else if (path =? "eth_getTransactionCount")%string && (length data =? 20)%nat then
      to_be_bytes 8 (get_nonce st (address_from_slice data))
    else if (path =? "eth_getCode")%string && (length data =? 20)%nat then
      get_code st (address_from_slice data)
    else if (path =? "eth_getStorageAt")%string && (length data =? 52)%nat then
      to_be_bytes 32 (get_storage st (address_from_slice (take 20 data)) (from_be_bytes (drop 20 data)))
    else if (path =? "eth_blockNumber")%string then to_be_bytes 8 (block_height x)
    else [] in
  {| q_data := result; q_proof := None; q_height := block_height x |}.

(** ** EvmMempoolAdapter *)

Definition add_tx (x : EvmExecutor) (bytes : list byte) (priority gas_wanted : Z) : EvmExecutor * bool :=
  let '(x, r) := submit_raw_tx x bytes in (x, is_ok r).
Definition adapter_size (x : EvmExecutor) : Z := pending_count (txpool x) + queued_count (txpool x).
Definition recheck (x : EvmExecutor) : EvmExecutor := x.
End Executor.
