(* ===== verification/ExecutorModel.v ===== *)
(** A model of the EVM parameter: a machine that charges 21000 gas, bumps the
    sender's nonce and does nothing else.  It shows that the laws of [EvmOk]
    are consistent and lets the executor evaluate. *)
From S2P Require Import Prelude Types Hex Tx State StateModel StateLemmas Precompile Executor.

Definition bumped (d : CacheDB) (a : Address) (n : Z) : DbAccount :=
  match cache_accounts d !! a with
  | Some acc =>
    mkDbAccount _ (mkInfo _ (info_balance (acc_info acc)) n (info_code_hash (acc_info acc)) (info_code (acc_info acc)))
      (acc_storage acc)
  | None => mkDbAccount _ (mkInfo _ (wrap 256 (vsdb_get_balance (cache_db d) a)) n keccak_empty None) ∅
  end.

Definition bump_run (cid : Z) (b : BlockEnv) (t : TxEnv) (d : CacheDB) (st : StakingState)
    : CacheDB * StakingState * result string (ExecutionResult string) :=
  let n := view_nonce d (txe_caller t) in
  if (txe_nonce t =? n) && (0 <=? n) && (n <? 2 ^ 64 - 1) && (21000 <=? txe_gas_limit t) then
    (mkCacheDB _ _ (<[txe_caller t := bumped d (txe_caller t) (n + 1)]> (cache_accounts d)) (cache_rest d) (cache_db d),
     st, Ok (Success 21000 [] (OutputCall [])))
  else (d, st, Err "invalid transaction"%string).

#[export] Instance bump_evm : Evm := {|
  EvmError := string; HaltReason := string; debug_error e := e; debug_halt r := r;
  txenv_default := mkTxEnv 0 0 30000000 0 None (Call 0) 0 [] 0 None [];
  blockenv_default := mkBlockEnv 0 0 1 30000000 0;
  transact_commit := bump_run;
  transact_one _ _ _ d st := (d, st, Ok (Success 0 [] (OutputCall [])));
  create_address a n := a + n |}.

Lemma bump_run_cases cid b t d st :
  let n := view_nonce d (txe_caller t) in
  bump_run cid b t d st = (d, st, Err "invalid transaction"%string) ∨
  (txe_nonce t = n ∧ 0 ≤ n < 2 ^ 64 - 1 ∧ 21000 ≤ txe_gas_limit t ∧
   bump_run cid b t d st =
     (mkCacheDB _ _ (<[txe_caller t := bumped d (txe_caller t) (n + 1)]> (cache_accounts d)) (cache_rest d) (cache_db d),
      st, Ok (Success 21000 [] (OutputCall [])))).
Proof. intros n. unfold bump_run. fold n. zb; simpl; auto; right; split_and!; done || lia. Qed.

Lemma bumped_nonce d a n : info_nonce (acc_info (bumped d a n)) = n.
Proof. unfold bumped. by destruct (cache_accounts d !! a). Qed.

Lemma bumped_wf d a n :
  cache_wf (cache_accounts d) → is_u64 n → info_wf (acc_info (bumped d a n)) ∧ slots_wf (acc_storage (bumped d a n)).
Proof.
  intros Hwf Hn. unfold bumped. destruct (cache_accounts d !! a) as [acc|] eqn:Ha.
  - destruct (Hwf _ _ Ha) as (_ & (? & ? & ?) & ?). done.
  - split; [|apply map_Forall_empty]. split_and!; simpl; [by apply wrap_range|done|].
    apply (bool_decide_unpack _). by vm_compute.
Qed.

Lemma view_nonce_insert d a acc x :
  view_nonce (mkCacheDB _ _ (<[a := acc]> (cache_accounts d)) (cache_rest d) (cache_db d)) x =
    if decide (x = a) then info_nonce (acc_info acc) else view_nonce d x.
Proof.
  unfold view_nonce. simpl. case_decide; [subst; by rewrite lookup_insert_eq|by rewrite lookup_insert_ne].
Qed.

#[export] Instance bump_evm_ok : EvmOk.
Proof.
  split; cbn [transact_commit transact_one bump_evm]; intros cid b t d st;
    try (destruct (bump_run_cases cid b t d st) as [->|(Hn & Hr & Hg & ->)]); cbn [fst snd cache_db cache_accounts]; try done.
  - intros a Ha. rewrite lookup_insert_is_Some. destruct (decide (txe_caller t = a)); auto.
  - intros Hc Hwf. apply map_Forall_insert_2; [|done]. split; [done|]. apply bumped_wf; [done|ulia].
  - intros r [= <-]. simpl. lia.
  - intros r _. rewrite view_nonce_insert, decide_True, bumped_nonce by done. lia.
  - intros a. rewrite view_nonce_insert. case_decide; [subst; rewrite bumped_nonce; lia|lia].
Qed.

(** The hex crate by the lower-case encoder of the genesis types. *)
#[export] Instance lower_hex : HexCrate := {|
  hex_encode := hex_bytes.encode;
  hex_decode s :=
    match hex_bytes.decode s with
    | Some (Ok bs) => Ok bs
    | _ => Err "Invalid character"%string
    end |}.

#[export] Instance lower_hex_ok : HexCrateOk.
Proof.
  intros bs. cbn [hex_decode hex_encode lower_hex]. unfold hex_bytes.decode. rewrite length_encode.
  replace (Z.of_nat (2 * length bs) mod 2) with 0 by (rewrite Nat2Z.inj_mul, Z.mul_comm, Z.mod_mul; lia).
  cbn [Z.eqb negb]. by rewrite decode_pairs_encode.
Qed.
