(* ===== verification/ExecutorProps.v ===== *)
(** Correctness of the block executor. *)
From S2P Require Import Prelude Types Tx TxPool TxPoolQueue TxPoolIndex TxPoolPayload TxPoolInv.
From S2P Require Import TxPoolProps State StateModel StateLemmas StateProps Precompile Executor ExecutorModel.

Section ExecutorProps.
Context `{EvmOk} `{!TxCodec} `{!HexCrate} `{!TxCodecOk} {VO : VsdbOk} {RO : RevmOk}.
Implicit Types (l : LoopState) (cfg : EvmChainConfig) (ctx : BlockContext) (vtx : VerifiedTx).

(** ** The transaction loop *)

(** One executed transaction, as the loop records it. *)
Lemma execute_tx_cases cfg ctx idx vtx l :
  let '(d, st, r) := transact_commit (chain_id cfg) (block_env_of cfg ctx) (tx_env_of vtx) (db (loop_state l)) (loop_staking l) in
  db (loop_state (execute_tx cfg ctx idx vtx l)) = d ∧
  state_trie (loop_state (execute_tx cfg ctx idx vtx l)) = state_trie (loop_state l) ∧
  match r with
  | Ok res =>
    loop_gas (execute_tx cfg ctx idx vtx l) = saturating_add 64 (loop_gas l) (result_gas_used res) ∧
    loop_receipts (execute_tx cfg ctx idx vtx l) =
      loop_receipts l ++ [receipt_of cfg ctx idx vtx res (saturating_add 64 (loop_gas l) (result_gas_used res))]
  | Err _ =>
    loop_gas (execute_tx cfg ctx idx vtx l) = loop_gas l ∧
    loop_receipts (execute_tx cfg ctx idx vtx l) = loop_receipts l
  end.
Proof.
  unfold execute_tx. destruct (transact_commit _ _ _ _ _) as [[d st] [res|e]]; done.
Qed.

(** Induction over the loop: a property of the number of transactions visited
    and of the loop state, kept by every executed transaction (one with the
    expected nonce and room for its gas limit) and by skipping one. *)
Lemma execute_txs_ind (P : nat → LoopState → Prop) cfg ctx vtxs l :
  (∀ l k vtx, vtxs !! k = Some vtx →
    env_nonce (envelope vtx) = get_nonce (loop_state l) (sender vtx) →
    saturating_add 64 (loop_gas l) (env_gas_limit (envelope vtx)) ≤ block_gas_limit cfg →
    P k l → P (S k) (execute_tx cfg ctx (Z.of_nat k) vtx l)) →
  (∀ l k, P k l → P (S k) l) →
  P O l → ∃ k, P k (execute_txs cfg ctx 0 vtxs l).
Proof.
  intros Hexec Hskip.
  enough (∀ rest k l, drop k vtxs = rest → P k l → ∃ k', P k' (execute_txs cfg ctx (Z.of_nat k) rest l)) as Hgen
    by (intros HP; by apply (Hgen vtxs O l)).
  intros rest. induction rest as [|vtx rest IH]; intros k l' Hdrop HP; simpl; [by exists k|].
  assert (vtxs !! k = Some vtx) as Hk.
  { replace k with (k + 0)%nat by lia. rewrite <- lookup_drop, Hdrop. done. }
  assert (drop (S k) vtxs = rest) as Hrest.
  { replace (S k) with (k + 1)%nat by lia. rewrite <- drop_drop, Hdrop. done. }
  replace (Z.of_nat k + 1) with (Z.of_nat (S k)) by lia.
  destruct (Z.eqb_spec (env_nonce (envelope vtx)) (get_nonce (loop_state l') (sender vtx))); simpl.
  - destruct (Z.ltb_spec (block_gas_limit cfg) (saturating_add 64 (loop_gas l') (env_gas_limit (envelope vtx)))).
    + eauto.
    + apply IH; [done|]. by apply Hexec.
  - apply IH; [done|]. by apply Hskip.
Qed.

(** ** Receipts of a block *)

(** Receipt [r] describes transaction [vtx] of the block. *)
Record receipt_for ctx vtx (r : EvmReceipt) : Prop := {
  rf_hash : tx_hash r = vtx_hash vtx;
  rf_from : from r = sender vtx;
  rf_to : to r = env_to (envelope vtx);
  rf_number : block_number r = height ctx;
  rf_gas : 0 ≤ gas_used r ≤ env_gas_limit (envelope vtx);
  rf_status : status r = 0 ∨ status r = 1;
  rf_contract : is_Some (contract_address r) ↔ env_to (envelope vtx) = None;
}.

Record loop_ok cfg ctx (vtxs : list VerifiedTx) (k : nat) l : Prop := {
  lo_sum : loop_gas l = sumZ (gas_used <$> loop_receipts l);
  lo_limit : 0 ≤ loop_gas l ≤ block_gas_limit cfg;
  lo_cumulative j r : loop_receipts l !! j = Some r →
    cumulative_gas_used r = sumZ (gas_used <$> take (S j) (loop_receipts l));
  lo_increasing : StronglySorted Z.lt (tx_index <$> loop_receipts l);
  lo_index r : r ∈ loop_receipts l → 0 ≤ tx_index r < Z.of_nat k ∧
    ∃ vtx, vtxs !! Z.to_nat (tx_index r) = Some vtx ∧ receipt_for ctx vtx r;
}.

Lemma receipt_of_for cfg ctx idx vtx res c :
  0 ≤ result_gas_used res ≤ env_gas_limit (envelope vtx) →
  receipt_for ctx vtx (receipt_of cfg ctx idx vtx res c) ∧
  tx_index (receipt_of cfg ctx idx vtx res c) = idx ∧
  gas_used (receipt_of cfg ctx idx vtx res c) = result_gas_used res ∧
  cumulative_gas_used (receipt_of cfg ctx idx vtx res c) = c.
Proof.
  intros Hg. unfold receipt_of. destruct (outcome res) as [b ls]. split_and!; [|done..].
  split; simpl; try done; [by destruct b; auto|].
  destruct (env_to (envelope vtx)); split; try done; eauto.
Qed.

Lemma execute_tx_ok cfg ctx vtxs k vtx l :
  block_gas_limit cfg < 2 ^ 64 - 1 → vtxs !! k = Some vtx →
  saturating_add 64 (loop_gas l) (env_gas_limit (envelope vtx)) ≤ block_gas_limit cfg →
  loop_ok cfg ctx vtxs k l → loop_ok cfg ctx vtxs (S k) (execute_tx cfg ctx (Z.of_nat k) vtx l).
Proof.
  intros Hlim Hk Hroom [Hsum Hgas Hcum Hinc Hidx].
  pose proof (execute_tx_cases cfg ctx (Z.of_nat k) vtx l) as Hc.
  pose proof (evm_gas (chain_id cfg) (block_env_of cfg ctx) (tx_env_of vtx) (db (loop_state l)) (loop_staking l)) as Hg.
  destruct (transact_commit _ _ _ _ _) as [[d st] [res|e]]; destruct Hc as (_ & _ & Eg & Er).
  - specialize (Hg res eq_refl). cbn [txe_gas_limit tx_env_of] in Hg.
    assert (saturating_add 64 (loop_gas l) (result_gas_used res) = loop_gas l + result_gas_used res) as Esat.
    { unfold saturating_add, max_u in *. lia. }
    destruct (receipt_of_for cfg ctx (Z.of_nat k) vtx res (saturating_add 64 (loop_gas l) (result_gas_used res)) Hg)
      as (Hfor & Hi & Hu & Hcu). set (r := receipt_of _ _ _ _ _ _) in *. rewrite Esat in *.
    split; rewrite ?Eg, ?Er.
    + rewrite fmap_app, sumZ_app. simpl. rewrite Hu, <- Hsum. lia.
    + unfold saturating_add, max_u in *. lia.
    + intros j r'. rewrite lookup_app. destruct (loop_receipts l !! j) as [r0|] eqn:Hj.
      * intros [= <-]. rewrite take_app_le by (apply lookup_lt_Some in Hj; lia). by apply Hcum.
      * intros [Hj0 <-]%list_lookup_singleton_Some. apply lookup_ge_None in Hj.
        rewrite take_ge by (rewrite length_app; simpl; lia). rewrite fmap_app, sumZ_app. simpl. rewrite Hu, <- Hsum. lia.
    + rewrite fmap_app. simpl. rewrite Hi. apply StronglySorted_snoc_lt; [done|]. apply Forall_fmap, Forall_forall.
      intros r' Hr'. simpl. by apply Hidx.
    + intros r' [Hr'|Hr'%list_elem_of_singleton]%elem_of_app.
      * destruct (Hidx _ Hr'). split; [lia|done].
      * subst r'. rewrite Hi, Nat2Z.id. split; [lia|eauto].
  - split; rewrite ?Eg, ?Er; try done. intros r' Hr'. destruct (Hidx _ Hr'). split; [lia|done].
Qed.

(** C14. Every block the executor runs appends one list of receipts, in which
    each receipt describes one decoded transaction of the block, the indices
    increase, no transaction used more gas than its limit, the cumulative gas
    of a receipt is the sum of the gas used up to it, and the whole block stays
    within the block gas limit. *)
Theorem execute_block_receipts `{!HashIter Z DbAccount} `{!HashIter Z Z} x txs ctx :
  let limit := block_gas_limit (st_config (state x)) in
  0 ≤ limit < 2 ^ 64 - 1 →
  ∃ rs, receipts (execute_block x txs ctx).1 = receipts x ++ [rs] ∧
    sumZ (gas_used <$> rs) ≤ limit ∧
    StronglySorted Z.lt (tx_index <$> rs) ∧
    (∀ j r, rs !! j = Some r → cumulative_gas_used r = sumZ (gas_used <$> take (S j) rs)) ∧
    (∀ r, r ∈ rs → ∃ vtx, decode_all txs !! Z.to_nat (tx_index r) = Some vtx ∧ receipt_for ctx vtx r).
Proof.
  intros limit Hlim. subst limit. set (cfg := st_config (state x)) in *. set (s0 := record_parent (state x) ctx).
  destruct (execute_txs_ind (loop_ok cfg ctx (decode_all txs)) cfg ctx (decode_all txs) (mkLoop s0 (exec_staking x) 0 []))
    as [k [Hsum Hgas Hcum Hinc Hidx]].
  - intros l k vtx Hk _ Hroom. apply execute_tx_ok; [lia|done..].
  - intros l k [? ? ? ? Hidx]. split; try done. intros r Hr. destruct (Hidx r Hr). split; [lia|done].
  - split; simpl; try done; [lia|constructor|by intros r ?%not_elem_of_nil].
  - eexists. unfold execute_block. fold cfg s0. destruct (state_root _) as [s root]. split; [done|].
    split_and!; [lia|done|done|]. intros r Hr. by destruct (Hidx r Hr).
Qed.

(** ** Replay protection *)

(** A transaction hash identifies the transaction: signer and nonce. *)
Class TxHashOk : Prop := hash_determines b1 b2 v1 v2 :
  decode_and_recover b1 = Ok v1 → decode_and_recover b2 = Ok v2 → vtx_hash v1 = vtx_hash v2 →
  sender v1 = sender v2 ∧ env_nonce (envelope v1) = env_nonce (envelope v2).

(** The executed transactions of a history of receipts: each is behind its
    sender's nonce, none occurs twice. *)
Definition spent (s : EvmState) (r : EvmReceipt) : Prop :=
  ∃ bytes vtx, decode_and_recover bytes = Ok vtx ∧ vtx_hash vtx = tx_hash r ∧
    env_nonce (envelope vtx) < get_nonce s (sender vtx).
Record recorded (s : EvmState) (rs : list EvmReceipt) : Prop := {
  rec_wf : cache_wf (cache_accounts (db s));
  rec_spent : Forall (spent s) rs;
  rec_NoDup : NoDup (tx_hash <$> rs);
}.

Lemma decode_sender bytes vtx : decode_and_recover bytes = Ok vtx → is_address (sender vtx).
Proof.
  unfold decode_and_recover. destruct (decode_2718 bytes) as [e|]; [|done]. simpl.
  destruct (recover_signer e) as [a|] eqn:Ha; [|done]. intros [= <-]. simpl. by eapply recover_signer_wf.
Qed.

Lemma recorded_mono s s' rs :
  cache_wf (cache_accounts (db s')) → (∀ a, is_address a → get_nonce s a ≤ get_nonce s' a) →
  recorded s rs → recorded s' rs.
Proof.
  intros Hwf Hmono [_ Hsp Hnd]. split; [done| |done]. eapply Forall_impl; [done|].
  intros r (b & vtx & Hd & Hh & Hlt). exists b, vtx. split_and!; [done..|].
  pose proof (Hmono (sender vtx) (decode_sender _ _ Hd)). lia.
Qed.

(** A transaction with the expected nonce has no receipt yet. *)
Lemma unspent_fresh `{!TxHashOk} s rs bytes vtx :
  recorded s rs → decode_and_recover bytes = Ok vtx → get_nonce s (sender vtx) ≤ env_nonce (envelope vtx) →
  vtx_hash vtx ∉ tx_hash <$> rs.
Proof.
  intros [_ Hsp _] Hd Hn (r & Eh & Hin)%list_elem_of_fmap. rewrite Forall_forall in Hsp.
  destruct (Hsp r Hin) as (b' & vtx' & Hd' & Hh' & Hlt').
  destruct (hash_determines bytes b' vtx vtx' Hd Hd') as [Es En]; [congruence|]. rewrite Es, En in Hn. lia.
Qed.

Lemma recorded_execute_tx `{!TxHashOk} cfg ctx idx bytes vtx l rs :
  decode_and_recover bytes = Ok vtx → env_nonce (envelope vtx) = get_nonce (loop_state l) (sender vtx) →
  recorded (loop_state l) (rs ++ loop_receipts l) →
  recorded (loop_state (execute_tx cfg ctx idx vtx l)) (rs ++ loop_receipts (execute_tx cfg ctx idx vtx l)).
Proof.
  intros Hd Hn Hrec. pose proof (execute_tx_cases cfg ctx idx vtx l) as Hc.
  assert (vtx_hash vtx ∉ tx_hash <$> rs ++ loop_receipts l) as Hfresh
    by (eapply unspent_fresh; [done|done|lia]).
  pose proof (evm_cache_wf (chain_id cfg) (block_env_of cfg ctx) (tx_env_of vtx) (db (loop_state l)) (loop_staking l)
    (decode_sender _ _ Hd) (rec_wf _ _ Hrec)) as Hwf.
  pose proof (evm_nonce_mono (chain_id cfg) (block_env_of cfg ctx) (tx_env_of vtx) (db (loop_state l)) (loop_staking l)) as Hmono.
  pose proof (evm_nonce (chain_id cfg) (block_env_of cfg ctx) (tx_env_of vtx) (db (loop_state l)) (loop_staking l)) as Hnonce.
  destruct (transact_commit _ _ _ _ _) as [[d st] r]. destruct Hc as (Ed & _ & Hr). simpl in *. rewrite <- Ed in *.
  apply (recorded_mono _ (loop_state (execute_tx cfg ctx idx vtx l))) in Hrec; [|done|intros a _; apply Hmono].
  destruct r as [res|e]; destruct Hr as [_ ->]; [|done].
  destruct (Hnonce res eq_refl) as [_ Hnew]. set (r := receipt_of _ _ _ _ _ _).
  assert (tx_hash r = vtx_hash vtx) as Hh by (unfold r, receipt_of; by destruct (outcome res)).
  destruct Hrec as [_ Hsp Hnd]. rewrite app_assoc. split; [done|..].
  - apply Forall_app. split; [done|]. constructor; [|done]. exists bytes, vtx. split_and!; [done..|].
    change (get_nonce ?s ?a) with (view_nonce (db s) a). lia.
  - rewrite fmap_app. apply NoDup_app. split_and!; [done| |apply NoDup_singleton].
    intros h Hin ->%list_elem_of_singleton. by rewrite Hh in Hin.
Qed.

Lemma get_nonce_flush `{!HashIter Z DbAccount} `{!HashIter Z Z} s a :
  cache_wf (cache_accounts (db s)) → is_address a → get_nonce (flush_cache_to_vsdb s) a = get_nonce s a.
Proof.
  intros Hwf Ha. destruct (flush_db s) as (Ec & _). destruct (flush_accounts s a Hwf Ha) as [Eacc _].
  unfold get_nonce, vsdb_get_nonce. rewrite Ec, Eacc. by destruct (cache_accounts (db s) !! a).
Qed.

Lemma state_root_db s : db (state_root s).1 = db s.
Proof. unfold state_root. by destruct (mpt_root_hash _). Qed.

Lemma recorded_block `{!TxHashOk} `{!HashIter Z DbAccount} `{!HashIter Z Z} x txs ctx :
  recorded (state x) (concat (receipts x)) →
  recorded (state (execute_block x txs ctx).1) (concat (receipts (execute_block x txs ctx).1)).
Proof.
  intros Hrec. unfold execute_block. set (s0 := record_parent (state x) ctx). set (l0 := mkLoop s0 (exec_staking x) 0 []).
  destruct (execute_txs_ind (λ _ l, recorded (loop_state l) (concat (receipts x) ++ loop_receipts l))
    (st_config (state x)) ctx (decode_all txs) l0) as [_ Hl].
  - intros l k vtx Hk Hn _. apply list_elem_of_lookup_2, list_elem_of_omap in Hk as (bytes & _ & Hok).
    destruct (decode_and_recover bytes) as [v|] eqn:Hd; simplify_eq/=. by apply (recorded_execute_tx _ _ _ bytes).
  - done.
  - simpl. rewrite app_nil_r. unfold s0, record_parent.
    destruct (0 <? height ctx); [|done]. by destruct Hrec as [Hwf Hsp Hnd]; split.
  - set (l := execute_txs _ _ _ _ _) in *. pose proof (state_root_db (flush_cache_to_vsdb (loop_state l))) as Edb.
    destruct (state_root _) as [s root]. simpl in *. rewrite concat_app. simpl. rewrite app_nil_r.
    pose proof (rec_wf _ _ Hl) as Hwf. destruct (flush_db (loop_state l)) as (Ec & _).
    apply (recorded_mono (loop_state l)); [by rewrite Edb, Ec| |done].
    intros a Ha. rewrite <- (get_nonce_flush (loop_state l) a) by done. unfold get_nonce. rewrite Edb. lia.
Qed.

(** ** The executor as a state machine *)

(** One call into the executor; calls that iterate over a [HashMap] carry the
    order they meet. *)
Inductive exec_op : Type :=
  | XSetup
  | XSubmit (bytes : list byte)
  | XCall (from : Address) (to : option Address) (data : list byte) (value : U256) (gas : option Z)
  | XBlock (accounts_order : HashIter Z DbAccount) (slots_order : HashIter Z Z) (txs : list (list byte)) (ctx : BlockContext)
  | XPayload (order : HashIter Z SenderQueue)
  | XCommit (order : HashIter Z SenderQueue) (ctx : BlockContext).

Definition exec_step (x : EvmExecutor) (op : exec_op) : EvmExecutor :=
  match op with
  | XSetup => setup_nonce_fn x
  | XSubmit bytes => (submit_raw_tx x bytes).1
  | XCall from to data value gas => (eth_call x from to data value gas).1
  | XBlock _ _ txs ctx => (execute_block x txs ctx).1
  | XPayload _ => (create_payload x).1
  | XCommit _ ctx => Executor.on_commit x ctx
  end.
Definition exec_run (g : EvmGenesis) (ops : list exec_op) : EvmExecutor :=
  fold_left exec_step ops (Executor.from_genesis g).

(** Submitted nonces respect EIP-2681; the caller of [eth_call] is an address. *)
Definition exec_op_ok (op : exec_op) : Prop :=
  match op with
  | XSubmit bytes => ∀ v, decode_and_recover bytes = Ok v → nonce_ok (env_nonce (envelope v))
  | XCall from _ _ _ _ => is_address from
  | _ => True
  end.

Lemma exec_run_snoc g ops op : exec_run g (ops ++ [op]) = exec_step (exec_run g ops) op.
Proof. unfold exec_run. by rewrite fold_left_app. Qed.

Lemma exec_run_ind (P : EvmExecutor → Prop) g ops :
  Forall exec_op_ok ops → P (Executor.from_genesis g) →
  (∀ x op, exec_op_ok op → P x → P (exec_step x op)) → P (exec_run g ops).
Proof.
  intros Hops H0' Hstep. induction ops as [|op ops IH] using rev_ind; [done|].
  apply Forall_app in Hops as [Hops [Hop _]%Forall_cons]. rewrite exec_run_snoc. auto.
Qed.

Lemma recorded_run `{!TxHashOk} g ops :
  Forall exec_op_ok ops → recorded (state (exec_run g ops)) (concat (receipts (exec_run g ops))).
Proof.
  intros Hops. apply (exec_run_ind (λ x, recorded (state x) (concat (receipts x)))); [done|..].
  - split; [|constructor..]. destruct (from_genesis_db g) as (Ec & _). simpl. rewrite Ec. apply map_Forall_empty.
  - intros x op Hop Hrec. destruct op as [|bytes|fr to data value gas|? ? txs ctx|?|? ctx]; simpl; try done.
    + unfold submit_raw_tx. by destruct (submit_tx _ _ _).
    + unfold eth_call. set (b := mkBlockEnv _ _ _ _ _). set (t := mkTxEnv _ _ _ _ _ _ _ _ _ _ _).
      pose proof (call_cache_wf (chain_id (st_config (state x))) b t (db (state x)) (exec_staking x) Hop (rec_wf _ _ Hrec)) as Hwf.
      pose proof (call_nonce (chain_id (st_config (state x))) b t (db (state x)) (exec_staking x)) as Hn.
      destruct (transact_one _ _ _ _ _) as [[d st] r]. simpl in *.
      apply (recorded_mono (state x)); [done| |done]. intros a _.
      change (view_nonce (db (state x)) a ≤ view_nonce d a). by rewrite Hn.
    + by apply recorded_block.
Qed.

(** C2. No replay: in every execution of the node (blocks with any payloads,
    submissions, payloads, commits and calls in any order), no transaction has
    two receipts, within a block or across blocks, and every transaction with a
    receipt is behind its sender's current nonce. *)
Theorem no_replay `{!TxHashOk} g ops :
  Forall exec_op_ok ops →
  NoDup (tx_hash <$> concat (receipts (exec_run g ops))) ∧
  Forall (spent (state (exec_run g ops))) (concat (receipts (exec_run g ops))).
Proof. intros Hops. by destruct (recorded_run g ops Hops). Qed.

(** ** Receipt lookup *)

Lemma find_receipt_spec h rs r : find_receipt h rs = Some r → r ∈ rs ∧ tx_hash r = h.
Proof. intros [Hin E]%find_some. apply Z.eqb_eq in E. split; [by apply list_elem_of_In|done]. Qed.

Lemma find_receipt_None h rs : find_receipt h rs = None ↔ h ∉ tx_hash <$> rs.
Proof.
  unfold find_receipt. split.
  - intros Hf (r & -> & Hin)%list_elem_of_fmap. apply list_elem_of_In in Hin.
    apply (find_none _ _ Hf), Z.eqb_neq in Hin. done.
  - intros Hn. destruct (find _ rs) as [r|] eqn:Hf; [|done]. destruct Hn.
    apply find_receipt_spec in Hf as [Hin <-]. by apply list_elem_of_fmap_2.
Qed.

Lemma find_block_spec h blocks r : find_block h blocks = Some r → r ∈ concat blocks ∧ tx_hash r = h.
Proof.
  induction blocks as [|rs blocks IH]; simpl; [done|]. rewrite elem_of_app.
  destruct (find_receipt h rs) as [r'|] eqn:Hf; [|intros [? ?]%IH; auto].
  intros [= <-]. apply find_receipt_spec in Hf as [? ?]. auto.
Qed.

Lemma find_block_None h blocks : find_block h blocks = None ↔ h ∉ tx_hash <$> concat blocks.
Proof.
  induction blocks as [|rs blocks IH]; simpl; [split; [intros _; apply not_elem_of_nil|done]|].
  rewrite fmap_app, not_elem_of_app, <- IH, <- find_receipt_None. destruct (find_receipt h rs); [split; [done|by intros [? _]]|tauto].
Qed.

Lemma lookup_receipt x h r :
  NoDup (tx_hash <$> concat (receipts x)) →
  get_receipt_by_tx_hash x h = Some r ↔ r ∈ concat (receipts x) ∧ tx_hash r = h.
Proof.
  intros Hnd. unfold get_receipt_by_tx_hash.
  rewrite <- (concat_reverse_perm (receipts x)) in Hnd |- *. split; [apply find_block_spec|].
  intros [Hin <-]. destruct (find_block (tx_hash r) _) as [r'|] eqn:Hf.
  - apply find_block_spec in Hf as [Hin' E]. f_equal. by eapply NoDup_fmap_eq.
  - apply find_block_None in Hf. destruct Hf. by apply list_elem_of_fmap_2.
Qed.

(** Looking a receipt up by transaction hash finds exactly the receipts
    that were stored: in every execution, the answer is [r] if and only if [r]
    is in some block's list and has that hash. *)
Theorem receipt_lookup `{!TxHashOk} g ops h r :
  Forall exec_op_ok ops →
  get_receipt_by_tx_hash (exec_run g ops) h = Some r ↔
  r ∈ concat (receipts (exec_run g ops)) ∧ tx_hash r = h.
Proof. intros Hops. apply lookup_receipt, (recorded_run g ops Hops). Qed.

(** ** Determinism *)

Lemma loop_cache_wf x txs ctx :
  cache_wf (cache_accounts (db (state x))) →
  cache_wf (cache_accounts (db (loop_state
    (execute_txs (st_config (state x)) ctx 0 (decode_all txs) (mkLoop (record_parent (state x) ctx) (exec_staking x) 0 []))))).
Proof.
  intros Hwf. destruct (execute_txs_ind (λ _ l, cache_wf (cache_accounts (db (loop_state l))))
    (st_config (state x)) ctx (decode_all txs) (mkLoop (record_parent (state x) ctx) (exec_staking x) 0 [])) as [_ Hl]; [..|done].
  - intros l k vtx Hk _ _ Hwf'. apply list_elem_of_lookup_2, list_elem_of_omap in Hk as (bytes & _ & Hok).
    destruct (decode_and_recover bytes) as [v|] eqn:Hd; simplify_eq/=.
    pose proof (evm_cache_wf (chain_id (st_config (state x))) (block_env_of (st_config (state x)) ctx) (tx_env_of vtx)
      (db (loop_state l)) (loop_staking l) (decode_sender _ _ Hd) Hwf') as Hwf2.
    pose proof (execute_tx_cases (st_config (state x)) ctx (Z.of_nat k) vtx l) as Hc.
    destruct (transact_commit _ _ _ _ _) as [[d st] r]. by destruct Hc as (-> & _).
  - done.
  - simpl. unfold record_parent. by destruct (0 <? height ctx).
Qed.

(** Block execution is deterministic across nodes: whatever the iteration
    orders of the hash maps, the same block on the same state gives the same
    application hash and the same receipts. *)
Theorem execute_block_deterministic (IA1 IA2 : HashIter Z DbAccount) (IS1 IS2 : HashIter Z Z) x txs ctx :
  cache_wf (cache_accounts (db (state x))) →
  (@execute_block _ _ _ _ _ IA1 IS1 x txs ctx).2 = (@execute_block _ _ _ _ _ IA2 IS2 x txs ctx).2 ∧
  receipts (@execute_block _ _ _ _ _ IA1 IS1 x txs ctx).1 = receipts (@execute_block _ _ _ _ _ IA2 IS2 x txs ctx).1.
Proof.
  intros Hwf. unfold execute_block. pose proof (loop_cache_wf x txs ctx Hwf) as Hl.
  set (l := execute_txs _ _ _ _ _) in *. pose proof (flush_root_order IA1 IA2 IS1 IS2 (loop_state l) Hl) as E.
  destruct (state_root _) as [s1 r1], (state_root _) as [s2 r2]. simpl in *. by subst.
Qed.

(** ** Queries *)

(** The binary queries answer what the state holds: given an encoded
    address (and slot), the answer decodes to the balance, nonce or storage
    value of the state, and to the committed height; an argument of the wrong
    length gets an empty answer. *)
Theorem query_roundtrip x a slot data :
  is_address a → is_u256 slot → is_u256 (get_balance (state x) a) → is_u64 (get_nonce (state x) a) →
  is_u256 (get_storage (state x) a slot) → is_u64 (block_height x) → length data ≠ 20%nat →
  from_be_bytes (q_data (query x "eth_getBalance" (address_as_slice a))) = get_balance (state x) a ∧
  from_be_bytes (q_data (query x "eth_getTransactionCount" (address_as_slice a))) = get_nonce (state x) a ∧
  q_data (query x "eth_getCode" (address_as_slice a)) = get_code (state x) a ∧
  from_be_bytes (q_data (query x "eth_getStorageAt" (storage_key a slot))) = get_storage (state x) a slot ∧
  from_be_bytes (q_data (query x "eth_blockNumber" data)) = block_height x ∧
  q_data (query x "eth_getBalance" data) = [] ∧ q_data (query x "eth_getTransactionCount" data) = [].
Proof.
  intros Ha Hs Hb Hn Hst Hh Hlen.
  assert (length (storage_key a slot) = 52%nat) as Hk.
  { unfold storage_key. by rewrite length_app, length_address_as_slice, length_to_be_bytes. }
  assert (take 20 (storage_key a slot) = address_as_slice a) as Ht.
  { unfold storage_key. by rewrite take_app_length' by by rewrite length_address_as_slice. }
  assert (from_be_bytes (drop 20 (storage_key a slot)) = slot) as Hd.
  { unfold storage_key. rewrite drop_app_length' by by rewrite length_address_as_slice.
    by apply (from_to_be_bytes_id 32 256). }
  assert ((length data =? 20)%nat = false) as El by by apply Nat.eqb_neq.
  unfold query. cbn [String.eqb Ascii.eqb Bool.eqb andb]. rewrite !length_address_as_slice, Hk, Ht, Hd, El.
  cbn [q_data Nat.eqb]. rewrite address_from_as_slice by done.
  split_and!; try done; (by apply (from_to_be_bytes_id 32 256)) || by apply (from_to_be_bytes_id 8 64).
Qed.

(** ** The price in a receipt *)

(** For a legacy transaction (no priority fee) the receipt's price is the base
    fee, although the EVM is given, and charges, the transaction's gas price. *)
Theorem legacy_receipt_price cfg vtx :
  is_u128 (base_fee_per_gas cfg) → is_u128 (env_max_fee_per_gas (envelope vtx)) →
  env_max_priority_fee_per_gas (envelope vtx) = None →
  effective_price cfg (envelope vtx) = base_fee_per_gas cfg ∧
  txe_gas_price (tx_env_of vtx) = env_max_fee_per_gas (envelope vtx).
Proof.
  intros Hb Hf Hnone. unfold effective_price. rewrite Hnone. simpl. split; [|done].
  unfold saturating_sub, saturating_add. ulia.
Qed.
End ExecutorProps.

(** ** Witnesses *)

Section Concrete.
#[local] Existing Instance toy_codec.
#[local] Existing Instance toy_codec_ok.
#[local] Instance accounts_order : HashIter Z DbAccount := hash_iter_forward Z DbAccount.
#[local] Instance slots_order : HashIter Z Z := hash_iter_forward Z Z.
#[local] Instance senders_order : HashIter Z SenderQueue := hash_iter_forward Z SenderQueue.

Lemma toy_hash_ok : TxHashOk.
Proof.
  intros b1 b2 v1 v2 H1 H2 E.
  destruct b1 as [|s1 [|n1 [|f1 [|g1 []]]]], b2 as [|s2 [|n2 [|f2 [|g2 []]]]]; try done.
  injection H1 as <-. injection H2 as <-.
  change (from_le_bytes [s1; n1; f1; g1] = from_le_bytes [s2; n2; f2; g2]) in E.
  apply from_le_bytes_inj in E as [= -> -> -> ->]; done.
Qed.
#[local] Existing Instance toy_hash_ok.

Definition block1 : BlockContext := mkBlockContext 1 3 1000.
Definition block2 : BlockContext := mkBlockContext 2 3 1001.
(** Sender 5: nonces 0 and 1 in block 1; nonce 1 again (a replay) and 2 in block 2. *)
Definition demo_txs1 : list (list byte) := [toy_tx 5 0 3 30; toy_tx 5 1 3 30].
Definition demo_txs2 : list (list byte) := [toy_tx 5 1 3 30; toy_tx 5 2 3 30].
Definition demo_ops : list exec_op :=
  [XSetup; XSubmit (toy_tx 5 1 3 30); XBlock _ _ demo_txs1 block1; XCommit _ block1;
   XBlock _ _ demo_txs2 block2; XSubmit (toy_tx 5 9 3 30)].

Lemma demo_ops_ok : Forall exec_op_ok demo_ops.
Proof.
  unfold demo_ops. rewrite !Forall_cons. split_and!; try done; intros v [= <-]; by vm_compute.
Qed.

Lemma execute_block_receipts_witness :
  ∃ rs, receipts (execute_block (Executor.from_genesis demo_genesis) demo_txs1 block1).1 = [rs] ∧ sumZ (gas_used <$> rs) = 42000.
Proof.
  destruct (execute_block_receipts (Executor.from_genesis demo_genesis) demo_txs1 block1) as (rs & E & _); [by vm_compute|].
  assert (sumZ (gas_used <$> concat (receipts (execute_block (Executor.from_genesis demo_genesis) demo_txs1 block1).1)) = 42000)
    as Hsum by by vm_compute.
  rewrite E in Hsum. cbn [concat app] in Hsum. exists rs. split; [exact E|]. rewrite <- Hsum. f_equal. f_equal.
  change (rs = rs ++ []). by rewrite app_nil_r.
Defined.

Lemma no_replay_witness :
  NoDup (tx_hash <$> concat (receipts (exec_run demo_genesis demo_ops))) ∧
  length (concat (receipts (exec_run demo_genesis demo_ops))) = 3%nat.
Proof. split; [exact (proj1 (no_replay demo_genesis demo_ops demo_ops_ok))|by vm_compute]. Defined.

Lemma receipt_lookup_witness :
  ∃ r, r ∈ concat (receipts (exec_run demo_genesis demo_ops)) ∧
    get_receipt_by_tx_hash (exec_run demo_genesis demo_ops) (from_le_bytes (toy_tx 5 2 3 30)) = Some r.
Proof.
  destruct (get_receipt_by_tx_hash (exec_run demo_genesis demo_ops) (from_le_bytes (toy_tx 5 2 3 30))) as [r|] eqn:E.
  - exists r. split; [|done]. exact (proj1 (proj1 (receipt_lookup demo_genesis demo_ops _ r demo_ops_ok) E)).
  - by vm_compute in E.
Defined.

Lemma execute_block_deterministic_witness :
  (execute_block (Executor.from_genesis demo_genesis) demo_txs1 block1).2 =
  (@execute_block _ _ _ _ _ (hash_iter_backward Z DbAccount) (hash_iter_backward Z Z)
     (Executor.from_genesis demo_genesis) demo_txs1 block1).2.
Proof.
  refine (proj1 (execute_block_deterministic _ _ _ _ (Executor.from_genesis demo_genesis) demo_txs1 block1 _)).
  apply map_Forall_empty.
Defined.

Lemma query_roundtrip_witness :
  from_be_bytes (q_data (query (Executor.from_genesis demo_genesis) "eth_getBalance" (address_as_slice 1))) = 100.
Proof.
  refine (proj1 (query_roundtrip (Executor.from_genesis demo_genesis) 1 5 [] _ _ _ _ _ _ _));
    try (apply (bool_decide_unpack _); vm_compute; exact I).
Defined.

(** A transaction the loop skips still takes an index: the only receipt of this
    block has index 1. *)
Theorem receipt_index_counts_skipped :
  tx_index <$> concat
    (receipts (execute_block (Executor.from_genesis demo_genesis) [toy_tx 5 7 3 30; toy_tx 5 0 3 30] block1).1) = [1].
Proof. by vm_compute. Qed.
End Concrete.
