(* ===== verification/Replication.v ===== *)
(** The replicated ledger: what the executor promises to consensus.

    A ledger is the part of an executor that consensus must keep equal on all
    nodes: world state, delegations and receipts.  [apply_block] is the abstract
    machine and [chain_ledger] its run over a chain of blocks.  The executor
    refines it: whatever a node is asked besides executing blocks (submissions,
    payloads, commits) and whatever the orders of its hash maps, its ledger is
    that of its chain; so nodes with the same chain agree on every answer. *)
From S2P Require Import Prelude Types Tx TxPool State StateModel StateLemmas StateProps StateEquiv Precompile Executor ExecutorModel.
From S2P Require Import ExecutorProps.

(** Code hashes identify code, in the cache and in the store ([KECCAK_EMPTY]
    apart, under which the genesis block files its code). *)
Definition db_codes_ok `{RevmInit} (codes : B256 → list byte) (d : CacheDB) : Prop :=
  codes_ok codes (cache_accounts d) ∧
  ∀ h b, is_u256 h → h ≠ KECCAK_EMPTY → mapx_get (contracts (cache_db d)) (b256_as_slice h) = Some b → b = codes h.

(** What replication relies on of the EVM.  A run sees the database only through
    its reads: on equivalent databases it leaves equivalent ones, and the same
    delegations and result.  Code hashes identify code: [code_of_hash] is the
    code with a hash, and a run gives no account other code than that. *)
Class EvmPure `{Evm} : Type := {
  code_of_hash : B256 → list byte;
  evm_pure cid b t d1 d2 st :
    is_address (txe_caller t) → d1 ≡ d2 →
    (transact_commit cid b t d1 st).1.1 ≡ (transact_commit cid b t d2 st).1.1 ∧
    (transact_commit cid b t d1 st).1.2 = (transact_commit cid b t d2 st).1.2 ∧
    (transact_commit cid b t d1 st).2 = (transact_commit cid b t d2 st).2;
  evm_codes cid b t d st :
    db_codes_ok code_of_hash d → codes_ok code_of_hash (cache_accounts (transact_commit cid b t d st).1.1);
}.

Section Replication.
Context `{EvmOk} {VO : VsdbOk} {RO : RevmOk} {EP : EvmPure} `{!TxCodec} `{!TxCodecOk} `{!HexCrate}.

(** ** The abstract machine *)

Record Ledger := mkLedger {
  lg_state : EvmState;
  lg_staking : StakingState;
  lg_receipts : list (list EvmReceipt);
}.

Definition block : Type := list (list byte) * BlockContext.

(** A block on a ledger, the cache flushed in the order of its keys. *)
Definition apply_block (lg : Ledger) (b : block) : Ledger * list byte :=
  let cfg := st_config (lg_state lg) in
  let l := execute_txs cfg b.2 0 (decode_all b.1) (mkLoop (record_parent (lg_state lg) b.2) (lg_staking lg) 0 []) in
  let '(s, root) :=
    state_root (@flush_cache_to_vsdb _ _ (hash_iter_forward Z DbAccount) (hash_iter_forward Z Z) (loop_state l)) in
  (mkLedger s (loop_staking l) (lg_receipts lg ++ [loop_receipts l]), root).

Definition genesis_ledger (g : EvmGenesis) : Ledger := mkLedger (State.from_genesis g) staking_new [].
Definition chain_ledger (g : EvmGenesis) (chain : list block) : Ledger :=
  fold_left (λ lg b, (apply_block lg b).1) chain (genesis_ledger g).

Definition ledger_of (x : EvmExecutor) : Ledger := mkLedger (state x) (exec_staking x) (receipts x).

Record ledger_equiv (l1 l2 : Ledger) : Prop := {
  lgq_state : lg_state l1 ≡ lg_state l2;
  lgq_staking : lg_staking l1 = lg_staking l2;
  lgq_receipts : lg_receipts l1 = lg_receipts l2;
}.
#[export] Instance ledger_equiv_inst : Equiv Ledger := ledger_equiv.
#[export] Instance ledger_equivalence : Equivalence (≡@{Ledger}).
Proof.
  split.
  - by intros l; split.
  - intros l1 l2 []; by split.
  - intros l1 l2 l3 [] []; split; etransitivity; eauto.
Qed.

(** ** The transaction loop on equivalent states *)

Record loop_equiv (l1 l2 : LoopState) : Prop := {
  le_state : loop_state l1 ≡ loop_state l2;
  le_staking : loop_staking l1 = loop_staking l2;
  le_gas : loop_gas l1 = loop_gas l2;
  le_receipts : loop_receipts l1 = loop_receipts l2;
}.
#[export] Instance loop_equiv_inst : Equiv LoopState := loop_equiv.

Lemma execute_tx_equiv cfg ctx idx vtx l1 l2 :
  is_address (sender vtx) → l1 ≡ l2 → execute_tx cfg ctx idx vtx l1 ≡ execute_tx cfg ctx idx vtx l2.
Proof.
  intros Ha [Es Est Eg Er]. unfold execute_tx.
  pose proof (evm_pure (chain_id cfg) (block_env_of cfg ctx) (tx_env_of vtx) (db (loop_state l1)) (db (loop_state l2))
    (loop_staking l1) Ha (st_db _ _ Es)) as (Ed & Ek & Er').
  rewrite <- Est. destruct (transact_commit _ _ _ (db (loop_state l1)) _) as [[d1 k1] r1], (transact_commit _ _ _ (db (loop_state l2)) _) as [[d2 k2] r2].
  simpl in *. subst k2 r2. destruct r1 as [res|e]; split; simpl; rewrite ?Eg, ?Er; try done; by apply with_db_equiv.
Qed.

Lemma execute_txs_equiv cfg ctx idx vtxs l1 l2 :
  Forall (λ v, is_address (sender v)) vtxs → l1 ≡ l2 → execute_txs cfg ctx idx vtxs l1 ≡ execute_txs cfg ctx idx vtxs l2.
Proof.
  intros Hv. revert idx l1 l2. induction Hv as [|v vtxs Ha Hv IH]; intros idx l1 l2 El; [done|]. simpl.
  rewrite (get_nonce_equiv _ _ (le_state _ _ El) _ Ha), (le_gas _ _ El).
  destruct (negb _); [by apply IH|]. destruct (_ <? _); [done|]. by apply IH, execute_tx_equiv.
Qed.

Lemma decode_all_senders txs : Forall (λ v, is_address (sender v)) (decode_all txs).
Proof.
  apply Forall_forall. intros v (bytes & _ & Hok)%list_elem_of_omap.
  destruct (decode_and_recover bytes) as [v'|] eqn:Hd; simplify_eq/=. by eapply decode_sender.
Qed.

#[export] Instance record_parent_proper : Proper ((≡) ==> (=) ==> (≡)) record_parent.
Proof. intros s1 s2 Es ctx ? <-. unfold record_parent. destruct (0 <? _); [by rewrite Es|done]. Qed.

(** ** The invariant of ledgers *)

(** Cached accounts are in range and carry the code of their hash. *)
Record ledger_ok (lg : Ledger) : Prop := {
  lgo_cache : cache_wf (cache_accounts (db (lg_state lg)));
  lgo_codes : db_codes_ok code_of_hash (db (lg_state lg));
}.
Definition loop_inv (l : LoopState) : Prop := ledger_ok (mkLedger (loop_state l) (loop_staking l) []).

Lemma execute_tx_inv cfg ctx idx vtx l :
  is_address (sender vtx) → loop_inv l → loop_inv (execute_tx cfg ctx idx vtx l).
Proof.
  intros Ha [Hwf Hc]. pose proof (execute_tx_cases cfg ctx idx vtx l) as Hx.
  pose proof (evm_cache_wf (chain_id cfg) (block_env_of cfg ctx) (tx_env_of vtx) (db (loop_state l)) (loop_staking l) Ha Hwf) as Hwf'.
  pose proof (evm_codes (chain_id cfg) (block_env_of cfg ctx) (tx_env_of vtx) (db (loop_state l)) (loop_staking l) Hc) as Hc'.
  pose proof (evm_store (chain_id cfg) (block_env_of cfg ctx) (tx_env_of vtx) (db (loop_state l)) (loop_staking l)) as Es.
  destruct (transact_commit _ _ _ _ _) as [[d st] r]. destruct Hx as (Ed & _). simpl in *.
  split; simpl; rewrite Ed; [done|]. split; [done|]. rewrite Es. apply Hc.
Qed.

Lemma execute_txs_inv cfg ctx idx vtxs l :
  Forall (λ v, is_address (sender v)) vtxs → loop_inv l → loop_inv (execute_txs cfg ctx idx vtxs l).
Proof.
  intros Hv. revert idx l. induction Hv as [|v vtxs Ha Hv IH]; intros idx l Hl; [done|]. simpl.
  destruct (negb _); [by apply IH|]. destruct (_ <? _); [done|]. by apply IH, execute_tx_inv.
Qed.

Lemma record_parent_db s ctx :
  cache_accounts (db (record_parent s ctx)) = cache_accounts (db s) ∧
  contracts (cache_db (db (record_parent s ctx))) = contracts (cache_db (db s)).
Proof. unfold record_parent. by destruct (0 <? _). Qed.

(** The loop of a block, from a ledger. *)
Definition block_loop (lg : Ledger) (b : block) : LoopState :=
  execute_txs (st_config (lg_state lg)) b.2 0 (decode_all b.1) (mkLoop (record_parent (lg_state lg) b.2) (lg_staking lg) 0 []).

Lemma block_loop_equiv l1 l2 b : l1 ≡ l2 → block_loop l1 b ≡ block_loop l2 b.
Proof.
  intros [Es Est _]. unfold block_loop. rewrite (st_cfg _ _ Es), Est.
  apply execute_txs_equiv; [apply decode_all_senders|]. split; try done. simpl. by rewrite Es.
Qed.

Lemma block_loop_inv lg b : ledger_ok lg → loop_inv (block_loop lg b).
Proof.
  intros [Hwf Hc]. apply execute_txs_inv; [apply decode_all_senders|].
  destruct (record_parent_db (lg_state lg) b.2) as [E1 E2]. split; simpl; unfold db_codes_ok in *; rewrite ?E1, ?E2; done.
Qed.

Lemma flush_codes_ok `{!HashIter Z DbAccount} `{!HashIter Z Z} s :
  db_codes_ok code_of_hash (db s) → db_codes_ok code_of_hash (db (flush_cache_to_vsdb s)).
Proof.
  intros [Hc Hs]. destruct (flush_db s) as (Ec & Ed & _). split; [by rewrite Ec|]. intros h b Hh Hne. rewrite Ed.
  destruct (write_all_code code_of_hash _ (cache_db (db s), state_trie s) h
    (entries_codes (cache_accounts (db s)) code_of_hash Hc hash_iter _ (hash_iter_perm _)) Hh) as [Hy Hn].
  match type of Hy with Exists ?P ?l → _ => destruct (decide (Exists P l)) as [Hx|Hx] end.
  - rewrite Hy by done. congruence.
  - rewrite Hn by done. by apply Hs.
Qed.

(** ** One block *)

Section Block.
Context `{!HashIter Z DbAccount} `{!HashIter Z Z}.

(** A block on an executor whose ledger is equivalent to [lg]. *)
Lemma execute_block_refines x lg txs ctx :
  ledger_of x ≡ lg → ledger_ok (ledger_of x) →
  ledger_of (execute_block x txs ctx).1 ≡ (apply_block lg (txs, ctx)).1 ∧
  ledger_ok (ledger_of (execute_block x txs ctx).1) ∧
  (execute_block x txs ctx).2 = Ok (mkEndBlock (apply_block lg (txs, ctx)).2).
Proof.
  intros E Hok. pose proof (block_loop_equiv _ _ (txs, ctx) E) as [Es Est _ Er]. pose proof (block_loop_inv _ (txs, ctx) Hok) as [Hwf Hc].
  unfold execute_block, apply_block. fold (block_loop lg (txs, ctx)). fold (block_loop (ledger_of x) (txs, ctx)).
  pose proof (flush_equiv _ (hash_iter_forward Z DbAccount) _ (hash_iter_forward Z Z) code_of_hash _ _ Es Hwf (proj1 Hc)) as Ef.
  apply state_root_equiv in Ef as [Ef Eroot]. pose proof (flush_codes_ok _ Hc) as Hc'.
  destruct (flush_db (loop_state (block_loop (ledger_of x) (txs, ctx)))) as (Ec & _).
  pose proof (state_root_db (flush_cache_to_vsdb (loop_state (block_loop (ledger_of x) (txs, ctx))))) as Edb.
  unfold block_loop in *. cbn [fst snd lg_state lg_staking ledger_of] in *.
  destruct (state_root _) as [s1 r1], (state_root _) as [s2 r2]. simpl in *. subst r2. split_and!; [|split|done]; simpl.
  - split; [done|done|]. simpl. pose proof (lgq_receipts _ _ E) as Erc. simpl in Erc. by rewrite Er, Erc.
  - by rewrite Edb, Ec.
  - by rewrite Edb.
Qed.
End Block.

Lemma genesis_ledger_ok g : ledger_ok (genesis_ledger g).
Proof.
  destruct (from_genesis_db g) as (Ec & Ed & _). split; simpl; [rewrite Ec; apply map_Forall_empty|].
  split; [rewrite Ec; apply map_Forall_empty|]. intros h b Hh Hne. rewrite Ed, write_all_contracts_other.
  - cbn [fst vsdb_new contracts]. by rewrite mapx_get_new.
  - apply Forall_forall. intros e (al & -> & _)%list_elem_of_fmap. simpl. rewrite info_default_code_hash.
    intros E%b256_as_slice_inj; [done|apply KECCAK_EMPTY_range|done].
Qed.

(** ** The refinement *)

(** The blocks an executor was given; the calls other than [eth_call]. *)
Definition op_block (op : exec_op) : option block :=
  match op with XBlock _ _ txs ctx => Some (txs, ctx) | _ => None end.
Definition blocks_of (ops : list exec_op) : list block := omap op_block ops.
Definition no_call (op : exec_op) : Prop := match op with XCall _ _ _ _ _ => False | _ => True end.

Lemma chain_ledger_snoc g chain b : chain_ledger g (chain ++ [b]) = (apply_block (chain_ledger g chain) b).1.
Proof. unfold chain_ledger. by rewrite fold_left_app. Qed.

Lemma exec_step_refines x lg op :
  no_call op → ledger_of x ≡ lg → ledger_ok (ledger_of x) →
  ledger_of (exec_step x op) ≡ default lg ((λ b, (apply_block lg b).1) <$> op_block op) ∧ ledger_ok (ledger_of (exec_step x op)).
Proof.
  intros Hop E Hok. destruct op as [|bytes| |IA IS txs ctx|?|? ctx]; try done.
  - simpl. unfold submit_raw_tx. by destruct (submit_tx _ _ _).
  - destruct (execute_block_refines x lg txs ctx E Hok) as (? & ? & _). done.
Qed.

Lemma exec_run_refines g ops :
  Forall no_call ops →
  ledger_of (exec_run g ops) ≡ chain_ledger g (blocks_of ops) ∧ ledger_ok (ledger_of (exec_run g ops)).
Proof.
  intros Hops. induction ops as [|op ops IH] using rev_ind; [split; [done|apply genesis_ledger_ok]|].
  apply Forall_app in Hops as [Hops [Hop _]%Forall_cons]. destruct (IH Hops) as [E Hok].
  rewrite exec_run_snoc. destruct (exec_step_refines _ _ op Hop E Hok) as [E' Hok']. split; [|done].
  rewrite E'. unfold blocks_of. rewrite omap_app. simpl. destruct (op_block op); simpl; [by rewrite chain_ledger_snoc|by rewrite app_nil_r].
Qed.

(** C4. The executor refines the abstract ledger: after any sequence of calls
    other than [eth_call], with the hash maps iterated in any orders, the
    executor's world state, delegations and receipts are (up to the layout of
    its stores) those of the machine that only applies the blocks, and the next
    block returns the machine's root as application hash. *)
Theorem executor_refines_ledger (IA : HashIter Z DbAccount) (IS : HashIter Z Z) g ops b :
  Forall no_call ops → let x := exec_run g ops in
  ledger_of x ≡ chain_ledger g (blocks_of ops) ∧
  (execute_block x b.1 b.2).2 = Ok (mkEndBlock (apply_block (chain_ledger g (blocks_of ops)) b).2).
Proof.
  intros Hops x. destruct (exec_run_refines g ops Hops) as [E Hok]. split; [done|].
  destruct b as [txs ctx]. by destruct (execute_block_refines x _ txs ctx E Hok) as (_ & _ & ?).
Qed.

(** ** Agreement *)

Section Agreement.
Context (x1 x2 : EvmExecutor) (E : ledger_of x1 ≡ ledger_of x2).

Lemma agree_validate bytes : Executor.validate_tx x1 bytes = Executor.validate_tx x2 bytes.
Proof.
  destruct E as [Es _ _]. simpl in Es. unfold Executor.validate_tx. destruct (decode_and_recover bytes) as [v|] eqn:Hd; [|done].
  apply decode_sender in Hd. by rewrite (st_cfg _ _ Es), (get_nonce_equiv _ _ Es _ Hd), (get_balance_equiv _ _ Es _ Hd).
Qed.

Lemma address_of_slice bs : length bs = 20%nat → is_address (address_from_slice bs).
Proof. intros Hl. pose proof (from_be_bytes_range bs) as Hr. rewrite Hl in Hr. done. Qed.

Lemma agree_query path data : block_height x1 = block_height x2 → query x1 path data = query x2 path data.
Proof.
  intros Eh. destruct E as [Es _ _]. simpl in Es. unfold query. rewrite Eh.
  destruct (Nat.eqb_spec (length data) 52) as [Hl|_].
  - rewrite Hl, (get_storage_equiv _ _ Es); [by rewrite !andb_false_r|apply address_of_slice; rewrite length_take; lia|].
    pose proof (from_be_bytes_range (drop 20 data)) as Hr. by rewrite length_drop, Hl in Hr.
  - destruct (Nat.eqb_spec (length data) 20) as [Hl%address_of_slice|_]; rewrite !andb_false_r; [|done].
    by rewrite (get_balance_equiv _ _ Es), (get_nonce_equiv _ _ Es), (get_code_equiv _ _ Es).
Qed.

Lemma agree_block (IA1 IA2 : HashIter Z DbAccount) (IS1 IS2 : HashIter Z Z) txs ctx :
  ledger_ok (ledger_of x1) → ledger_ok (ledger_of x2) →
  (@execute_block _ _ _ _ _ IA1 IS1 x1 txs ctx).2 = (@execute_block _ _ _ _ _ IA2 IS2 x2 txs ctx).2.
Proof.
  intros Hok1 Hok2. destruct (@execute_block_refines IA1 IS1 x1 _ txs ctx E Hok1) as (_ & _ & ->).
  by destruct (@execute_block_refines IA2 IS2 x2 _ txs ctx (reflexivity _) Hok2) as (_ & _ & ->).
Qed.

Lemma agree_receipts : receipts x1 = receipts x2.
Proof. apply E. Qed.
End Agreement.

Lemma chain_receipts_prefix g c1 c2 : c1 `prefix_of` c2 → lg_receipts (chain_ledger g c1) `prefix_of` lg_receipts (chain_ledger g c2).
Proof.
  intros [c ->]. induction c as [|b c IH] using rev_ind; [by rewrite app_nil_r|]. etrans; [apply IH|].
  rewrite app_assoc, chain_ledger_snoc. unfold apply_block. destruct (state_root _). simpl. by eexists.
Qed.

(** Replica agreement: two nodes that executed the same blocks, whatever
    else they were asked (other than [eth_call]) and whatever the orders of their
    hash maps, have the same receipts, validate every transaction alike, answer
    every query alike at the same committed height, and return the same
    application hash for the next block; if one of them only executed the first
    of the other's blocks, its receipts are the first of the other's. *)
Theorem replicas_agree (IA1 IA2 : HashIter Z DbAccount) (IS1 IS2 : HashIter Z Z) g ops1 ops2 :
  Forall no_call ops1 → Forall no_call ops2 → let x1 := exec_run g ops1 in let x2 := exec_run g ops2 in
  (blocks_of ops1 `prefix_of` blocks_of ops2 → receipts x1 `prefix_of` receipts x2) ∧
  (blocks_of ops1 = blocks_of ops2 →
   receipts x1 = receipts x2 ∧
   (∀ bytes, Executor.validate_tx x1 bytes = Executor.validate_tx x2 bytes) ∧
   (∀ path data, block_height x1 = block_height x2 → query x1 path data = query x2 path data) ∧
   (∀ txs ctx, (@execute_block _ _ _ _ _ IA1 IS1 x1 txs ctx).2 = (@execute_block _ _ _ _ _ IA2 IS2 x2 txs ctx).2)).
Proof.
  intros Hn1 Hn2 x1 x2. destruct (exec_run_refines g ops1 Hn1) as [E1 Hok1], (exec_run_refines g ops2 Hn2) as [E2 Hok2]. split.
  - intros Hp%(chain_receipts_prefix g). pose proof (lgq_receipts _ _ E1) as R1. pose proof (lgq_receipts _ _ E2) as R2.
    simpl in R1, R2. subst x1 x2. by rewrite R1, R2.
  - intros Eb. assert (ledger_of x1 ≡ ledger_of x2) as E by (unfold x1, x2; by rewrite E1, E2, Eb).
    split_and!; [by apply agree_receipts|intros; by apply agree_validate|intros; by apply agree_query|intros; by apply agree_block].
Qed.

(** ** Calls are not replicated *)

(** The trie after a block without transactions: the leaves of the cached
    accounts over those of before. *)
Lemma empty_block_trie `{!HashIter Z DbAccount} `{!HashIter Z Z} x ctx a :
  cache_wf (cache_accounts (db (state x))) → is_address a →
  mpt_content (state_trie (state (execute_block x [] ctx).1)) !! address_as_slice a =
    match cache_accounts (db (state x)) !! a with
    | Some acc => Some (encode_account_leaf (acc_info acc))
    | None => mpt_content (state_trie (state x)) !! address_as_slice a
    end.
Proof.
  intros Hwf Ha. unfold execute_block. cbn [decode_all omap list_omap execute_txs loop_state].
  set (s0 := record_parent (state x) ctx). destruct (record_parent_db (state x) ctx) as [Ec _]. fold s0 in Ec. rewrite <- Ec in Hwf |- *.
  assert (state_trie s0 = state_trie (state x)) as Et by (unfold s0, record_parent; by destruct (0 <? _)).
  destruct (flush_accounts s0 a Hwf Ha) as [_ Ef].
  unfold state_root. pose proof (mpt_content_root (state_trie (flush_cache_to_vsdb s0))) as Er.
  destruct (mpt_root_hash _) as [t r]. simpl in *. by rewrite Er, Ef, Et.
Qed.

(** C19. Calls are not replicated: [eth_call] leaves the accounts it loaded in the
    cache of the live database, and the flush of the next block, even an empty
    one, puts every cached account into the trie.  So when the call loaded an
    address that had no leaf, the node that served the call has a leaf for it
    after the block and a node that did not serve it has none: the contents
    their application hashes are computed from differ. *)
Theorem call_splits_replicas `{!HashIter Z DbAccount} `{!HashIter Z Z} x from to data value gas a ctx :
  cache_wf (cache_accounts (db (state x))) → is_address from → is_address a →
  cache_accounts (db (state x)) !! a = None → mpt_content (state_trie (state x)) !! address_as_slice a = None →
  let y := (eth_call x from to data value gas).1 in
  is_Some (cache_accounts (db (state y)) !! a) →
  mpt_content (state_trie (state (execute_block x [] ctx).1)) !! address_as_slice a = None ∧
  is_Some (mpt_content (state_trie (state (execute_block y [] ctx).1)) !! address_as_slice a).
Proof.
  intros Hwf Hf Ha Hc Ht y [acc Hy]. rewrite empty_block_trie, Hc by done. split; [done|].
  assert (cache_wf (cache_accounts (db (state y)))) as Hwf'.
  { unfold y, eth_call. set (b := mkBlockEnv _ _ _ _ _). set (t := mkTxEnv _ _ _ _ _ _ _ _ _ _ _).
    pose proof (call_cache_wf (chain_id (st_config (state x))) b t (db (state x)) (exec_staking x) Hf Hwf) as Hwf'.
    by destruct (transact_one _ _ _ _ _) as [[d st] r]. }
  rewrite empty_block_trie by done. rewrite Hy. eauto.
Qed.
End Replication.

(** ** Witnesses *)

#[export] Instance bump_evm_pure : EvmPure.
Proof.
  refine {| code_of_hash := λ _, [] |}; cbn [transact_commit bump_evm].
  - intros cid b t d1 d2 st Ha [Ec Er Es]. unfold bump_run, view_nonce, vsdb_get_nonce, bumped, vsdb_get_balance.
    rewrite Ec, Er, (se_accounts _ _ Es) by done. by destruct (_ && _); (split; [split|]).
  - intros cid b t d st [Hc _]. destruct (bump_run_cases cid b t d st) as [->|(_ & _ & _ & ->)]; cbn [fst cache_accounts]; [done|].
    apply map_Forall_insert_2; [|done]. unfold bumped. destruct (cache_accounts d !! txe_caller t) as [acc|] eqn:E.
    + by destruct (Hc _ _ E).
    + split; [|done]. apply (bool_decide_unpack _). by vm_compute.
Defined.

Section Concrete.
#[local] Existing Instance toy_codec.
#[local] Existing Instance toy_codec_ok.
#[local] Instance accounts_order : HashIter Z DbAccount := hash_iter_forward Z DbAccount.
#[local] Instance slots_order : HashIter Z Z := hash_iter_forward Z Z.

(** Another node: the blocks of [demo_ops], other submissions and orders. *)
Definition other_ops : list exec_op :=
  [XBlock (hash_iter_backward Z DbAccount) (hash_iter_backward Z Z) demo_txs1 block1; XSetup; XSubmit (toy_tx 6 0 3 30);
   XBlock (hash_iter_backward Z DbAccount) (hash_iter_backward Z Z) demo_txs2 block2].

Lemma executor_refines_ledger_witness :
  ledger_of (exec_run demo_genesis demo_ops) ≡ chain_ledger demo_genesis [(demo_txs1, block1); (demo_txs2, block2)].
Proof. refine (proj1 (executor_refines_ledger _ _ demo_genesis demo_ops ([], block2) _)). by repeat constructor. Defined.

Lemma replicas_agree_witness : receipts (exec_run demo_genesis demo_ops) = receipts (exec_run demo_genesis other_ops).
Proof. refine (proj1 (proj2 (replicas_agree _ _ _ _ demo_genesis demo_ops other_ops _ _) _)); by repeat constructor. Defined.
End Concrete.

(** The EVM of [bump_evm] with calls that load their caller into the cache. *)
Section Calls.
#[local] Existing Instance toy_codec.
#[local] Instance accounts_order' : HashIter Z DbAccount := hash_iter_forward Z DbAccount.
#[local] Instance slots_order' : HashIter Z Z := hash_iter_forward Z Z.

Definition load_caller (t : TxEnv) (d : CacheDB) : CacheDB :=
  let n := view_nonce d (txe_caller t) in
  if bool_decide (is_u64 n) then
    mkCacheDB _ _ (<[txe_caller t := bumped d (txe_caller t) n]> (cache_accounts d)) (cache_rest d) (cache_db d)
  else d.

Definition loading_evm : Evm := {|
  EvmError := string; HaltReason := string; debug_error e := e; debug_halt r := r;
  txenv_default := @txenv_default _ _ _ bump_evm;
  blockenv_default := @blockenv_default _ _ _ bump_evm;
  transact_commit := bump_run;
  transact_one _ _ t d st := (load_caller t d, st, Ok (Success 0 [] (OutputCall [])));
  create_address a n := a + n |}.

Lemma loading_evm_ok : @EvmOk _ _ _ loading_evm.
Proof.
  split; cbn [transact_commit transact_one loading_evm fst]; intros cid b t d st;
    try exact (@evm_store _ _ _ bump_evm _ cid b t d st); try exact (@evm_cached _ _ _ bump_evm _ cid b t d st);
    try exact (@evm_cache_wf _ _ _ bump_evm _ cid b t d st); try exact (@evm_gas _ _ _ bump_evm _ cid b t d st);
    try exact (@evm_nonce _ _ _ bump_evm _ cid b t d st); try exact (@evm_nonce_mono _ _ _ bump_evm _ cid b t d st);
    unfold load_caller; case_bool_decide as Hn; try done; cbn [cache_accounts].
  - intros a Ha. rewrite lookup_insert_is_Some. destruct (decide (txe_caller t = a)); auto.
  - intros Hc Hwf. apply map_Forall_insert_2; [|done]. split; [done|]. by apply bumped_wf.
  - intros a. rewrite view_nonce_insert. case_decide; [subst; by rewrite bumped_nonce|done].
Qed.
#[local] Existing Instance loading_evm | 0.
#[local] Existing Instance loading_evm_ok.

Definition split_genesis : EvmGenesis := mkGenesis 1337 {[ 1 := mkAlloc 100 7 [] ∅ ]} 30000000 1 0 0.

Lemma call_splits_replicas_witness :
  mpt_content (state_trie (state (execute_block (Executor.from_genesis split_genesis) [] block1).1)) !! address_as_slice 9 = None ∧
  is_Some (mpt_content (state_trie (state (execute_block
    (eth_call (Executor.from_genesis split_genesis) 9 None [] 0 None).1 [] block1).1)) !! address_as_slice 9).
Proof.
  apply (call_splits_replicas (Executor.from_genesis split_genesis) 9 None [] 0 None 9 block1); try done.
Defined.

(** Here the application hashes themselves differ: the one of the node that
    served the call starts with the nonce of the caller. *)
Example call_splits_app_hash :
  (execute_block (Executor.from_genesis split_genesis) [] block1).2 ≠
  (execute_block (eth_call (Executor.from_genesis split_genesis) 9 None [] 0 None).1 [] block1).2.
Proof. by vm_compute. Qed.
End Calls.
