(* ===== verification/Solvency.v ===== *)
(** Solvency of the chain: the executor and the precompiles together.

    The EVM runs a transaction as a tree of call frames on the precompiles of
    [Precompile] and the journal over the executor's database; the class
    [EvmFrames] says so.  The staking account of the world state then covers all
    delegations of the executor, up to what reverted frames and [eth_call]
    leaked. *)
From S2P Require Import Prelude Types Tx TxPool State StateModel StateLemmas StateProps Precompile PrecompileProps Frames Executor.
From S2P Require Import ExecutorModel ExecutorProps.

(** The balance a database answers for an address, cached or stored, as a
    256-bit number. *)
Definition view_balance `{RevmInit} (d : CacheDB) (a : Address) : Z :=
  wrap 256 match cache_accounts d !! a with
           | Some acc => info_balance (acc_info acc)
           | None => vsdb_get_balance (cache_db d) a
           end.

Lemma view_get_balance `{RevmInit} s a : view_balance (db s) a = wrap 256 (get_balance s a).
Proof. done. Qed.

(** A run of the EVM is a tree of call frames, on precompiles made with the
    given delegations and a journal that starts with the balances of the
    database.  What a transaction leaves of delegations and, in the staking
    account, of funds is what its frames leave; fees and rewards may add to the
    account.  A call that is not committed leaves the delegations of its frames
    and the balances of before. *)
Class EvmFrames `{Evm} `{JournalRevert} `{!HashIter (Z * Z) Z} : Type := {
  CANCUN : SpecId;
  tx_frames : Z → BlockEnv → TxEnv → CacheDB → StakingState → activity * Ctx;
  tx_callers cid b t d st : txe_caller t ≠ STAKING_ADDR → callers_ok (tx_frames cid b t d st).1;
  tx_start cid b t d st : balance_of (tx_frames cid b t d st).2 STAKING_ADDR = view_balance d STAKING_ADDR;
  commit_frames cid b t d st :
    let '(a, c) := tx_frames cid b t d st in
    let '(p', c') := exec a (precompiles_new CANCUN st, c) in
    (transact_commit cid b t d st).1.2 = staking p' ∧
    balance_of c' STAKING_ADDR ≤ view_balance (transact_commit cid b t d st).1.1 STAKING_ADDR;
  call_frames cid b t d st :
    let '(a, c) := tx_frames cid b t d st in
    (transact_one cid b t d st).1.2 = staking (exec a (precompiles_new CANCUN st, c)).1 ∧
    view_balance (transact_one cid b t d st).1.1 STAKING_ADDR = view_balance d STAKING_ADDR;
}.

(** Nobody has the key of the staking address. *)
Class NoStakingKey `{!TxCodec} : Prop :=
  no_staking_key bytes v : decode_and_recover bytes = Ok v → sender v ≠ STAKING_ADDR.

Section Solvency.
Context `{EvmOk} `{!TxCodec} `{!HexCrate} `{!TxCodecOk} `{!NoStakingKey} {VO : VsdbOk} {RO : RevmOk}.
Context `{JournalRevert} `{!HashIter (Z * Z) Z} {EF : EvmFrames}.
Implicit Types (x : EvmExecutor) (l : LoopState).

(** ** Leaks *)

(** What the delegations grow by without funds: in the reverted frames of a
    transaction, and in all frames of a call. *)
Definition tx_leak cid b t d st : Z :=
  let '(a, c) := tx_frames cid b t d st in leaked a (precompiles_new CANCUN st, c).
Definition call_leak cid b t d st : Z := staked (transact_one cid b t d st).1.2 - staked st.

(** The leaks of the transactions the block loop executes. *)
Fixpoint txs_leak (cfg : EvmChainConfig) (ctx : BlockContext) (idx : Z) (vtxs : list VerifiedTx) l : Z :=
  match vtxs with
  | [] => 0
  | vtx :: rest =>
    if negb (env_nonce (envelope vtx) =? get_nonce (loop_state l) (sender vtx)) then txs_leak cfg ctx (idx + 1) rest l
    else if block_gas_limit cfg <? saturating_add 64 (loop_gas l) (env_gas_limit (envelope vtx)) then 0
    else tx_leak (chain_id cfg) (block_env_of cfg ctx) (tx_env_of vtx) (db (loop_state l)) (loop_staking l) +
         txs_leak cfg ctx (idx + 1) rest (execute_tx cfg ctx idx vtx l)
  end.

Definition op_leak x (op : exec_op) : Z :=
  match op with
  | XBlock _ _ txs ctx =>
    txs_leak (st_config (state x)) ctx 0 (decode_all txs) (mkLoop (record_parent (state x) ctx) (exec_staking x) 0 [])
  | XCall _ _ _ _ _ => staked (exec_staking (exec_step x op)) - staked (exec_staking x)
  | _ => 0
  end.
Fixpoint run_leak x (ops : list exec_op) : Z :=
  match ops with [] => 0 | op :: rest => op_leak x op + run_leak (exec_step x op) rest end.

(** ** One transaction *)

Definition shortfall (d : CacheDB) (st : StakingState) : Z := staked st - view_balance d STAKING_ADDR.

Lemma commit_stakes_wf cid b t d st : stakes_wf st → stakes_wf (transact_commit cid b t d st).1.2.
Proof.
  intros Hwf. pose proof (commit_frames cid b t d st) as Hf. destruct (tx_frames cid b t d st) as [a c].
  pose proof (exec_wf a (precompiles_new CANCUN st, c) Hwf). destruct (exec a _) as [p' c']. by destruct Hf as [-> _].
Qed.

Lemma commit_shortfall cid b t d st :
  txe_caller t ≠ STAKING_ADDR →
  shortfall (transact_commit cid b t d st).1.1 (transact_commit cid b t d st).1.2 ≤ shortfall d st + tx_leak cid b t d st.
Proof.
  intros Ht. pose proof (commit_frames cid b t d st) as Hf. pose proof (tx_callers cid b t d st Ht) as Hc.
  pose proof (tx_start cid b t d st) as Hs. unfold shortfall, tx_leak. destruct (tx_frames cid b t d st) as [a c]. simpl in *.
  pose proof (exec_exposure a (precompiles_new CANCUN st, c) Hc) as He.
  destruct (exec a (precompiles_new CANCUN st, c)) as [p' c']. destruct Hf as [-> Hb]. unfold exposure in He. simpl in *. lia.
Qed.

Lemma execute_tx_shortfall cfg ctx idx v l :
  sender v ≠ STAKING_ADDR → stakes_wf (loop_staking l) → let l' := execute_tx cfg ctx idx v l in
  stakes_wf (loop_staking l') ∧
  shortfall (db (loop_state l')) (loop_staking l') ≤ shortfall (db (loop_state l)) (loop_staking l) +
    tx_leak (chain_id cfg) (block_env_of cfg ctx) (tx_env_of v) (db (loop_state l)) (loop_staking l).
Proof.
  intros Hv Hwf. pose proof (commit_stakes_wf (chain_id cfg) (block_env_of cfg ctx) (tx_env_of v) (db (loop_state l)) _ Hwf).
  pose proof (commit_shortfall (chain_id cfg) (block_env_of cfg ctx) (tx_env_of v) (db (loop_state l)) (loop_staking l) Hv).
  unfold execute_tx. by destruct (transact_commit _ _ _ _ _) as [[d st] [r|e]].
Qed.

Lemma execute_txs_shortfall cfg ctx idx vtxs l :
  Forall (λ v, sender v ≠ STAKING_ADDR) vtxs → stakes_wf (loop_staking l) → let l' := execute_txs cfg ctx idx vtxs l in
  stakes_wf (loop_staking l') ∧
  shortfall (db (loop_state l')) (loop_staking l') ≤ shortfall (db (loop_state l)) (loop_staking l) + txs_leak cfg ctx idx vtxs l.
Proof.
  intros Hv. revert idx l. induction Hv as [|v vtxs Hv Hvs IH]; intros idx l Hwf; simpl; [split; [done|lia]|].
  destruct (negb _); [by apply IH|]. destruct (_ <? _); [split; [done|lia]|].
  destruct (execute_tx_shortfall cfg ctx idx v l Hv Hwf) as [Hwf' Hs]. destruct (IH (idx + 1) _ Hwf'). split; [done|lia].
Qed.

Lemma decode_all_not_staking txs : Forall (λ v, sender v ≠ STAKING_ADDR) (decode_all txs).
Proof.
  apply Forall_forall. intros v (bytes & _ & Hok)%list_elem_of_omap.
  destruct (decode_and_recover bytes) as [v'|] eqn:Hd; simplify_eq/=. by eapply no_staking_key.
Qed.

(** ** One call into the executor *)

Lemma get_balance_flush `{!HashIter Z DbAccount} `{!HashIter Z Z} s a :
  cache_wf (cache_accounts (db s)) → is_address a → get_balance (flush_cache_to_vsdb s) a = get_balance s a.
Proof.
  intros Hwf Ha. destruct (flush_db s) as (Ec & _). destruct (flush_accounts s a Hwf Ha) as [Ea _].
  unfold get_balance, vsdb_get_balance. rewrite Ec, Ea. by destruct (cache_accounts (db s) !! a).
Qed.

Record exec_inv x : Prop := {
  ei_cache : cache_wf (cache_accounts (db (state x)));
  ei_stakes : stakes_wf (exec_staking x);
}.
(** What the delegations of an executor exceed its staking account by. *)
Definition node_shortfall x : Z := shortfall (db (state x)) (exec_staking x).

Lemma block_shortfall `{!HashIter Z DbAccount} `{!HashIter Z Z} x txs ctx :
  exec_inv x → let x' := (execute_block x txs ctx).1 in
  exec_inv x' ∧ node_shortfall x' ≤ node_shortfall x + op_leak x (XBlock _ _ txs ctx).
Proof.
  intros [Hc Hs]. unfold op_leak, execute_block. set (l0 := mkLoop (record_parent (state x) ctx) (exec_staking x) 0 []).
  pose proof (loop_cache_wf x txs ctx Hc) as Hl.
  destruct (execute_txs_shortfall (st_config (state x)) ctx 0 _ l0 (decode_all_not_staking txs) Hs) as [Hwf Hsh]. cbv zeta in Hsh, Hwf.
  fold l0 in Hl. set (l := execute_txs _ _ _ _ _) in *.
  assert (shortfall (db (loop_state l0)) (loop_staking l0) = node_shortfall x) as Eb
    by (unfold l0, node_shortfall; simpl; unfold record_parent; by destruct (0 <? _)).
  pose proof (get_balance_flush (loop_state l) STAKING_ADDR Hl ltac:(done)) as Ef. destruct (flush_db (loop_state l)) as (Ec & _).
  pose proof (state_root_db (flush_cache_to_vsdb (loop_state l))) as Edb. destruct (state_root _) as [s root]. simpl in *.
  split; [split; simpl; [by rewrite Edb, Ec|done]|]. unfold node_shortfall in *. simpl in *.
  assert (view_balance (db s) STAKING_ADDR = view_balance (db (loop_state l)) STAKING_ADDR) as Ev
    by (rewrite !view_get_balance, <- Ef; unfold get_balance; by rewrite Edb).
  unfold shortfall in *. rewrite Ev. lia.
Qed.

Lemma call_shortfall x from to data value gas :
  is_address from → exec_inv x → let x' := (eth_call x from to data value gas).1 in
  exec_inv x' ∧ node_shortfall x' = node_shortfall x + op_leak x (XCall from to data value gas).
Proof.
  intros Hf [Hc Hs]. unfold op_leak, exec_step, eth_call. set (b := mkBlockEnv _ _ _ _ _). set (t := mkTxEnv _ _ _ _ _ _ _ _ _ _ _).
  pose proof (call_cache_wf (chain_id (st_config (state x))) b t (db (state x)) (exec_staking x) Hf Hc) as Hwf.
  pose proof (call_frames (chain_id (st_config (state x))) b t (db (state x)) (exec_staking x)) as Hfr.
  destruct (tx_frames _ _ _ _ _) as [a c]. destruct Hfr as [Est Eb].
  pose proof (exec_wf a (precompiles_new CANCUN (exec_staking x), c) Hs) as Hwf'. rewrite <- Est in Hwf'.
  destruct (transact_one _ _ _ _ _) as [[d st] r]. simpl in *. split; [by split|]. unfold node_shortfall. simpl. unfold shortfall. rewrite Eb. lia.
Qed.

Lemma exec_step_shortfall x op :
  exec_op_ok op → exec_inv x →
  exec_inv (exec_step x op) ∧ node_shortfall (exec_step x op) ≤ node_shortfall x + op_leak x op.
Proof.
  intros Hop Hinv. destruct op as [|bytes|fr to data value gas|IA IS txs ctx|order|order ctx].
  - split; [by destruct Hinv|unfold node_shortfall; simpl; lia].
  - simpl. unfold submit_raw_tx. destruct (submit_tx _ _ _). split; [by destruct Hinv|unfold node_shortfall; simpl; lia].
  - destruct (call_shortfall x fr to data value gas Hop Hinv) as [? E]. cbv zeta in E. split; [done|]. simpl in *. lia.
  - by apply block_shortfall.
  - split; [by destruct Hinv|unfold node_shortfall; simpl; lia].
  - split; [by destruct Hinv|unfold node_shortfall; simpl; lia].
Qed.

Lemma run_shortfall ops x :
  Forall exec_op_ok ops → exec_inv x →
  exec_inv (fold_left exec_step ops x) ∧ node_shortfall (fold_left exec_step ops x) ≤ node_shortfall x + run_leak x ops.
Proof.
  intros Hops. revert x. induction Hops as [|op ops Hop Hops IH]; intros x Hx; simpl; [split; [done|lia]|].
  destruct (exec_step_shortfall x op Hop Hx) as [Hx' Hle]. destruct (IH _ Hx'). split; [done|lia].
Qed.

Lemma genesis_shortfall g : exec_inv (Executor.from_genesis g) ∧ node_shortfall (Executor.from_genesis g) ≤ 0.
Proof.
  destruct (from_genesis_db g) as (Ec & _). split; [split; simpl; [rewrite Ec|]; apply map_Forall_empty|].
  unfold node_shortfall, shortfall. simpl.
  assert (staked staking_new = 0) as -> by (unfold staked, map_sumZ; simpl; by rewrite map_to_list_empty).
  pose proof (wrap_range 256 (get_balance (State.from_genesis g) STAKING_ADDR) ltac:(lia)). rewrite view_get_balance. ulia.
Qed.

(** A balance is not negative: cached ones are in range, stored ones decoded. *)
Lemma view_balance_le x a : exec_inv x → view_balance (db (state x)) a ≤ get_balance (state x) a.
Proof.
  intros [Hc _]. rewrite view_get_balance. apply Z.mod_le; [|lia]. unfold get_balance, vsdb_get_balance.
  destruct (cache_accounts _ !! a) as [acc|] eqn:E; [by destruct (Hc _ _ E) as (_ & ((? & _) & _) & _)|].
  destruct (mapx_get _ _) as [st|]; simpl; [apply from_be_bytes_range|lia].
Qed.

(** C6. The chain is solvent up to its leaks: in every execution of a node the
    sum of all delegations is at most the staking account's balance in the world
    state plus what delegations grew by in reverted call frames and in
    [eth_call]s; so without such leaks every delegation can be paid out. *)
Theorem chain_solvency g ops :
  Forall exec_op_ok ops → let x := exec_run g ops in
  stakes_wf (exec_staking x) ∧
  staked (exec_staking x) ≤ get_balance (state x) STAKING_ADDR + run_leak (Executor.from_genesis g) ops.
Proof.
  intros Hops x. destruct (genesis_shortfall g) as [Hi Hstart].
  destruct (run_shortfall ops _ Hops Hi) as [Hx Hle]. fold (exec_run g ops) in Hx, Hle. fold x in Hx, Hle.
  pose proof (view_balance_le x STAKING_ADDR Hx). destruct Hx as [_ Hwf]. split; [done|]. unfold node_shortfall, shortfall in *. lia.
Qed.
End Solvency.

(** ** A machine with the precompiles

    A model of the parameters: a transaction bumps its sender's nonce, and one
    to the staking address calls the precompile on a ledger of the two accounts
    involved. *)

Module StakingEvm.
Import Ledger.
#[export] Existing Instance ledger_revert.
#[export] Instance stakes_order : HashIter (Z * Z) Z := hash_iter_forward (Z * Z) Z.

Definition put (d : CacheDB) (a : Address) (acc : DbAccount) : CacheDB :=
  mkCacheDB _ _ (<[a := acc]> (cache_accounts d)) (cache_rest d) (cache_db d).
(** An account with a given nonce and balance. *)
Definition funded (d : CacheDB) (a : Address) (n b : Z) : DbAccount :=
  let acc := bumped d a n in
  mkDbAccount _ (mkInfo _ b n (info_code_hash (acc_info acc)) (info_code (acc_info acc))) (acc_storage acc).

#[export] Instance kind_eq_dec : EqDecision TxKind.
Proof. solve_decision. Defined.

(** The call of the precompile and the accounts it works on. *)
Definition staking_inputs (t : TxEnv) : CallInputs :=
  mkCallInputs (CallBytes (txe_data t)) (txe_gas_limit t) STAKING_ADDR (txe_caller t) false.
Definition accounts_of (d : CacheDB) (t : TxEnv) : gmap Z Z :=
  <[STAKING_ADDR := view_balance d STAKING_ADDR]> {[ txe_caller t := view_balance d (txe_caller t) ]}.
Definition runnable (t : TxEnv) (d : CacheDB) : bool :=
  let n := view_nonce d (txe_caller t) in
  bool_decide (txe_kind t = Call STAKING_ADDR ∧ txe_caller t ≠ STAKING_ADDR ∧ txe_nonce t = n ∧
    0 ≤ n < 2 ^ 64 - 1 ∧ is_u64 (view_nonce d STAKING_ADDR) ∧ 21000 ≤ txe_gas_limit t).

Definition frames (t : TxEnv) (d : CacheDB) : activity := if runnable t d then Frames.Precompile (staking_inputs t) Done else Done.

(** The accounts of a ledger written back, with the sender's nonce moved. *)
Definition write_back (t : TxEnv) (d : CacheDB) (c : gmap Z Z) : CacheDB :=
  put (put d (txe_caller t) (funded d (txe_caller t) (view_nonce d (txe_caller t) + 1) (bal c (txe_caller t))))
    STAKING_ADDR (funded d STAKING_ADDR (view_nonce d STAKING_ADDR) (bal c STAKING_ADDR)).

Definition staking_run (t : TxEnv) (d : CacheDB) (st : StakingState)
    : CacheDB * StakingState * result string (ExecutionResult string) :=
  let '(p', c') := exec (frames t d) (precompiles_new tt st, accounts_of d t) in
  if runnable t d then (write_back t d c', staking p', Ok (Success 21000 [] (OutputCall [])))
  else (d, st, Err "invalid transaction"%string).

Definition staking_evm : Evm := {|
  EvmError := string; HaltReason := string; debug_error e := e; debug_halt r := r;
  txenv_default := @txenv_default _ _ _ bump_evm;
  blockenv_default := @blockenv_default _ _ _ bump_evm;
  transact_commit _ _ := staking_run;
  transact_one _ _ t d st := let '(_, st', r) := staking_run t d st in (d, st', r);
  create_address a n := a + n |}.
#[export] Existing Instance staking_evm | 0.

Lemma staking_run_cases t d st :
  staking_run t d st = (d, st, Err "invalid transaction"%string) ∧ runnable t d = false ∨
  runnable t d = true ∧ let '(p', c') := exec (frames t d) (precompiles_new tt st, accounts_of d t) in
  staking_run t d st = (write_back t d c', staking p', Ok (Success 21000 [] (OutputCall []))).
Proof. unfold staking_run. destruct (exec _ _) as [p' c']. destruct (runnable t d); auto. Qed.

Lemma write_back_nonce t d c a :
  txe_caller t ≠ STAKING_ADDR →
  view_nonce (write_back t d c) a = view_nonce d a + (if decide (a = txe_caller t) then 1 else 0).
Proof.
  intros Hne. unfold write_back, put. rewrite view_nonce_insert.
  destruct (decide (a = STAKING_ADDR)) as [->|Hs]; [rewrite decide_False by done; simpl; lia|].
  rewrite view_nonce_insert. case_decide; [subst; simpl; lia|lia].
Qed.

Lemma funded_wf d a n b :
  cache_wf (cache_accounts d) → is_u64 n → is_u256 b → info_wf (acc_info (funded d a n b)) ∧ slots_wf (acc_storage (funded d a n b)).
Proof. intros Hwf Hn Hb. destruct (bumped_wf d a n Hwf Hn) as [(? & ? & ?) ?]. done. Qed.

Lemma write_back_wf t d c :
  runnable t d = true → is_address (txe_caller t) → cache_wf (cache_accounts d) → cache_wf (cache_accounts (write_back t d c)).
Proof.
  intros (_ & _ & _ & Hn & Hs & _)%bool_decide_eq_true Ha Hwf. unfold write_back, put. cbn [cache_accounts].
  apply map_Forall_insert_2; [split; [done|]; by apply funded_wf; [| |apply bal_range]|].
  apply map_Forall_insert_2; [split; [done|]; apply funded_wf; [done|ulia|apply bal_range]|done].
Qed.

#[export] Instance staking_evm_ok : EvmOk.
Proof.
  split; cbn [transact_commit transact_one staking_evm]; intros cid b t d st;
    destruct (staking_run_cases t d st) as [[-> _]|[Hr Hrun]]; try done;
    destruct (exec _ _) as [p' c']; rewrite Hrun; cbn [fst snd]; try done;
    pose proof Hr as (_ & Hne & Hn & Hlt & _ & Hg)%bool_decide_eq_true.
  - intros a Ha. unfold write_back, put. cbn [cache_accounts]. rewrite !lookup_insert_is_Some.
    destruct (decide (STAKING_ADDR = a)), (decide (txe_caller t = a)); auto.
  - intros Ha Hwf. by apply write_back_wf.
  - intros r [= <-]. simpl. lia.
  - intros r _. rewrite write_back_nonce, decide_True by done. lia.
  - intros a. rewrite write_back_nonce by done. case_decide; lia.
Qed.

Lemma bal_accounts d t : bal (accounts_of d t) STAKING_ADDR = view_balance d STAKING_ADDR.
Proof. unfold bal, accounts_of. rewrite lookup_insert_eq. apply Z.mod_mod. lia. Qed.

Lemma write_back_balance t d c : view_balance (write_back t d c) STAKING_ADDR = bal c STAKING_ADDR.
Proof. unfold view_balance, write_back, put. cbn [cache_accounts]. rewrite lookup_insert_eq. apply Z.mod_mod. lia. Qed.

#[export] Instance staking_frames : EvmFrames.
Proof.
  refine {| CANCUN := tt; tx_frames _ _ t d _ := (frames t d, accounts_of d t) |};
    cbn [transact_commit transact_one staking_evm fst snd].
  - intros cid b t d st Hne. unfold frames. by destruct (runnable t d).
  - intros cid b t d st. apply bal_accounts.
  - intros cid b t d st. destruct (staking_run_cases t d st) as [[E Hr]|[Hr Hrun]].
    + rewrite E. unfold frames. rewrite Hr. split; [done|]. change (bal (accounts_of d t) STAKING_ADDR ≤ view_balance d STAKING_ADDR).
      by rewrite bal_accounts.
    + destruct (exec _ _) as [p' c']. rewrite Hrun. split; [done|].
      change (bal c' STAKING_ADDR ≤ view_balance (write_back t d c') STAKING_ADDR). by rewrite write_back_balance.
  - intros cid b t d st. destruct (staking_run_cases t d st) as [[E Hr]|[Hr Hrun]].
    + rewrite E. unfold frames. rewrite Hr. done.
    + destruct (exec _ _) as [p' c']. by rewrite Hrun.
Defined.

(** Transactions to the staking address by account 5: a nonce byte and the call
    data. *)
Definition staking_codec : TxCodec := {|
  decode_2718 bs :=
    match bs with
    | n :: data => Ok (mkEnvelope 2 (Some 1337) (Z_of_byte n) 30000 0 (Some 0) (Some STAKING_ADDR) 0 data (from_be_bytes bs))
    | [] => Err "input too short"%string
    end;
  recover_signer _ := Ok 5 |}.

Lemma staking_codec_ok : @TxCodecOk staking_codec.
Proof.
  split; cbn [decode_2718 recover_signer staking_codec].
  - intros [|n data] e [= <-]. pose proof (Z_of_byte_range n). unfold envelope_wf. cbn. ulia.
  - intros e a [= <-]. ulia.
Qed.

Lemma staking_codec_no_key : @NoStakingKey staking_codec.
Proof. intros [|n data] v Hv; [done|]. injection Hv as <-. done. Qed.
End StakingEvm.

Section Concrete.
Import Ledger StakingEvm.
#[local] Existing Instance staking_codec.
#[local] Existing Instance staking_codec_ok.
#[local] Existing Instance staking_codec_no_key.
#[local] Instance order_accounts : HashIter Z DbAccount := hash_iter_forward Z DbAccount.
#[local] Instance order_slots : HashIter Z Z := hash_iter_forward Z Z.

(** Account 5 has 100, and so has the staking account. *)
Definition staking_genesis : EvmGenesis :=
  mkGenesis 1337 {[ 5 := mkAlloc 100 0 [] ∅; STAKING_ADDR := mkAlloc 100 0 [] ∅ ]} 30000000 0 0 0.
Definition delegate_tx (n : Z) : list byte := byte_of_Z n :: abi_call SEL_DELEGATE 7 60.
Definition unbond_tx (n amount : Z) : list byte := byte_of_Z n :: abi_call SEL_UNBOND 7 amount.

(** A block that delegates 60 and unbonds 10. *)
Definition staking_ops : list exec_op := [XBlock _ _ [delegate_tx 0; unbond_tx 1 10] (mkBlockContext 1 0 0)].

Lemma chain_solvency_witness :
  staked (exec_staking (exec_run staking_genesis staking_ops)) = 50 ∧
  staked (exec_staking (exec_run staking_genesis staking_ops)) ≤ get_balance (state (exec_run staking_genesis staking_ops)) STAKING_ADDR.
Proof.
  split; [by vm_compute|].
  destruct (chain_solvency staking_genesis staking_ops ltac:(by repeat constructor)) as [_ Hle].
  assert (run_leak (Executor.from_genesis staking_genesis) staking_ops = 0) as E by by vm_compute. rewrite E, Z.add_0_r in Hle. exact Hle.
Defined.

(** A call is not a dry run for the staking state: [eth_call] of
    [delegate(7, 100)] from account 5, a read-only JSON-RPC request anyone can
    send, leaves a delegation of 100 that was never paid; a transaction that
    unbonds it then takes the 100 of the staking account. *)
Theorem call_mints_stake :
  let x0 := Executor.from_genesis staking_genesis in
  let x1 := (eth_call x0 5 (Some STAKING_ADDR) (abi_call SEL_DELEGATE 7 100) 0 (Some 30000)).1 in
  let x2 := (execute_block x1 [unbond_tx 0 100] (mkBlockContext 1 0 0)).1 in
  get_balance (state x1) 5 = 100 ∧ get_stake (exec_staking x1) 5 7 = 100 ∧
  get_balance (state x2) 5 = 200 ∧ get_balance (state x2) STAKING_ADDR = 0.
Proof. by vm_compute. Qed.
End Concrete.
