(* ===== verification/ExecutorPool.v ===== *)
(** The executor and its pool together: every pool of a running node has an
    exact index and bounded queues, and a commit removes what was executed. *)
From S2P Require Import Prelude Types Tx State StateModel StateLemmas StateProps Precompile Executor.
From S2P Require Import ExecutorModel ExecutorProps TxPool TxPoolQueue TxPoolSubmit TxPoolIndex TxPoolPayload TxPoolInv TxPoolProps.

(** ** Where the entries of a pool come from *)

Section Entries.
Context {Env : Type} `{!TxCodec} (D : VerifiedTx → Prop).
Implicit Types (p : EvmTxPool Env) (q : SenderQueue) (e : PoolEntry).

(** A queue within its bounds whose transactions are all [D]. *)
Definition queue_good cfg q : Prop :=
  queue_ok cfg q ∧ ∀ b n e, get_target b q !! n = Some e → D (verified e).

Lemma adm_result_entries cfg (i : PoolInner Env) env e :
  queue_good cfg (adm_queue i e) → nonce_ok (entry_nonce e) → D (verified e) →
  ∀ b n e', get_target b (adm_result i env e) !! n = Some e' → D (verified e').
Proof.
  intros [[Hp Hq _ _ _] Hdec] Hn Hd b n e' He'. unfold adm_result in He'.
  set (q := set_target _ _ _) in He'.
  assert (keys_ok (pending q) ∧ keys_ok (queued q)) as [Kp Kq].
  { subst q. unfold adm_target. destruct (adm_side i env e); simpl; split; try done; by apply map_Forall_insert_2. }
  destruct (proj1 (promote_entries q (adm_nonce i env e) n e' Kp Kq) (ex_intro _ b He')) as [b' Hb'].
  subst q. unfold adm_target in Hb'. destruct (adm_side i env e), b'; simpl in Hb';
    try (apply lookup_insert_Some in Hb' as [[_ <-]|[_ Hb']]; [done|]);
    first [by apply (Hdec true n)|by apply (Hdec false n)].
Qed.

(** Only an accepted submission adds its transaction. *)
Lemma submit_good p env bytes :
  limits_ok (config p) → (∀ v, decode_and_recover bytes = Ok v → nonce_ok (env_nonce (envelope v))) →
  (∀ v, decode_and_recover bytes = Ok v → is_ok (submit_tx p env bytes).2 = true → D v) →
  all_queues (queue_good (config p)) (inner p) → all_queues (queue_good (config p)) (inner (submit_tx p env bytes).1).
Proof.
  intros Hl Hop HD Hall. destruct (submit_tx_inner p env bytes) as [->|(v & r & Hv & Hadm & Hr)]; [done|].
  specialize (HD v Hv). rewrite <- Hr in HD. set (e := make_entry (config p) v) in *.
  assert (queue_good (config p) queue_default) as Hdef.
  { split; [by apply queue_default_ok|]. intros [] n e'; simpl; by rewrite lookup_empty. }
  pose proof (adm_queue_lookup _ (inner p) e Hdef Hall) as Hq.
  assert (all_queues (queue_ok (config p)) (inner p)) as Hall' by (intros s q Hs; by apply (Hall s)).
  assert (nonce_ok (entry_nonce e)) as Hn by by apply Hop.
  pose proof (admission_ok _ _ _ _ _ _ Hl Hn Hall' Hadm) as Hok.
  assert (is_ok r = true → ∀ b n e', get_target b (adm_result (inner p) env e) !! n = Some e' → D (verified e')) as Hres.
  { intros Hacc. eapply adm_result_entries; [done|done|]. by apply HD. }
  intros s q Hs. split; [by apply (Hok s)|]. revert s q Hs. clear Hok Hr.
  destruct Hadm as [s0 Hh0| |old|Hh|old Hh ? Ht ?|Hh ? Ht ?]; intros s q Hs; simpl in Hs;
    rewrite ?insert_insert_eq in Hs; try (apply lookup_insert_Some in Hs as [[_ <-]|[_ Hs]]); try (by apply Hres);
    try (by apply Hq); by apply (Hall s).
Qed.

(** What an operation must respect for its pool to stay [D]. *)
Definition op_admits p (op : pool_op (Env := Env)) : Prop :=
  match op with
  | OpSubmit env bytes => ∀ v, decode_and_recover bytes = Ok v → is_ok (submit_tx p env bytes).2 = true → D v
  | _ => True
  end.

Lemma exec_good p op :
  limits_ok (config p) → op_ok op → op_admits p op →
  all_queues (queue_good (config p)) (inner p) → all_queues (queue_good (config p)) (inner (exec p op)).
Proof.
  intros Hl Hop HD Hall. destruct op as [f|env bytes|order mb mg|order f|fee]; simpl in *; try done.
  - by apply submit_good.
  - apply collect_queues; [|done|done]. intros q n e [Hok Hdec] Hf. split; [by eapply delete_first_ok|].
    intros [] m e'; simpl.
    + intros [_ He']%lookup_delete_Some. by apply (Hdec true m).
    + intros He'. by apply (Hdec false m).
  - apply on_commit_queues; [|done]. intros q c [Hok Hdec]. split; [by apply commit_queue_ok|].
    intros b n e He. destruct (proj1 (commit_queue_entries _ q c n e Hok) (ex_intro _ b He)) as [_ [b' Hb']].
    by eapply Hdec.
Qed.
End Entries.

Lemma queue_good_mono (D D' : VerifiedTx → Prop) cfg q : (∀ v, D v → D' v) → queue_good D cfg q → queue_good D' cfg q.
Proof. intros Himp [Hok HD]. split; [done|]. eauto. Qed.

(** Entries of a node's pool come from decoded transactions. *)
Definition decoded `{!TxCodec} (v : VerifiedTx) : Prop := ∃ bytes, decode_and_recover bytes = Ok v.

(** ** The pool of a node *)

Section ExecutorPool.
Context `{EvmOk} `{!TxCodec} `{!HexCrate} `{!TxCodecOk} {VO : VsdbOk} {RO : RevmOk}.

(** A transaction a call puts into the pool is [D]. *)
Definition admits (D : VerifiedTx → Prop) (x : EvmExecutor) (op : exec_op) : Prop :=
  match op with
  | XSubmit bytes => ∀ v, decode_and_recover bytes = Ok v → is_ok (submit_raw_tx x bytes).2 = true → D v
  | _ => True
  end.

(** Every call into the executor is at most one call of a pool method. *)
Lemma exec_step_pool x op :
  exec_op_ok op →
  txpool (exec_step x op) = txpool x ∨
  ∃ pop, op_ok pop ∧ (∀ D, admits D x op → op_admits D (txpool x) pop) ∧ txpool (exec_step x op) = exec (txpool x) pop.
Proof.
  intros Hop. destruct op as [|bytes|fr to data value gas|? ? txs ctx|order|order ctx]; simpl.
  - right. by exists (OpSetNonceFn nonce_closure).
  - right. exists (OpSubmit (Some (state x)) bytes). split; [done|]. simpl. unfold submit_raw_tx.
    by destruct (submit_tx _ _ _).
  - left. unfold eth_call. by destruct (transact_one _ _ _ _ _) as [[d st] r].
  - left. unfold execute_block. by destruct (state_root _).
  - right. exists (OpCollect order (4 * 1024 * 1024) (block_gas_limit (Executor.config x))). done.
  - right. by exists (OpCommit order (get_nonce (state x))).
Qed.

Definition node_pool_config (g : EvmGenesis) : EvmTxPoolConfig := config (txpool (Executor.from_genesis g)).

Lemma node_limits g : limits_ok (node_pool_config g).
Proof. split; cbv; discriminate. Qed.

(** The pool of a node: exact index, bounded queues, every transaction [D]. *)
Record node_pool (g : EvmGenesis) (D : VerifiedTx → Prop) (x : EvmExecutor) : Prop := {
  np_config : config (txpool x) = node_pool_config g;
  np_index : pool_index (inner (txpool x));
  np_queues : all_queues (queue_good D (node_pool_config g)) (inner (txpool x));
}.

Lemma node_pool_genesis g D : node_pool g D (Executor.from_genesis g).
Proof. split; [done|apply new_index|apply map_Forall_empty]. Qed.

Lemma node_pool_step g D x op : exec_op_ok op → admits D x op → node_pool g D x → node_pool g D (exec_step x op).
Proof.
  intros Hop HD [Hc Hi Hq]. destruct (exec_step_pool x op Hop) as [E|(pop & Hpop & HDp & E)]; split; rewrite E; try done.
  - by rewrite config_exec.
  - by apply exec_index.
  - rewrite <- Hc in *. apply exec_good; [rewrite Hc; apply node_limits|by auto..].
Qed.

Lemma node_pool_mono g (D D' : VerifiedTx → Prop) x : (∀ v, D v → D' v) → node_pool g D x → node_pool g D' x.
Proof. intros Himp [Hc Hi Hq]. split; [done..|]. intros s q Hs. eapply queue_good_mono; [done|by apply (Hq s)]. Qed.

Lemma exec_run_pool g ops : Forall exec_op_ok ops → node_pool g decoded (exec_run g ops).
Proof.
  intros Hops. apply (exec_run_ind (node_pool g decoded)); [done|apply node_pool_genesis|].
  intros x op Hop. apply node_pool_step; [done|]. destruct op; try done. intros v Hv _. by exists bytes.
Qed.

(** In every execution of the node, the pool's hash index is exact, and the
    size the mempool adapter reports is the number of distinct transactions
    pooled. *)
Theorem node_pool_exact `{!HashIter Z SenderQueue} g ops :
  Forall exec_op_ok ops →
  let x := exec_run g ops in
  index_ok (slot (senders (inner (txpool x)))) (by_hash (inner (txpool x))) ∧
  adapter_size x = Z.of_nat (size (by_hash (inner (txpool x)))).
Proof. intros Hops x. destruct (exec_run_pool g ops Hops) as [_ Hi _]. split; [done|]. by apply pool_size_eq. Qed.

Lemma commit_removes_executed `{!HashIter Z SenderQueue} `{!TxHashOk} g ops ctx r :
  Forall exec_op_ok ops → r ∈ concat (receipts (exec_run g ops)) →
  contains (txpool (Executor.on_commit (exec_run g ops) ctx)) (tx_hash r) = false.
Proof.
  intros Hops Hr. set (x := exec_run g ops) in *. destruct (exec_run_pool g ops Hops) as [Hc Hi Hq]. fold x in Hc, Hi, Hq.
  destruct (recorded_run g ops Hops) as [_ Hsp _]. rewrite Forall_forall in Hsp.
  destruct (Hsp r Hr) as (bytes & vtx & Hd & Hh & Hlt). fold x in Hlt.
  apply bool_decide_eq_false. intros [s Hs]. simpl in Hs.
  pose proof (on_commit_index (txpool x) (get_nonce (state x)) Hi) as Hi'.
  apply (ix_index _ _ Hi') in Hs as (b & n & e & He & Eh). pose proof (ix_key _ _ Hi' b s n e He) as (Es & En & _).
  unfold slot in He. apply bind_Some in He as (q' & Hq' & He). rewrite on_commit_lookup in Hq'.
  apply bind_Some in Hq' as (q & Hqs & Hq'). cbv zeta in Hq'. destruct (queue_is_empty _); simplify_eq.
  destruct (Hq _ _ Hqs) as [Hok Hdec].
  destruct (proj1 (commit_queue_entries _ q _ _ e Hok) (ex_intro _ b He)) as [Hge [b' Hb']].
  destruct (Hdec _ _ _ Hb') as [bytes' Hd'].
  destruct (hash_determines bytes bytes' vtx (verified e) Hd Hd') as [E1 E2].
  - unfold entry_hash in Eh. congruence.
  - unfold entry_sender, entry_nonce in *. rewrite E1, E2 in Hlt. lia.
Qed.

(** C15. After a commit nothing that was executed is pooled: in every execution
    of the node, no transaction with a receipt is known to the pool once
    [on_commit] has run. *)
Theorem committed_not_pooled `{!HashIter Z SenderQueue} `{!TxHashOk} g ops ctx r :
  Forall exec_op_ok ops → r ∈ concat (receipts (exec_run g ops)) →
  contains (txpool (Executor.on_commit (exec_run g ops) ctx)) (tx_hash r) = false.
Proof. apply commit_removes_executed. Qed.
End ExecutorPool.

(** ** Witnesses *)

Section Concrete.
#[local] Existing Instance toy_codec.
#[local] Existing Instance toy_codec_ok.
#[local] Existing Instance toy_hash_ok.
#[local] Existing Instance senders_order.

Lemma node_pool_exact_witness : adapter_size (exec_run demo_genesis demo_ops) = 1.
Proof. rewrite (proj2 (node_pool_exact demo_genesis demo_ops demo_ops_ok)). by vm_compute. Defined.

Lemma committed_not_pooled_witness :
  Forall (λ r, contains (txpool (Executor.on_commit (exec_run demo_genesis demo_ops) block2)) (tx_hash r) = false)
    (concat (receipts (exec_run demo_genesis demo_ops))).
Proof.
  apply Forall_forall. intros r Hr. exact (committed_not_pooled demo_genesis demo_ops block2 r demo_ops_ok Hr).
Defined.
End Concrete.
