(* ===== verification/EndToEnd.v ===== *)
(** The way of a transaction through the whole node: submitted, chosen for a
    payload, executed in a block, recorded and evicted from the pool. *)
From S2P Require Import Prelude Types Tx State StateModel StateLemmas StateProps Precompile Executor ExecutorModel.
From S2P Require Import ExecutorProps ExecutorPool TxPool TxPoolQueue TxPoolSubmit TxPoolIndex TxPoolPayload TxPoolInv.

(** ** Submission of a next transaction *)

Section Submit.
Context {Env : Type} `{!TxCodec} `{!HashIter Z SenderQueue}.
Implicit Types (p : EvmTxPool Env).

(** The pool after the first transaction of a sender it does not know. *)
Definition first_queue (e : PoolEntry) : SenderQueue := {| pending := {[entry_nonce e := e]}; queued := ∅ |}.

Lemma submit_first p env bytes v :
  decode_and_recover bytes = Ok v → let e := make_entry (config p) v in
  by_hash (inner p) !! vtx_hash v = None → senders (inner p) !! sender v = None →
  current_nonce_of (inner p) env (sender v) = env_nonce (envelope v) → 0 < max_pending_per_sender (config p) →
  submit_tx p env bytes =
    (mkPool (config p) (mkInner (<[sender v := first_queue e]> (senders (inner p))) (<[vtx_hash v := sender v]> (by_hash (inner p)))
       (nonce_fn (inner p))), Ok (vtx_hash v)).
Proof.
  intros Hd e Hh Hs Hn Hlim. unfold submit_tx, submit_locked. rewrite Hd. cbn [verified make_entry]. rewrite Hh, Hn, Hs, Z.ltb_irrefl.
  cbn [default set_senders senders by_hash nonce_fn]. unfold goes_pending. rewrite Z.eqb_refl. cbn [orb get_target set_target queue_default pending queued].
  rewrite lookup_empty, map_size_empty. destruct (Z.leb_spec (max_pending_per_sender (config p)) (Z.of_nat 0)); [lia|].
  rewrite insert_insert_eq. unfold promote_queued_static. cbn [queued]. rewrite map_size_empty. cbn [promote_loop queued].
  by rewrite lookup_empty.
Qed.

(** Its heads: the new transaction, and those of the other senders. *)
Lemma first_head i s e bh (c : Candidate) :
  is_head (mkInner (Env := Env) (<[s := first_queue e]> (senders i)) bh (nonce_fn i)) c ↔
  c = mkCandidate s (entry_nonce e) (effective_tip e) (raw (verified e)) ∨ (cand_sender c ≠ s ∧ is_head i c).
Proof.
  unfold is_head. cbn [senders].
  assert (btree_first (pending (first_queue e)) = Some (entry_nonce e, e)) as Hf.
  { apply btree_first_Some. cbn [pending first_queue]. split; [by rewrite lookup_singleton_eq|].
    intros n [e' He']. apply lookup_singleton_Some in He' as [-> _]. lia. }
  split.
  - intros (q & e' & Hq & Hb & Ht & Hr). apply lookup_insert_Some in Hq as [[Es <-]|[Hne Hq]]; [|right; split; [done|by exists q, e']].
    rewrite Hf in Hb. injection Hb as En <-. left. destruct c as [cs cn ct cr]. simpl in *. congruence.
  - intros [->|[Hne (q & e' & Hq & Hb & Ht & Hr)]]; simpl.
    + exists (first_queue e), e. by rewrite lookup_insert_eq.
    + exists q, e'. by rewrite lookup_insert_ne.
Qed.
End Submit.

Section EndToEnd.
Context `{EvmOk} `{!TxCodec} `{!HexCrate} `{!TxCodecOk} {VO : VsdbOk} {RO : RevmOk} `{!TxHashOk}.
Context `{!HashIter Z SenderQueue} `{!HashIter Z DbAccount} `{!HashIter Z Z}.

(** ** Execution of the first transaction of a block *)

Lemma execute_txs_prefix cfg ctx idx vtxs l :
  ∃ more, loop_receipts (execute_txs cfg ctx idx vtxs l) = loop_receipts l ++ more.
Proof.
  revert idx l. induction vtxs as [|vtx vtxs IH]; intros idx l; simpl; [exists []; by rewrite app_nil_r|].
  destruct (negb _); [apply IH|]. destruct (_ <? _); [exists []; by rewrite app_nil_r|].
  destruct (IH (idx + 1) (execute_tx cfg ctx idx vtx l)) as [more ->].
  pose proof (execute_tx_cases cfg ctx idx vtx l) as Hc. destruct (transact_commit _ _ _ _ _) as [[d st] [res|e]];
    destruct Hc as (_ & _ & _ & ->); [rewrite <- app_assoc|]; eauto.
Qed.

Lemma block_executes_first x bytes v rest ctx res :
  decode_and_recover bytes = Ok v → env_nonce (envelope v) = get_nonce (state x) (sender v) →
  0 ≤ env_gas_limit (envelope v) ≤ block_gas_limit (Executor.config x) → block_gas_limit (Executor.config x) < 2 ^ 64 →
  (transact_commit (chain_id (Executor.config x)) (block_env_of (Executor.config x) ctx) (tx_env_of v)
     (db (record_parent (state x) ctx)) (exec_staking x)).2 = Ok res →
  ∃ r, r ∈ concat (receipts (execute_block x (bytes :: rest) ctx).1) ∧ receipt_for ctx v r ∧ tx_index r = 0.
Proof.
  intros Hd Hn Hg Hmax Hres. unfold execute_block, decode_all. cbn [omap list_omap]. rewrite Hd. cbn [ok execute_txs loop_state loop_gas].
  assert (get_nonce (record_parent (state x) ctx) (sender v) = get_nonce (state x) (sender v)) as En
    by (unfold record_parent; by destruct (0 <? height ctx)).
  rewrite En, <- Hn, Z.eqb_refl. cbn [negb].
  assert (block_gas_limit (st_config (state x)) <? saturating_add 64 0 (env_gas_limit (envelope v)) = false) as ->.
  { apply Z.ltb_ge. unfold saturating_add, Executor.config in *. lia. }
  match goal with |- context [execute_txs ?c ctx ?j ?vs (execute_tx ?c ctx ?k v ?l)] =>
    destruct (execute_txs_prefix c ctx j vs (execute_tx c ctx k v l)) as [more Hmore];
    pose proof (execute_tx_cases c ctx k v l) as Hc end.
  pose proof (evm_gas (chain_id (Executor.config x)) (block_env_of (Executor.config x) ctx) (tx_env_of v)
    (db (record_parent (state x) ctx)) (exec_staking x) res Hres) as Hu.
  cbn [loop_state loop_staking loop_gas loop_receipts] in Hc. unfold Executor.config in *.
  destruct (transact_commit _ _ _ _ _) as [[d st] r']. simpl in Hres. subst r'. destruct Hc as (_ & _ & _ & Er).
  destruct (state_root _) as [s root]. cbn [fst receipts]. rewrite concat_app. cbn [concat]. rewrite Hmore, Er, app_nil_r.
  eexists. split; [apply elem_of_app; right; apply elem_of_app; left; apply list_elem_of_singleton; reflexivity|].
  by destruct (receipt_of_for (st_config (state x)) ctx 0 v res (saturating_add 64 0 (result_gas_used res)) Hu) as (? & ? & _).
Qed.

(** ** Submission and payload *)

Lemma decode_raw bytes v : decode_and_recover bytes = Ok v → raw v = bytes.
Proof.
  unfold decode_and_recover. destruct (decode_2718 bytes) as [a|]; [|done]. simpl.
  destruct (recover_signer a); [|done]. by injection 1 as <-.
Qed.

(** A fresh transaction with the best tip is accepted, and is the first of the
    next payload; the state and the staking table are those of before. *)
Lemma submit_then_payload x bytes v :
  0 < max_pending_per_sender (config (txpool x)) → decode_and_recover bytes = Ok v →
  nonce_fn (inner (txpool x)) = Some nonce_closure → env_nonce (envelope v) = get_nonce (state x) (sender v) →
  contains (txpool x) (vtx_hash v) = false → senders (inner (txpool x)) !! sender v = None →
  (∀ c, is_head (inner (txpool x)) c → cand_tip c < effective_gas_tip (envelope v) (base_fee (config (txpool x)))) →
  4 + Z.of_nat (length bytes) ≤ 4 * 1024 * 1024 →
  0 ≤ env_gas_limit (envelope v) ≤ block_gas_limit (Executor.config x) → block_gas_limit (Executor.config x) < 2 ^ 64 →
  (submit_raw_tx x bytes).2 = Ok (vtx_hash v) ∧
  let '(x2, payload) := create_payload (submit_raw_tx x bytes).1 in
  state x2 = state x ∧ exec_staking x2 = exec_staking x ∧ ∃ rest, parse_payload payload = Some (bytes :: rest).
Proof.
  intros Hlim Hd Hfn Hn Hh Hs Htip Hfit Hg Hmax. set (e := make_entry (config (txpool x)) v).
  assert (submit_tx (txpool x) (Some (state x)) bytes =
    (mkPool (config (txpool x)) (mkInner (<[sender v := first_queue e]> (senders (inner (txpool x))))
       (<[vtx_hash v := sender v]> (by_hash (inner (txpool x)))) (nonce_fn (inner (txpool x)))), Ok (vtx_hash v))) as Esub.
  { apply submit_first; try done.
    - apply bool_decide_eq_false in Hh. by apply eq_None_not_Some.
    - unfold current_nonce_of. rewrite Hfn. by rewrite Hn. }
  unfold submit_raw_tx. rewrite Esub. cbn [fst snd]. split; [done|].
  unfold create_payload. cbn [txpool Executor.config state st_config exec_staking].
  match goal with |- context [collect_payload ?p _ _] => set (p1 := p) end.
  set (c0 := mkCandidate (sender v) (env_nonce (envelope v)) (effective_tip e) bytes).
  assert (∀ c, is_head (inner p1) c ↔ c = c0 ∨ (cand_sender c ≠ sender v ∧ is_head (inner (txpool x)) c)) as Hheads.
  { intros c. unfold p1. cbn [inner]. rewrite first_head. unfold c0. by rewrite <- (decode_raw _ _ Hd) at 1. }
  destruct (collect_best p1 (4 * 1024 * 1024) (block_gas_limit (Executor.config x)) c0) as [rest Hpay]; [lia| | |done| |unfold in_u; lia|].
  - by apply Hheads; left.
  - intros c [->|[_ Hc]]%Hheads; [by left|right]. by apply Htip.
  - unfold candidate_gas, p1. cbn [inner senders cand_sender cand_nonce c0]. rewrite lookup_insert_eq. simpl.
    by rewrite lookup_singleton_eq.
  - unfold Executor.config in Hpay. destruct (collect_payload p1 _ _) as [p2 bs]. simpl in Hpay |- *. eauto.
Qed.

(** ** The way of a transaction *)

End EndToEnd.

(** ** Witness *)

Section Concrete.
#[local] Existing Instance toy_codec.
#[local] Existing Instance toy_codec_ok.
#[local] Existing Instance toy_hash_ok.
#[local] Existing Instance senders_order.
#[local] Existing Instance accounts_order.
#[local] Existing Instance slots_order.

Definition toy_verified : VerifiedTx :=
  mkVerified (toy_tx 5 0 3 30) (toy_envelope Init.Byte.x05 Init.Byte.x00 Init.Byte.x03 Init.Byte.x1e) 5
    (from_le_bytes (toy_tx 5 0 3 30)).

End Concrete.
