(* ===== verification/Locks.v ===== *)
(** The mutexes of a node and the order in which its methods take them.

    The executor's state, the pool's interior, the list of receipts and the
    staking state are behind one mutex each.  A method is the sequence of lock
    operations it performs on one path; threads interleave these sequences, and
    a thread that asks for a held mutex waits. *)
From S2P Require Import Prelude.

Inductive lock := LPool | LState | LReceipts | LStaking.

#[global] Instance lock_eq_dec : EqDecision lock.
Proof. solve_decision. Defined.

Inductive action := Acq (l : lock) | Rel (l : lock).

(** ** The methods *)

(** [let guard = m.lock(); body; drop(guard)] *)
Definition locked (l : lock) (body : list action) : list action := Acq l :: body ++ [Rel l].

(** [nonce_fn], when it is installed, locks the executor's state. *)
Definition nonce_fn_locks (installed : bool) : list action := if installed then locked LState [] else [].
(** [submit_tx] returns before it locks when the bytes do not decode, and before
    it asks for the nonce when the hash is known. *)
Definition submit_tx_locks (decodes known installed : bool) : list action :=
  if decodes then locked LPool (if known then [] else nonce_fn_locks installed) else [].
Definition set_nonce_fn_locks : list action := locked LPool [].
Definition collect_payload_locks : list action := locked LPool [].
Definition pool_on_commit_locks : list action := locked LPool [].
Definition pending_count_locks : list action := locked LPool [].
Definition queued_count_locks : list action := locked LPool [].
Definition contains_locks : list action := locked LPool [].

Definition config_locks : list action := locked LState [].
Definition get_receipts_locks : list action := locked LReceipts [].
Definition get_receipt_by_tx_hash_locks : list action := locked LReceipts [].
(** [n] calls of the staking precompile during an EVM run. *)
Definition staking_calls (n : nat) : list action := concat (replicate n (locked LStaking [])).
Definition eth_call_locks (n : nat) : list action := locked LState (staking_calls n).
Definition validate_tx_locks (decodes : bool) : list action := if decodes then locked LState [] else [].
Definition execute_block_locks (n : nat) : list action :=
  locked LState (staking_calls n ++ locked LReceipts []).
Definition create_payload_locks : list action := config_locks ++ collect_payload_locks.
(** The state's guard lives to the end of the method, over both pool calls. *)
Definition on_commit_locks : list action := locked LState (pool_on_commit_locks ++ pending_count_locks).
Definition query_locks : list action := locked LState [].
Definition adapter_size_locks : list action := pending_count_locks ++ queued_count_locks.

(** Every method of the executor and the pool but [on_commit]. *)
Inductive ordered_method : list action → Prop :=
  | om_submit d k b : ordered_method (submit_tx_locks d k b)
  | om_set_nonce_fn : ordered_method set_nonce_fn_locks
  | om_contains : ordered_method contains_locks
  | om_config : ordered_method config_locks
  | om_get_receipts : ordered_method get_receipts_locks
  | om_get_receipt : ordered_method get_receipt_by_tx_hash_locks
  | om_eth_call n : ordered_method (eth_call_locks n)
  | om_validate b : ordered_method (validate_tx_locks b)
  | om_execute n : ordered_method (execute_block_locks n)
  | om_payload : ordered_method create_payload_locks
  | om_query : ordered_method query_locks
  | om_size : ordered_method adapter_size_locks
  | om_collect : ordered_method collect_payload_locks
  | om_pending_count : ordered_method pending_count_locks
  | om_queued_count : ordered_method queued_count_locks.

(** ** Threads *)

(** The locks a thread holds, the last one taken first, and what it has left to do. *)
Record thread := mkThread { held : list lock; todo : list action }.

Definition free (ts : list thread) (l : lock) : Prop := Forall (λ t, l ∉ held t) ts.

Inductive step : list thread → list thread → Prop :=
  | step_acq ts i h l r :
    ts !! i = Some (mkThread h (Acq l :: r)) → free ts l → step ts (<[i := mkThread (l :: h) r]> ts)
  | step_rel ts i h l r :
    ts !! i = Some (mkThread (l :: h) (Rel l :: r)) → step ts (<[i := mkThread h r]> ts).

Definition finished (ts : list thread) : Prop := Forall (λ t, todo t = []) ts.
Definition deadlocked (ts : list thread) : Prop := ¬ finished ts ∧ ∀ ts', ¬ step ts ts'.

Definition start (ms : list (list action)) : list thread := mkThread [] <$> ms.

(** ** Lock order *)

Definition rank (l : lock) : Z := match l with LPool => 0 | LState => 1 | LReceipts => 2 | LStaking => 3 end.

(** Scripts that take locks in increasing rank and release the last one taken. *)
Fixpoint ordered (h : list lock) (r : list action) : Prop :=
  match r with
  | [] => h = []
  | Acq l :: r' => Forall (λ k, rank k < rank l) h ∧ ordered (l :: h) r'
  | Rel l :: r' => match h with k :: h' => k = l ∧ ordered h' r' | [] => False end
  end.

(** A bracket runs where its lock is above the held ones, and leaves them. *)
Lemma ordered_locked h l body r :
  Forall (λ k, rank k < rank l) h →
  (∀ r', ordered (l :: h) r' → ordered (l :: h) (body ++ r')) → ordered h r → ordered h (locked l body ++ r).
Proof.
  intros Hl Hbody Hr. unfold locked. simpl. split; [done|]. rewrite <- app_assoc. apply Hbody. done.
Qed.

Lemma ordered_staking n h r :
  Forall (λ k, rank k < rank LStaking) h → ordered h r → ordered h (staking_calls n ++ r).
Proof.
  intros Hh Hr. induction n as [|n IH]; simpl; [done|]. done.
Qed.

Lemma ordered_leaf l h r : Forall (λ k, rank k < rank l) h → ordered h r → ordered h (locked l [] ++ r).
Proof. intros. by apply ordered_locked. Qed.

Lemma ordered_method_ok m : ordered_method m → ordered [] m.
Proof.
  assert (ordered [] []) as H0 by done. intros Hm. rewrite <- (app_nil_r m).
  destruct Hm as [d k b| | | | | |n|b|n| | | | | |]; try (by apply ordered_leaf).
  - destruct d; [|done]. apply ordered_locked; [done| |done]. intros r' Hr'.
    destruct k; [done|]. destruct b; [|done]. apply ordered_leaf; [|done]. by repeat constructor.
  - apply ordered_locked; [done| |done]. intros r' Hr'. apply ordered_staking; [|done]. by repeat constructor.
  - destruct b; [by apply ordered_leaf|done].
  - apply ordered_locked; [done| |done]. intros r' Hr'. rewrite <- app_assoc.
    apply ordered_staking; [by repeat constructor|]. apply ordered_leaf; [|done]. by repeat constructor.
Qed.

(** ** Progress *)

(** Every thread follows an ordered script, and no lock has two holders. *)
Record threads_ok (ts : list thread) : Prop := {
  to_ordered : Forall (λ t, ordered (held t) (todo t)) ts;
  to_owner i j t u l : ts !! i = Some t → ts !! j = Some u → l ∈ held t → l ∈ held u → i = j;
}.

Lemma threads_ok_start ms : Forall (ordered []) ms → threads_ok (start ms).
Proof.
  intros Hms. split; [by apply Forall_fmap|].
  intros i j t u l Ht _ Hl. unfold start in Ht. rewrite list_lookup_fmap in Ht.
  apply fmap_Some in Ht as (m & _ & ->). by apply not_elem_of_nil in Hl.
Qed.

Lemma threads_ok_step ts ts' : step ts ts' → threads_ok ts → threads_ok ts'.
Proof.
  intros Hstep [Hord Hown]. destruct Hstep as [ts i h l r Hi Hfree|ts i h l r Hi];
    pose proof (proj1 (Forall_lookup _ _) Hord i _ Hi) as Ho; simpl in Ho; destruct Ho as [_ Ho].
  - split; [by apply Forall_insert|]. intros j k t u x Hj Hk Hx Hy.
    apply list_lookup_insert_Some in Hj as [(<- & <- & _)|[Hne Hj]];
      apply list_lookup_insert_Some in Hk as [(<- & <- & _)|[Hne' Hk]]; [done|..].
    + apply elem_of_cons in Hx as [->|Hx]; [by destruct (proj1 (Forall_lookup _ _) Hfree k _ Hk)|].
      by eapply (Hown i k).
    + apply elem_of_cons in Hy as [->|Hy]; [by destruct (proj1 (Forall_lookup _ _) Hfree j _ Hj)|].
      by eapply (Hown j i).
    + by eapply Hown.
  - split; [by apply Forall_insert|]. intros j k t u x Hj Hk Hx Hy.
    apply list_lookup_insert_Some in Hj as [(<- & <- & _)|[Hne Hj]];
      apply list_lookup_insert_Some in Hk as [(<- & <- & _)|[Hne' Hk]]; [done|..].
    + eapply (Hown i k); [done|done|by right|done].
    + eapply (Hown j i); [done|done|done|by right].
    + by eapply Hown.
Qed.

Lemma threads_ok_reachable ts ts' : rtc step ts ts' → threads_ok ts → threads_ok ts'.
Proof. induction 1; eauto using threads_ok_step. Qed.

(** A thread that cannot move waits for a lock above every lock it holds. *)
Lemma stuck_waits ts i t :
  threads_ok ts → (∀ ts', ¬ step ts ts') → ts !! i = Some t → todo t ≠ [] →
  ∃ l r, todo t = Acq l :: r ∧ Forall (λ k, rank k < rank l) (held t) ∧ ¬ free ts l.
Proof.
  intros [Hord _] Hstuck Hi Hne. pose proof (proj1 (Forall_lookup _ _) Hord i _ Hi) as Ho.
  destruct t as [h [|[l|l] r]]; simpl in *; [done|..].
  - exists l, r. split_and!; [done|by destruct Ho|]. intros Hfree. by eapply Hstuck, step_acq.
  - destruct h as [|k h]; [done|]. destruct Ho as [-> _]. exfalso. by eapply Hstuck, step_rel.
Qed.

(** From a waiting thread to one that waits for a lock of higher rank. *)
Lemma waits_higher ts i t l r :
  threads_ok ts → (∀ ts', ¬ step ts ts') → ts !! i = Some t → todo t = Acq l :: r →
  ∃ j u l' r', ts !! j = Some u ∧ todo u = Acq l' :: r' ∧ rank l < rank l'.
Proof.
  intros Hok Hstuck Hi Ht. destruct (stuck_waits ts i t Hok Hstuck Hi) as (l0 & r0 & E & _ & Hbusy); [by rewrite Ht|].
  rewrite Ht in E. injection E as <- <-.
  apply not_Forall_Exists, Exists_exists in Hbusy as (u & Hu & Hl); [|apply _].
  apply dec_stable in Hl. apply list_elem_of_lookup in Hu as [j Hj].
  assert (todo u ≠ []) as Hne.
  { intros E. pose proof (proj1 (Forall_lookup _ _) (to_ordered _ Hok) j _ Hj) as Ho. simpl in Ho. rewrite E in Ho. simpl in Ho.
    rewrite Ho in Hl. by apply not_elem_of_nil in Hl. }
  destruct (stuck_waits ts j u Hok Hstuck Hj Hne) as (l' & r' & E & Hrank & _).
  exists j, u, l', r'. split_and!; [done|done|]. rewrite Forall_forall in Hrank. by apply Hrank.
Qed.

Lemma no_deadlock ts : threads_ok ts → ¬ deadlocked ts.
Proof.
  intros Hok [Hnf Hstuck]. apply not_Forall_Exists, Exists_exists in Hnf as (t & Ht & Hne); [|apply _].
  apply list_elem_of_lookup in Ht as [i Hi].
  destruct (stuck_waits ts i t Hok Hstuck Hi Hne) as (l & r & E & _). clear Hne.
  assert (∀ n : nat, ∃ j u l' r', ts !! j = Some u ∧ todo u = Acq l' :: r' ∧ Z.of_nat n ≤ rank l') as Hup.
  { induction n as [|n (j & u & l' & r' & Hj & Hu & Hn)].
    - exists i, t, l, r. split_and!; [done|done|]. by destruct l.
    - destruct (waits_higher ts j u l' r' Hok Hstuck Hj Hu) as (j' & u' & l'' & r'' & ? & ? & ?).
      exists j', u', l'', r''. split_and!; [done|done|lia]. }
  destruct (Hup 4%nat) as (_ & _ & l' & _ & _ & _ & Hl'). destruct l'; simpl in Hl'; lia.
Qed.

(** C29. The methods of the executor and the pool other than [on_commit] take
    their locks in one order (pool, state, receipts, staking): however many
    threads run them, in whatever interleaving, the node does not deadlock. *)
Theorem methods_never_deadlock ms ts :
  Forall ordered_method ms → rtc step (start ms) ts → ¬ deadlocked ts.
Proof.
  intros Hms Hr. apply no_deadlock, (threads_ok_reachable _ _ Hr), threads_ok_start.
  eapply Forall_impl; [done|]. apply ordered_method_ok.
Qed.

(** [on_commit] breaks that order: it takes the pool's lock while it holds
    the state's, and [submit_tx] takes the state's (through [nonce_fn]) while it
    holds the pool's.  One thread in each reach a deadlock. *)
Theorem submit_commit_deadlock :
  ∃ ts, rtc step (start [submit_tx_locks true false true; on_commit_locks]) ts ∧ deadlocked ts.
Proof.
  eexists. split.
  - eapply rtc_l; [eapply (step_acq _ 0%nat [] LPool); [done|by repeat constructor; apply not_elem_of_nil]|].
    eapply rtc_l; [|apply rtc_refl].
    eapply (step_acq _ 1%nat [] LState); [done|]. repeat constructor; simpl; set_solver.
  - split; [intros Hf; by apply Forall_cons in Hf as [? _]|].
    intros ts' Hstep. inversion Hstep as [ts i h l r Hi Hfree|ts i h l r Hi]; subst; destruct i as [|[|i]]; simplify_eq/=.
    + apply Forall_cons in Hfree as [_ [Hx _]%Forall_cons]. simpl in Hx. set_solver.
    + apply Forall_cons in Hfree as [Hx _]. simpl in Hx. set_solver.
Qed.

(** ** Witness *)

Lemma methods_never_deadlock_witness :
  ¬ deadlocked (start [submit_tx_locks true false true; execute_block_locks 2; create_payload_locks]).
Proof.
  refine (methods_never_deadlock [submit_tx_locks true false true; execute_block_locks 2; create_payload_locks] _ _ (rtc_refl _ _)).
  repeat constructor.
Defined.
