(* ===== verification/Rpc.v ===== *)
(** crates/rpc/src/lib.rs: the Ethereum JSON-RPC server.

    [dispatch] is a function from the server's state and a request to the state
    after it and a response.  JSON values are [serde_json::Value]; the hex
    crate and ruint's hexadecimal conversions of [U256] are parameters.
    [handle_rpc] is the HTTP handler: a JSON body in, a JSON body out. *)
From S2P Require Import Prelude Types Hex Tx State Precompile Executor TxPool.

(** ** serde_json::Value *)

Inductive Value :=
  | JNull
  | JBool (b : bool)
  | JNumber (text : string)
  | JString (s : string)
  | JArray (l : list Value)
  | JObject (fields : list (string * Value)).

Definition as_str (v : Value) : option string := match v with JString s => Some s | _ => None end.
Definition as_array (v : Value) : option (list Value) := match v with JArray l => Some l | _ => None end.

(** [v["key"]], [Null] when there is no such field; a map of serde_json keeps the
    last value of a repeated key. *)
Fixpoint lookup_field (fields : list (string * Value)) (key : string) : option Value :=
  match fields with
  | [] => None
  | (k, v) :: rest =>
    match lookup_field rest key with
    | Some w => Some w
    | None => if (k =? key)%string then Some v else None
    end
  end.
Definition field (v : Value) (key : string) : Value :=
  match v with JObject fields => default JNull (lookup_field fields key) | _ => JNull end.

(** A field as a derived [Deserialize] meets it: refused when it occurs twice. *)
Definition struct_field (fields : list (string * Value)) (name : string) : option (option Value) :=
  match filter (λ kv, kv.1 = name) fields with
  | [] => Some None
  | [kv] => Some (Some kv.2)
  | _ => None
  end.

(** ruint's [U256::from_str_radix(s, 16)] and [format!("{v:x}")] *)
Class U256Hex : Type := {
  u256_from_str_radix_16 : string → result string Z;
  u256_lower_hex : Z → string;
}.
Class U256HexOk `{U256Hex} : Prop := {
  u256_from_lower_hex v : is_u256 v → u256_from_str_radix_16 (u256_lower_hex v) = Ok v;
  u256_from_range s v : u256_from_str_radix_16 s = Ok v → is_u256 v;
}.

Section Rpc.
Context `{Evm} `{!TxCodec} `{!HexCrate} `{!U256Hex}.
Context `{!HashIter Z SenderQueue} `{!HashIter Z DbAccount} `{!HashIter Z Z}.

(** The sink is the list of transactions handed to the network so far. *)
Record EvmRpcState := mkRpcState {
  executor : EvmExecutor;
  rpc_chain_id : Z;
  network_sink : option (list (list byte));
}.

Record JsonRpcRequest := mkRequest {
  req_jsonrpc : option string;
  method : string;
  params : Value;
  req_id : Value;
}.

Record JsonRpcError := mkRpcError { code : Z; message : string }.

Record JsonRpcResponse := mkResponse {
  jsonrpc : string;
  rpc_result : option Value;
  rpc_error : option JsonRpcError;
  resp_id : Value;
}.

Definition rpc_ok (id result : Value) : JsonRpcResponse :=
  {| jsonrpc := "2.0"; rpc_result := Some result; rpc_error := None; resp_id := id |}.
Definition rpc_err (id : Value) (c : Z) (msg : string) : JsonRpcResponse :=
  {| jsonrpc := "2.0"; rpc_result := None; rpc_error := Some {| code := c; message := msg |}; resp_id := id |}.

(** ** Hex helpers *)

Definition hex0x (bs : list byte) : string := "0x" +:+ hex_encode bs.
Definition to_hex_u64 (v : Z) : Value := JString ("0x" +:+ format_x v).
Definition to_hex_u256 (v : U256) : Value := JString ("0x" +:+ u256_lower_hex v).

Definition parse_address_str (s : string) : result string Address :=
  bytes ← map_err (λ e, "invalid hex: " +:+ e) (hex_decode (strip_0x s));
  if negb (length bytes =? 20)%nat then
    Err ("address must be 20 bytes, got " +:+ pretty (Z.of_nat (length bytes)))
  else Ok (address_from_slice bytes).

Definition parse_address (v : Value) : result string Address :=
  s ← ok_or (as_str v) "expected string"%string;
  parse_address_str s.

Definition parse_b256_str (s : string) : result string B256 :=
  bytes ← map_err (λ e, "invalid hex: " +:+ e) (hex_decode (strip_0x s));
  if negb (length bytes =? 32)%nat then
    Err ("hash must be 32 bytes, got " +:+ pretty (Z.of_nat (length bytes)))
  else Ok (from_be_bytes bytes).

Definition parse_addr_block (ps : Value) : result string (Address * string) :=
  arr ← ok_or (as_array ps) "expected array params"%string;
  match arr with
  | [] => Err "missing address parameter"%string
  | v :: rest =>
    addr ← parse_address v;
    Ok (addr, default "latest"%string (b ← head rest; as_str b))
  end.

Definition parse_u256 (v : Value) : result string U256 :=
  s ← ok_or (as_str v) "expected hex string"%string;
  map_err (λ e, "invalid U256: " +:+ e) (u256_from_str_radix_16 (strip_0x s)).

Definition parse_hash_param (ps : Value) : result string B256 :=
  s ← ok_or (arr ← as_array ps; v ← head arr; as_str v) "expected [hash]"%string;
  parse_b256_str s.

(** [.map(f).transpose()?] *)
Definition transpose {A B} (f : A → result string B) (o : option A) : result string (option B) :=
  match o with Some a => b ← f a; Ok (Some b) | None => Ok None end.

Definition parse_call_params (ps : Value)
    : result string (Address * option Address * list byte * U256 * option Z) :=
  arr ← ok_or (as_array ps) "expected array params"%string;
  obj ← ok_or (head arr) "missing call object"%string;
  from ← transpose parse_address_str (as_str (field obj "from"));
  to ← transpose parse_address_str (as_str (field obj "to"));
  data ← transpose (λ s, map_err (λ e, "invalid data hex: " +:+ e) (hex_decode (strip_0x s)))
    (match as_str (field obj "data") with Some s => Some s | None => as_str (field obj "input") end);
  value ← transpose (λ s, map_err (λ e, "invalid value: " +:+ e) (u256_from_str_radix_16 (strip_0x s)))
    (as_str (field obj "value"));
  let gas := s ← as_str (field obj "gas"); ok (from_str_radix_16 64 (strip_0x s)) in
  Ok (default 0 from, to, default [] data, default 0 value, gas).

(** ** Queries of the executor *)

Definition query_balance (x : EvmExecutor) (addr : Address) : U256 :=
  let data := q_data (query x "eth_getBalance" (address_as_slice addr)) in
  if (length data =? 32)%nat then from_be_bytes data else 0.
Definition query_nonce (x : EvmExecutor) (addr : Address) : Z :=
  let data := q_data (query x "eth_getTransactionCount" (address_as_slice addr)) in
  if (length data =? 8)%nat then from_be_bytes data else 0.
Definition query_block_number (x : EvmExecutor) : Z :=
  let data := q_data (query x "eth_blockNumber" []) in
  if (length data =? 8)%nat then from_be_bytes data else 0.
Definition query_code (x : EvmExecutor) (addr : Address) : list byte :=
  q_data (query x "eth_getCode" (address_as_slice addr)).
Definition query_storage (x : EvmExecutor) (addr : Address) (slot : U256) : U256 :=
  let data := q_data (query x "eth_getStorageAt" (address_as_slice addr ++ to_be_bytes 32 slot)) in
  if (length data =? 32)%nat then from_be_bytes data else 0.

(** ** JSON of receipts and logs *)

Definition address_json (a : Address) : Value := JString (hex0x (address_as_slice a)).
Definition b256_json (h : B256) : Value := JString (hex0x (b256_as_slice h)).
Definition option_address_json (o : option Address) : Value :=
  match o with Some a => address_json a | None => JNull end.

Definition receipt_log_json (r : EvmReceipt) (i : nat) (log : EvmLog) : Value := JObject [
  ("address", address_json (log_address log));
  ("topics", JArray (b256_json <$> log_topics log));
  ("data", JString (hex0x (log_data log)));
  ("blockNumber", to_hex_u64 (block_number r));
  ("transactionHash", b256_json (tx_hash r));
  ("transactionIndex", to_hex_u64 (tx_index r));
  ("logIndex", to_hex_u64 (Z.of_nat i));
  ("removed", JBool false)]%string.

Definition receipt_to_json (r : EvmReceipt) : Value := JObject [
  ("transactionHash", b256_json (tx_hash r));
  ("transactionIndex", to_hex_u64 (tx_index r));
  ("blockHash", b256_json (block_hash r));
  ("blockNumber", to_hex_u64 (block_number r));
  ("from", address_json (from r));
  ("to", option_address_json (to r));
  ("cumulativeGasUsed", to_hex_u64 (cumulative_gas_used r));
  ("gasUsed", to_hex_u64 (gas_used r));
  ("contractAddress", option_address_json (contract_address r));
  ("logs", JArray (imap (receipt_log_json r) (logs r)));
  ("logsBloom", JString (hex0x (logs_bloom r)));
  ("status", to_hex_u64 (status r));
  ("effectiveGasPrice", to_hex_u256 (effective_gas_price r));
  ("type", JString "0x2")]%string.

(** The reduced transaction object of [eth_getTransactionByHash]. *)
Definition transaction_json (r : EvmReceipt) : Value := JObject [
  ("hash", b256_json (tx_hash r));
  ("blockNumber", to_hex_u64 (block_number r));
  ("blockHash", b256_json (block_hash r));
  ("transactionIndex", to_hex_u64 (tx_index r));
  ("from", address_json (from r));
  ("to", option_address_json (to r));
  ("value", JString "0x0");
  ("gas", to_hex_u64 (gas_used r));
  ("gasPrice", to_hex_u256 (effective_gas_price r))]%string.

Definition log_json (r : EvmReceipt) (log_idx : nat) (log : EvmLog) : Value := JObject [
  ("address", address_json (log_address log));
  ("topics", JArray (b256_json <$> log_topics log));
  ("data", JString (hex0x (log_data log)));
  ("blockNumber", to_hex_u64 (block_number r));
  ("transactionHash", b256_json (tx_hash r));
  ("transactionIndex", to_hex_u64 (tx_index r));
  ("blockHash", b256_json (block_hash r));
  ("logIndex", to_hex_u64 (Z.of_nat log_idx));
  ("removed", JBool false)]%string.

(** ** eth_getLogs *)

Definition log_filters (ps : Value) : option Address * option B256 :=
  match (arr ← as_array ps; head arr) with
  | Some f =>
    (s ← as_str (field f "address"); ok (parse_address_str s),
     t ← as_array (field f "topics"); v ← head t; s ← as_str v; ok (parse_b256_str s))
  | None => (None, None)
  end.

(** Whether the two [continue]s let a log through. *)
Definition log_passes (addr_filter : option Address) (topic_filter : option B256) (log : EvmLog) : bool :=
  match addr_filter with Some af => log_address log =? af | None => true end &&
  match topic_filter with Some tf => bool_decide (tf ∈ log_topics log) | None => true end.

Definition receipt_logs (af : option Address) (tf : option B256) (r : EvmReceipt) : list Value :=
  omap (λ '(i, log), if log_passes af tf log then Some (log_json r i log) else None) (imap pair (logs r)).

(** [for h in 0..=height] *)
Definition collect_logs (x : EvmExecutor) (af : option Address) (tf : option B256) : list Value :=
  h ← seq 0 (S (Z.to_nat (block_height x)));
  match get_receipts x h with
  | Some rs => r ← rs; receipt_logs af tf r
  | None => []
  end.

(** ** Methods *)

Definition rpc_get_balance (s : EvmRpcState) (req : JsonRpcRequest) : JsonRpcResponse :=
  match parse_addr_block (params req) with
  | Err e => rpc_err (req_id req) (-32602) e
  | Ok (addr, _) => rpc_ok (req_id req) (to_hex_u256 (query_balance (executor s) addr))
  end.
Definition rpc_get_transaction_count (s : EvmRpcState) (req : JsonRpcRequest) : JsonRpcResponse :=
  match parse_addr_block (params req) with
  | Err e => rpc_err (req_id req) (-32602) e
  | Ok (addr, _) => rpc_ok (req_id req) (to_hex_u64 (query_nonce (executor s) addr))
  end.
Definition rpc_get_code (s : EvmRpcState) (req : JsonRpcRequest) : JsonRpcResponse :=
  match parse_addr_block (params req) with
  | Err e => rpc_err (req_id req) (-32602) e
  | Ok (addr, _) => rpc_ok (req_id req) (JString (hex0x (query_code (executor s) addr)))
  end.

Definition rpc_get_storage_at (s : EvmRpcState) (req : JsonRpcRequest) : JsonRpcResponse :=
  match as_array (params req) with
  | Some (v0 :: v1 :: _) =>
    match parse_address v0 with
    | Err e => rpc_err (req_id req) (-32602) e
    | Ok addr =>
      match parse_u256 v1 with
      | Err e => rpc_err (req_id req) (-32602) e
      | Ok slot => rpc_ok (req_id req) (to_hex_u256 (query_storage (executor s) addr slot))
      end
    end
  | _ => rpc_err (req_id req) (-32602) "expected [addr, slot, block]"
  end.

Definition with_executor (s : EvmRpcState) (x : EvmExecutor) : EvmRpcState :=
  {| executor := x; rpc_chain_id := rpc_chain_id s; network_sink := network_sink s |}.

Definition rpc_estimate_gas (s : EvmRpcState) (req : JsonRpcRequest) : EvmRpcState * JsonRpcResponse :=
  match parse_call_params (params req) with
  | Err e => (s, rpc_err (req_id req) (-32602) e)
  | Ok (from, to, data, value, _) =>
    let '(x, r) := eth_call (executor s) from to data value None in
    (with_executor s x,
     match r with
     | Ok _ => rpc_ok (req_id req) (to_hex_u64 (if to then 21000 else 100000))
     | Err e => rpc_err (req_id req) (-32000) e
     end)
  end.

Definition rpc_send_raw_transaction (s : EvmRpcState) (req : JsonRpcRequest) : EvmRpcState * JsonRpcResponse :=
  match (arr ← as_array (params req); head arr) with
  | None => (s, rpc_err (req_id req) (-32602) "missing params")
  | Some v =>
    match as_str v with
    | None => (s, rpc_err (req_id req) (-32602) "expected hex string")
    | Some str =>
      match hex_decode (strip_0x str) with
      | Err e => (s, rpc_err (req_id req) (-32602) ("invalid hex: " +:+ e))
      | Ok raw =>
        let '(x, r) := submit_raw_tx (executor s) raw in
        match r with
        | Ok hash =>
          ({| executor := x; rpc_chain_id := rpc_chain_id s;
              network_sink := (λ sent, sent ++ [raw]) <$> network_sink s |},
           rpc_ok (req_id req) (b256_json hash))
        | Err e => (with_executor s x, rpc_err (req_id req) (-32000) e)
        end
      end
    end
  end.

Definition rpc_call (s : EvmRpcState) (req : JsonRpcRequest) : EvmRpcState * JsonRpcResponse :=
  match parse_call_params (params req) with
  | Err e => (s, rpc_err (req_id req) (-32602) e)
  | Ok (from, to, data, value, gas) =>
    let '(x, r) := eth_call (executor s) from to data value gas in
    (with_executor s x,
     match r with
     | Ok out => rpc_ok (req_id req) (JString (hex0x out))
     | Err e => rpc_err (req_id req) 3 e
     end)
  end.

Definition rpc_get_transaction_receipt (s : EvmRpcState) (req : JsonRpcRequest) : JsonRpcResponse :=
  match parse_hash_param (params req) with
  | Err e => rpc_err (req_id req) (-32602) e
  | Ok hash =>
    match get_receipt_by_tx_hash (executor s) hash with
    | Some r => rpc_ok (req_id req) (receipt_to_json r)
    | None => rpc_ok (req_id req) JNull
    end
  end.
Definition rpc_get_transaction_by_hash (s : EvmRpcState) (req : JsonRpcRequest) : JsonRpcResponse :=
  match parse_hash_param (params req) with
  | Err e => rpc_err (req_id req) (-32602) e
  | Ok hash =>
    match get_receipt_by_tx_hash (executor s) hash with
    | Some r => rpc_ok (req_id req) (transaction_json r)
    | None => rpc_ok (req_id req) JNull
    end
  end.

Definition rpc_get_logs (s : EvmRpcState) (req : JsonRpcRequest) : JsonRpcResponse :=
  let '(af, tf) := log_filters (params req) in
  rpc_ok (req_id req) (JArray (collect_logs (executor s) af tf)).

Definition rpc_get_block_by_number (s : EvmRpcState) (req : JsonRpcRequest) : JsonRpcResponse :=
  let config := Executor.config (executor s) in
  let height := query_block_number (executor s) in
  let tx_count := default 0%nat (length <$> get_receipts (executor s) (Z.to_nat height)) in
  rpc_ok (req_id req) (JObject [
    ("number", to_hex_u64 height);
    ("hash", b256_json 0);
    ("parentHash", b256_json 0);
    ("timestamp", JString "0x0");
    ("gasLimit", to_hex_u64 (block_gas_limit config));
    ("gasUsed", JString "0x0");
    ("baseFeePerGas", to_hex_u64 (base_fee_per_gas config));
    ("miner", address_json 0);
    ("transactions", JArray (replicate tx_count JNull))]%string).

Definition rpc_fee_history (s : EvmRpcState) (req : JsonRpcRequest) : JsonRpcResponse :=
  let base_fee := base_fee_per_gas (Executor.config (executor s)) in
  rpc_ok (req_id req) (JObject [
    ("oldestBlock", JString "0x0");
    ("baseFeePerGas", JArray [to_hex_u64 base_fee; to_hex_u64 base_fee]);
    ("gasUsedRatio", JArray [JNumber "0.0"]);
    ("reward", JArray [JArray [to_hex_u64 1000000000]])]%string).

(** ** dispatch *)

Definition dispatch (s : EvmRpcState) (req : JsonRpcRequest) : EvmRpcState * JsonRpcResponse :=
  let on m := (method req =? m)%string in
  let id := req_id req in
  if on "eth_chainId"%string then (s, rpc_ok id (to_hex_u64 (rpc_chain_id s)))
  else if on "net_version"%string then (s, rpc_ok id (JString (pretty (rpc_chain_id s))))
  else if on "web3_clientVersion"%string then (s, rpc_ok id (JString "nbnet/0.1.0"))
  else if on "eth_blockNumber"%string then (s, rpc_ok id (to_hex_u64 (query_block_number (executor s))))
  else if on "eth_getBalance"%string then (s, rpc_get_balance s req)
  else if on "eth_getTransactionCount"%string then (s, rpc_get_transaction_count s req)
  else if on "eth_getCode"%string then (s, rpc_get_code s req)
  else if on "eth_getStorageAt"%string then (s, rpc_get_storage_at s req)
  else if on "eth_gasPrice"%string then
    (s, rpc_ok id (to_hex_u64 (base_fee_per_gas (Executor.config (executor s)))))
  else if on "eth_estimateGas"%string then rpc_estimate_gas s req
  else if on "eth_maxPriorityFeePerGas"%string then (s, rpc_ok id (to_hex_u64 1000000000))
  else if on "eth_sendRawTransaction"%string then rpc_send_raw_transaction s req
  else if on "eth_call"%string then rpc_call s req
  else if on "eth_getTransactionReceipt"%string then (s, rpc_get_transaction_receipt s req)
  else if on "eth_getTransactionByHash"%string then (s, rpc_get_transaction_by_hash s req)
  else if on "eth_getLogs"%string then (s, rpc_get_logs s req)
  else if on "eth_getBlockByNumber"%string then (s, rpc_get_block_by_number s req)
  else if on "eth_getBlockByHash"%string then (s, rpc_ok id JNull)
  else if on "eth_feeHistory"%string then (s, rpc_fee_history s req)
  else if on "eth_syncing"%string then (s, rpc_ok id (JBool false))
  else if on "eth_accounts"%string then (s, rpc_ok id (JArray []))
  else (s, rpc_err id (-32601) ("method not found: " +:+ method req)).

(** ** The HTTP handler *)

(** The derived [Deserialize] of [JsonRpcRequest], on the fields found: the
    version may be absent or null, the parameters may be absent. *)
Definition request_of_fields (version : option Value) (m : option Value) (ps : option Value) (id : option Value)
    : option JsonRpcRequest :=
  v ← match version with
      | None | Some JNull => Some None
      | Some (JString s) => Some (Some s)
      | Some _ => None
      end;
  name ← m ≫= as_str;
  i ← id;
  Some {| req_jsonrpc := v; method := name; params := default JNull ps; req_id := i |}.

(** A request is an object, in which no field of the struct is repeated, or the
    array of its four fields. *)
Definition parse_request (body : Value) : option JsonRpcRequest :=
  match body with
  | JObject fields =>
    version ← struct_field fields "jsonrpc"; m ← struct_field fields "method";
    ps ← struct_field fields "params"; id ← struct_field fields "id";
    request_of_fields version m ps id
  | JArray [v; m; ps; id] => request_of_fields (Some v) (Some m) (Some ps) (Some id)
  | _ => None
  end%string.

(** The derived [Serialize]s: an absent result or error is skipped. *)
Definition error_json (e : JsonRpcError) : Value := JObject [
  ("code", JNumber (pretty (code e)));
  ("message", JString (message e))]%string.
Definition response_json (r : JsonRpcResponse) : Value := JObject (
  ("jsonrpc"%string, JString (jsonrpc r)) ::
  match rpc_result r with Some v => [("result"%string, v)] | None => [] end ++
  match rpc_error r with Some e => [("error"%string, error_json e)] | None => [] end ++
  [("id"%string, resp_id r)]).

(** A body that is no request is refused by the extractor with a reply that is
    not JSON. *)
Definition handle_rpc (s : EvmRpcState) (body : Value) : EvmRpcState * option Value :=
  match parse_request body with
  | Some req => let '(s, r) := dispatch s req in (s, Some (response_json r))
  | None => (s, None)
  end.
End Rpc.
