(* ===== verification/RpcProps.v ===== *)
(** Correctness of the JSON-RPC dispatcher: the server changes the node only
    through the executor's own operations, values survive the trip through their
    JSON encoding, and the log query returns exactly what matches. *)
From S2P Require Import Prelude Types Hex Tx State StateModel StateLemmas StateProps Precompile Executor.
From S2P Require Import ExecutorModel TxPoolQueue ExecutorProps TxPool Rpc.

Section RpcProps.
Context `{Evm} `{!TxCodec} `{!HexCrate} `{!U256Hex} `{!HexCrateOk} `{!U256HexOk}.
Implicit Types (s : EvmRpcState) (req : JsonRpcRequest).

(** ** Parsing *)

Lemma parse_address_str_range str a : parse_address_str str = Ok a → is_address a.
Proof.
  unfold parse_address_str. destruct (hex_decode (strip_0x str)) as [bs|e]; [|done]. simpl.
  destruct (Nat.eqb_spec (length bs) 20) as [Hl|]; [|done]. intros [= <-].
  pose proof (from_be_bytes_range bs) as Hr. by rewrite Hl in Hr.
Qed.

Lemma parse_address_str_encode a : is_address a → parse_address_str (hex0x (address_as_slice a)) = Ok a.
Proof.
  intros Ha. unfold parse_address_str. change (strip_0x (hex0x ?bs)) with (hex_encode bs).
  rewrite hex_decode_encode. cbn [map_err mbind result_bind]. rewrite length_address_as_slice. cbn [Nat.eqb negb]. by rewrite address_from_as_slice.
Qed.

Lemma parse_b256_str_encode h : is_u256 h → parse_b256_str (hex0x (b256_as_slice h)) = Ok h.
Proof.
  intros Hh. unfold parse_b256_str. change (strip_0x (hex0x ?bs)) with (hex_encode bs).
  rewrite hex_decode_encode. cbn [map_err mbind result_bind]. rewrite length_b256_as_slice. cbn [Nat.eqb negb]. f_equal. by apply (from_to_be_bytes_id 32 256).
Qed.

Lemma parse_call_params_from ps from to data value gas :
  parse_call_params ps = Ok (from, to, data, value, gas) → is_address from.
Proof.
  unfold parse_call_params. intros Hp. apply result_bind_Ok in Hp as (arr & _ & Hp).
  apply result_bind_Ok in Hp as (obj & _ & Hp). apply result_bind_Ok in Hp as (ofrom & Hfrom & Hp).
  do 3 apply result_bind_Ok in Hp as (? & _ & Hp). injection Hp as <- _ _ _ _.
  destruct (as_str (field obj "from")) as [str|]; simpl in Hfrom.
  - apply result_bind_Ok in Hfrom as (a & Ha & [= <-]). by eapply parse_address_str_range.
  - injection Hfrom as <-. simpl. ulia.
Qed.

(** ** Effects *)

(** The bytes an [eth_sendRawTransaction] request carries. *)
Definition raw_bytes req : option (list byte) :=
  v ← (arr ← as_array (params req); head arr);
  str ← as_str v;
  ok (hex_decode (strip_0x str)).

Lemma dispatch_effect s req :
  let s' := (dispatch s req).1 in
  rpc_chain_id s' = rpc_chain_id s ∧
  ((executor s' = executor s ∧ network_sink s' = network_sink s) ∨
   (method req = "eth_sendRawTransaction"%string ∧ ∃ bytes, raw_bytes req = Some bytes ∧
      executor s' = exec_step (executor s) (XSubmit bytes) ∧
      network_sink s' = if is_ok (submit_raw_tx (executor s) bytes).2
                        then (λ sent, sent ++ [bytes]) <$> network_sink s else network_sink s) ∨
   ((method req = "eth_call" ∨ method req = "eth_estimateGas")%string ∧ network_sink s' = network_sink s ∧
    ∃ from to data value gas, is_address from ∧
      executor s' = exec_step (executor s) (XCall from to data value gas))).
Proof.
  unfold dispatch.
  repeat match goal with
  | |- context [(method req =? ?m)%string] => destruct (String.eqb_spec (method req) m) as [Hm|_]
  end; try (simpl; split; [done|by left]).
  - unfold rpc_estimate_gas. destruct (parse_call_params (params req)) as [[[[[fr to] data] value] gas]|e] eqn:Hp;
      [|simpl; split; [done|by left]].
    destruct (eth_call (executor s) fr to data value None) as [x r] eqn:Hc. simpl. split; [done|]. right; right.
    split; [auto|]. split; [done|]. exists fr, to, data, value, None. rewrite Hc.
    split; [by eapply parse_call_params_from|done].
  - unfold rpc_send_raw_transaction, raw_bytes. destruct (arr ← as_array (params req); head arr) as [v|]; [|simpl; split; [done|by left]].
    destruct (as_str v) as [str|] eqn:Hv; [|simpl; split; [done|by left]].
    destruct (hex_decode (strip_0x str)) as [bytes|e] eqn:Hd; [|simpl; split; [done|by left]].
    destruct (submit_raw_tx (executor s) bytes) as [x r] eqn:Hs.
    assert (exec_step (executor s) (XSubmit bytes) = x) as Hx by (simpl; by rewrite Hs).
    destruct r as [h|e]; (split; [done|]); right; left; (split; [done|]); exists bytes; cbn [mbind option_bind]; rewrite Hv; cbn [mbind option_bind]; rewrite Hd, Hx, Hs; done.
  - unfold rpc_call. destruct (parse_call_params (params req)) as [[[[[fr to] data] value] gas]|e] eqn:Hp;
      [|simpl; split; [done|by left]].
    destruct (eth_call (executor s) fr to data value gas) as [x r] eqn:Hc. simpl. split; [done|]. right; right.
    split; [auto|]. split; [done|]. exists fr, to, data, value, gas. rewrite Hc.
    split; [by eapply parse_call_params_from|done].
Qed.

(** C36. The server changes the node only through the executor's operations: a
    dispatched request leaves the executor as it was, or is one submission of
    raw bytes, or one call from a well-formed address; only an accepted
    [eth_sendRawTransaction] hands anything to the network, and then exactly the
    accepted bytes. *)
Theorem dispatch_step s req :
  let s' := (dispatch s req).1 in
  rpc_chain_id s' = rpc_chain_id s ∧
  ((executor s' = executor s ∧ network_sink s' = network_sink s) ∨
   (method req = "eth_sendRawTransaction"%string ∧ ∃ bytes, raw_bytes req = Some bytes ∧
      executor s' = exec_step (executor s) (XSubmit bytes) ∧
      network_sink s' = if is_ok (submit_raw_tx (executor s) bytes).2
                        then (λ sent, sent ++ [bytes]) <$> network_sink s else network_sink s) ∨
   ((method req = "eth_call" ∨ method req = "eth_estimateGas")%string ∧ network_sink s' = network_sink s ∧
    ∃ from to data value gas, is_address from ∧
      executor s' = exec_step (executor s) (XCall from to data value gas))).
Proof. exact (dispatch_effect s req). Qed.

(** ** Account queries *)

Lemma query_balance_eq x a : is_address a → is_u256 (get_balance (state x) a) → query_balance x a = get_balance (state x) a.
Proof.
  intros Ha Hb. unfold query_balance, query. cbn [String.eqb Ascii.eqb Bool.eqb andb q_data].
  rewrite length_address_as_slice. cbn [Nat.eqb andb]. rewrite address_from_as_slice, length_to_be_bytes by done.
  cbn [Nat.eqb]. by apply (from_to_be_bytes_id 32 256).
Qed.

Lemma query_nonce_eq x a : is_address a → is_u64 (get_nonce (state x) a) → query_nonce x a = get_nonce (state x) a.
Proof.
  intros Ha Hb. unfold query_nonce, query. cbn [String.eqb Ascii.eqb Bool.eqb andb q_data].
  rewrite length_address_as_slice. cbn [Nat.eqb andb]. rewrite address_from_as_slice, length_to_be_bytes by done.
  cbn [Nat.eqb]. by apply (from_to_be_bytes_id 8 64).
Qed.

Lemma query_block_number_eq x : is_u64 (block_height x) → query_block_number x = block_height x.
Proof.
  intros Hh. unfold query_block_number, query. cbn [String.eqb Ascii.eqb Bool.eqb andb q_data].
  rewrite length_to_be_bytes. by apply (from_to_be_bytes_id 8 64).
Qed.

Lemma parse_addr_block_encode a rest :
  is_address a → ∃ b, parse_addr_block (JArray (address_json a :: rest)) = Ok (a, b).
Proof.
  intros Ha. unfold parse_addr_block, address_json, parse_address. cbn [as_array ok_or as_str mbind result_bind].
  rewrite parse_address_str_encode by done. eauto.
Qed.

(** C38. [eth_getBalance] and [eth_getTransactionCount] of an encoded address
    return hexadecimal strings that parse back to the balance and the nonce of
    the state, whatever the block parameter. *)
Theorem account_queries s id a rest :
  is_address a → is_u256 (get_balance (state (executor s)) a) → is_u64 (get_nonce (state (executor s)) a) →
  let ask m := dispatch s (mkRequest None m (JArray (address_json a :: rest)) id) in
  (∃ v, ask "eth_getBalance"%string = (s, rpc_ok id v) ∧ parse_u256 v = Ok (get_balance (state (executor s)) a)) ∧
  (∃ str, ask "eth_getTransactionCount"%string = (s, rpc_ok id (JString str)) ∧
     from_str_radix_16 64 (strip_0x str) = Ok (get_nonce (state (executor s)) a)).
Proof.
  intros Ha Hb Hn ask. destruct (parse_addr_block_encode a rest Ha) as [b Hp]. subst ask. split.
  - exists (to_hex_u256 (get_balance (state (executor s)) a)). split.
    + unfold dispatch, rpc_get_balance. cbn [method params req_id String.eqb Ascii.eqb Bool.eqb].
      rewrite Hp. by rewrite query_balance_eq.
    + unfold parse_u256, to_hex_u256. cbn [as_str ok_or mbind result_bind].
      change (strip_0x ("0x" +:+ ?t)) with t. by rewrite u256_from_lower_hex.
  - exists ("0x" +:+ format_x (get_nonce (state (executor s)) a)). split.
    + unfold dispatch, rpc_get_transaction_count. cbn [method params req_id String.eqb Ascii.eqb Bool.eqb].
      rewrite Hp. by rewrite query_nonce_eq.
    + change (strip_0x ("0x" +:+ ?t)) with t. by apply format_x_parse; [lia|].
Qed.

(** ** Logs *)

(** What a client asks for: nothing, one address, or a list of them; and possibly
    topics, the first of which is a hash. *)
Definition AddressFilter : Type := option (Address + list Value).
Definition TopicFilter : Type := option (B256 * list Value).

Definition filter_fields (af : AddressFilter) (tf : TopicFilter) : list (string * Value) :=
  match af with
  | Some (inl a) => [("address"%string, JString (hex0x (address_as_slice a)))]
  | Some (inr l) => [("address"%string, JArray l)]
  | None => []
  end ++
  match tf with
  | Some (t, later) => [("topics"%string, JArray (JString (hex0x (b256_as_slice t)) :: later))]
  | None => []
  end.

(** What the node makes of it. *)
Definition log_wanted (af : AddressFilter) (tf : TopicFilter) (log : EvmLog) : Prop :=
  match af with Some (inl a) => log_address log = a | _ => True end ∧
  match tf with Some (t, _) => t ∈ log_topics log | None => True end.
#[global] Instance log_wanted_dec af tf log : Decision (log_wanted af tf log).
Proof. unfold log_wanted. destruct af as [[a|l]|], tf as [[t later]|]; apply _. Defined.

(** The logs of the blocks 0 to the height, each with its receipt and its place there. *)
Definition logs_upto (x : EvmExecutor) : list (EvmReceipt * nat * EvmLog) :=
  rs ← take (S (Z.to_nat (block_height x))) (receipts x); r ← rs; imap (λ i log, (r, i, log)) (logs r).

Lemma log_passes_wanted af tf log :
  log_passes (match af with Some (inl a) => Some a | _ => None end) (fst <$> tf) log = bool_decide (log_wanted af tf log).
Proof.
  unfold log_passes, log_wanted. apply Bool.eq_iff_eq_true. rewrite bool_decide_eq_true, andb_true_iff.
  f_equiv; [destruct af as [[a|l]|]|destruct tf as [[t later]|]]; simpl; rewrite ?Z.eqb_eq, ?bool_decide_eq_true; done.
Qed.

Lemma omap_fmap_filter {A B} (P : A → Prop) `{!∀ x, Decision (P x)} (f : A → B) (l : list A) :
  omap (λ x, if bool_decide (P x) then Some (f x) else None) l = f <$> filter P l.
Proof.
  induction l as [|x l IH]; [done|]. rewrite filter_cons. simpl.
  destruct (decide (P x)); [rewrite bool_decide_true by done|rewrite bool_decide_false by done]; [exact (f_equal (cons (f x)) IH)|exact IH].
Qed.

Lemma bind_fmap_filter {A B C} (P : B → Prop) `{!∀ x, Decision (P x)} (f : B → C) (g : A → list B) (h : A → list C) (l : list A) :
  (∀ x, h x = f <$> filter P (g x)) → l ≫= h = f <$> filter P (l ≫= g).
Proof. intros E. induction l as [|x l IH]; [done|]. by rewrite !bind_cons, E, IH, filter_app, fmap_app. Qed.

Lemma receipt_logs_filter af tf r :
  receipt_logs (match af with Some (inl a) => Some a | _ => None end) (fst <$> tf) r =
  (λ '(r, i, log), log_json r i log) <$> filter (λ '(_, _, log), log_wanted af tf log) (imap (λ i log, (r, i, log)) (logs r)).
Proof.
  unfold receipt_logs. rewrite <- (omap_fmap_filter (λ '(_, _, log), log_wanted af tf log)).
  replace (imap (λ i log, (r, i, log)) (logs r)) with ((λ il, (r, il.1, il.2)) <$> imap pair (logs r))
    by (rewrite fmap_imap; done).
  apply list_omap_ext, Forall2_fmap_r, Forall_Forall2_diag, Forall_true. intros [i log]. simpl.
  by rewrite log_passes_wanted.
Qed.

(** Walking the heights up to [n] visits the first blocks that there are. *)
Lemma heights_take {A} (l : list (list EvmReceipt)) (f : list EvmReceipt → list A) n :
  (h ← seq 0 n; match l !! h with Some rs => f rs | None => [] end) = take n l ≫= f.
Proof.
  revert l. induction n as [|n IH]; intros l; [done|]. simpl. rewrite <- fmap_S_seq, list_fmap_bind.
  destruct l as [|rs l]; simpl.
  - clear IH. by induction (seq 0 n).
  - by rewrite <- IH.
Qed.

Lemma collect_logs_filter x af tf :
  collect_logs x (match af with Some (inl a) => Some a | _ => None end) (fst <$> tf) =
  (λ '(r, i, log), log_json r i log) <$> filter (λ '(_, _, log), log_wanted af tf log) (logs_upto x).
Proof.
  unfold collect_logs, get_receipts, logs_upto. rewrite (heights_take _ (λ rs, r ← rs; receipt_logs _ _ r)).
  apply bind_fmap_filter. intros rs. apply bind_fmap_filter. intros r. apply receipt_logs_filter.
Qed.

Lemma lookup_field_app l1 l2 k : lookup_field (l1 ++ l2) k = match lookup_field l2 k with Some v => Some v | None => lookup_field l1 k end.
Proof.
  induction l1 as [|[k' v] l1 IH]; simpl; [by destruct (lookup_field l2 k)|]. rewrite IH. by destruct (lookup_field l2 k).
Qed.

Lemma lookup_field_absent l k : k ∉ l.*1 → lookup_field l k = None.
Proof.
  induction l as [|[k' v] l IH]; [done|]. rewrite fmap_cons, not_elem_of_cons. intros [Hne Hl]. simpl in *.
  rewrite IH by done. by destruct (String.eqb_spec k' k); [subst|].
Qed.

Lemma log_filters_read af tf other rest :
  (∀ a, af = Some (inl a) → is_address a) → (∀ t later, tf = Some (t, later) → is_u256 t) →
  "address"%string ∉ other.*1 → "topics"%string ∉ other.*1 →
  log_filters (JArray (JObject (filter_fields af tf ++ other) :: rest)) =
    (match af with Some (inl a) => Some a | _ => None end, fst <$> tf).
Proof.
  intros Ha Ht Ho1 Ho2. unfold log_filters. cbn [as_array mbind option_bind head field].
  rewrite !lookup_field_app, !(lookup_field_absent other) by done. unfold filter_fields.
  f_equal; destruct af as [[a|l]|], tf as [[t later]|]; simpl; rewrite ?parse_address_str_encode, ?parse_b256_str_encode; eauto.
Qed.

(** C37. [eth_getLogs] answers with exactly the matching logs, in the order of
    blocks, transactions and logs and each once: the JSON of the logs of all
    receipts of the blocks up to the current height, filtered by the address when
    the filter object gives one as a string, and by the first of its topics,
    which a log may have at any position.  A list of addresses, the topics after
    the first and all other fields of the filter object restrict nothing; and the
    request changes nothing. *)
Theorem get_logs_exact s version id af tf other rest :
  (∀ a, af = Some (inl a) → is_address a) → (∀ t later, tf = Some (t, later) → is_u256 t) →
  "address"%string ∉ other.*1 → "topics"%string ∉ other.*1 →
  dispatch s (mkRequest version "eth_getLogs" (JArray (JObject (filter_fields af tf ++ other) :: rest)) id) =
    (s, rpc_ok id (JArray ((λ '(r, i, log), log_json r i log) <$>
                             filter (λ '(_, _, log), log_wanted af tf log) (logs_upto (executor s))))).
Proof.
  intros Ha Ht Ho1 Ho2. change (dispatch s _) with (s, rpc_get_logs s (mkRequest version "eth_getLogs"
    (JArray (JObject (filter_fields af tf ++ other) :: rest)) id)).
  unfold rpc_get_logs. cbn [params req_id]. rewrite log_filters_read by done. by rewrite collect_logs_filter.
Qed.

(** ** Blocks *)

(** [eth_getBlockByNumber] looks up the receipts of the current height at the
    0-based index equal to the height: with one list of receipts per block it
    never finds them, and lists no transaction. *)
Theorem block_by_number_lists_nothing s req :
  is_u64 (block_height (executor s)) → Z.of_nat (length (receipts (executor s))) ≤ block_height (executor s) →
  ∃ v, rpc_result (rpc_get_block_by_number s req) = Some v ∧ field v "transactions" = JArray [].
Proof.
  intros Hh Hle. pose proof (query_block_number_eq (executor s) Hh) as Eh.
  assert (get_receipts (executor s) (Z.to_nat (query_block_number (executor s))) = None) as En.
  { rewrite Eh. apply lookup_ge_None. lia. }
  unfold rpc_get_block_by_number. rewrite En. eexists. done.
Qed.
End RpcProps.

(** ** Witnesses *)

Section Concrete.
#[local] Existing Instance toy_codec.
#[local] Existing Instance senders_order.
#[local] Existing Instance accounts_order.
#[local] Existing Instance slots_order.

(** [U256] conversions by the 64-bit routines of the standard library, at width
    256. *)
#[local] Instance std_u256 : U256Hex := {|
  u256_from_str_radix_16 str := map_err (λ _, "invalid digit"%string) (from_str_radix_16 256 str);
  u256_lower_hex := format_x |}.

Lemma std_u256_ok : U256HexOk.
Proof.
  split; cbn [u256_from_str_radix_16 u256_lower_hex std_u256].
  - intros v Hv. by rewrite format_x_parse by (lia || done).
  - intros str v. destruct (from_str_radix_16 256 str) as [x|] eqn:E; simpl; [|done]. intros [= <-].
    eapply from_str_radix_16_range; [|done]. lia.
Qed.
#[local] Existing Instance std_u256_ok.

Definition demo_rpc : EvmRpcState := mkRpcState (Executor.from_genesis demo_genesis) 7 (Some []).

Lemma account_queries_witness :
  ∃ v, dispatch demo_rpc (mkRequest None "eth_getBalance" (JArray [address_json 1]) JNull) = (demo_rpc, rpc_ok JNull v) ∧
    parse_u256 v = Ok 100.
Proof.
  exact (proj1 (account_queries demo_rpc JNull 1 [] ltac:(ulia)
    ltac:(apply (bool_decide_unpack _); by vm_compute) ltac:(apply (bool_decide_unpack _); by vm_compute))).
Defined.

(** Two blocks, in all three logs: two of the contract 3, one of these with the topic 9. *)
Definition logs_receipt (i : Z) (ls : list EvmLog) : EvmReceipt := mkReceipt i i 0 1 1 (Some 3) 21000 21000 None ls [] 1 0.
Definition log_a : EvmLog := mkLog 3 [8; 9] [].
Definition log_b : EvmLog := mkLog 4 [9] [].
Definition log_c : EvmLog := mkLog 3 [8] [].
Definition logs_rpc : EvmRpcState := mkRpcState
  {| state := state (executor demo_rpc); txpool := txpool (executor demo_rpc);
     receipts := [[logs_receipt 0 [log_b]]; [logs_receipt 1 []; logs_receipt 2 [log_c; log_a]]];
     block_height := 2; exec_staking := exec_staking (executor demo_rpc) |} 7 None.

Lemma get_logs_exact_witness :
  rpc_result (dispatch logs_rpc (mkRequest None "eth_getLogs"
    (JArray [JObject (filter_fields (Some (inl 3)) (Some (9, [])) ++ [("fromBlock"%string, JString "0x1")])]) JNull)).2 =
  Some (JArray [log_json (logs_receipt 2 [log_c; log_a]) 1 log_a]).
Proof.
  rewrite (get_logs_exact logs_rpc None JNull (Some (inl 3)) (Some (9, [])) [("fromBlock"%string, JString "0x1")] []).
  - reflexivity.
  - intros a [= <-]. ulia.
  - intros t later [= <- _]. ulia.
  - by apply (bool_decide_unpack _).
  - by apply (bool_decide_unpack _).
Defined.

(** After one block with two transactions the block query lists none. *)
Theorem block_query_misses_transactions :
  let x := Executor.on_commit (execute_block (Executor.from_genesis demo_genesis) demo_txs1 block1).1 block1 in
  length (concat (receipts x)) = 2%nat ∧
  ∃ v, rpc_result (rpc_get_block_by_number (mkRpcState x 7 None) (mkRequest None "eth_getBlockByNumber" JNull JNull)) = Some v ∧
    field v "transactions" = JArray [].
Proof. split; [by vm_compute|]. eexists. split; [done|]. by vm_compute. Qed.
End Concrete.
