(* ===== verification/Host.v ===== *)
(** What the node binary takes from its host: paths, the file system, ruc's
    error chains, and the JSON text of an [EvmGenesis].

    Paths are Unix paths.  The file system and serde_json are parameters, the
    classes [Os] and [GenesisJson]; their laws are [OsOk] and
    [GenesisJsonOk]. *)
From S2P Require Import Prelude Types.
From Stdlib Require Import Ascii.

(** ** ruc errors

    A [ruc] error is a chain of messages, the newest first. *)

Notation RucError := (list string).

(** [r.c(d!(msg))] *)
Definition err_ctx {A} (msg : string) (r : result RucError A) : result RucError A := map_err (cons msg) r.
(** [r.map_err(|e| ruc::eg!(e))] *)
Definition eg {A} (r : result string A) : result RucError A := map_err (λ e, [e]) r.

(** ** Paths *)

Fixpoint ends_with_slash (p : string) : bool :=
  match p with
  | "" => false
  | String ch "" => Ascii.eqb ch "/"%char
  | String _ p' => ends_with_slash p'
  end%string.

(** [Path::join] of a relative path *)
Definition path_join (base rel : string) : string :=
  if (base =? "")%string then rel
  else if ends_with_slash base then base +:+ rel
  else base +:+ "/" +:+ rel.

(** ** The file system *)

Class Os : Type := {
  Fs : Type;
  fs_exists : Fs → string → bool;                              (* Path::exists *)
  fs_read : Fs → string → result string string;                (* fs::read_to_string *)
  fs_write : Fs → string → string → Fs * result string unit;   (* fs::write *)
  fs_create_dir_all : Fs → string → Fs * result string unit;   (* fs::create_dir_all *)
}.

(** A successful write is read back and disturbs no other file; a path that can
    be read exists. *)
Class OsOk `{Os} : Prop := {
  fs_read_write fs p s fs' : fs_write fs p s = (fs', Ok tt) → fs_read fs' p = Ok s;
  fs_read_write_ne fs p s fs' q : fs_write fs p s = (fs', Ok tt) → q ≠ p → fs_read fs' q = fs_read fs q;
  fs_read_exists fs p s : fs_read fs p = Ok s → fs_exists fs p = true;
}.

(** ** serde_json on [EvmGenesis] *)

Class GenesisJson : Type := {
  genesis_to_string_pretty : EvmGenesis → result string string;
  genesis_from_str : string → result string EvmGenesis;
}.

(** The derived serializers never fail on a genesis document, and parse back
    what they print. *)
Class GenesisJsonOk `{GenesisJson} : Prop := {
  genesis_prints g : ∃ s, genesis_to_string_pretty g = Ok s;
  genesis_parses g s : genesis_doc_wf g → genesis_to_string_pretty g = Ok s → genesis_from_str s = Ok g;
}.

(** [EvmGenesis::load] *)
Definition load `{Os} `{GenesisJson} (fs : Fs) (path : string) : result RucError EvmGenesis :=
  data ← eg (fs_read fs path);
  eg (genesis_from_str data).

Lemma load_written `{OsOk} `{GenesisJsonOk} fs p g s fs' :
  genesis_doc_wf g → genesis_to_string_pretty g = Ok s → fs_write fs p s = (fs', Ok tt) → load fs' p = Ok g.
Proof.
  intros Hg Hs Hw. unfold load. rewrite (fs_read_write _ _ _ _ Hw). simpl. by rewrite (genesis_parses _ _ Hg Hs).
Qed.
