(* ===== verification/GenesisDoc.v ===== *)
(** crates/types/src/genesis.rs: the genesis document as JSON, through the
    serializers derived for [EvmGenesis] and [GenesisAlloc] with their field
    attributes.

    JSON text is serde_json's (class [JsonText]), the text of addresses, 256-bit
    integers and numbers alloy's and serde_json's (class [Scalars]).  [None] is a
    document that is refused, by an error or by the panic of [hex_bytes]. *)
From S2P Require Import Prelude Hex Types Rpc Host.
From Stdlib Require Import Ascii.

Class Scalars : Type := {
  u256_text : U256 → string;
  u256_of_value : Value → option U256;
  u256_of_key : string → option U256;
  address_text : Address → string;
  address_of_text : string → option Address;
  u64_of_number : string → option Z;
}.
Class ScalarsOk `{Scalars} : Prop := {
  u256_value_roundtrip v : is_u256 v → u256_of_value (JString (u256_text v)) = Some v;
  u256_key_roundtrip v : is_u256 v → u256_of_key (u256_text v) = Some v;
  address_roundtrip a : is_address a → address_of_text (address_text a) = Some a;
  u64_roundtrip n : is_u64 n → u64_of_number (pretty n) = Some n;
}.

(** [serde_json::to_string_pretty] and [serde_json::from_str] *)
Class JsonText : Type := {
  to_string_pretty : Value → string;
  from_str : string → result string Value;
}.
Class JsonTextOk `{JsonText} : Prop := from_str_pretty v : from_str (to_string_pretty v) = Ok v.

(** ** Derived deserializers *)

(** The fields [names] of a struct, from an object or, in order, from an array
    that may end early. *)
Definition struct_fields (names : list string) (v : Value) : option (list (option Value)) :=
  match v with
  | JObject fields => mapM (struct_field fields) names
  | JArray l =>
    if decide (length l ≤ length names)%nat
    then Some ((Some <$> l) ++ replicate (length names - length l) None) else None
  | _ => None
  end.

(** [#[serde(default = ...)]] *)
Definition with_default {A} (d : A) (parse : Value → option A) (v : option Value) : option A :=
  match v with Some v => parse v | None => Some d end.

(** A [BTreeMap] from an object: the last entry of a key stays. *)
Definition map_entry {V} (key : string → option Z) (val : Value → option V) (m : gmap Z V) (kv : string * Value) : option (gmap Z V) :=
  k ← key kv.1; v ← val kv.2; Some (<[k := v]> m).
Definition map_of_value {V} (key : string → option Z) (val : Value → option V) (v : Value) : option (gmap Z V) :=
  match v with
  | JObject fields => fold_left (λ acc kv, m ← acc; map_entry key val m kv) fields (Some ∅)
  | _ => None
  end.

Section GenesisDoc.
Context `{Scalars}.

Definition u64_of_value (v : Value) : option Z := match v with JNumber text => u64_of_number text | _ => None end.
Definition address_of_value (v : Value) : option Address := s ← as_str v; address_of_text s.
(** [#[serde(with = "hex_bytes")]] *)
Definition code_of_value (v : Value) : option (list byte) := s ← as_str v; r ← hex_bytes.deserialize s; ok r.

Definition alloc_of_value (v : Value) : option GenesisAlloc :=
  fields ← struct_fields ["balance"; "nonce"; "code"; "storage"]%string v;
  match fields with
  | [balance; nonce; code; storage] =>
    balance ← (v ← balance; u256_of_value v);
    nonce ← with_default 0 u64_of_value nonce;
    code ← with_default [] code_of_value code;
    storage ← with_default ∅ (map_of_value u256_of_key u256_of_value) storage;
    Some (mkAlloc balance nonce code storage)
  | _ => None
  end.

Definition genesis_of_value (v : Value) : option EvmGenesis :=
  fields ← struct_fields ["chain_id"; "alloc"; "gas_limit"; "base_fee_per_gas"; "coinbase"; "timestamp"]%string v;
  match fields with
  | [chain_id; alloc; gas_limit; base_fee_per_gas; coinbase; timestamp] =>
    chain_id ← (v ← chain_id; u64_of_value v);
    alloc ← (v ← alloc; map_of_value address_of_text alloc_of_value v);
    gas_limit ← with_default default_gas_limit u64_of_value gas_limit;
    base_fee_per_gas ← with_default default_base_fee u64_of_value base_fee_per_gas;
    coinbase ← with_default 0 address_of_value coinbase;
    timestamp ← with_default 0 u64_of_value timestamp;
    Some (mkGenesis chain_id alloc gas_limit base_fee_per_gas coinbase timestamp)
  | _ => None
  end.

(** ** Derived serializers *)

Definition alloc_value (a : GenesisAlloc) : Value := JObject [
  ("balance", JString (u256_text (alloc_balance a)));
  ("nonce", JNumber (pretty (alloc_nonce a)));
  ("code", JString (hex_bytes.serialize (alloc_code a)));
  ("storage", JObject ((λ kv, (u256_text kv.1, JString (u256_text kv.2))) <$> btree_iter (alloc_storage a)))]%string.

Definition genesis_value (g : EvmGenesis) : Value := JObject [
  ("chain_id", JNumber (pretty (genesis_chain_id g)));
  ("alloc", JObject ((λ kv, (address_text kv.1, alloc_value kv.2)) <$> btree_iter (genesis_alloc g)));
  ("gas_limit", JNumber (pretty (genesis_gas_limit g)));
  ("base_fee_per_gas", JNumber (pretty (genesis_base_fee_per_gas g)));
  ("coinbase", JString (address_text (genesis_coinbase g)));
  ("timestamp", JNumber (pretty (genesis_timestamp g)))]%string.

(** ** Round trips *)

Context `{!ScalarsOk}.

Lemma fold_insert_union {V} (l : list (Z * V)) (m : gmap Z V) :
  NoDup l.*1 → fold_left (λ m kv, <[kv.1 := kv.2]> m) l m = list_to_map l ∪ m.
Proof.
  revert m. induction l as [|[k v] l IH]; intros m Hnd; simpl; [by rewrite map_empty_union|].
  apply NoDup_cons in Hnd as [Hk Hnd]. rewrite IH by done.
  rewrite <- insert_union_r by by apply not_elem_of_list_to_map_1. by rewrite insert_union_l.
Qed.

(** An object printed entry by entry reads back as the map. *)
Lemma map_of_printed {V} key val (ktext : Z → string) (vtext : V → Value) (m : gmap Z V) :
  map_Forall (λ k v, key (ktext k) = Some k ∧ val (vtext v) = Some v) m →
  map_of_value key val (JObject ((λ kv, (ktext kv.1, vtext kv.2)) <$> btree_iter m)) = Some m.
Proof.
  intros Hm. unfold map_of_value.
  assert (∀ l m0, Forall (λ kv, key (ktext kv.1) = Some kv.1 ∧ val (vtext kv.2) = Some kv.2) l →
    fold_left (λ acc kv, m ← acc; map_entry key val m kv) ((λ kv : Z * V, (ktext kv.1, vtext kv.2)) <$> l) (Some m0) =
      Some (fold_left (λ m kv, <[kv.1 := kv.2]> m) l m0)) as Hfold.
  { induction l as [|kv l IH]; intros m0 Hl; [done|]. apply Forall_cons in Hl as [[Hk Hv] Hl].
    cbn [fmap list_fmap fold_left mbind option_bind]. unfold map_entry at 2. cbn [fst snd]. rewrite Hk, Hv. by apply IH. }
  rewrite Hfold.
  - rewrite fold_insert_union, map_union_empty by apply btree_iter_NoDup. f_equal.
    rewrite <- (list_to_map_to_list m) at 2. apply list_to_map_proper; [apply btree_iter_NoDup|apply btree_iter_perm].
  - apply Forall_forall. intros [k v] Hin%elem_of_btree_iter. by apply Hm.
Qed.

Lemma alloc_roundtrip a : alloc_wf a → alloc_of_value (alloc_value a) = Some a.
Proof.
  intros (Hb & Hn & Hs). unfold alloc_of_value, alloc_value.
  match goal with |- context [struct_fields _ (JObject [(_, ?b); (_, ?n); (_, ?c); (_, ?s)])] =>
    change (struct_fields _ _) with (Some [Some b; Some n; Some c; Some s]) end.
  cbn [mbind option_bind with_default u64_of_value]. rewrite u256_value_roundtrip, u64_roundtrip by done.
  unfold code_of_value. cbn [mbind option_bind as_str]. rewrite hex_bytes_roundtrip. cbn [mbind option_bind ok].
  rewrite (map_of_printed _ _ _ (λ v, JString (u256_text v))); [by destruct a|].
  intros k v [Hk Hv]%Hs. split; [by apply u256_key_roundtrip|by apply u256_value_roundtrip].
Qed.

Lemma genesis_roundtrip g : genesis_doc_wf g → genesis_of_value (genesis_value g) = Some g.
Proof.
  intros (Hwf & Hc & Hg & Hb & Ha & Ht). unfold genesis_of_value, genesis_value.
  match goal with |- context [struct_fields _ (JObject [(_, ?c); (_, ?al); (_, ?gl); (_, ?bf); (_, ?cb); (_, ?ts)])] =>
    change (struct_fields _ _) with (Some [Some c; Some al; Some gl; Some bf; Some cb; Some ts]) end.
  cbn [mbind option_bind with_default u64_of_value]. rewrite !u64_roundtrip by done.
  rewrite (map_of_printed _ _ address_text).
  - unfold address_of_value. cbn [mbind option_bind as_str]. rewrite address_roundtrip by done. cbn [mbind option_bind]. by destruct g.
  - intros k a [Hk Hal]%Hwf. split; [by apply address_roundtrip|by apply alloc_roundtrip].
Qed.

(** A document with only the required fields. *)
Lemma partial_fields c al :
  struct_fields ["chain_id"; "alloc"; "gas_limit"; "base_fee_per_gas"; "coinbase"; "timestamp"]%string
    (JObject [("chain_id", c); ("alloc", al)]%string) = Some [Some c; Some al; None; None; None; None].
Proof. done. Qed.

(** *** What a document says

    A field is given when it occurs once, with a value that can be read; an
    optional field may also be absent. *)

Definition has_field (fields : list (string * Value)) (name : string) (v : Value) : Prop :=
  ∃ l1 l2, fields = l1 ++ (name, v) :: l2 ∧ name ∉ l1.*1 ∧ name ∉ l2.*1.
Definition given {A} (fields : list (string * Value)) (name : string) (read : Value → option A) (x : A) : Prop :=
  ∃ v, has_field fields name v ∧ read v = Some x.
Definition given_or {A} (d : A) (fields : list (string * Value)) (name : string) (read : Value → option A) (x : A) : Prop :=
  given fields name read x ∨ (name ∉ fields.*1 ∧ x = d).

Lemma filter_absent (fields : list (string * Value)) (name : string) : filter (λ kv, kv.1 = name) fields = [] ↔ name ∉ fields.*1.
Proof.
  induction fields as [|[k v] fields IH]; [by split; [intros _; apply not_elem_of_nil|]|].
  rewrite filter_cons, fmap_cons, not_elem_of_cons, <- IH. case_decide as Hd; simpl in *; naive_solver.
Qed.

Lemma struct_field_absent fields name : struct_field fields name = Some None ↔ name ∉ fields.*1.
Proof.
  rewrite <- filter_absent. unfold struct_field. by destruct (filter _ fields) as [|? []].
Qed.

Lemma struct_field_once fields name v : struct_field fields name = Some (Some v) ↔ has_field fields name v.
Proof.
  trans (filter (λ kv, kv.1 = name) fields = [(name, v)]).
  - unfold struct_field. destruct (filter _ fields) as [|[k w] [|]] eqn:E; try (split; congruence).
    assert (k = name) as -> by (assert ((k, w) ∈ filter (λ kv : string * Value, kv.1 = name) fields) as Hin by (rewrite E; by constructor);
      by apply list_elem_of_filter in Hin as [? _]).
    simpl. split; congruence.
  - split.
    + induction fields as [|[k w] fields IH]; [done|]. rewrite filter_cons. case_decide as Hd; simpl in Hd.
      * intros [= -> -> E]. exists [], fields. split_and!; [done|apply not_elem_of_nil|by apply filter_absent].
      * intros (l1 & l2 & -> & H1 & H2)%IH. exists ((k, w) :: l1), l2. split_and!; [done| |done].
        rewrite fmap_cons, not_elem_of_cons. split; [simpl; congruence|done].
    + intros (l1 & l2 & -> & H1 & H2). rewrite filter_app, filter_cons, decide_True by done.
      apply filter_absent in H1 as ->. by apply filter_absent in H2 as ->.
Qed.

Lemma given_field {A} fields name (read : Value → option A) x :
  given fields name read x ↔ ∃ o, struct_field fields name = Some o ∧ o ≫= read = Some x.
Proof.
  unfold given. setoid_rewrite <- struct_field_once. split; [by intros (v & ? & ?); exists (Some v)|].
  intros ([v|] & ? & ?); [by exists v|done].
Qed.

Lemma given_or_field {A} (d : A) fields name (read : Value → option A) x :
  given_or d fields name read x ↔ ∃ o, struct_field fields name = Some o ∧ with_default d read o = Some x.
Proof.
  unfold given_or. rewrite given_field. split.
  - intros [([v|] & ? & ?)|[?%struct_field_absent ->]]; [by exists (Some v)|done|by exists None].
  - intros ([v|] & ? & Hx); [left; by exists (Some v)|]. right. injection Hx as <-. split; [by apply struct_field_absent|done].
Qed.

(** Opens the binds and the fields of a reader that succeeded. *)
Ltac open_reader H :=
  repeat match type of H with
  | _ ≫= _ = Some _ => let x := fresh "x" in let Hx := fresh "Hx" in apply bind_Some in H as (x & Hx & H)
  end.

Lemma genesis_fields fields g :
  genesis_of_value (JObject fields) = Some g ↔
  given fields "chain_id" u64_of_value (genesis_chain_id g) ∧
  given fields "alloc" (map_of_value address_of_text alloc_of_value) (genesis_alloc g) ∧
  given_or 30000000 fields "gas_limit" u64_of_value (genesis_gas_limit g) ∧
  given_or 1000000000 fields "base_fee_per_gas" u64_of_value (genesis_base_fee_per_gas g) ∧
  given_or 0 fields "coinbase" address_of_value (genesis_coinbase g) ∧
  given_or 0 fields "timestamp" u64_of_value (genesis_timestamp g).
Proof.
  rewrite !given_field, !given_or_field. unfold genesis_of_value. cbn [struct_fields]. split.
  - intros (fs & Hm & Hr)%bind_Some. apply mapM_Some in Hm.
    repeat match goal with Hm : Forall2 _ _ (_ :: _) |- _ => inversion Hm; clear Hm; subst | Hm : Forall2 _ (_ :: _) _ |- _ => inversion Hm; clear Hm; subst
                         | Hm : Forall2 _ [] _ |- _ => inversion Hm; clear Hm; subst end.
    open_reader Hr. injection Hr as <-. cbn [genesis_chain_id genesis_alloc genesis_gas_limit genesis_base_fee_per_gas genesis_coinbase genesis_timestamp].
    split_and!; eauto.
  - intros ((o1 & E1 & R1) & (o2 & E2 & R2) & (o3 & E3 & R3) & (o4 & E4 & R4) & (o5 & E5 & R5) & (o6 & E6 & R6)).
    assert (mapM (struct_field fields) ["chain_id"; "alloc"; "gas_limit"; "base_fee_per_gas"; "coinbase"; "timestamp"]%string
      = Some [o1; o2; o3; o4; o5; o6]) as -> by (apply mapM_Some; repeat constructor; done).
    destruct o1 as [v1|], o2 as [v2|]; try done. cbn [mbind option_bind] in *.
    unfold default_gas_limit, default_base_fee. rewrite R1. cbn [option_bind]. rewrite R2. cbn [option_bind]. rewrite R3. cbn [option_bind].
    rewrite R4. cbn [option_bind]. rewrite R5. cbn [option_bind]. rewrite R6. cbn [option_bind]. by destruct g.
Qed.

Lemma alloc_fields fields a :
  alloc_of_value (JObject fields) = Some a ↔
  given fields "balance" u256_of_value (alloc_balance a) ∧
  given_or 0 fields "nonce" u64_of_value (alloc_nonce a) ∧
  given_or [] fields "code" code_of_value (alloc_code a) ∧
  given_or ∅ fields "storage" (map_of_value u256_of_key u256_of_value) (alloc_storage a).
Proof.
  rewrite given_field, !given_or_field. unfold alloc_of_value. cbn [struct_fields]. split.
  - intros (fs & Hm & Hr)%bind_Some. apply mapM_Some in Hm.
    repeat match goal with Hm : Forall2 _ (_ :: _) _ |- _ => inversion Hm; clear Hm; subst | Hm : Forall2 _ [] _ |- _ => inversion Hm; clear Hm; subst end.
    open_reader Hr. injection Hr as <-. cbn [alloc_balance alloc_nonce alloc_code alloc_storage]. split_and!; eauto.
  - intros ((o1 & E1 & R1) & (o2 & E2 & R2) & (o3 & E3 & R3) & (o4 & E4 & R4)).
    assert (mapM (struct_field fields) ["balance"; "nonce"; "code"; "storage"]%string
      = Some [o1; o2; o3; o4]) as -> by (apply mapM_Some; repeat constructor; done).
    destruct o1 as [v1|]; [|done]. cbn [mbind option_bind] in *.
    rewrite R1. cbn [option_bind]. rewrite R2. cbn [option_bind]. rewrite R3. cbn [option_bind]. rewrite R4. cbn [option_bind]. by destruct a.
Qed.

(** C27. The genesis document: every document the node can hold is read back from
    its JSON exactly, and an object is read as a genesis exactly when chain id
    and allocations occur once each and can be read, and each of gas limit, base
    fee, coinbase and timestamp either occurs once and can be read or is absent,
    with defaults 30000000, 1000000000, 0 and 0; so with each account of the
    allocations, whose balance is required and whose nonce, code and storage
    default to 0 and nothing.  A known field that occurs twice refuses the
    document, unknown fields are ignored. *)
Theorem genesis_document :
  (∀ g, genesis_doc_wf g → genesis_of_value (genesis_value g) = Some g) ∧
  (∀ fields g, genesis_of_value (JObject fields) = Some g ↔
     given fields "chain_id" u64_of_value (genesis_chain_id g) ∧
     given fields "alloc" (map_of_value address_of_text alloc_of_value) (genesis_alloc g) ∧
     given_or 30000000 fields "gas_limit" u64_of_value (genesis_gas_limit g) ∧
     given_or 1000000000 fields "base_fee_per_gas" u64_of_value (genesis_base_fee_per_gas g) ∧
     given_or 0 fields "coinbase" address_of_value (genesis_coinbase g) ∧
     given_or 0 fields "timestamp" u64_of_value (genesis_timestamp g)) ∧
  (∀ fields a, alloc_of_value (JObject fields) = Some a ↔
     given fields "balance" u256_of_value (alloc_balance a) ∧
     given_or 0 fields "nonce" u64_of_value (alloc_nonce a) ∧
     given_or [] fields "code" code_of_value (alloc_code a) ∧
     given_or ∅ fields "storage" (map_of_value u256_of_key u256_of_value) (alloc_storage a)).
Proof. split_and!; [apply genesis_roundtrip|apply genesis_fields|apply alloc_fields]. Qed.

(** ** The interface the node uses *)

Context `{JsonTextOk}.

Definition genesis_json : GenesisJson := {|
  genesis_to_string_pretty g := Ok (to_string_pretty (genesis_value g));
  genesis_from_str s := v ← from_str s; ok_or (genesis_of_value v) "invalid genesis document"%string |}.

(** What the node and the cluster launcher rely on holds of the derived
    serializers. *)
Lemma genesis_json_ok : @GenesisJsonOk genesis_json.
Proof.
  split; [by eexists|]. intros g s Hg [= <-]. cbn [genesis_from_str genesis_json].
  rewrite from_str_pretty. cbn [mbind result_bind]. by rewrite genesis_roundtrip.
Qed.
End GenesisDoc.

(** ** The scalars as text

    Quantities and addresses in hexadecimal, numbers in decimal. *)

Fixpoint dec_digits (acc : Z) (s : string) : option Z :=
  match s with
  | EmptyString => Some acc
  | String c s' =>
    if (48 <=? char_code c) && (char_code c <=? 57) then dec_digits (10 * acc + (char_code c - 48)) s' else None
  end.
Definition dec_u64 (s : string) : option Z :=
  n ← (if (s =? "")%string then None else dec_digits 0 s); if n <=? max_u 64 then Some n else None.

Lemma dec_digits_pretty x s : dec_digits 0 (pretty_N_go x s) = dec_digits (Z.of_N x) s.
Proof.
  revert s. induction (N.lt_wf_0 x) as [x _ IH]. intros s. destruct (decide (x = 0)%N) as [->|Hx]; [by rewrite pretty_N_go_0|].
  rewrite pretty_N_go_step by lia. rewrite IH by (apply N.div_lt; lia).
  pose proof (N.mod_lt x 10 ltac:(done)) as Hm. pose proof (N.div_mod x 10 ltac:(done)) as Hd.
  generalize dependent (x `mod` 10)%N. intros m Hm Hd. cbn [dec_digits].
  assert (char_code (pretty_N_char m) = 48 + Z.of_N m) as ->.
  { destruct m as [|p]; [done|]. do 4 (try destruct p as [p|p|]); try done; lia. }
  destruct (Z.leb_spec 48 (48 + Z.of_N m)); [|lia]. destruct (Z.leb_spec (48 + Z.of_N m) 57); [|lia].
  cbn [andb]. f_equal. lia.
Qed.

Lemma dec_u64_pretty n : is_u64 n → dec_u64 (pretty n) = Some n.
Proof.
  intros Hn. unfold dec_u64. destruct n as [|p|p]; [done| |ulia].
  change (pretty (Z.pos p)) with (pretty_N_go (N.pos p) ""%string).
  destruct (String.eqb_spec (pretty_N_go (N.pos p) "") "") as [E|_].
  { pose proof (dec_digits_pretty (N.pos p) "") as Hd. rewrite E in Hd. done. }
  rewrite dec_digits_pretty. cbn [dec_digits mbind option_bind Z.of_N]. by destruct (Z.leb_spec (Z.pos p) (max_u 64)); [|ulia].
Qed.

Definition hex_quantity (s : string) : option U256 := ok (from_str_radix_16 256 (strip_0x s)).

Definition std_scalars : Scalars := {|
  u256_text v := "0x" +:+ format_x v;
  u256_of_value v := match v with JString s => hex_quantity s | JNumber text => dec_u64 text | _ => None end;
  u256_of_key := hex_quantity;
  address_text a := hex_bytes.serialize (address_as_slice a);
  address_of_text s :=
    bs ← (r ← hex_bytes.deserialize s; ok r);
    if decide (length bs = 20%nat) then Some (address_from_slice bs) else None;
  u64_of_number := dec_u64 |}.

Lemma std_scalars_ok : @ScalarsOk std_scalars.
Proof.
  split; cbn [u256_text u256_of_value u256_of_key address_text address_of_text u64_of_number std_scalars].
  1,2: intros v Hv; change (ok (from_str_radix_16 256 (format_x v)) = Some v); by rewrite format_x_parse.
  - intros a Ha. rewrite hex_bytes_roundtrip. cbn [mbind option_bind ok]. unfold address_as_slice.
    rewrite decide_True by by rewrite length_to_be_bytes. f_equal. by apply (from_to_be_bytes_id 20 160).
  - apply dec_u64_pretty.
Qed.

(** ** The unit test of the genesis document *)

Definition test_address : string := "0xaaaaaaaaaaaaaaaaaaaaaaaaaaaaaaaaaaaaaaaa".
Definition test_json : Value := JObject [
  ("chain_id", JNumber "1337");
  ("alloc", JObject [(test_address, JObject [("balance", JString "0xde0b6b3a7640000")])])]%string.

(** From the parsed text on. *)
Definition test_genesis_deserialize `{Scalars} : bool :=
  match genesis_of_value test_json with
  | Some genesis =>
    (genesis_chain_id genesis =? 1337) && (Z.of_nat (size (genesis_alloc genesis)) =? 1) &&
    (genesis_gas_limit genesis =? 30000000) && (genesis_base_fee_per_gas genesis =? 1000000000)
  | None => false
  end.

(** It passes with every reader that accepts the test's address and balance. *)
Theorem genesis_test_passes `{ScalarsOk} a b :
  address_of_text test_address = Some a → u256_of_value (JString "0xde0b6b3a7640000") = Some b →
  test_genesis_deserialize = true.
Proof.
  intros Ha Hb. unfold test_genesis_deserialize, test_json, genesis_of_value.
  match goal with |- context [struct_fields _ (JObject [(_, ?c); (_, ?al)])] => rewrite (partial_fields c al) end.
  cbn [mbind option_bind with_default u64_of_value map_of_value fold_left]. unfold map_entry. cbn [fst snd].
  assert (u64_of_number "1337" = Some 1337) as -> by (apply (u64_roundtrip 1337); by vm_compute).
  cbn [mbind option_bind]. rewrite Ha. unfold alloc_of_value.
  change (struct_fields _ _) with (Some [Some (JString "0xde0b6b3a7640000"); None; None; None]).
  cbn [mbind option_bind with_default]. rewrite Hb. cbn [mbind option_bind genesis_chain_id genesis_alloc genesis_gas_limit genesis_base_fee_per_gas].
  rewrite insert_empty, map_size_singleton. done.
Qed.

Section Concrete.
#[local] Existing Instance std_scalars.
#[local] Existing Instance std_scalars_ok.

Definition demo_doc : EvmGenesis :=
  mkGenesis 1337 {[7 := mkAlloc 5 1 [byte_of_Z 0x60; byte_of_Z 0xff] {[3 := 4]}]} 30000000 1000000000 9 1700000000.

Lemma demo_doc_wf : genesis_doc_wf demo_doc.
Proof.
  split; [|split_and!; by vm_compute]. apply map_Forall_singleton. split; [by vm_compute|].
  split_and!; [by vm_compute..|]. apply map_Forall_singleton. split; by vm_compute.
Qed.

Lemma genesis_document_witness : genesis_of_value (genesis_value demo_doc) = Some demo_doc.
Proof. exact (proj1 genesis_document demo_doc demo_doc_wf). Defined.

Example genesis_test_passes_here : test_genesis_deserialize = true.
Proof. by vm_compute. Qed.
End Concrete.
