(* ===== verification/Application.v ===== *)
(** hotmint's [Application] interface and its two implementations in
    crates/execution/src/executor.rs: [EvmExecutor] and [SharedExecutor].

    The framework reaches the executor only through this interface.
    [app_reach] is what a client of it can do; [app_reach_exec] shows that on
    the executor every such use is a run of executor operations, so that the
    invariants of [ExecutorProps] and [ExecutorPool] carry over. *)
From S2P Require Import Prelude Types Tx TxPool State Precompile Executor ExecutorProps.

(** The methods of the trait the executor implements.  A method that may change
    the application returns it. *)
Class Application (Block A : Type) : Type := {
  app_validate_tx : A → list byte → TxValidationResult;
  app_execute_block : A → list (list byte) → BlockContext → A * result string EndBlockResponse;
  app_create_payload : A → BlockContext → A * list byte;
  app_on_commit : A → Block → BlockContext → A * result string unit;
  app_query : A → string → list byte → result string QueryResponse;
}.

(** What any number of calls through the interface can make of an
    application. *)
Inductive app_reach {Block A} `{!Application Block A} (a : A) : A → Prop :=
  | reach_refl : app_reach a a
  | reach_execute b txs ctx : app_reach a b → app_reach a (app_execute_block b txs ctx).1
  | reach_payload b ctx : app_reach a b → app_reach a (app_create_payload b ctx).1
  | reach_commit b block ctx : app_reach a b → app_reach a (app_on_commit b block ctx).1.

Lemma app_reach_trans {Block A} `{!Application Block A} (x y z : A) : app_reach x y → app_reach y z → app_reach x z.
Proof. intros Hxy. induction 1; eauto using app_reach. Qed.

Section Application.
Context `{Evm} `{!TxCodec} `{!HexCrate} {Block : Type}.
Context `{!HashIter Z SenderQueue} `{!HashIter Z DbAccount} `{!HashIter Z Z}.

#[export] Instance evm_application : Application Block EvmExecutor := {|
  app_validate_tx := validate_tx;
  app_execute_block := execute_block;
  app_create_payload x _ := create_payload x;
  app_on_commit x _ ctx := (on_commit x ctx, Ok tt);
  app_query x path data := Ok (query x path data);
|}.

(** [SharedExecutor(Arc<EvmExecutor>)] *)
Record SharedExecutor := mkShared { shared : EvmExecutor }.

Definition shared_validate_tx (a : SharedExecutor) (raw : list byte) : TxValidationResult :=
  validate_tx (shared a) raw.
Definition shared_execute_block (a : SharedExecutor) (txs : list (list byte)) (ctx : BlockContext) :=
  let '(x, r) := execute_block (shared a) txs ctx in (mkShared x, r).
Definition shared_create_payload (a : SharedExecutor) (ctx : BlockContext) :=
  let '(x, bytes) := create_payload (shared a) in (mkShared x, bytes).
Definition shared_on_commit (a : SharedExecutor) (block : Block) (ctx : BlockContext) :=
  (mkShared (on_commit (shared a) ctx), @Ok string unit tt).
Definition shared_query (a : SharedExecutor) (path : string) (data : list byte) : result string QueryResponse :=
  Ok (query (shared a) path data).

#[export] Instance shared_application : Application Block SharedExecutor := {|
  app_validate_tx := shared_validate_tx;
  app_execute_block := shared_execute_block;
  app_create_payload := shared_create_payload;
  app_on_commit := shared_on_commit;
  app_query := shared_query;
|}.

(** ** Uses of the interface are runs of the executor *)

Lemma shared_execute_block_eq a txs ctx : shared (shared_execute_block a txs ctx).1 = (execute_block (shared a) txs ctx).1.
Proof. unfold shared_execute_block. by destruct (execute_block (shared a) txs ctx). Qed.

Lemma shared_create_payload_eq a ctx : shared (shared_create_payload a ctx).1 = (create_payload (shared a)).1.
Proof. unfold shared_create_payload. by destruct (create_payload (shared a)). Qed.

(** Everything done through the shared handle is done to the one executor
    behind it. *)
Lemma shared_reach (a b : SharedExecutor) :
  app_reach (Block := Block) a b → app_reach (Block := Block) (shared a) (shared b).
Proof.
  induction 1 as [|b txs ctx _ IH|b ctx _ IH|b block ctx _ IH].
  - constructor.
  - cbn [app_execute_block shared_application]. rewrite shared_execute_block_eq. exact (reach_execute _ _ txs ctx IH).
  - cbn [app_create_payload shared_application]. rewrite shared_create_payload_eq. exact (reach_payload _ _ ctx IH).
  - exact (reach_commit _ _ block ctx IH).
Qed.

Lemma app_reach_exec (x y : EvmExecutor) :
  app_reach (Block := Block) x y → ∃ ops, Forall exec_op_ok ops ∧ y = fold_left exec_step ops x.
Proof.
  induction 1 as [|b txs ctx _ (ops & Hops & ->)|b ctx _ (ops & Hops & ->)|b block ctx _ (ops & Hops & ->)].
  - by exists [].
  - exists (ops ++ [XBlock _ _ txs ctx]). rewrite fold_left_app, Forall_app. split; [|done]. by repeat constructor.
  - exists (ops ++ [XPayload _]). rewrite fold_left_app, Forall_app. split; [|done]. by repeat constructor.
  - exists (ops ++ [XCommit _ ctx]). rewrite fold_left_app, Forall_app. split; [|done]. by repeat constructor.
Qed.
End Application.
