(* ===== verification/Node.v ===== *)
(** crates/node/src/main.rs: the node binary.

    [main] resolves the home directory and runs a command: [run_init] writes a
    default genesis, [run_node] loads the configuration, identifies the
    validator, restores the consensus state, builds the executor, catches up
    from peers and hands everything to the consensus engine.  The tasks it
    spawns are the handlers [gossip_recv], [handle_sync_request] and
    [Rpc.dispatch]; [node_step] is one event of a running node.

    hotmint (configuration files, consensus engine, network and block store) is
    a parameter: [HotmintTypes] has its types, [Hotmint] the functions the node
    calls.  A run that awaits something takes what it observes (clock readings
    and peer counts) as an argument. *)
From S2P Require Import Prelude Types Hex Tx State Precompile Executor ExecutorProps Application Host Rpc TxPool.

(** ** default_dev_genesis *)

(** [Address::repeat_byte] *)
Definition repeat_byte (b : Z) : Address := address_from_slice (replicate 20 (byte_of_Z b)).

Definition dev_alloc : GenesisAlloc := {|
  alloc_balance := wrapping_mul 256 10000 1000000000000000000;
  alloc_nonce := 0; alloc_code := []; alloc_storage := ∅ |}.

Definition default_dev_genesis : EvmGenesis := {|
  genesis_chain_id := 1337;
  genesis_alloc := <[repeat_byte 0xBB := dev_alloc]> (<[repeat_byte 0xAA := dev_alloc]> ∅);
  genesis_gas_limit := 30000000;
  genesis_base_fee_per_gas := 1000000000;
  genesis_coinbase := 0;
  genesis_timestamp := 0 |}.

(** ** Command line *)

Inductive Command := Init | NodeCmd (rpc_addr p2p_laddr : option string).
Record Cli := mkCli { cli_home : option string; command : Command }.

(** The home directory: [--home], or [.nbnet] under [$HOME] or the current
    directory. *)
Definition home_of (cli : Cli) (env_home : option string) : string :=
  match cli_home cli with
  | Some h => h
  | None => path_join (default "."%string env_home) ".nbnet"
  end.

(** ** hotmint *)

Class HotmintTypes : Type := {
  ValidatorSet : Type;
  QuorumCertificate : Type;
  BlockHash : Type;
  Block : Type;
  BlockStore : Type;
  PeerId : Type;
  PeerBook : Type;
  Multiaddr : Type;
  SocketAddr : Type;
  PexConfig : Type;
  PeerIds : Type;
  KnownAddresses : Type;
  PrivValidatorKey : Type;
  SigningKey : Type;
  NodeKey : Type;
  Keypair : Type;
  SnapshotInfo : Type;
  F64 : Type;
}.

Section Records.
Context `{HotmintTypes}.

(** The fields of the configuration the node reads; [mode_fullnode] is
    [node.mode == NodeMode::Fullnode]. *)
Record NodeConfig := mkNodeConfig {
  laddr : string;
  persistent_peers : list string;
  private_peer_ids : PeerIds;
  pex : PexConfig;
  mode_fullnode : bool;
  serve_rpc : bool;
  serve_sync : bool;
  relay_consensus : bool;
  base_timeout_ms : Z;
  max_timeout_ms : Z;
  backoff_multiplier : F64;
}.

Record GenesisValidator := mkGenesisValidator { gv_id : Z; gv_public_key : string }.
Record GenesisDoc := mkGenesisDoc { doc_chain_id : string; doc_validators : list GenesisValidator }.

Record Epoch := mkEpoch { epoch_number : Z; start_view : Z; epoch_validator_set : ValidatorSet }.

Record ConsensusState := mkConsensusState {
  cs_validator_id : Z;
  cs_validator_set : ValidatorSet;
  current_epoch : Epoch;
  current_view : Z;
  locked_qc : option QuorumCertificate;
  highest_qc : option QuorumCertificate;
  last_committed_height : Z;
  last_app_hash : BlockHash;
  chain_id_hash : BlockHash;
}.

(** What the [load_*] methods of [PersistentConsensusState] return. *)
Record PersistentConsensusState := mkPersistent {
  load_current_view : option Z;
  load_locked_qc : option QuorumCertificate;
  load_highest_qc : option QuorumCertificate;
  load_last_committed_height : option Z;
  load_current_epoch : option Epoch;
}.

Record ConsensusStatus := mkStatus {
  status_view : Z; status_height : Z; status_epoch : Z; status_validators : Z; status_start_view : Z;
}.

Record PeerMap := mkPeerMap { validator_to_peer : list (Z * PeerId) }.

Record NetworkConfig := mkNetworkConfig {
  net_listen_addr : Multiaddr;
  net_peer_map : PeerMap;
  net_known_addresses : KnownAddresses;
  net_keypair : option Keypair;
  net_peer_book : PeerBook;
  net_pex : PexConfig;
  net_relay_consensus : bool;
  net_initial_validator_set : ValidatorSet;
  net_chain_id_hash : BlockHash;
}.

Inductive SyncRequest :=
  | GetStatus
  | GetBlocks (from_height to_height : Z)
  | GetSnapshots
  | GetSnapshotChunk (chunk_height chunk_index : Z).

Inductive SyncResponse :=
  | StatusResponse (committed_height view epoch : Z)
  | Blocks (blocks : list (Block * option QuorumCertificate))
  | Snapshots (infos : list SnapshotInfo)
  | SnapshotChunk (chunk_height chunk_index : Z) (data : list byte).

(** The references a block sync works on. *)
Record SyncState {A : Type} := mkSyncState {
  sync_store : BlockStore;
  sync_app : A;
  sync_epoch : Epoch;
  sync_height : Z;
  sync_app_hash : BlockHash;
  sync_pending_epoch : option Epoch;
  sync_previous_epoch : option Epoch;
}.
Arguments SyncState : clear implicits.
End Records.
Arguments SyncState {_} _.

(** The functions of hotmint, litep2p and the standard library's parsers the
    node calls.  [sync_to_tip] is given the peer its requests are bridged to;
    the responses of earlier peers have been drained. *)
Class Hotmint `{HotmintTypes} `{Os} : Type := {
  init_node_dir : Fs → string → Fs * result RucError unit;
  load_node_config : Fs → string → result RucError NodeConfig;
  load_priv_key : Fs → string → result RucError PrivValidatorKey;
  public_key : PrivValidatorKey → string;
  to_signing_key : PrivValidatorKey → result RucError SigningKey;
  load_node_key : Fs → string → result RucError NodeKey;
  to_litep2p_keypair : NodeKey → result RucError Keypair;
  load_genesis_doc : Fs → string → result RucError GenesisDoc;
  to_validator_set : GenesisDoc → result RucError ValidatorSet;
  validator_ids : ValidatorSet → list Z;
  validator_count : ValidatorSet → Z;
  with_chain_id : Z → ValidatorSet → string → ConsensusState;
  vsdb_configure : string → result RucError unit;
  block_store_new : BlockStore;
  get_blocks_in_range : BlockStore → Z → Z → list Block;
  get_commit_qc : BlockStore → Z → option QuorumCertificate;
  get_block_by_height : BlockStore → Z → option Block;
  blk_height : Block → Z;
  blk_view : Block → Z;
  MAX_SYNC_BATCH : Z;
  parse_persistent_peers : list string → GenesisDoc → result RucError (PeerMap * KnownAddresses);
  known_addresses_none : KnownAddresses;
  parse_multiaddr : string → result RucError Multiaddr;
  parse_socket_addr : string → result RucError SocketAddr;
  peer_book_load : Fs → string → option PeerBook;
  peer_book_new : string → PeerBook;
  with_private_peer_ids : PexConfig → PeerIds → PexConfig;
  network_create : NetworkConfig → result RucError unit;
  list_snapshots : list SnapshotInfo;            (* the trait's default method *)
  load_snapshot_chunk : Z → Z → list byte;       (* the trait's default method *)
  sync_to_tip : ∀ A, Application Block A → BlockHash → PeerId → SyncState A → SyncState A * result string unit;
  open_evidence_store : string → result string unit;
  open_wal : string → result string unit;
}.
Arguments sync_to_tip {_ _ _ A _} _ _ _.

(** How a start ends early: an error, a panic, or not yet. *)
Inductive StartError := Failed (e : RucError) | Panicked (msg : string) | Waiting.
Definition failed {A} (r : result RucError A) : result StartError A := map_err Failed r.

Section Node.
Context `{Evm} `{!TxCodec} `{!HexCrate} `{!U256Hex} `{HotmintTypes} `{!Os} `{!GenesisJson} `{!Hotmint}.
Context `{!HashIter Z SenderQueue} `{!HashIter Z DbAccount} `{!HashIter Z Z}.

(** ** Start-up: configuration *)

Definition evm_genesis_path (home : string) : string := path_join (path_join home "config") "evm-genesis.json".

(** The exit code of a panic. *)
Definition PANIC : Z := 101.

(** [nb init]: the file system and the exit code *)
Definition run_init (fs : Fs) (home : string) : Fs * Z :=
  let '(fs, r) := init_node_dir fs home in
  match r with
  | Err _ => (fs, 1)
  | Ok _ =>
    let path := evm_genesis_path home in
    if fs_exists fs path then (fs, 0)
    else
      match genesis_to_string_pretty default_dev_genesis with
      | Err _ => (fs, PANIC)
      | Ok json =>
        let '(fs, r) := fs_write fs path json in
        (fs, if is_ok r then 0 else PANIC)
      end
  end.

Definition override_laddr (p2p_laddr_override : option string) (nc : NodeConfig) : NodeConfig :=
  match p2p_laddr_override with
  | Some pl => {|
      laddr := pl;
      persistent_peers := persistent_peers nc; private_peer_ids := private_peer_ids nc; pex := pex nc;
      mode_fullnode := mode_fullnode nc; serve_rpc := serve_rpc nc; serve_sync := serve_sync nc;
      relay_consensus := relay_consensus nc; base_timeout_ms := base_timeout_ms nc;
      max_timeout_ms := max_timeout_ms nc; backoff_multiplier := backoff_multiplier nc |}
  | None => nc
  end.

Definition eth_rpc_addr_of (rpc_addr_override : option string) : string :=
  default "127.0.0.1:8545"%string rpc_addr_override.

Definition choose_evm_genesis (fs : Fs) (path : string) : result RucError EvmGenesis :=
  if fs_exists fs path then err_ctx "failed to load evm-genesis.json" (load fs path)
  else Ok default_dev_genesis.

(** [(our_vid, is_fullnode)]; the fullnode sentinel must not be a validator. *)
Definition identify_validator (nc : NodeConfig) (genesis : GenesisDoc) (vs : ValidatorSet) (our_pk_hex : string)
    : result StartError (Z * bool) :=
  match find (λ v, (gv_public_key v =? our_pk_hex)%string) (doc_validators genesis) with
  | Some gv => Ok (gv_id gv, mode_fullnode nc)
  | None =>
    let sentinel := max_u 64 in
    if existsb (Z.eqb sentinel) (validator_ids vs) then
      Err (Panicked "genesis contains a validator with ID u64::MAX which collides with the fullnode sentinel")
    else Ok (sentinel, true)
  end.

Record Loaded := mkLoaded {
  ld_config : NodeConfig;
  ld_signing_key : SigningKey;
  ld_keypair : Keypair;
  ld_eth_rpc_addr : string;
  ld_genesis : GenesisDoc;
  ld_validator_set : ValidatorSet;
  ld_evm_genesis : EvmGenesis;
  ld_our_vid : Z;
  ld_is_fullnode : bool;
}.

Definition load_all (fs : Fs) (home : string) (rpc_addr_override p2p_laddr_override : option string)
    : result StartError Loaded :=
  let config_dir := path_join home "config" in
  node_config ← failed (err_ctx "failed to load config.toml" (load_node_config fs (path_join config_dir "config.toml")));
  priv_key ← failed (err_ctx "failed to load priv_validator_key.json"
    (load_priv_key fs (path_join config_dir "priv_validator_key.json")));
  signing_key ← failed (to_signing_key priv_key);
  node_key ← failed (err_ctx "failed to load node_key.json" (load_node_key fs (path_join config_dir "node_key.json")));
  keypair ← failed (to_litep2p_keypair node_key);
  let node_config := override_laddr p2p_laddr_override node_config in
  genesis ← failed (err_ctx "failed to load genesis.json" (load_genesis_doc fs (path_join config_dir "genesis.json")));
  validator_set ← failed (to_validator_set genesis);
  evm_genesis ← failed (choose_evm_genesis fs (evm_genesis_path home));
  id ← identify_validator node_config genesis validator_set (public_key priv_key);
  Ok {| ld_config := node_config; ld_signing_key := signing_key; ld_keypair := keypair;
        ld_eth_rpc_addr := eth_rpc_addr_of rpc_addr_override; ld_genesis := genesis;
        ld_validator_set := validator_set; ld_evm_genesis := evm_genesis;
        ld_our_vid := id.1; ld_is_fullnode := id.2 |}.

(** ** Start-up: consensus state *)

(** The [engine_state_*] variables that a block sync advances. *)
Record EngineState := mkEngineState {
  engine_state_epoch : Epoch;
  engine_state_height : Z;
  engine_state_app_hash : BlockHash;
  engine_state_pending_epoch : option Epoch;
  engine_state_previous_epoch : option Epoch;
}.

Definition restore_state (pcs : PersistentConsensusState) (s : ConsensusState) : ConsensusState * EngineState :=
  let view := default (current_view s) (load_current_view pcs) in
  let locked := match load_locked_qc pcs with Some qc => Some qc | None => locked_qc s end in
  let highest := match load_highest_qc pcs with Some qc => Some qc | None => highest_qc s end in
  let height := default (last_committed_height s) (load_last_committed_height pcs) in
  let vs := match load_current_epoch pcs with Some e => epoch_validator_set e | None => cs_validator_set s end in
  let epoch := default (current_epoch s) (load_current_epoch pcs) in
  ({| cs_validator_id := cs_validator_id s; cs_validator_set := vs; current_epoch := epoch; current_view := view;
      locked_qc := locked; highest_qc := highest; last_committed_height := height;
      last_app_hash := last_app_hash s; chain_id_hash := chain_id_hash s |},
   {| engine_state_epoch := epoch; engine_state_height := height; engine_state_app_hash := last_app_hash s;
      engine_state_pending_epoch := None; engine_state_previous_epoch := None |}).

(** The value the sync status channel is created with. *)
Definition initial_status (s : ConsensusState) : ConsensusStatus := {|
  status_view := current_view s; status_height := last_committed_height s;
  status_epoch := epoch_number (current_epoch s); status_validators := validator_count (cs_validator_set s);
  status_start_view := start_view (current_epoch s) |}.

Definition choose_peers (nc : NodeConfig) (genesis : GenesisDoc) : result RucError (PeerMap * KnownAddresses) :=
  match persistent_peers nc with
  | [] => Ok (mkPeerMap [], known_addresses_none)
  | peers => parse_persistent_peers peers genesis
  end.

Definition network_config (fs : Fs) (home : string) (ld : Loaded) (s : ConsensusState) (peers : PeerMap * KnownAddresses)
    (listen_addr : Multiaddr) : NetworkConfig :=
  let nc := ld_config ld in
  let peer_book_path := path_join (path_join home "data") "peer_book.json" in {|
    net_listen_addr := listen_addr;
    net_peer_map := peers.1;
    net_known_addresses := peers.2;
    net_keypair := Some (ld_keypair ld);
    net_peer_book := default (peer_book_new peer_book_path) (peer_book_load fs peer_book_path);
    net_pex := with_private_peer_ids (pex nc) (private_peer_ids nc);
    net_relay_consensus := relay_consensus nc;
    net_initial_validator_set := ld_validator_set ld;
    net_chain_id_hash := chain_id_hash s |}.

(** The executor, and the RPC server's state and address when it serves. *)
Definition build_executor (g : EvmGenesis) : EvmExecutor := setup_nonce_fn (from_genesis g).

Definition rpc_of (ld : Loaded) : result RucError (option SocketAddr) :=
  if serve_rpc (ld_config ld) then Some <$> err_ctx "invalid RPC address" (parse_socket_addr (ld_eth_rpc_addr ld))
  else Ok None.

(** ** The gossip task *)

(** One transaction received from a peer: validated through the application,
    then added through the mempool adapter. *)
Definition gossip_recv (x : EvmExecutor) (tx_bytes : list byte) : EvmExecutor :=
  match shared_validate_tx (mkShared x) tx_bytes with
  | AcceptWithGas priority gas_wanted => (add_tx x tx_bytes priority gas_wanted).1
  | Reject => x
  end.

(** ** The sync responder *)

(** The last height a batch answers: u64 arithmetic, which wraps. *)
Definition clamp_to (from_height to_height : Z) : Z :=
  Z.min to_height (wrap 64 (wrap 64 (from_height + MAX_SYNC_BATCH) - 1)).

Definition handle_sync_request (store : BlockStore) (status : ConsensusStatus) (req : SyncRequest) : SyncResponse :=
  match req with
  | GetStatus => StatusResponse (status_height status) (status_view status) (status_epoch status)
  | GetBlocks from_height to_height =>
    let blocks := get_blocks_in_range store from_height (clamp_to from_height to_height) in
    Blocks ((λ b, (b, get_commit_qc store (blk_height b))) <$> blocks)
  | GetSnapshots => Snapshots list_snapshots
  | GetSnapshotChunk h i => SnapshotChunk h i (load_snapshot_chunk h i)
  end.

(** ** Catching up before consensus *)

(** The loop that waits for a first peer, on the (peer count, clock) it sees in
    each round: [Some true] when a peer is connected, [Some false] at the
    deadline, [None] while it still waits. *)
Fixpoint wait_for_peer (deadline : Z) (polls : list (Z * Z)) : option bool :=
  match polls with
  | [] => None
  | (count, now) :: rest =>
    if 0 <? count then Some true
    else if deadline <=? now then Some false
    else wait_for_peer deadline rest
  end.

(** The peers in turn, until one sync succeeds; a failed one leaves what it
    has synced. *)
Fixpoint sync_from_peers {A} `{!Application Block A} (cid : BlockHash) (peers : list (Z * PeerId)) (st : SyncState A)
    : SyncState A * bool :=
  match peers with
  | [] => (st, false)
  | (vid, pid) :: rest =>
    let '(st, r) := sync_to_tip cid pid st in
    match r with
    | Ok _ => (st, true)
    | Err _ => sync_from_peers cid rest st
    end
  end.

(** Whether a block of the tip's view is ahead of the current view. *)
Definition synced_view (store : BlockStore) (height view : Z) : Z :=
  if 0 <? height then
    let tip_view := match get_block_by_height store height with Some b => blk_view b | None => view end in
    if view <? tip_view then wrap 64 (tip_view + 1) else view
  else view.

Definition apply_synced {A} (s : ConsensusState) (st : SyncState A) : ConsensusState := {|
  cs_validator_id := cs_validator_id s;
  cs_validator_set := epoch_validator_set (sync_epoch st);
  current_epoch := sync_epoch st;
  current_view := synced_view (sync_store st) (sync_height st) (current_view s);
  locked_qc := locked_qc s;
  highest_qc := highest_qc s;
  last_committed_height := sync_height st;
  last_app_hash := sync_app_hash st;
  chain_id_hash := chain_id_hash s |}.

Definition sync_state_of (store : BlockStore) (x : EvmExecutor) (es : EngineState) : SyncState SharedExecutor := {|
  sync_store := store; sync_app := mkShared x;
  sync_epoch := engine_state_epoch es; sync_height := engine_state_height es;
  sync_app_hash := engine_state_app_hash es; sync_pending_epoch := engine_state_pending_epoch es;
  sync_previous_epoch := engine_state_previous_epoch es |}.

(** What the start observes: the clock when it begins to wait, the rounds of the
    waiting loop, and the peer count read after it. *)
Record Observed := mkObserved { obs_start : Z; obs_polls : list (Z * Z); obs_count : Z }.

(** 15 seconds, in milliseconds *)
Definition PEER_TIMEOUT : Z := 15000.

Definition catch_up (obs : Observed) (nc : NodeConfig) (peers : PeerMap) (s : ConsensusState) (st : SyncState SharedExecutor)
    : result StartError (ConsensusState * SyncState SharedExecutor) :=
  let waited := wait_for_peer (obs_start obs + PEER_TIMEOUT) (obs_polls obs) in
  match validator_to_peer peers with
  | _ :: _ =>
    _ ← ok_or waited Waiting;
    if 0 <? obs_count obs then
      let '(st, _) := sync_from_peers (chain_id_hash s) (validator_to_peer peers) st in
      Ok (apply_synced s st, st)
    else Ok (s, st)
  | [] =>
    match persistent_peers nc with
    | _ :: _ => _ ← ok_or waited Waiting; Ok (s, st)
    | [] => Ok (s, st)
    end
  end.

(** ** run_node *)

Record PacemakerConfig := mkPacemaker { pm_base_timeout_ms : Z; pm_max_timeout_ms : Z; pm_backoff_multiplier : F64 }.

(** What the consensus engine is built from. *)
Record Engine := mkEngine {
  eng_state : ConsensusState;
  eng_store : BlockStore;
  eng_app : SharedExecutor;
  eng_signer : SigningKey * Z;
  eng_pacemaker : PacemakerConfig;
  eng_pending_epoch : option Epoch;
  eng_previous_epoch : option Epoch;
}.

(** The node once the engine starts; [run_log_fullnode] only chooses the log
    message. *)
Record Running := mkRunning {
  run_engine : Engine;
  run_network : NetworkConfig;
  run_rpc : option (SocketAddr * Z);
  run_serve_sync : bool;
  run_status : ConsensusStatus;
  run_log_fullnode : bool;
}.

Definition pacemaker_of (nc : NodeConfig) : PacemakerConfig :=
  mkPacemaker (base_timeout_ms nc) (max_timeout_ms nc) (backoff_multiplier nc).

Definition or_panic {A} (msg : string) (r : result string A) : result StartError A :=
  map_err (λ e, Panicked (msg +:+ e)) r.

Definition run_node (obs : Observed) (pcs : PersistentConsensusState) (fs : Fs) (home : string)
    (rpc_addr_override p2p_laddr_override : option string) : result StartError Running :=
  ld ← load_all fs home rpc_addr_override p2p_laddr_override;
  let nc := ld_config ld in
  let data_dir := path_join home "data" in
  let '(fs, created) := fs_create_dir_all fs data_dir in
  _ ← failed (err_ctx "create data dir" (eg created));
  _ ← failed (err_ctx "configure vsdb" (vsdb_configure data_dir));
  let '(s, es) := restore_state pcs (with_chain_id (ld_our_vid ld) (ld_validator_set ld) (doc_chain_id (ld_genesis ld))) in
  peers ← failed (choose_peers nc (ld_genesis ld));
  listen_addr ← failed (err_ctx "invalid p2p listen address" (parse_multiaddr (laddr nc)));
  let net := network_config fs home ld s peers listen_addr in
  _ ← failed (network_create net);
  let x := build_executor (ld_evm_genesis ld) in
  rpc ← failed (rpc_of ld);
  synced ← catch_up obs nc peers.1 s (sync_state_of block_store_new x es);
  let st := synced.2 in
  _ ← or_panic "failed to open evidence store: " (open_evidence_store data_dir);
  _ ← or_panic "failed to open consensus WAL: " (open_wal data_dir);
  Ok {| run_engine := {|
          eng_state := synced.1; eng_store := sync_store st; eng_app := sync_app st;
          eng_signer := (ld_signing_key ld, ld_our_vid ld); eng_pacemaker := pacemaker_of nc;
          eng_pending_epoch := sync_pending_epoch st; eng_previous_epoch := sync_previous_epoch st |};
        run_network := net;
        run_rpc := (λ addr, (addr, genesis_chain_id (ld_evm_genesis ld))) <$> rpc;
        run_serve_sync := serve_sync nc;
        run_status := initial_status s;
        run_log_fullnode := ld_is_fullnode ld |}.

(** ** Supervisor and exit code *)

Inductive Shutdown :=
  | EngineEnded
  | NetworkEnded (joined : bool)
  | RpcEnded (joined : bool)
  | ResponderEnded (joined : bool)
  | CtrlC
  | Sigterm.

Definition exit_of (ev : Shutdown) : Z :=
  match ev with
  | NetworkEnded _ | RpcEnded _ | ResponderEnded _ => 1
  | EngineEnded | CtrlC | Sigterm => 0
  end.

(** The exit code of [nb node], once it ends. *)
Definition node_exit (r : result StartError Running) (ev : Shutdown) : option Z :=
  match r with
  | Ok _ => Some (exit_of ev)
  | Err (Failed _) => Some 1
  | Err (Panicked _) => Some PANIC
  | Err Waiting => None
  end.

(** The exit code of the program. *)
Definition main (cli : Cli) (env_home : option string) (obs : Observed) (pcs : PersistentConsensusState) (fs : Fs)
    (ev : Shutdown) : option Z :=
  let home := home_of cli env_home in
  match command cli with
  | Init => Some (run_init fs home).2
  | NodeCmd rpc_addr p2p_laddr => node_exit (run_node obs pcs fs home rpc_addr p2p_laddr) ev
  end.

(** ** A running node *)

(** The state its tasks share: the executor behind the RPC state, the block
    store, the status channel, and the sync responses sent.  The sending half
    of the status channel is used only to create it. *)
Record NodeState := mkNode {
  nd_rpc : EvmRpcState;
  nd_serve_rpc : bool;
  nd_serve_sync : bool;
  nd_store : BlockStore;
  nd_status : ConsensusStatus;
  nd_sent : list (Z * SyncResponse);
}.

Definition node_of (r : Running) : NodeState := {|
  nd_rpc := mkRpcState (shared (eng_app (run_engine r))) (default 0 (snd <$> run_rpc r)) (Some []);
  nd_serve_rpc := if run_rpc r then true else false;
  nd_serve_sync := run_serve_sync r;
  nd_store := eng_store (run_engine r);
  nd_status := run_status r;
  nd_sent := [] |}.

Definition nd_executor (n : NodeState) : EvmExecutor := executor (nd_rpc n).

Definition with_rpc (n : NodeState) (s : EvmRpcState) : NodeState := {|
  nd_rpc := s; nd_serve_rpc := nd_serve_rpc n; nd_serve_sync := nd_serve_sync n; nd_store := nd_store n;
  nd_status := nd_status n; nd_sent := nd_sent n |}.

Definition on_gossip (n : NodeState) (bytes : list byte) : NodeState :=
  with_rpc n (with_executor (nd_rpc n) (gossip_recv (nd_executor n) bytes)).
Definition on_rpc (n : NodeState) (body : Value) : NodeState := with_rpc n (handle_rpc (nd_rpc n) body).1.
Definition on_sync_request (n : NodeState) (request_id : Z) (req : SyncRequest) : NodeState := {|
  nd_rpc := nd_rpc n; nd_serve_rpc := nd_serve_rpc n; nd_serve_sync := nd_serve_sync n; nd_store := nd_store n;
  nd_status := nd_status n;
  nd_sent := nd_sent n ++ [(request_id, handle_sync_request (nd_store n) (nd_status n) req)] |}.
(** The engine calls the application and writes the block store. *)
Definition on_engine (n : NodeState) (app : SharedExecutor) (store : BlockStore) : NodeState := {|
  nd_rpc := with_executor (nd_rpc n) (shared app); nd_serve_rpc := nd_serve_rpc n; nd_serve_sync := nd_serve_sync n;
  nd_store := store; nd_status := nd_status n; nd_sent := nd_sent n |}.
End Node.

(** What the node relies on of hotmint: a sync reaches the application only
    through its interface and never moves the committed height back; a range
    query returns the stored blocks of the range, one per height. *)
Class HotmintOk `{Hotmint} : Prop := {
  sync_reach A (I : Application Block A) cid pid (st : SyncState A) :
    app_reach (sync_app st) (sync_app (sync_to_tip cid pid st).1);
  sync_height_mono A (I : Application Block A) cid pid (st : SyncState A) :
    sync_height st ≤ sync_height (sync_to_tip cid pid st).1;
  range_spec store lo hi b :
    b ∈ get_blocks_in_range store lo hi ↔ get_block_by_height store (blk_height b) = Some b ∧ lo ≤ blk_height b ≤ hi;
  range_heights store lo hi : NoDup (blk_height <$> get_blocks_in_range store lo hi);
}.
