(* ===== verification/NodeModel.v ===== *)
(** A model of the parameters of Host.v and Node.v: a file system that is a map
    of files, a textual code for genesis documents, and a framework whose block
    store is a map from heights to views.  It shows that the laws of the
    classes are consistent and lets the node evaluate. *)
From S2P Require Import Prelude Types Executor Application Host Node.
From Stdlib Require Import Ascii.

(** ** Files *)

#[export] Instance map_os : Os := {|
  Fs := gmap string string;
  fs_exists fs p := bool_decide (is_Some (fs !! p));
  fs_read fs p := ok_or (fs !! p) "No such file or directory"%string;
  fs_write fs p s := (<[p := s]> fs, Ok tt);
  fs_create_dir_all fs _ := (fs, Ok tt) |}.

#[export] Instance map_os_ok : OsOk.
Proof.
  split; cbn [fs_read fs_write fs_exists map_os Fs]; intros fs p s.
  - intros fs' [= <-]. by rewrite lookup_insert_eq.
  - intros fs' q [= <-] Hne. by rewrite lookup_insert_ne.
  - destruct (fs !! p) eqn:E; [|done]. intros _. apply bool_decide_eq_true. eauto.
Qed.

(** ** Genesis documents as text *)

#[export] Instance alloc_eq_dec : EqDecision GenesisAlloc.
Proof. solve_decision. Defined.
#[export] Program Instance alloc_countable : Countable GenesisAlloc :=
  inj_countable' (λ a, (alloc_balance a, alloc_nonce a, alloc_code a, alloc_storage a))
    (λ '(b, n, co, st), mkAlloc b n co st) _.
Next Obligation. by intros []. Qed.
#[export] Instance genesis_eq_dec : EqDecision EvmGenesis.
Proof. solve_decision. Defined.
#[export] Program Instance genesis_countable : Countable EvmGenesis :=
  inj_countable' (λ g, (genesis_chain_id g, genesis_alloc g, genesis_gas_limit g, genesis_base_fee_per_gas g,
                        genesis_coinbase g, genesis_timestamp g))
    (λ '(i, al, gl, bf, co, ts), mkGenesis i al gl bf co ts) _.
Next Obligation. by intros []. Qed.

Fixpoint bits (p : positive) : string :=
  match p with xH => "" | xO p => String "0"%char (bits p) | xI p => String "1"%char (bits p) end%string.
Fixpoint unbits (s : string) : positive :=
  match s with
  | "" => xH
  | String ch s' => if Ascii.eqb ch "0"%char then xO (unbits s') else xI (unbits s')
  end%string.

Lemma unbits_bits p : unbits (bits p) = p.
Proof. by induction p as [p IH|p IH|]; simpl; rewrite ?IH. Qed.

#[export] Instance bits_json : GenesisJson := {|
  genesis_to_string_pretty g := Ok (bits (encode g));
  genesis_from_str s := ok_or (decode (unbits s)) "expected value"%string |}.

#[export] Instance bits_json_ok : GenesisJsonOk.
Proof.
  split; [eauto|]. intros g s _ [= <-]. cbn [genesis_from_str bits_json]. by rewrite unbits_bits, decode_encode.
Qed.

(** ** The framework *)

#[export] Instance demo_types : HotmintTypes := {|
  ValidatorSet := list Z; QuorumCertificate := Z; BlockHash := Z;
  Block := Z * Z; (* height and view *)
  BlockStore := gmap Z Z;
  PeerId := Z; PeerBook := unit; Multiaddr := string; SocketAddr := string; PexConfig := unit; PeerIds := unit;
  KnownAddresses := unit; PrivValidatorKey := string; SigningKey := string; NodeKey := unit; Keypair := unit;
  SnapshotInfo := unit; F64 := unit |}.

(** A peer with id 0 refuses; any other serves one empty block, of the next
    height and of a view equal to its id. *)
Definition demo_sync {A} `{!Application Block A} (cid pid : Z) (st : SyncState A) : SyncState A * result string unit :=
  if pid =? 0 then (st, Err "peer refused"%string)
  else
    let ctx := mkBlockContext (sync_height st + 1) 0 0 in
    let app := (app_execute_block (sync_app st) [] ctx).1 in
    let app := (app_on_commit app (sync_height st + 1, pid) ctx).1 in
    (mkSyncState _ (<[sync_height st + 1 := pid]> (sync_store st)) app (sync_epoch st) (sync_height st + 1)
       (sync_app_hash st) (sync_pending_epoch st) (sync_previous_epoch st), Ok tt).

(** A node whose peers, mode and validator key are given by its files. *)
#[export] Instance demo_hotmint : Hotmint := {|
  init_node_dir fs home := (<[path_join home "config/config.toml" := "validator"]> fs, Ok tt);
  load_node_config fs p :=
    text ← ok_or (fs !! p) ["no config"%string];
    Ok (mkNodeConfig "/ip4/0.0.0.0/tcp/20000" (if fs !! "peers"%string then ["v1@peer"%string] else []) tt tt
          (text =? "fullnode")%string true true false 1000 30000 tt);
  load_priv_key fs p := ok_or (fs !! p) ["no key"%string];
  public_key k := k;
  to_signing_key k := Ok k;
  load_node_key _ _ := Ok tt;
  to_litep2p_keypair _ := Ok tt;
  load_genesis_doc _ _ := Ok (mkGenesisDoc "demo" [mkGenesisValidator 0 "aa"; mkGenesisValidator 1 "bb"]);
  to_validator_set g := Ok (gv_id <$> doc_validators g);
  validator_ids vs := vs;
  validator_count vs := Z.of_nat (length vs);
  with_chain_id vid vs _ := mkConsensusState vid vs (mkEpoch 0 0 vs) 1 None None 0 0 77;
  vsdb_configure _ := Ok tt;
  block_store_new := ∅;
  get_blocks_in_range s lo hi := filter (λ b, lo ≤ b.1 ≤ hi) (map_to_list s);
  get_commit_qc s h := Some h;
  get_block_by_height s h := (h,.) <$> (s !! h);
  blk_height b := b.1;
  blk_view b := b.2;
  MAX_SYNC_BATCH := 100;
  parse_persistent_peers _ _ := Ok (mkPeerMap [(0, 0); (1, 7); (2, 9)], tt);
  known_addresses_none := tt;
  parse_multiaddr s := Ok s;
  parse_socket_addr s := Ok s;
  peer_book_load _ _ := None;
  peer_book_new _ := tt;
  with_private_peer_ids _ _ := tt;
  network_create _ := Ok tt;
  list_snapshots := [];
  load_snapshot_chunk _ _ := [];
  sync_to_tip A I := @demo_sync A I;
  open_evidence_store _ := Ok tt;
  open_wal _ := Ok tt |}.

#[export] Instance demo_hotmint_ok : HotmintOk.
Proof.
  split; cbn [sync_to_tip demo_hotmint get_blocks_in_range get_block_by_height blk_height].
  - intros A I cid pid st. unfold demo_sync. destruct (pid =? 0); simpl; [constructor|].
    apply reach_commit, reach_execute, reach_refl.
  - intros A I cid pid st. unfold demo_sync. destruct (pid =? 0); simpl; lia.
  - intros store lo hi [h v]. rewrite list_elem_of_filter.
    pose proof (elem_of_map_to_list (store : gmap Z Z) h v) as E. simpl. split.
    + intros [Hr Hin]. by rewrite (proj1 E Hin).
    + intros [Hs Hr]. split; [done|]. apply E. destruct ((store : gmap Z Z) !! h); by simplify_eq/=.
  - intros store lo hi. apply (sublist_NoDup _ (map_to_list (store : gmap Z Z)).*1);
      [apply NoDup_fst_map_to_list|apply sublist_fmap, sublist_filter].
Qed.
