(* ===== verification/NodeProps.v ===== *)
(** Correctness of the node binary: what a start establishes, what the sync
    responder and the sync loop do, and that a running node, whatever its tasks
    interleave, only ever runs operations of its executor. *)
From S2P Require Import Prelude Types Hex Tx State StateModel StateLemmas StateProps Precompile Executor ExecutorModel.
From S2P Require Import ExecutorProps ExecutorPool Application Host Rpc RpcProps Node NodeModel.
From S2P Require Import TxPool TxPoolQueue TxPoolIndex TxPoolInv.

(** ** The development genesis *)

Lemma alloc_plain_wf balance : is_u256 balance → alloc_wf (mkAlloc balance 0 [] ∅).
Proof. intros Hb. split_and!; simpl; [done|ulia|apply map_Forall_empty]. Qed.

Lemma default_dev_genesis_wf : genesis_wf default_dev_genesis.
Proof.
  assert (is_u256 (alloc_balance dev_alloc)) as Hb by (apply (bool_decide_unpack _); by vm_compute).
  do 2 (apply map_Forall_insert_2; [split; [apply (bool_decide_unpack _); by vm_compute|by apply alloc_plain_wf]|]).
  apply map_Forall_empty.
Qed.

Lemma default_dev_genesis_doc : genesis_doc_wf default_dev_genesis.
Proof. split; [apply default_dev_genesis_wf|]. split_and!; by vm_compute. Qed.

Section NodeProps.
Context `{EvmOk} `{!TxCodec} `{!HexCrate} `{!TxCodecOk} {VO : VsdbOk} {RO : RevmOk} `{!U256Hex}.
Context `{Hotmint} `{!GenesisJson} `{!OsOk} `{!GenesisJsonOk} `{!HotmintOk}.

(** ** nb init *)

(** C26. [nb init] writes the development genesis exactly when there is none:
    after a successful run a genesis that existed is untouched, and otherwise
    the node will load the development genesis from the file. *)
Theorem init_then_load fs home fs' :
  run_init fs home = (fs', 0) →
  let fs0 := (init_node_dir fs home).1 in
  if fs_exists fs0 (evm_genesis_path home) then fs' = fs0
  else fs_exists fs' (evm_genesis_path home) = true ∧
       choose_evm_genesis fs' (evm_genesis_path home) = Ok default_dev_genesis.
Proof.
  unfold run_init. destruct (init_node_dir fs home) as [fs0 [[]|e]]; [|done]. simpl.
  destruct (fs_exists fs0 _); [by intros [= <-]|].
  destruct (genesis_to_string_pretty default_dev_genesis) as [json|e] eqn:Hs; [|done].
  destruct (fs_write _ _ _) as [fs1 [[]|e]] eqn:Hw; [|done]. intros [= <-].
  pose proof (fs_read_exists _ _ _ (fs_read_write _ _ _ _ Hw)) as Hex. split; [done|].
  unfold choose_evm_genesis. rewrite Hex. by rewrite (load_written _ _ _ _ _ default_dev_genesis_doc Hs Hw).
Qed.

(** ** Validator identity *)

(** A node takes the identity of the first genesis validator with its public
    key; a node without one runs under the sentinel id [u64::MAX], which is then
    the id of no validator, as a fullnode; and it refuses to start exactly when
    the sentinel is taken. *)
Theorem identify_validator_spec nc genesis vs pk :
  match identify_validator nc genesis vs pk with
  | Ok (vid, full) =>
    (∃ k gv, doc_validators genesis !! k = Some gv ∧ gv_public_key gv = pk ∧ vid = gv_id gv ∧ full = mode_fullnode nc ∧
       ∀ j gv', (j < k)%nat → doc_validators genesis !! j = Some gv' → gv_public_key gv' ≠ pk) ∨
    (pk ∉ gv_public_key <$> doc_validators genesis ∧ vid = 2 ^ 64 - 1 ∧ vid ∉ validator_ids vs ∧ full = true)
  | Err e => pk ∉ gv_public_key <$> doc_validators genesis ∧ 2 ^ 64 - 1 ∈ validator_ids vs ∧ ∃ msg, e = Panicked msg
  end.
Proof.
  unfold identify_validator. destruct (find _ _) as [gv|] eqn:Hf.
  - left. apply find_first in Hf as (k & Hk & Hp & Hfirst). exists k, gv. apply String.eqb_eq in Hp.
    split_and!; try done. intros j gv' Hj Hl E. specialize (Hfirst _ _ Hj Hl). by apply String.eqb_neq in Hfirst.
  - assert (pk ∉ gv_public_key <$> doc_validators genesis) as Hno.
    { intros (gv & -> & Hin)%list_elem_of_fmap. apply list_elem_of_In in Hin.
      apply (find_none _ _ Hf) in Hin. by apply String.eqb_neq in Hin. }
    destruct (existsb _ _) eqn:He.
    + apply existsb_exists in He as (v & Hin & <-%Z.eqb_eq). apply list_elem_of_In in Hin. split_and!; eauto.
    + right. split_and!; try done. intros Hin. apply list_elem_of_In in Hin. apply not_true_iff_false in He.
      apply He, existsb_exists. exists (max_u 64). split; [done|apply Z.eqb_refl].
Qed.

(** ** The sync responder *)

Lemma clamp_to_min from to :
  is_u64 from → 1 ≤ MAX_SYNC_BATCH < 2 ^ 64 →
  clamp_to from to = Z.min to (if from + MAX_SYNC_BATCH <=? 2 ^ 64 then from + MAX_SYNC_BATCH - 1
                               else from + MAX_SYNC_BATCH - 1 - 2 ^ 64).
Proof.
  intros [Hf0 Hf1] Hm. unfold clamp_to. f_equal. unfold wrap. rewrite Zminus_mod_idemp_l.
  destruct (Z.leb_spec (from + MAX_SYNC_BATCH) (2 ^ 64)); [by rewrite Z.mod_small by lia|].
  rewrite <- (Z.mod_small (from + MAX_SYNC_BATCH - 1 - 2 ^ 64) (2 ^ 64)) by lia.
  by rewrite <- (Z.mod_add (from + MAX_SYNC_BATCH - 1 - 2 ^ 64) 1 (2 ^ 64)), Z.mul_1_l, Z.sub_add by lia.
Qed.

(** A list of distinct integers of an interval is no longer than the interval. *)
Lemma NoDup_interval_length (l : list Z) lo hi :
  NoDup l → Forall (λ z, lo ≤ z ≤ hi) l → Z.of_nat (length l) ≤ Z.max 0 (hi - lo + 1).
Proof.
  intros Hnd Hin. rewrite <- (Z2Nat.id (Z.max 0 (hi - lo + 1))) by lia. apply Nat2Z.inj_le.
  rewrite <- (length_seqZ lo (Z.max 0 (hi - lo + 1))). apply submseteq_length, NoDup_submseteq; [done|].
  intros z Hz. rewrite Forall_forall in Hin. specialize (Hin z Hz). apply elem_of_seqZ. lia.
Qed.

(** C22. The responder answers a block request with exactly the stored blocks of
    the requested range that lie among the first [MAX_SYNC_BATCH] heights from
    its start, each with its commit certificate, and never with more than
    [MAX_SYNC_BATCH] blocks.  When the end of that batch is past [2^64 - 1] the
    sum wraps and the answer is empty. *)
Theorem sync_batch_exact store status from to :
  is_u64 from → 1 ≤ MAX_SYNC_BATCH < 2 ^ 64 →
  ∃ bs, handle_sync_request store status (GetBlocks from to) = Blocks bs ∧
    Z.of_nat (length bs) ≤ MAX_SYNC_BATCH ∧
    (∀ b qc, (b, qc) ∈ bs ↔
       get_block_by_height store (blk_height b) = Some b ∧ qc = get_commit_qc store (blk_height b) ∧
       from ≤ blk_height b ≤ to ∧ blk_height b < from + MAX_SYNC_BATCH ∧ from + MAX_SYNC_BATCH ≤ 2 ^ 64) ∧
    (2 ^ 64 < from + MAX_SYNC_BATCH → bs = []).
Proof.
  intros Hf Hm. eexists. split; [done|]. pose proof (clamp_to_min from to Hf Hm) as Ec.
  set (blocks := get_blocks_in_range store from (clamp_to from to)).
  assert (∀ b, b ∈ blocks ↔ get_block_by_height store (blk_height b) = Some b ∧ from ≤ blk_height b ≤ to ∧
    blk_height b < from + MAX_SYNC_BATCH ∧ from + MAX_SYNC_BATCH ≤ 2 ^ 64) as Hin.
  { intros b. unfold blocks. rewrite range_spec, Ec. destruct Hf.
    destruct (Z.leb_spec (from + MAX_SYNC_BATCH) (2 ^ 64)); split; intros [? ?]; split; try done; lia. }
  split_and!.
  - rewrite length_fmap. rewrite <- (length_fmap blk_height).
    etrans; [apply (NoDup_interval_length _ from (from + MAX_SYNC_BATCH - 1))|lia]; [apply range_heights|].
    apply Forall_fmap, Forall_forall. intros b Hb%Hin. simpl. lia.
  - intros b qc. rewrite list_elem_of_fmap. split.
    + intros (b' & [= -> ->] & Hb%Hin). tauto.
    + intros (Hs & -> & Hr). exists b. split; [done|]. apply Hin. tauto.
  - intros Hov. destruct blocks as [|b blocks]; [done|].
    assert (b ∈ b :: blocks) as Hb by constructor. apply Hin in Hb. lia.
Qed.

(** ** Waiting for a peer *)

(** The loop still waits exactly as long as no peer has been seen and the clock
    is before the deadline, and it reports a peer exactly when one was seen no
    later than the deadline. *)
Lemma wait_for_peer_pending deadline polls :
  wait_for_peer deadline polls = None ↔ Forall (λ p, p.1 ≤ 0 ∧ p.2 < deadline) polls.
Proof.
  induction polls as [|[count now] polls IH]; simpl; [split; [constructor|done]|].
  rewrite Forall_cons. simpl. zb; [split; [done|lia]..|]. rewrite IH. intuition lia.
Qed.

Lemma wait_for_peer_connected deadline polls :
  wait_for_peer deadline polls = Some true ↔
  ∃ k p, polls !! k = Some p ∧ 0 < p.1 ∧ wait_for_peer deadline (take k polls) = None.
Proof.
  induction polls as [|[count now] polls IH]; simpl; [split; [done|by intros (? & ? & ? & _)]|].
  split.
  - zb; intros Hw; [exists O, (count, now); done|done|]. apply IH in Hw as (k & p & Hk & Hp & Hpre).
    exists (S k), p. simpl. split_and!; try done. zb; done || lia.
  - intros ([|k] & p & Hk & Hp & Hpre); simplify_eq/=; [zb; done || lia|].
    zb; try done. apply IH. eauto.
Qed.

(** ** Syncing from the peers *)

Lemma sync_from_peers_spec {A} `{!Application Block A} cid peers (st : SyncState A) :
  let try st p := sync_to_tip cid (p.2 : PeerId) st in
  let after ps := fold_left (λ st (p : Z * PeerId), (try st p).1) ps st in
  let '(st', synced) := sync_from_peers cid peers st in
  sync_height st ≤ sync_height st' ∧ app_reach (sync_app st) (sync_app st') ∧
  ∃ k, st' = after (take k peers) ∧
    (∀ j p, (S j < k)%nat → peers !! j = Some p → is_ok (try (after (take j peers)) p).2 = false) ∧
    (if synced then ∃ p, peers !! (k - 1)%nat = Some p ∧ (1 ≤ k)%nat ∧ is_ok (try (after (take (k - 1) peers)) p).2 = true
     else k = length peers ∧ ∀ j p, peers !! j = Some p → is_ok (try (after (take j peers)) p).2 = false).
Proof.
  cbv zeta. revert st. induction peers as [|[vid pid] peers IH]; intros st; simpl.
  - split_and!; [done|constructor|]. exists O. split_and!; [done|lia|done|done].
  - pose proof (sync_height_mono A _ cid pid st) as Hmono. pose proof (sync_reach A _ cid pid st) as Hreach.
    destruct (sync_to_tip cid pid st) as [st1 [[]|e]] eqn:Es; simpl in *.
    + split_and!; [done|done|]. exists 1%nat. simpl. rewrite Es. split_and!; [done|lia|].
      exists (vid, pid). split_and!; [done|lia|]. simpl. by rewrite Es.
    + specialize (IH st1). destruct (sync_from_peers cid peers st1) as [st' synced].
      destruct IH as (Hm & Hr & k & -> & Hfail & Hend). split_and!; [lia|by eapply app_reach_trans|].
      exists (S k). simpl. rewrite Es. simpl. split_and!; [done|..].
      * intros [|j] p Hj Hp; simplify_eq/=; rewrite Es; [done|]. simpl. apply Hfail; [lia|done].
      * destruct synced.
        -- destruct Hend as (p & Hp & Hk & Hok). exists p. destruct k as [|k]; [lia|]. simpl in *.
           rewrite Nat.sub_0_r in *. rewrite Es. split_and!; [done|lia|done].
        -- destruct Hend as [-> Hall]. split; [done|]. intros [|j] p Hp; simplify_eq/=; rewrite Es; [done|]. by apply Hall.
Qed.

(** C23. The sync loop asks the peers in order and stops at the first success:
    every peer before the last one asked failed, each continuing from what the
    ones before it left, and the outcome is a failure only when all of them
    failed.  Through every failure the committed height never decreases, and
    the application is touched only through its interface. *)
Theorem sync_first_success {A} `{!Application Block A} cid peers (st : SyncState A) :
  let try st p := sync_to_tip cid (p.2 : PeerId) st in
  let after ps := fold_left (λ st (p : Z * PeerId), (try st p).1) ps st in
  let '(st', synced) := sync_from_peers cid peers st in
  sync_height st ≤ sync_height st' ∧ app_reach (sync_app st) (sync_app st') ∧
  ∃ k, st' = after (take k peers) ∧
    (∀ j p, (S j < k)%nat → peers !! j = Some p → is_ok (try (after (take j peers)) p).2 = false) ∧
    (if synced then ∃ p, peers !! (k - 1)%nat = Some p ∧ (1 ≤ k)%nat ∧ is_ok (try (after (take (k - 1) peers)) p).2 = true
     else k = length peers ∧ ∀ j p, peers !! j = Some p → is_ok (try (after (take j peers)) p).2 = false).
Proof. exact (sync_from_peers_spec cid peers st). Qed.

Lemma sync_from_peers_safe {A} `{!Application Block A} cid peers (st : SyncState A) :
  let st' := (sync_from_peers cid peers st).1 in
  sync_height st ≤ sync_height st' ∧ app_reach (sync_app st) (sync_app st').
Proof.
  pose proof (sync_from_peers_spec cid peers st) as Hs. cbv zeta in Hs.
  destruct (sync_from_peers cid peers st) as [st' synced]. by destruct Hs as (? & ? & _).
Qed.

(** ** A start *)

Lemma catch_up_cases `{!HashIter Z SenderQueue} `{!HashIter Z DbAccount} `{!HashIter Z Z} obs nc peers s st s' st' :
  catch_up obs nc peers s st = Ok (s', st') →
  (s' = s ∧ st' = st) ∨
  (validator_to_peer peers ≠ [] ∧ st' = (sync_from_peers (chain_id_hash s) (validator_to_peer peers) st).1 ∧ s' = apply_synced s st').
Proof.
  unfold catch_up. destruct (wait_for_peer _ _) as [w|]; destruct (validator_to_peer peers) as [|p ps];
    cbn [ok_or mbind result_bind]; try done.
  - destruct (persistent_peers nc); intros [= <- <-]; auto.
  - destruct (0 <? obs_count obs); [|intros [= <- <-]; auto].
    destruct (sync_from_peers _ (p :: ps) st) as [st1 b]. intros [= <- <-]. auto.
  - destruct (persistent_peers nc); [intros [= <- <-]; auto|done].
Qed.

(** What a successful start is made of. *)
Record started obs pcs fs home rpc p2p (r : Running) (ld : Loaded) (s : ConsensusState) (es : EngineState)
    (peers : PeerMap * KnownAddresses) `{!HashIter Z SenderQueue} `{!HashIter Z DbAccount} `{!HashIter Z Z} : Prop := {
  sd_load : load_all fs home rpc p2p = Ok ld;
  sd_restore :
    restore_state pcs (with_chain_id (ld_our_vid ld) (ld_validator_set ld) (doc_chain_id (ld_genesis ld))) = (s, es);
  sd_peers : choose_peers (ld_config ld) (ld_genesis ld) = Ok peers;
  sd_sync : ∃ st, catch_up obs (ld_config ld) peers.1 s
      (sync_state_of block_store_new (build_executor (ld_evm_genesis ld)) es) = Ok (eng_state (run_engine r), st) ∧
    eng_app (run_engine r) = sync_app st ∧ eng_store (run_engine r) = sync_store st;
  sd_signer : eng_signer (run_engine r) = (ld_signing_key ld, ld_our_vid ld);
  sd_status : run_status r = initial_status s;
  sd_full : run_log_fullnode r = ld_is_fullnode ld;
}.

Lemma run_node_started `{!HashIter Z SenderQueue} `{!HashIter Z DbAccount} `{!HashIter Z Z} obs pcs fs home rpc p2p r :
  run_node obs pcs fs home rpc p2p = Ok r → ∃ ld s es peers, started obs pcs fs home rpc p2p r ld s es peers.
Proof.
  unfold run_node. intros Hr. apply result_bind_Ok in Hr as (ld & Hld & Hr). cbv zeta in Hr.
  destruct (fs_create_dir_all fs _) as [fs' created]. do 2 apply result_bind_Ok in Hr as ([] & _ & Hr).
  destruct (restore_state _ _) as [s es] eqn:Hrs. apply result_bind_Ok in Hr as (peers & Hp & Hr).
  apply result_bind_Ok in Hr as (la & _ & Hr). apply result_bind_Ok in Hr as ([] & _ & Hr).
  apply result_bind_Ok in Hr as (rp & _ & Hr). apply result_bind_Ok in Hr as ([s' st] & Hs & Hr).
  do 2 apply result_bind_Ok in Hr as ([] & _ & Hr). injection Hr as <-.
  exists ld, s, es, peers. split; simpl; eauto. destruct (choose_peers _ _); by simplify_eq/=.
Qed.

Section Started.
Context {IQ : HashIter Z SenderQueue} {IA : HashIter Z DbAccount} {IS : HashIter Z Z}.
Context obs pcs fs home rpc p2p r ld s es peers (HS : started obs pcs fs home rpc p2p r ld s es peers).

(** The executor a start hands to the engine is a run of executor operations
    from the loaded genesis. *)
Lemma started_executor :
  ∃ ops, Forall exec_op_ok ops ∧ shared (eng_app (run_engine r)) = exec_run (ld_evm_genesis ld) ops.
Proof.
  destruct (sd_sync _ _ _ _ _ _ _ _ _ _ _ HS) as (st & Hc & -> & _).
  assert (app_reach (Block := Block) (mkShared (build_executor (ld_evm_genesis ld))) (sync_app st)) as Hreach.
  { destruct (catch_up_cases _ _ _ _ _ _ _ Hc) as [[_ ->]|(_ & -> & _)]; [constructor|].
    exact (proj2 (sync_from_peers_safe _ _ (sync_state_of _ _ es))). }
  apply shared_reach, app_reach_exec in Hreach as (ops & Hops & ->).
  exists (XSetup :: ops). split; [by constructor|done].
Qed.

Lemma restored_heights : sync_height (sync_state_of block_store_new (build_executor (ld_evm_genesis ld)) es) = last_committed_height s.
Proof.
  pose proof (sd_restore _ _ _ _ _ _ _ _ _ _ _ HS) as Hr. unfold restore_state in Hr. by injection Hr as <- <-.
Qed.
End Started.

Lemma synced_view_mono store height view :
  (∀ b, get_block_by_height store height = Some b → 0 ≤ blk_view b < 2 ^ 64 - 1) → 0 ≤ view →
  view ≤ synced_view store height view.
Proof.
  intros Hv H0'. unfold synced_view. destruct (0 <? height); [|lia].
  destruct (get_block_by_height store height) as [b|]; [|zb; lia]. specialize (Hv b eq_refl).
  zb; [|lia]. rewrite wrap_small by ulia. lia.
Qed.

(** C21. A restart never loses consensus progress: the state a start hands to
    the engine has at least the persisted committed height and view, and
    exactly the persisted locked and highest certificates, whether or not it
    synced from peers. *)
Theorem start_keeps_progress `{!HashIter Z SenderQueue} `{!HashIter Z DbAccount} `{!HashIter Z Z}
    obs pcs fs home rpc p2p r h v :
  run_node obs pcs fs home rpc p2p = Ok r →
  (∀ k b, get_block_by_height (eng_store (run_engine r)) k = Some b → 0 ≤ blk_view b < 2 ^ 64 - 1) →
  load_last_committed_height pcs = Some h → load_current_view pcs = Some v → 0 ≤ v →
  let s := eng_state (run_engine r) in
  h ≤ last_committed_height s ∧ v ≤ current_view s ∧
  (∀ qc, load_locked_qc pcs = Some qc → locked_qc s = Some qc) ∧
  (∀ qc, load_highest_qc pcs = Some qc → highest_qc s = Some qc).
Proof.
  intros Hrun Hviews Hh Hv H0' s. destruct (run_node_started _ _ _ _ _ _ _ Hrun) as (ld & s0 & es & peers & HS).
  pose proof (sd_restore _ _ _ _ _ _ _ _ _ _ _ HS) as Hr. pose proof (restored_heights _ _ _ _ _ _ _ _ _ _ _ HS) as Eh.
  assert (last_committed_height s0 = h ∧ current_view s0 = v ∧
    (∀ qc, load_locked_qc pcs = Some qc → locked_qc s0 = Some qc) ∧
    (∀ qc, load_highest_qc pcs = Some qc → highest_qc s0 = Some qc)) as (E1 & E2 & E3 & E4).
  { unfold restore_state in Hr. injection Hr as <- _. simpl. rewrite Hh, Hv. split_and!; try done; intros qc E; by rewrite E. }
  destruct (sd_sync _ _ _ _ _ _ _ _ _ _ _ HS) as (st & Hc & _ & Estore).
  destruct (catch_up_cases _ _ _ _ _ _ _ Hc) as [[Es _]|(_ & Est & Es)]; subst s; rewrite Es.
  - split_and!; try done; lia.
  - split_and!; try done; simpl.
    + pose proof (sync_from_peers_safe (chain_id_hash s0) (validator_to_peer peers.1)
        (sync_state_of block_store_new (build_executor (ld_evm_genesis ld)) es)) as [Hm _]. rewrite <- Est in Hm. lia.
    + rewrite <- E2. apply synced_view_mono; [|lia]. intros b. rewrite <- Estore. apply Hviews.
Qed.

(** A restart rebuilds the executor from genesis while the consensus state
    resumes at the persisted height: without peers to sync from, the node is
    at height [h] and its executor at height 0 with no receipts and the genesis
    state. *)
Theorem restart_forgets_execution `{!HashIter Z SenderQueue} `{!HashIter Z DbAccount} `{!HashIter Z Z}
    obs pcs fs home rpc p2p r h :
  run_node obs pcs fs home rpc p2p = Ok r → load_last_committed_height pcs = Some h →
  (∃ nc, load_node_config fs (path_join (path_join home "config") "config.toml") = Ok nc ∧ persistent_peers nc = []) →
  last_committed_height (eng_state (run_engine r)) = h ∧
  ∃ g, shared (eng_app (run_engine r)) = setup_nonce_fn (Executor.from_genesis g) ∧
    block_height (shared (eng_app (run_engine r))) = 0 ∧ receipts (shared (eng_app (run_engine r))) = [].
Proof.
  intros Hrun Hh (nc & Hnc & Hpp). destruct (run_node_started _ _ _ _ _ _ _ Hrun) as (ld & s0 & es & peers & HS).
  assert (persistent_peers (ld_config ld) = []) as Hpp'.
  { pose proof (sd_load _ _ _ _ _ _ _ _ _ _ _ HS) as Hl. unfold load_all in Hl. rewrite Hnc in Hl. simpl in Hl.
    do 8 apply result_bind_Ok in Hl as (? & _ & Hl). injection Hl as <-. simpl. by destruct p2p. }
  assert (peers.1 = mkPeerMap []) as Ep.
  { pose proof (sd_peers _ _ _ _ _ _ _ _ _ _ _ HS) as Hp. unfold choose_peers in Hp. rewrite Hpp' in Hp. by injection Hp as <-. }
  destruct (sd_sync _ _ _ _ _ _ _ _ _ _ _ HS) as (st & Hc & Eapp & _). rewrite Ep in Hc.
  destruct (catch_up_cases _ _ _ _ _ _ _ Hc) as [[Es Est]|(Hne & _)]; [|done]. rewrite Es, Eapp, Est. split.
  - pose proof (sd_restore _ _ _ _ _ _ _ _ _ _ _ HS) as Hr. unfold restore_state in Hr. injection Hr as <- _. simpl.
    by rewrite Hh.
  - by exists (ld_evm_genesis ld).
Qed.

(** ** A running node *)

(** A request body whose raw transaction, if it carries one, has a nonce that
    respects EIP-2681. *)
Definition body_ok (body : Value) : Prop :=
  ∀ req bytes, parse_request body = Some req → raw_bytes req = Some bytes → exec_op_ok (XSubmit bytes).

(** One event of a running node, in whatever order its tasks produce them: a
    transaction from a peer, an HTTP request, a sync request, or any work of
    the consensus engine (or of the start-up sync) on application and store. *)
Inductive node_step : NodeState → NodeState → Prop :=
  | step_gossip n bytes : exec_op_ok (XSubmit bytes) → node_step n (on_gossip n bytes)
  | step_rpc n body : nd_serve_rpc n = true → body_ok body → node_step n (on_rpc n body)
  | step_sync n id req : nd_serve_sync n = true → node_step n (on_sync_request n id req)
  | step_engine (IQ : HashIter Z SenderQueue) (IA : HashIter Z DbAccount) (IS : HashIter Z Z) n app store :
      app_reach (Block := Block) (mkShared (nd_executor n)) app → node_step n (on_engine n app store).

Lemma gossip_recv_cases x bytes :
  gossip_recv x bytes = if Executor.validate_tx x bytes then x else exec_step x (XSubmit bytes).
Proof.
  unfold gossip_recv, shared_validate_tx. simpl. destruct (Executor.validate_tx x bytes); [done|].
  unfold add_tx. simpl. by destruct (submit_raw_tx x bytes).
Qed.

Lemma handle_rpc_exec st body :
  body_ok body → ∃ ops, Forall exec_op_ok ops ∧ executor (handle_rpc st body).1 = fold_left exec_step ops (executor st).
Proof.
  intros Hok. unfold handle_rpc. destruct (parse_request body) as [req|] eqn:Hp; [|by exists []].
  pose proof (dispatch_effect st req) as Hd. cbv zeta in Hd. destruct (dispatch st req) as [st' resp]. simpl in *.
  destruct Hd as [_ [[E _]|[(_ & bytes & Hb & E & _)|(_ & _ & fr & to & data & value & gas & Ha & E)]]]; rewrite E.
  - by exists [].
  - exists [XSubmit bytes]. rewrite Forall_singleton. split; [by eapply Hok|done].
  - exists [XCall fr to data value gas]. by rewrite Forall_singleton.
Qed.

Lemma node_step_exec n n' :
  node_step n n' → ∃ ops, Forall exec_op_ok ops ∧ nd_executor n' = fold_left exec_step ops (nd_executor n).
Proof.
  intros [n0 bytes Hb|n0 body _ Hb|n0 id req _|IQ IA IS n0 app store Hr].
  - unfold nd_executor at 1. simpl. rewrite gossip_recv_cases.
    destruct (Executor.validate_tx _ bytes); [by exists []|exists [XSubmit bytes]; by rewrite Forall_singleton].
  - by apply handle_rpc_exec.
  - by exists [].
  - by apply shared_reach, app_reach_exec in Hr.
Qed.

Lemma node_run_exec n n' :
  rtc node_step n n' → ∃ ops, Forall exec_op_ok ops ∧ nd_executor n' = fold_left exec_step ops (nd_executor n).
Proof.
  induction 1 as [n|n n1 n2 Hstep _ (ops2 & Hops2 & ->)]; [by exists []|].
  destruct (node_step_exec _ _ Hstep) as (ops1 & Hops1 & ->). exists (ops1 ++ ops2).
  rewrite fold_left_app, Forall_app. done.
Qed.

(** C10. A node is safe from its start on: however gossip, JSON-RPC requests,
    sync requests and consensus interleave, no transaction is ever executed
    twice, every executed one is behind its sender's nonce, and the pool's hash
    index is exact. *)
Theorem node_safe `{!TxHashOk} `{!HashIter Z SenderQueue} `{!HashIter Z DbAccount} `{!HashIter Z Z}
    obs pcs fs home rpc p2p r n :
  run_node obs pcs fs home rpc p2p = Ok r → rtc node_step (node_of r) n →
  let x := nd_executor n in
  NoDup (tx_hash <$> concat (receipts x)) ∧ Forall (spent (state x)) (concat (receipts x)) ∧
  index_ok (slot (senders (inner (txpool x)))) (by_hash (inner (txpool x))).
Proof.
  intros Hrun Hsteps x. destruct (run_node_started _ _ _ _ _ _ _ Hrun) as (ld & s & es & peers & HS).
  destruct (started_executor _ _ _ _ _ _ _ _ _ _ _ HS) as (ops1 & Hops1 & E1).
  destruct (node_run_exec _ _ Hsteps) as (ops2 & Hops2 & E2). change (nd_executor (node_of r)) with (shared (eng_app (run_engine r))) in E2.
  assert (x = exec_run (ld_evm_genesis ld) (ops1 ++ ops2)) as ->.
  { unfold x. rewrite E2, E1. unfold exec_run. by rewrite fold_left_app. }
  assert (Forall exec_op_ok (ops1 ++ ops2)) as Hops by by apply Forall_app.
  destruct (recorded_run (ld_evm_genesis ld) _ Hops) as [_ Hsp Hnd].
  by destruct (exec_run_pool (ld_evm_genesis ld) _ Hops) as [_ Hi _].
Qed.

Lemma node_run_inv (P : NodeState → Prop) n n' :
  (∀ y z, P y → node_step y z → P z) → rtc node_step n n' → P n → P n'.
Proof. intros Hstep. induction 1 as [|n n1 n2 Hs _ IH]; [done|]. eauto. Qed.

(** Every status response sent carries [st], and so will the next. *)
Definition reports (st : ConsensusStatus) (n : NodeState) : Prop :=
  nd_status n = st ∧ ∀ id h v e, (id, StatusResponse h v e) ∈ nd_sent n →
    h = status_height st ∧ v = status_view st ∧ e = status_epoch st.

Lemma reports_step st n n' : reports st n → node_step n n' → reports st n'.
Proof.
  intros [Est Hs] Hstep. destruct Hstep as [n bytes|n body|n id0 req|? ? ? n app store]; try done.
  split; [done|]. intros id h v e [Hin|Hin%list_elem_of_singleton]%elem_of_app; [by eapply Hs|].
  destruct req; simpl in Hin; simplify_eq. done.
Qed.

(** The sync status never changes after the start: every status response a node
    ever sends carries the height, view and epoch it restored from disk, however
    many blocks it has executed since. *)
Theorem sync_status_frozen `{!HashIter Z SenderQueue} `{!HashIter Z DbAccount} `{!HashIter Z Z}
    obs pcs fs home rpc p2p r n id h v e :
  run_node obs pcs fs home rpc p2p = Ok r → rtc node_step (node_of r) n →
  (id, StatusResponse h v e) ∈ nd_sent n →
  h = status_height (run_status r) ∧ v = status_view (run_status r) ∧ e = status_epoch (run_status r) ∧
  (∀ h0, load_last_committed_height pcs = Some h0 → h = h0).
Proof.
  intros Hrun Hsteps Hin. destruct (run_node_started _ _ _ _ _ _ _ Hrun) as (ld & s & es & peers & HS).
  assert (∀ h0, load_last_committed_height pcs = Some h0 → status_height (run_status r) = h0) as Hdisk.
  { intros h0 E. rewrite (sd_status _ _ _ _ _ _ _ _ _ _ _ HS). pose proof (sd_restore _ _ _ _ _ _ _ _ _ _ _ HS) as Hr.
    unfold restore_state in Hr. injection Hr as <- _. simpl. by rewrite E. }
  assert (reports (run_status r) n) as [_ Hinv].
  { eapply node_run_inv; [apply reports_step|done|]. split; [done|]. by intros ? ? ? ? ?%not_elem_of_nil. }
  destruct (Hinv _ _ _ _ Hin) as (-> & -> & ->). by split_and!.
Qed.
End NodeProps.

(** ** Witnesses *)

Section Concrete.
#[local] Existing Instance toy_codec.
#[local] Existing Instance toy_codec_ok.
#[local] Existing Instance toy_hash_ok.
#[local] Existing Instance senders_order.
#[local] Existing Instance accounts_order.
#[local] Existing Instance slots_order.
#[local] Existing Instance std_u256.

(** Files of a validator, of the same validator in fullnode mode, and of a
    validator with peers. *)
Definition files : Fs :=
  ({["n/config/config.toml" := "validator"; "n/config/priv_validator_key.json" := "bb"]}%string : gmap string string).
Definition fullnode_files : Fs := <["n/config/config.toml"%string := "fullnode"%string]> (files : gmap string string).
Definition peer_files : Fs := <["peers"%string := ""%string]> (files : gmap string string).

Definition seen_peer : Observed := mkObserved 0 [(0, 500); (0, 1000); (1, 1200)] 1.
Definition persisted : PersistentConsensusState := mkPersistent (Some 5) (Some 11) (Some 12) (Some 4) None.

Lemma init_then_load_witness :
  choose_evm_genesis (run_init ∅ "n").1 (evm_genesis_path "n") = Ok default_dev_genesis.
Proof. exact (proj2 (init_then_load ∅ "n" (run_init ∅ "n").1 eq_refl)). Defined.

Definition demo_store : BlockStore := {[1 := 1; 2 := 2; 3 := 4; 250 := 300]}.

Lemma sync_batch_exact_witness :
  ∃ bs, handle_sync_request demo_store (mkStatus 0 0 0 0 0) (GetBlocks 2 500) = Blocks bs ∧
    ((3, 4), Some 3) ∈ bs ∧ ((250, 300), Some 250) ∉ bs.
Proof.
  destruct (sync_batch_exact demo_store (mkStatus 0 0 0 0 0) 2 500) as (bs & E & _ & Hbs & _).
  - apply (bool_decide_unpack _). by vm_compute.
  - by vm_compute.
  - exists bs. split; [done|]. split; [apply Hbs|rewrite Hbs].
    + split_and!; by vm_compute.
    + simpl. lia.
Defined.

(** A node at height 4 with three peers: the first refuses, the second brings it
    to height 5, the third is not asked. *)
Definition demo_sync_state : SyncState SharedExecutor :=
  mkSyncState _ (demo_store : BlockStore) (mkShared (exec_run demo_genesis [XSetup])) (mkEpoch 0 0 ([0; 1] : ValidatorSet)) 4 0 None None.

Lemma sync_first_success_witness :
  let '(st', synced) := sync_from_peers 0 [(0, 0); (1, 7); (2, 9)] demo_sync_state in
  synced = true ∧ 4 ≤ sync_height st' ∧ app_reach (Block := Block) (sync_app demo_sync_state) (sync_app st').
Proof.
  pose proof (sync_first_success 0 [(0, 0); (1, 7); (2, 9)] demo_sync_state) as Hs.
  assert ((sync_from_peers 0 [(0, 0); (1, 7); (2, 9)] demo_sync_state).2 = true) as E by by vm_compute.
  cbv zeta in Hs. destruct (sync_from_peers _ _ _) as [st' synced]. destruct Hs as (Hh & Ha & _).
  exact (conj E (conj Hh Ha)).
Defined.

(** The node of a start that succeeds. *)
Definition running_of (r : result StartError Running) : is_ok r = true → Running :=
  match r with Ok r => λ _, r | Err _ => λ E, match Bool.diff_false_true E with end end.
Lemma running_of_eq r E : r = Ok (running_of r E).
Proof. by destruct r. Qed.

(** The start of a node with three peers, the first of which refuses; the second
    serves one block of view 7. *)
Lemma demo_run_ok : is_ok (run_node seen_peer persisted peer_files "n" None None) = true.
Proof. by vm_compute. Qed.
Definition demo_running : Running := running_of _ demo_run_ok.
Lemma demo_running_eq : run_node seen_peer persisted peer_files "n" None None = Ok demo_running.
Proof. apply running_of_eq. Qed.

(** A restart without peers. *)
Definition alone : Observed := mkObserved 0 [] 0.
Lemma demo_restart_ok : is_ok (run_node alone persisted files "n" None None) = true.
Proof. by vm_compute. Qed.
Definition demo_restarted : Running := running_of _ demo_restart_ok.
Lemma demo_restarted_eq : run_node alone persisted files "n" None None = Ok demo_restarted.
Proof. apply running_of_eq. Qed.

Lemma demo_store_views k b :
  get_block_by_height (eng_store (run_engine demo_running)) k = Some b → 0 ≤ blk_view b < 2 ^ 64 - 1.
Proof.
  assert (eng_store (run_engine demo_running) = ({[5 := 7]} : gmap Z Z)) as -> by by vm_compute.
  cbn [get_block_by_height demo_hotmint blk_view]. intros (v & Hv & ->)%fmap_Some.
  apply (lookup_singleton_Some (M := gmap Z)) in Hv as [_ <-]. by vm_compute.
Qed.

Lemma start_keeps_progress_witness :
  4 ≤ last_committed_height (eng_state (run_engine demo_running)) ∧
  locked_qc (eng_state (run_engine demo_running)) = Some 11.
Proof.
  destruct (start_keeps_progress seen_peer persisted peer_files "n" None None demo_running 4 5
    demo_running_eq demo_store_views eq_refl eq_refl ltac:(lia)) as (Hh & _ & Hl & _).
  split; [exact Hh|exact (Hl 11 eq_refl)].
Defined.

(** The demo run: one peer refuses, the next brings the node to height 5 and the
    view after the tip's; the executor has executed that one block. *)
Example demo_run_synced :
  last_committed_height (eng_state (run_engine demo_running)) = 5 ∧
  current_view (eng_state (run_engine demo_running)) = 8 ∧
  block_height (shared (eng_app (run_engine demo_running))) = 5.
Proof. by vm_compute. Qed.

(** Gossip, a raw transaction over JSON-RPC, a status request and a block. *)
Definition send_body : Value := JObject [
  ("jsonrpc", JString "2.0"); ("method", JString "eth_sendRawTransaction");
  ("params", JArray [JString (hex0x (toy_tx 5 0 3 30))]); ("id", JNumber "1")]%string.

Lemma toy_bytes_ok bytes : exec_op_ok (XSubmit bytes).
Proof.
  intros v Hv. destruct bytes as [|b1 [|b2 [|b3 [|b4 []]]]]; try done. injection Hv as <-.
  unfold nonce_ok. simpl. pose proof (Z_of_byte_range b2). lia.
Qed.

Definition demo_end : NodeState :=
  let n := on_gossip (node_of demo_running) (toy_tx 6 0 3 30) in
  let n := on_sync_request (on_rpc n send_body) 42 GetStatus in
  on_engine n (shared_execute_block (mkShared (nd_executor n)) demo_txs1 (mkBlockContext 6 1 0)).1 (nd_store n).

Lemma demo_end_run : rtc node_step (node_of demo_running) demo_end.
Proof.
  eapply rtc_l; [apply step_gossip, toy_bytes_ok|]. eapply rtc_l; [apply step_rpc; [by vm_compute|]|].
  { intros req bytes _ _. apply toy_bytes_ok. }
  eapply rtc_l; [apply (step_sync _ 42 GetStatus); by vm_compute|]. apply rtc_once, (step_engine _ _ _).
  set (a := mkShared _). exact (reach_execute (Block := Block) a a demo_txs1 (mkBlockContext 6 1 0) (reach_refl a)).
Qed.

Lemma node_safe_witness : NoDup (tx_hash <$> concat (receipts (nd_executor demo_end))).
Proof. exact (proj1 (node_safe seen_peer persisted peer_files "n" None None demo_running demo_end demo_running_eq demo_end_run)). Defined.

(** The node of this run has executed block 6 and still reports height 4. *)
Lemma sync_status_frozen_witness :
  nd_sent demo_end = [(42, StatusResponse 4 5 0)] ∧ length (receipts (nd_executor demo_end)) = 2%nat ∧
  (∀ h v e, (42, StatusResponse h v e) ∈ nd_sent demo_end → h = 4).
Proof.
  split_and!; [by vm_compute..|]. intros h v e Hin.
  destruct (sync_status_frozen seen_peer persisted peer_files "n" None None demo_running demo_end 42 h v e
    demo_running_eq demo_end_run Hin) as (_ & _ & _ & Hd).
  exact (Hd 4 eq_refl).
Defined.

(** A genesis validator configured as a fullnode is announced as one ("no
    consensus participation") and still gets an engine that signs with its
    validator key and id. *)
Theorem fullnode_mode_still_signs :
  ∃ r, run_node alone persisted fullnode_files "n" None None = Ok r ∧
    run_log_fullnode r = true ∧ eng_signer (run_engine r) = ("bb"%string, 1) ∧
    1 ∈ validator_ids (cs_validator_set (eng_state (run_engine r))).
Proof. eexists. split; [reflexivity|]. split_and!; [by vm_compute..|].
  change (1 ∈ [0; 1]). set_solver. Qed.

Lemma restart_forgets_execution_witness :
  last_committed_height (eng_state (run_engine demo_restarted)) = 4 ∧ block_height (shared (eng_app (run_engine demo_restarted))) = 0.
Proof.
  destruct (restart_forgets_execution alone persisted files "n" None None demo_restarted 4 demo_restarted_eq eq_refl)
    as (Hh & g & _ & Hb & _).
  - eexists. split; [reflexivity|]. by vm_compute.
  - exact (conj Hh Hb).
Defined.
End Concrete.
