(* ===== verification/Network.v ===== *)
(** A network of nodes.

    Nodes share a chain that consensus decides block by block.  Each node, at
    its own pace, executes the next decided block, commits it, builds payloads,
    serves JSON-RPC requests, receives transactions that other nodes broadcast
    (in any order, any number of times, or never) and answers sync requests.
    Consensus is abstracted to its agreement: there is one chain, of any blocks.
    Every request is allowed, [eth_call] too; the network remembers which nodes
    have served one.  The theorems: the network refines a replicated state
    machine, nodes at the same position that have served no call agree, no node pools or proposes a transaction that was not
    accepted over JSON-RPC somewhere, and gossip delivers. *)
From S2P Require Import Prelude Types Hex Tx State StateModel StateLemmas StateProps StateEquiv Precompile Executor ExecutorModel.
From S2P Require Import ExecutorProps ExecutorPool EndToEnd Replication Application Host Rpc RpcProps Node NodeModel NodeProps.
From S2P Require Import TxPool TxPoolQueue TxPoolSubmit TxPoolIndex TxPoolPayload TxPoolInv TxPoolProps.

Section Network.
Context `{EvmOk} `{!TxCodec} `{!HexCrate} `{!TxCodecOk} {VO : VsdbOk} {RO : RevmOk} {EP : EvmPure} `{!U256Hex}.
Context `{Hotmint} `{!GenesisJson}.
Implicit Types (n : NodeState) (chain : list block) (bytes : list byte).

(** ** Steps *)

(** The last field is a history variable: the nodes that have served a request
    which runs the EVM on the live database.  [eth_call] and [eth_estimateGas]
    load accounts into the cache that the next block flushes into the trie
    ([Replication.call_splits_replicas]), so that what is shown of a node's ledger
    below is shown of the nodes that have served none. *)
Record Network := mkNetwork {
  net_nodes : list NodeState;
  net_chain : list block;
  net_called : gset nat;
}.

(** The number of blocks a node has executed. *)
Definition position n : nat := length (receipts (nd_executor n)).
(** What a node has handed to the network, and what all of them have. *)
Definition sent_by n : list (list byte) := default [] (network_sink (nd_rpc n)).
Definition on_air (ns : list NodeState) : list (list byte) := ns ≫= sent_by.

(** A request that runs the EVM on the live database. *)
Definition call_body (body : Value) : bool :=
  match parse_request body with
  | Some req => (method req =? "eth_call")%string || (method req =? "eth_estimateGas")%string
  | None => false
  end.

(** One event at a node, given the decided chain and the broadcasts so far; the
    flag says that it is an [eth_call] or [eth_estimateGas].  Requests are any
    JSON bodies.  The network is closed: gossip brings what its nodes have
    broadcast, in any order, any number of times, or never. *)
Inductive local_step (chain : list block) (air : list (list byte)) (n : NodeState) : bool → NodeState → Prop :=
  | local_execute (IA : HashIter Z DbAccount) (IS : HashIter Z Z) b store :
      chain !! position n = Some b →
      local_step chain air n false (on_engine n (shared_execute_block (mkShared (nd_executor n)) b.1 b.2).1 store)
  | local_commit (IQ : HashIter Z SenderQueue) b blk store :
      (0 < position n)%nat → chain !! pred (position n) = Some b →
      local_step chain air n false (on_engine n (shared_on_commit (Block := Block) (mkShared (nd_executor n)) blk b.2).1 store)
  | local_payload (IQ : HashIter Z SenderQueue) ctx store :
      local_step chain air n false (on_engine n (shared_create_payload (mkShared (nd_executor n)) ctx).1 store)
  | local_rpc body : nd_serve_rpc n = true → body_ok body → local_step chain air n (call_body body) (on_rpc n body)
  | local_gossip bytes : bytes ∈ air → local_step chain air n false (on_gossip n bytes)
  | local_sync id req : nd_serve_sync n = true → local_step chain air n false (on_sync_request n id req).

Definition note_call (c : bool) (i : nat) (called : gset nat) : gset nat := if c then {[ i ]} ∪ called else called.

Inductive net_step : Network → Network → Prop :=
  | net_decide ns chain called b : net_step (mkNetwork ns chain called) (mkNetwork ns (chain ++ [b]) called)
  | net_local ns chain called i n c n' :
      ns !! i = Some n → local_step chain (on_air ns) n c n' →
      net_step (mkNetwork ns chain called) (mkNetwork (<[i := n']> ns) chain (note_call c i called)).

(** A node that has just started from genesis [g], and a network of such. *)
Definition fresh (g : EvmGenesis) n : Prop := nd_executor n = build_executor g ∧ network_sink (nd_rpc n) = Some [].
Definition net_start (g : EvmGenesis) (net : Network) : Prop :=
  Forall (fresh g) (net_nodes net) ∧ net_chain net = [] ∧ net_called net = ∅.

(** ** A step at a node is at most one call into its executor *)

(** A local step that is a call of the executor: an [eth_call] only when flagged,
    a block only from the chain, a submission of new bytes only with their
    broadcast. *)
Record local_call chain (air : list (list byte)) n (c : bool) n' (op : exec_op) : Prop := {
  lc_exec : nd_executor n' = exec_step (nd_executor n) op;
  lc_call : c = false → no_call op;
  lc_block b : op_block op = Some b → chain !! position n = Some b;
  lc_sent : match op with
            | XSubmit bytes =>
              (bytes ∈ air ∧ network_sink (nd_rpc n') = network_sink (nd_rpc n)) ∨
              (exec_op_ok op ∧ network_sink (nd_rpc n') =
                 if is_ok (submit_raw_tx (nd_executor n) bytes).2 then (λ l, l ++ [bytes]) <$> network_sink (nd_rpc n)
                 else network_sink (nd_rpc n))
            | _ => exec_op_ok op ∧ network_sink (nd_rpc n') = network_sink (nd_rpc n)
            end;
}.

Lemma local_step_call chain air n c n' :
  local_step chain air n c n' →
  (nd_executor n' = nd_executor n ∧ network_sink (nd_rpc n') = network_sink (nd_rpc n)) ∨ ∃ op, local_call chain air n c n' op.
Proof.
  intros Hstep. destruct Hstep as [IA IS b store Hb|IQ b blk store Hpos Hb|IQ ctx store|body _ Hok|bytes Hair|id req _].
  - right. exists (XBlock IA IS b.1 b.2). split; try done.
    + unfold nd_executor at 1. simpl. by rewrite shared_execute_block_eq.
    + intros b' [= <-]. by destruct b.
  - right. exists (XCommit IQ b.2). by split.
  - right. exists (XPayload IQ). by split.
  - unfold on_rpc, handle_rpc, call_body. destruct (parse_request body) as [req|] eqn:Hp; [|by left].
    pose proof (dispatch_effect (nd_rpc n) req) as Hd. cbv zeta in Hd.
    destruct (dispatch (nd_rpc n) req) as [st resp]. unfold nd_executor. simpl in *.
    destruct Hd as [_ [[E Es]|[(_ & bytes & Hb & E & Es)|(Hm & Es & from & to & data & value & gas & Hfr & E)]]]; [by left|right..].
    + exists (XSubmit bytes). split; [done..|]. right. split; [by eapply Hok|done].
    + exists (XCall from to data value gas). split; try done. intros Hc. by destruct Hm as [Hm|Hm]; rewrite Hm in Hc.
  - unfold on_gossip, nd_executor. simpl. rewrite gossip_recv_cases.
    destruct (Executor.validate_tx _ bytes); [by left|]. right. exists (XSubmit bytes). split; [done..|]. by left.
  - by left.
Qed.

(** ** The invariant of a node *)

(** A transaction whose bytes are on the air. *)
Definition broadcast (air : list (list byte)) (v : VerifiedTx) : Prop := ∃ bytes, bytes ∈ air ∧ decode_and_recover bytes = Ok v.

(** What holds of every node, and what holds of one that has served no call. *)
Record ledger_inv (g : EvmGenesis) chain n : Prop := {
  li_ledger : ledger_of (nd_executor n) ≡ chain_ledger g (take (position n) chain);
  li_ledger_ok : ledger_ok (ledger_of (nd_executor n));
}.

Record node_inv (g : EvmGenesis) chain (air : list (list byte)) n : Prop := {
  ni_position : (position n ≤ length chain)%nat;
  ni_pool : node_pool g (broadcast air) (nd_executor n);
  ni_nonce_fn : nonce_fn (inner (txpool (nd_executor n))) = Some nonce_closure;
  ni_sink : is_Some (network_sink (nd_rpc n));
}.

(** Broadcast transactions respect EIP-2681. *)
Definition air_ok (air : list (list byte)) : Prop := Forall (λ bytes, exec_op_ok (XSubmit bytes)) air.

Lemma node_inv_mono g chain chain' air air' n :
  chain `prefix_of` chain' → air ⊆ air' → node_inv g chain air n → node_inv g chain' air' n.
Proof.
  intros [rest ->] Hair [Hp Hpool Hn Hs]. split; try done.
  - rewrite length_app. lia.
  - eapply node_pool_mono; [|done]. intros v (bytes & Hb & Hd). exists bytes. auto.
Qed.

Lemma admission_nonce_fn {Env} cfg (i i' : PoolInner Env) env e r : admission cfg i env e i' r → nonce_fn i' = nonce_fn i.
Proof. by intros []. Qed.

Lemma exec_nonce_fn (p : EvmTxPool NonceEnv) op :
  match op with OpSetNonceFn _ => True | _ => nonce_fn (inner (exec p op)) = nonce_fn (inner p) end.
Proof.
  destruct op as [f|env bytes|order mb mg|order f|fee]; simpl; try done.
  - destruct (submit_tx_inner p env bytes) as [->|(v & r & _ & Hadm & _)]; [done|]. by apply admission_nonce_fn in Hadm.
  - generalize (included (select_all (inner p) mb mg)) as l. generalize (inner p) as i. intros i l. revert i.
    induction l as [|sn l IH]; intros i; simpl; [done|]. rewrite IH. unfold remove_included.
    destruct (senders i !! sn.1) as [q|]; [|done]. by destruct (pending q !! sn.2).
Qed.

Lemma exec_step_nonce_fn (x : EvmExecutor) op :
  nonce_fn (inner (txpool x)) = Some nonce_closure → nonce_fn (inner (txpool (exec_step x op))) = Some nonce_closure.
Proof.
  intros Hn. destruct op as [|bytes|fr to data value gas|? ? txs ctx|order|order ctx]; simpl; try done.
  - pose proof (exec_nonce_fn (txpool x) (OpSubmit (Some (state x)) bytes)) as E. simpl in E. unfold submit_raw_tx.
    destruct (submit_tx _ _ _). simpl in *. by rewrite E.
  - unfold eth_call. by destruct (transact_one _ _ _ _ _) as [[? ?] ?].
  - unfold execute_block. by destruct (state_root _).
  - etrans; [exact (exec_nonce_fn (txpool x) (OpCollect order (4 * 1024 * 1024) (block_gas_limit (Executor.config x))))|done].
Qed.

Lemma exec_step_receipts (x : EvmExecutor) op :
  length (receipts (exec_step x op)) = match op_block op with Some _ => S (length (receipts x)) | None => length (receipts x) end.
Proof.
  destruct op as [|bytes|fr to data value gas|? ? txs ctx|order|order ctx]; simpl; try done.
  - unfold submit_raw_tx. by destruct (submit_tx _ _ _).
  - unfold eth_call. by destruct (transact_one _ _ _ _ _) as [[? ?] ?].
  - unfold execute_block. destruct (state_root _). simpl. rewrite length_app. simpl. lia.
Qed.

(** A call moves the position by the block it executes. *)
Lemma call_position chain air n c n' op :
  local_call chain air n c n' op → (position n ≤ length chain)%nat →
  position n' = match op_block op with Some _ => S (position n) | None => position n end ∧ (position n' ≤ length chain)%nat.
Proof.
  intros [Ex _ Hblock _] Hp. assert (position n' = match op_block op with Some _ => S (position n) | None => position n end) as E.
  { unfold position. by rewrite Ex, exec_step_receipts. }
  split; [done|]. rewrite E. destruct (op_block op) as [b|]; [|done]. by apply lookup_lt_Some with b, Hblock.
Qed.

Lemma call_ledger g chain air n n' op :
  local_call chain air n false n' op → (position n ≤ length chain)%nat → ledger_inv g chain n → ledger_inv g chain n'.
Proof.
  intros Hc Hp [Hl Hok]. destruct (call_position _ _ _ _ _ _ Hc Hp) as [Epos _]. destruct Hc as [Ex Hcall Hblock _].
  destruct (exec_step_refines _ _ op (Hcall eq_refl) Hl Hok) as [El Hok']. rewrite <- Ex in El, Hok'.
  split; [|done]. rewrite Epos. destruct (op_block op) as [b|]; simpl in El; [|done].
  by rewrite (take_S_r _ _ _ (Hblock b eq_refl)), chain_ledger_snoc.
Qed.

(** What a local step adds to the sink: nothing, or one accepted transaction. *)
Lemma call_sent chain air n c n' op :
  local_call chain air n c n' op → is_Some (network_sink (nd_rpc n)) →
  is_Some (network_sink (nd_rpc n')) ∧
  (sent_by n' = sent_by n ∨ ∃ bytes, sent_by n' = sent_by n ++ [bytes] ∧ exec_op_ok (XSubmit bytes)).
Proof.
  intros [_ _ _ Hs] [l El]. unfold sent_by. destruct op as [|bytes| | | |]; try (destruct Hs as [_ ->]; rewrite El; eauto).
  destruct Hs as [[_ ->]|[Hok ->]]; [rewrite El; eauto|]. destruct (is_ok _); rewrite El; simpl; eauto.
Qed.

Lemma call_admits chain air air' n c n' op :
  local_call chain air n c n' op → is_Some (network_sink (nd_rpc n)) → air_ok air → air ⊆ air' → sent_by n' ⊆ air' →
  exec_op_ok op ∧ admits (broadcast air') (nd_executor n) op.
Proof.
  intros [_ _ _ Hs] [l El] Hair Hsub Hsent. destruct op as [|bytes| | | |]; simpl in *; try (by destruct Hs as [? _]).
  destruct Hs as [[Hin _]|[Hok E]].
  - split; [exact (proj1 (Forall_forall _ _) Hair bytes Hin)|]. intros v Hv _. exists bytes. auto.
  - split; [done|]. intros v Hv Hacc. exists bytes. split; [|done]. apply Hsent. unfold sent_by. rewrite E, Hacc, El.
    simpl. apply elem_of_app. right. by apply list_elem_of_singleton.
Qed.

Lemma local_step_inv g chain air air' n c n' :
  local_step chain air n c n' → air_ok air → air ⊆ air' → sent_by n' ⊆ air' → node_inv g chain air n → node_inv g chain air' n'.
Proof.
  intros Hstep Hair Hsub Hsent Hinv. pose proof Hinv as [Hp Hpool Hn Hs].
  pose proof (node_inv_mono g chain chain air air' n (reflexivity _) Hsub Hinv) as Hinv'.
  apply local_step_call in Hstep as [[Ex Es]|[op Hc]].
  - destruct Hinv'. split; unfold position in *; rewrite ?Ex, ?Es; done.
  - destruct (call_position _ _ _ _ _ _ Hc Hp) as [_ Hp'].
    destruct (call_admits chain air air' n c n' op Hc Hs Hair Hsub Hsent) as [Hop Hadm].
    pose proof (lc_exec _ _ _ _ _ _ Hc) as Ex. split; try done; rewrite ?Ex.
    + by apply node_pool_step, Hinv'.
    + by apply exec_step_nonce_fn.
    + by eapply call_sent.
Qed.

Lemma local_step_ledger g chain air n n' :
  local_step chain air n false n' → (position n ≤ length chain)%nat → ledger_inv g chain n → ledger_inv g chain n'.
Proof.
  intros [[Ex _]|[op Hc]]%local_step_call Hp Hl; [|by eapply call_ledger].
  destruct Hl. split; unfold position in *; by rewrite Ex.
Qed.

Lemma ledger_inv_mono g chain b n : (position n ≤ length chain)%nat → ledger_inv g chain n → ledger_inv g (chain ++ [b]) n.
Proof. intros Hp [Hl Hok]. split; [|done]. by rewrite take_app_le. Qed.

(** ** The network *)

Lemma elem_of_air ns bytes : bytes ∈ on_air ns ↔ ∃ i n, ns !! i = Some n ∧ bytes ∈ sent_by n.
Proof.
  unfold on_air. rewrite list_elem_of_bind. split.
  - intros (n & Hb & [i Hi]%list_elem_of_lookup). eauto.
  - intros (i & n & Hi & Hb). exists n. split; [done|]. by eapply list_elem_of_lookup_2.
Qed.

(** The air after a node has moved, when its sink only grew. *)
Lemma air_insert ns i n n' :
  ns !! i = Some n → sent_by n ⊆ sent_by n' → on_air ns ⊆ on_air (<[i := n']> ns) ∧ sent_by n' ⊆ on_air (<[i := n']> ns).
Proof.
  intros Hi Hsub. assert (<[i := n']> ns !! i = Some n') as Hi' by (apply list_lookup_insert_eq; by eapply lookup_lt_Some).
  split; intros bytes Hb; apply elem_of_air; [|eauto]. apply elem_of_air in Hb as (j & m & Hj & Hb).
  destruct (decide (i = j)) as [<-|Hne]; [exists i, n'; simplify_eq; auto|]. exists j, m. by rewrite list_lookup_insert_ne.
Qed.

Record net_inv (g : EvmGenesis) (net : Network) : Prop := {
  nv_nodes : Forall (node_inv g (net_chain net) (on_air (net_nodes net))) (net_nodes net);
  nv_ledgers i n : net_nodes net !! i = Some n → i ∉ net_called net → ledger_inv g (net_chain net) n;
  nv_air : air_ok (on_air (net_nodes net));
}.

Lemma net_start_inv g net : net_start g net → net_inv g net.
Proof.
  intros (Hf & Ec & _). split.
  - eapply Forall_impl; [done|]. intros n [Ex Es]. rewrite Ec. split; unfold position; rewrite ?Ex, ?Es; try done.
    apply (node_pool_step g _ (Executor.from_genesis g) XSetup); [done..|apply node_pool_genesis].
  - intros i n Hi _. rewrite Forall_lookup in Hf. destruct (Hf i n Hi) as [Ex _]. rewrite Ec.
    split; unfold position; rewrite Ex; [done|apply genesis_ledger_ok].
  - apply Forall_forall. intros bytes (i & n & Hi & Hb)%elem_of_air. rewrite Forall_lookup in Hf. destruct (Hf i n Hi) as [_ Es].
    unfold sent_by in Hb. rewrite Es in Hb. by apply not_elem_of_nil in Hb.
Qed.

Lemma local_step_sent chain air n c n' :
  local_step chain air n c n' → is_Some (network_sink (nd_rpc n)) →
  sent_by n' = sent_by n ∨ ∃ bytes, sent_by n' = sent_by n ++ [bytes] ∧ exec_op_ok (XSubmit bytes).
Proof.
  intros [[_ Es]|[op Hc]]%local_step_call Hs; [left; unfold sent_by; by rewrite Es|]. by eapply call_sent.
Qed.

Lemma net_step_inv g net net' : net_step net net' → net_inv g net → net_inv g net'.
Proof.
  intros Hstep [Hn Hled Ha]. destruct Hstep as [ns chain called b|ns chain called i n c n' Hi Hl]; simpl in *.
  - split; simpl; [|intros i n Hi Hc|done].
    + eapply Forall_impl; [done|]. intros n. apply node_inv_mono; [by eexists|done].
    + apply ledger_inv_mono; [|by eapply Hled]. by eapply (proj1 (Forall_lookup _ _) Hn).
  - assert (node_inv g chain (on_air ns) n) as Hni by by eapply (proj1 (Forall_lookup _ _) Hn).
    pose proof (local_step_sent _ _ _ _ _ Hl (ni_sink _ _ _ _ Hni)) as Hsent.
    destruct (air_insert ns i n n' Hi) as [Hsub Hsub']; [destruct Hsent as [->|(? & -> & _)]; set_solver|].
    split; simpl.
    + apply Forall_insert; [|by eapply local_step_inv]. eapply Forall_impl; [done|]. intros m. by apply node_inv_mono.
    + intros j m Hj Hcd. destruct (decide (i = j)) as [<-|Hne].
      * rewrite list_lookup_insert_eq in Hj by by eapply lookup_lt_Some. injection Hj as <-.
        destruct c; simpl in Hcd; [set_solver|]. eapply local_step_ledger; [done|apply Hni|by eapply Hled].
      * rewrite list_lookup_insert_ne in Hj by done. apply (Hled j m Hj). destruct c; set_solver.
    + apply Forall_forall. intros bytes (j & m & Hj & Hb)%elem_of_air. unfold air_ok in Ha. rewrite Forall_forall in Ha.
      destruct (decide (i = j)) as [<-|Hne].
      * rewrite list_lookup_insert_eq in Hj by by eapply lookup_lt_Some. injection Hj as <-.
        destruct Hsent as [E|(bs & E & Hok)]; rewrite E in Hb; [apply Ha, elem_of_air; eauto|].
        apply elem_of_app in Hb as [Hb|Hb]; [apply Ha, elem_of_air; eauto|by apply list_elem_of_singleton in Hb as ->].
      * rewrite list_lookup_insert_ne in Hj by done. apply Ha, elem_of_air. eauto.
Qed.

Lemma net_reach_inv g net net' : rtc net_step net net' → net_inv g net → net_inv g net'.
Proof. induction 1; eauto using net_step_inv. Qed.

(** ** Refinement of a replicated state machine *)

(** The abstract machine: one chain, and how much of it each node has applied. *)
Record Rsm := mkRsm { rsm_chain : list block; rsm_applied : list nat }.

Inductive rsm_step : Rsm → Rsm → Prop :=
  | rsm_decide c at_ b : rsm_step (mkRsm c at_) (mkRsm (c ++ [b]) at_)
  | rsm_apply c at_ i k : at_ !! i = Some k → (k < length c)%nat → rsm_step (mkRsm c at_) (mkRsm c (<[i := S k]> at_)).

Definition abstract (net : Network) : Rsm := mkRsm (net_chain net) (position <$> net_nodes net).

Lemma net_step_simulates g net net' : net_step net net' → net_inv g net → rtc rsm_step (abstract net) (abstract net').
Proof.
  intros Hstep [Hn _ _]. destruct Hstep as [ns chain called b|ns chain called i n c n' Hi Hl]; unfold abstract; simpl in *.
  - apply rtc_once, rsm_decide.
  - assert (node_inv g chain (on_air ns) n) as Hni by by eapply (proj1 (Forall_lookup _ _) Hn).
    assert ((position <$> ns) !! i = Some (position n)) as Hpos by by rewrite list_lookup_fmap, Hi.
    rewrite list_fmap_insert. apply local_step_call in Hl as [[Ex _]|[op Hc]].
    + replace (position n') with (position n) by (unfold position; by rewrite Ex). by rewrite list_insert_id.
    + destruct (call_position _ _ _ _ _ _ Hc (ni_position _ _ _ _ Hni)) as [E Hle]. rewrite E in Hle |- *.
      destruct (op_block op); [|by rewrite list_insert_id]. apply rtc_once, rsm_apply; [done|lia].
Qed.

(** C3. The network refines a replicated state machine.  Whatever the nodes are
    asked, [eth_call] included, and however their events interleave, a run of the
    network is a run of the machine that only decides blocks and applies the next
    decided block at some node; and the ledger of each node that has served no
    [eth_call] or [eth_estimateGas] is what applying its part of the chain in
    order gives, whatever the other nodes have served. *)
Theorem network_refines_rsm g net0 net :
  net_start g net0 → rtc net_step net0 net →
  rtc rsm_step (abstract net0) (abstract net) ∧
  ∀ i n, net_nodes net !! i = Some n →
    (position n ≤ length (net_chain net))%nat ∧
    (i ∉ net_called net → ledger_of (nd_executor n) ≡ chain_ledger g (take (position n) (net_chain net))).
Proof.
  intros Hs Hr. apply net_start_inv in Hs. split.
  - revert Hs. induction Hr as [|x y z Hstep _ IH]; intros Hs; [done|].
    etrans; [by eapply net_step_simulates|]. eauto using net_step_inv.
  - intros i n Hi. pose proof (net_reach_inv g _ _ Hr Hs) as [Hn Hl _]. split; [by destruct (proj1 (Forall_lookup _ _) Hn i n Hi)|].
    intros Hc. by destruct (Hl i n Hi Hc).
Qed.

(** ** Agreement *)

Lemma prefix_takes {A} (c : list A) k l : (k ≤ l)%nat → take k c `prefix_of` take l c.
Proof. intros Hle. exists (drop k (take l c)). rewrite <- (take_drop k (take l c)) at 1. by rewrite take_take, Nat.min_l. Qed.

(** C8. Agreement across the network, whatever other nodes are asked: of any two
    nodes that have served no [eth_call] or [eth_estimateGas], at any time, one's
    receipts are the first of the other's; if they have executed equally many
    blocks they have the same receipts, accept the same transactions from gossip,
    answer every query alike when their committed heights are equal too, and
    return the same application hash for the next block. *)
Theorem network_agrees (IA1 IA2 : HashIter Z DbAccount) (IS1 IS2 : HashIter Z Z) g net0 net i j n m :
  net_start g net0 → rtc net_step net0 net → net_nodes net !! i = Some n → net_nodes net !! j = Some m →
  i ∉ net_called net → j ∉ net_called net →
  let x := nd_executor n in let y := nd_executor m in
  (receipts x `prefix_of` receipts y ∨ receipts y `prefix_of` receipts x) ∧
  (position n = position m →
   receipts x = receipts y ∧ (∀ bytes, Executor.validate_tx x bytes = Executor.validate_tx y bytes) ∧
   (∀ path data, block_height x = block_height y → query x path data = query y path data) ∧
   ∀ txs ctx, (@execute_block _ _ _ _ _ IA1 IS1 x txs ctx).2 = (@execute_block _ _ _ _ _ IA2 IS2 y txs ctx).2).
Proof.
  intros Hs Hr Hi Hj Hci Hcj x y. apply net_start_inv in Hs. pose proof (net_reach_inv g _ _ Hr Hs) as [_ Hn _].
  destruct (Hn i n Hi Hci) as [El1 Hok1], (Hn j m Hj Hcj) as [El2 Hok2].
  pose proof (lgq_receipts _ _ El1) as R1. pose proof (lgq_receipts _ _ El2) as R2. simpl in R1, R2. fold x in R1. fold y in R2. split.
  - rewrite R1, R2. destruct (Nat.le_ge_cases (position n) (position m)); [left|right];
      by apply chain_receipts_prefix, prefix_takes.
  - intros Ep. assert (ledger_of x ≡ ledger_of y) as E by (unfold x, y; by rewrite El1, El2, Ep).
    split_and!; [by apply agree_receipts|intros; by apply agree_validate|intros; by apply agree_query|intros; by apply agree_block].
Qed.

(** ** Transactions *)

(** C9. No node makes up transactions: a transaction known to the pool of any
    node, or proposed in its next payload, was accepted over JSON-RPC and
    broadcast by some node, in a network where gossip brings what its nodes have
    broadcast. *)
Theorem no_forged_transactions (IQ : HashIter Z SenderQueue) g net0 net i n :
  net_start g net0 → rtc net_step net0 net → net_nodes net !! i = Some n →
  let x := nd_executor n in
  (∀ h, contains (txpool x) h = true →
     ∃ j m bytes v, net_nodes net !! j = Some m ∧ bytes ∈ sent_by m ∧ decode_and_recover bytes = Ok v ∧ vtx_hash v = h) ∧
  ∃ txs, parse_payload (create_payload x).2 = Some txs ∧
    Forall (λ bytes, ∃ j m, net_nodes net !! j = Some m ∧ bytes ∈ sent_by m) txs.
Proof.
  intros Hs Hr Hi x. apply net_start_inv in Hs. pose proof (net_reach_inv g _ _ Hr Hs) as [Hn _ _]. rewrite Forall_lookup in Hn.
  destruct (Hn i n Hi) as [_ [_ Hix Hq] _ _]. fold x in Hix, Hq.
  assert (∀ s q b k e, senders (inner (txpool x)) !! s = Some q → get_target b q !! k = Some e →
    ∃ j m bytes, net_nodes net !! j = Some m ∧ bytes ∈ sent_by m ∧ decode_and_recover bytes = Ok (verified e)) as Hent.
  { intros s q b k e Hsq He. destruct (proj2 (Hq s q Hsq) b k e He) as (bytes & (j & m & Hj & Hb)%elem_of_air & Hd).
    by exists j, m, bytes. }
  split.
  - intros h [s Hh]%bool_decide_eq_true. apply (ix_index _ _ Hix) in Hh as (b & k & e & He & Eh).
    unfold slot in He. apply bind_Some in He as (q & Hsq & He). destruct (Hent s q b k e Hsq He) as (j & m & bytes & Hj & Hb & Hd).
    by exists j, m, bytes, (verified e).
  - destruct (collect_heads (txpool x) (4 * 1024 * 1024) (block_gas_limit (Executor.config x))) as (chosen & Ep & Hc); [lia|].
    exists (cand_raw <$> chosen). split; [done|].
    apply Forall_fmap. eapply Forall_impl; [done|]. intros c (q & e & Hsq & Hf & _ & Eraw). apply btree_first_Some in Hf as [Hf _].
    destruct (Hent _ _ true _ _ Hsq Hf) as (j & m & bytes & Hj & Hb & Hd). exists j, m. split; [done|]. simpl.
    by rewrite Eraw, (decode_raw _ _ Hd).
Qed.

(** C18. Gossip delivers: a transaction on the air that passes validation at some
    node enters, when it is delivered, the pool of every node that has executed
    as many blocks, if it has its sender's next nonce and that pool knows neither
    it nor its sender; neither node has served an [eth_call]. *)
Theorem gossip_delivers g net0 net i j n m bytes v :
  net_start g net0 → rtc net_step net0 net → net_nodes net !! i = Some n → net_nodes net !! j = Some m →
  i ∉ net_called net → j ∉ net_called net →
  position n = position m → bytes ∈ on_air (net_nodes net) → Executor.validate_tx (nd_executor n) bytes ≠ Reject →
  decode_and_recover bytes = Ok v → env_nonce (envelope v) = get_nonce (state (nd_executor n)) (sender v) →
  contains (txpool (nd_executor m)) (vtx_hash v) = false → senders (inner (txpool (nd_executor m))) !! sender v = None →
  ∃ net', net_step net net' ∧ net_nodes net' = <[j := on_gossip m bytes]> (net_nodes net) ∧
    let p := txpool (nd_executor (on_gossip m bytes)) in
    contains p (vtx_hash v) = true ∧
    ∃ q e, senders (inner p) !! sender v = Some q ∧ pending q !! env_nonce (envelope v) = Some e ∧ raw (verified e) = bytes.
Proof.
  intros Hs Hr Hi Hj Hci Hcj Ep Hair Hval Hd Hnonce Hh Hsnd. apply net_start_inv in Hs.
  pose proof (net_reach_inv g _ _ Hr Hs) as [Hn Hl _].
  rewrite Forall_lookup in Hn. destruct (Hl i n Hi Hci) as [El1 _], (Hl j m Hj Hcj) as [El2 _], (Hn j m Hj) as [_ [Hcfg _ _] Hfn _].
  assert (ledger_of (nd_executor n) ≡ ledger_of (nd_executor m)) as E by by rewrite El1, El2, Ep.
  destruct net as [ns chain called]. simpl in *. exists (mkNetwork (<[j := on_gossip m bytes]> ns) chain called).
  split; [by apply (net_local _ _ _ _ m false), local_gossip|]. split; [done|]. cbv zeta.
  rewrite (agree_validate _ _ E) in Hval. set (y := nd_executor m) in *.
  assert (submit_tx (txpool y) (Some (state y)) bytes =
    (mkPool (config (txpool y)) (mkInner (<[sender v := first_queue (make_entry (config (txpool y)) v)]> (senders (inner (txpool y))))
       (<[vtx_hash v := sender v]> (by_hash (inner (txpool y)))) (nonce_fn (inner (txpool y)))), Ok (vtx_hash v))) as Esub.
  { apply submit_first; try done.
    - apply bool_decide_eq_false in Hh. by apply eq_None_not_Some.
    - unfold current_nonce_of. rewrite Hfn, Hnonce. simpl. symmetry. apply get_nonce_equiv; [apply E|by eapply decode_sender].
    - rewrite Hcfg. done. }
  unfold on_gossip, nd_executor. simpl. fold (nd_executor m). fold y. rewrite gossip_recv_cases.
  destruct (Executor.validate_tx y bytes); [done|]. simpl. unfold submit_raw_tx. rewrite Esub. simpl. split.
  - apply bool_decide_eq_true. simpl. rewrite lookup_insert_eq. eauto.
  - eexists _, _. rewrite lookup_insert_eq. split; [done|]. cbn [pending first_queue]. split; [apply lookup_singleton_eq|].
    simpl. by apply decode_raw.
Qed.

(** Submission over JSON-RPC does not validate: a transaction for another chain,
    with the next nonce of a sender new to the pool, is accepted and broadcast
    by the node that gets the request, and dropped by every node that hears it. *)
Theorem rpc_skips_validation (x : EvmExecutor) bytes v c :
  decode_and_recover bytes = Ok v → env_chain_id (envelope v) = Some c → c ≠ chain_id (Executor.config x) →
  0 < max_pending_per_sender (config (txpool x)) → nonce_fn (inner (txpool x)) = Some nonce_closure →
  env_nonce (envelope v) = get_nonce (state x) (sender v) →
  by_hash (inner (txpool x)) !! vtx_hash v = None → senders (inner (txpool x)) !! sender v = None →
  (submit_raw_tx x bytes).2 = Ok (vtx_hash v) ∧ gossip_recv x bytes = x.
Proof.
  intros Hd Hc Hne Hlim Hfn Hn Hh Hs. split.
  - unfold submit_raw_tx. erewrite submit_first; try done. unfold current_nonce_of. by rewrite Hfn, Hn.
  - rewrite gossip_recv_cases. unfold Executor.validate_tx, Tx.validate_tx, Executor.config in *. rewrite Hd, Hc.
    by rewrite (proj2 (Z.eqb_neq _ _) Hne).
Qed.

(** A node that starts without peers is fresh. *)
Lemma started_fresh `{!HashIter Z SenderQueue} `{!HashIter Z DbAccount} `{!HashIter Z Z} `{!OsOk} `{!GenesisJsonOk} `{!HotmintOk}
    obs pcs fs home rpc p2p r h :
  run_node obs pcs fs home rpc p2p = Ok r → load_last_committed_height pcs = Some h →
  (∃ nc, load_node_config fs (path_join (path_join home "config") "config.toml") = Ok nc ∧ persistent_peers nc = []) →
  ∃ g, fresh g (node_of r).
Proof.
  intros Hrun Hh Hnc. destruct (restart_forgets_execution _ _ _ _ _ _ _ _ Hrun Hh Hnc) as (_ & g & E & _). by exists g.
Qed.
End Network.

(** ** Witnesses *)

Section Concrete.
#[local] Existing Instance toy_codec.
#[local] Existing Instance toy_codec_ok.
#[local] Existing Instance std_u256.
#[local] Existing Instance senders_order.
#[local] Existing Instance accounts_order.
#[local] Existing Instance slots_order.

(** Three nodes; the sender 5 of [send_body] has funds. *)
Definition net_genesis : EvmGenesis := mkGenesis 1337 {[ 5 := mkAlloc (10 ^ 18) 0 [] ∅ ]} 30000000 1000000000 0 0.
Definition node0 : NodeState := mkNode (mkRpcState (build_executor net_genesis) 1337 (Some [])) true true ∅ (mkStatus 1 0 0 2 1) [].
Definition net0 : Network := mkNetwork [node0; node0; node0] [] ∅.

Lemma net0_start : net_start net_genesis net0.
Proof. split; [|done]. by repeat constructor. Qed.

(** Node 2 serves an [eth_call] and node 0 accepts a transaction; a block with it
    is decided and node 0 executes it. *)
Definition eth_call_body : Value := JObject [
  ("jsonrpc", JString "2.0"); ("method", JString "eth_call");
  ("params", JArray [JObject [("to", JString (hex0x (address_as_slice 7)))]]); ("id", JNumber "1")]%string.
Definition node2_called : NodeState := on_rpc node0 eth_call_body.
Definition node0_sent : NodeState := on_rpc node0 send_body.
Definition called2 : gset nat := note_call true 2 ∅.
Definition net_sent : Network := mkNetwork [node0_sent; node0; node2_called] [] called2.
Definition sent_block : block := ([toy_tx 5 0 3 30], block1).
Definition node0_executed : NodeState :=
  on_engine node0_sent (shared_execute_block (mkShared (nd_executor node0_sent)) sent_block.1 sent_block.2).1 (nd_store node0_sent).
Definition net_executed : Network := mkNetwork [node0_executed; node0; node2_called] [sent_block] called2.

Lemma net_sent_reach : rtc net_step net0 net_sent.
Proof.
  assert (call_body eth_call_body = true) as E2 by by vm_compute. assert (call_body send_body = false) as E0 by by vm_compute.
  eapply rtc_l.
  - apply (net_local [node0; node0; node0] [] ∅ 2 node0 (call_body eth_call_body) node2_called); [done|].
    apply local_rpc; [done|]. intros req bytes _ _. apply toy_bytes_ok.
  - rewrite E2. apply rtc_once, (net_local [node0; node0; node2_called] [] called2 0 node0 false node0_sent); [done|].
    rewrite <- E0. apply local_rpc; [done|]. intros req bytes _ _. apply toy_bytes_ok.
Qed.

Lemma net_executed_reach : rtc net_step net0 net_executed.
Proof.
  etrans; [apply net_sent_reach|]. eapply rtc_l; [apply (net_decide _ _ _ sent_block)|]. simpl.
  apply rtc_once, (net_local [node0_sent; node0; node2_called] [sent_block] _ 0 node0_sent false node0_executed); [done|].
  apply (local_execute _ _ _ _ _ sent_block). by vm_compute.
Qed.

Lemma not_called_0 : 0%nat ∉ called2.
Proof. unfold called2, note_call. set_solver. Qed.
Lemma not_called_1 : 1%nat ∉ called2.
Proof. unfold called2, note_call. set_solver. Qed.

Lemma network_refines_rsm_witness :
  rtc rsm_step (mkRsm [] [0%nat; 0%nat; 0%nat]) (mkRsm [sent_block] [1%nat; 0%nat; 0%nat]) ∧
  ledger_of (nd_executor node0_executed) ≡ chain_ledger net_genesis [sent_block].
Proof.
  destruct (network_refines_rsm net_genesis net0 net_executed net0_start net_executed_reach) as [Hr Hl]. split; [exact Hr|].
  exact (proj2 (Hl 0%nat node0_executed eq_refl) not_called_0).
Defined.

Lemma network_agrees_witness :
  receipts (nd_executor node0) `prefix_of` receipts (nd_executor node0_executed) ∧ length (receipts (nd_executor node0_executed)) = 1%nat.
Proof.
  split; [|by vm_compute].
  destruct (network_agrees accounts_order accounts_order slots_order slots_order net_genesis net0 net_executed 1 0 node0 node0_executed
    net0_start net_executed_reach eq_refl eq_refl not_called_1 not_called_0) as [[Hp|[k Hk]] _]; [exact Hp|]. by eexists.
Defined.

Lemma no_forged_transactions_witness :
  ∃ txs, parse_payload (create_payload (nd_executor node0_sent)).2 = Some txs ∧
    Forall (λ bytes, ∃ j m, [node0_sent; node0; node2_called] !! j = Some m ∧ bytes ∈ sent_by m) txs.
Proof.
  exact (proj2 (no_forged_transactions _ net_genesis net0 net_sent 0 node0_sent net0_start net_sent_reach eq_refl)).
Defined.

Lemma gossip_delivers_witness :
  contains (txpool (nd_executor (on_gossip node0 (toy_tx 5 0 3 30)))) (from_le_bytes (toy_tx 5 0 3 30)) = true.
Proof.
  assert (position node0_sent = position node0) as Ep by by vm_compute.
  assert (toy_tx 5 0 3 30 ∈ on_air (net_nodes net_sent)) as Hair.
  { apply elem_of_air. exists 0%nat, node0_sent. split; [reflexivity|].
    assert (sent_by node0_sent = [toy_tx 5 0 3 30]) as -> by by vm_compute. by constructor. }
  assert (Executor.validate_tx (nd_executor node0_sent) (toy_tx 5 0 3 30) ≠ Reject) as Hval by by vm_compute.
  assert (decode_and_recover (toy_tx 5 0 3 30) = Ok (toy_verified 5 0 3 30)) as Hd by by vm_compute.
  assert (0 = get_nonce (state (nd_executor node0_sent)) 5) as Hn by by vm_compute.
  assert (contains (txpool (nd_executor node0)) (vtx_hash (toy_verified 5 0 3 30)) = false) as Hc by by vm_compute.
  destruct (gossip_delivers net_genesis net0 net_sent 0 1 node0_sent node0 (toy_tx 5 0 3 30) (toy_verified 5 0 3 30)
    net0_start net_sent_reach eq_refl eq_refl not_called_0 not_called_1 Ep Hair Hval Hd Hn Hc eq_refl) as (net' & _ & _ & Hin & _). exact Hin.
Defined.
End Concrete.
