(* ===== verification/Cluster.v ===== *)
(** crates/node/src/cluster.rs: a local cluster of nodes.

    The hotmint-mgmt framework and process creation are the class [Mgmt].
    [init_evm_cluster] works on the file system of [Host]; [start_evm_nodes]
    returns the actions it takes, in order, and the children it has. *)
From S2P Require Import Prelude Types Hex Application Host Node NodeModel NodeProps.

Record ValidatorNode := mkValidatorNode { v_id : Z; home_dir : string }.
Record ClusterState := mkClusterState { validators : list ValidatorNode }.

Class Mgmt `{Os} : Type := {
  find_free_ports : Z → list Z;
  init_cluster : Fs → string → Z → string → Z → Z → string → Fs * result RucError unit;
  load_cluster_state : Fs → string → result RucError ClusterState;
  loopback_addr : string;
  format_host_port : string → Z → string;
  Child : Type;
  create_log : string → result string unit;                 (* File::create and try_clone *)
  spawn : string → list string → string → result string Child;  (* binary, arguments, log file *)
}.

Section Cluster.
Context `{Mgmt} `{!GenesisJson}.

(** ** init_evm_cluster *)

Definition node_dir (base_dir : string) (i : Z) : string := path_join base_dir ("v" +:+ pretty i).

(** [for i in 0..validator_count]: the genesis into every node's directory *)
Fixpoint write_genesis (fs : Fs) (base_dir json : string) (idxs : list Z) : Fs * result RucError unit :=
  match idxs with
  | [] => (fs, Ok tt)
  | i :: rest =>
    let config_dir := path_join (node_dir base_dir i) "config" in
    let '(fs, r) := fs_write fs (path_join config_dir "evm-genesis.json") json in
    match eg r with
    | Ok _ => write_genesis fs base_dir json rest
    | Err e => (fs, Err e)
    end
  end.

Definition index_panic : StartError := Panicked "index out of bounds".

(** Panics and errors leave the file system as it is at that point.  The number
    of ports and the indices are u32 products, which wrap. *)
Definition init_evm_cluster (fs : Fs) (base_dir : string) (validator_count : Z) (chain_id : string)
    (evm_genesis : EvmGenesis) (bind_ip : string) : Fs * result StartError (ClusterState * list Z) :=
  let ports := find_free_ports (wrapping_mul 32 validator_count 3) in
  let eth_from := Z.to_nat (wrapping_mul 32 validator_count 2) in
  match ports !! 0%nat, ports !! Z.to_nat validator_count, decide (eth_from ≤ length ports)%nat with
  | Some p2p_base, Some rpc_base, left _ =>
    let eth_rpc_ports := drop eth_from ports in
    let '(fs, r) := init_cluster fs base_dir validator_count chain_id p2p_base rpc_base bind_ip in
    match r with
    | Err e => (fs, Err (Failed e))
    | Ok _ =>
      match eg (genesis_to_string_pretty evm_genesis) with
      | Err e => (fs, Err (Failed e))
      | Ok json =>
        let '(fs, r) := write_genesis fs base_dir json (seqZ 0 validator_count) in
        match r with
        | Err e => (fs, Err (Failed e))
        | Ok _ =>
          (fs, state ← failed (load_cluster_state fs base_dir); Ok (state, eth_rpc_ports))
        end
      end
    end
  | _, _, _ => (fs, Err index_panic)
  end.

(** ** start_evm_nodes *)

(** [KillStale] is the framework's [kill_stale_nodes], which ends what an earlier
    run of a cluster in that directory left running. *)
Inductive Launch :=
  | KillStale (base_dir : string)
  | CreateLog (path : string)
  | Spawn (binary : string) (args : list string) (log : string)
  | SleepMs (ms : Z).

Definition log_path (base_dir : string) (v : ValidatorNode) : string := path_join base_dir ("v" +:+ pretty (v_id v) +:+ ".log").
Definition node_args (v : ValidatorNode) (port : Z) : list string :=
  ["--home"; home_dir v; "node"; "--rpc-addr"; format_host_port loopback_addr port]%string.

(** The loop over the validators from index [i]; a failure is a panic that
    leaves the children already spawned. *)
Fixpoint start_loop (binary base_dir : string) (count : nat) (ports : list Z) (i : nat) (vs : list ValidatorNode)
    (acts : list Launch) (children : list Child) : list Launch * list Child * option string :=
  match vs with
  | [] => (acts, children, None)
  | v :: rest =>
    match create_log (log_path base_dir v) with
    | Err e => (acts, children, Some "create log file"%string)
    | Ok _ =>
      let acts := acts ++ [CreateLog (log_path base_dir v)] in
      match ports !! i with
      | None => (acts, children, Some "index out of bounds"%string)
      | Some port =>
        match spawn binary (node_args v port) (log_path base_dir v) with
        | Err e => (acts, children, Some ("spawn V" +:+ pretty (v_id v) +:+ ": " +:+ e))
        | Ok child =>
          let acts := acts ++ [Spawn binary (node_args v port) (log_path base_dir v)] in
          let acts := if (i <? count - 1)%nat then acts ++ [SleepMs 300] else acts in
          start_loop binary base_dir count ports (S i) rest acts (children ++ [child])
        end
      end
    end
  end.

Definition start_evm_nodes (binary : string) (state : ClusterState) (base_dir : string) (eth_rpc_ports : list Z)
    : list Launch * list Child * option string :=
  start_loop binary base_dir (length (validators state)) eth_rpc_ports 0 (validators state) [KillStale base_dir] [].
End Cluster.

(** The framework hands out as many ports as asked for, all different. *)
Class MgmtOk `{Mgmt} : Prop := {
  ports_length n : 0 ≤ n → Z.of_nat (length (find_free_ports n)) = n;
  ports_NoDup n : NoDup (find_free_ports n);
}.

Section ClusterProps.
Context `{MgmtOk} `{!GenesisJson} `{!OsOk} `{!GenesisJsonOk}.

(** ** Initialization *)

Lemma write_genesis_reads fs base json idxs fs' p :
  write_genesis fs base json idxs = (fs', Ok tt) →
  fs_read fs p = Ok json ∨ p ∈ (λ i, evm_genesis_path (node_dir base i)) <$> idxs →
  fs_read fs' p = Ok json.
Proof.
  revert fs. induction idxs as [|i idxs IH]; intros fs; simpl.
  - intros [= <-] [Hr|Hin]; [done|by apply not_elem_of_nil in Hin].
  - destruct (fs_write _ _ _) as [fs1 [[]|e]] eqn:Hw; simpl; [|done]. intros Hrest Hp. apply (IH fs1 Hrest).
    destruct (decide (p = evm_genesis_path (node_dir base i))) as [->|Hne]; [left; by eapply fs_read_write|].
    destruct Hp as [Hr|[->|Hin]%elem_of_cons]; [left; by rewrite (fs_read_write_ne _ _ _ _ p Hw)|done|by right].
Qed.

(** C25. A successful cluster initialization gives every validator an Ethereum
    RPC port of its own, different from the base ports of P2P and consensus
    RPC, and every node of the cluster will load exactly the given genesis. *)
Theorem cluster_initialized fs base n cid g ip fs' st ports :
  0 < n → 3 * n < 2 ^ 32 → genesis_doc_wf g →
  init_evm_cluster fs base n cid g ip = (fs', Ok (st, ports)) →
  Z.of_nat (length ports) = n ∧ NoDup ports ∧
  (∃ p2p_base rpc_base, find_free_ports (3 * n) !! 0%nat = Some p2p_base ∧
     find_free_ports (3 * n) !! Z.to_nat n = Some rpc_base ∧ p2p_base ∉ ports ∧ rpc_base ∉ ports) ∧
  (∀ i, 0 ≤ i < n → choose_evm_genesis fs' (evm_genesis_path (node_dir base i)) = Ok g).
Proof.
  intros Hn Hmax Hg. unfold init_evm_cluster.
  replace (wrapping_mul 32 n 3) with (3 * n) by (unfold wrapping_mul; rewrite wrap_small; ulia).
  replace (wrapping_mul 32 n 2) with (2 * n) by (unfold wrapping_mul; rewrite wrap_small; ulia).
  pose proof (ports_length (3 * n) ltac:(lia)) as Hlen. pose proof (ports_NoDup (3 * n)) as Hnd.
  set (all := find_free_ports (3 * n)) in *.
  destruct (all !! 0%nat) as [p2p|] eqn:H0'; [|done]. destruct (all !! Z.to_nat n) as [rpc|] eqn:Hrpc; [|done].
  destruct (decide _) as [Hle|]; [|done]. destruct (init_cluster _ _ _ _ _ _ _) as [fs1 [[]|e]]; [|done].
  destruct (genesis_to_string_pretty g) as [json|e] eqn:Hj; [|done]. simpl.
  destruct (write_genesis _ _ _ _) as [fs2 [[]|e]] eqn:Hw; [|done].
  destruct (load_cluster_state fs2 base) as [st'|e]; [|done]. intros [= <- <- <-].
  assert (∀ k p, (k < Z.to_nat (2 * n))%nat → all !! k = Some p → p ∉ drop (Z.to_nat (2 * n)) all) as Hout.
  { intros k p Hk Hp (j & Hl)%list_elem_of_lookup. rewrite lookup_drop in Hl.
    pose proof (NoDup_lookup _ _ _ _ Hnd Hp Hl). lia. }
  split_and!.
  - rewrite length_drop. lia.
  - eapply sublist_NoDup; [done|apply sublist_drop].
  - exists p2p, rpc. split_and!; try done; eapply Hout; try done; lia.
  - intros i Hi. assert (fs_read fs2 (evm_genesis_path (node_dir base i)) = Ok json) as Hr.
    { eapply write_genesis_reads; [done|]. right. apply list_elem_of_fmap. exists i. split; [done|]. apply elem_of_seqZ. lia. }
    unfold choose_evm_genesis. rewrite (fs_read_exists _ _ _ Hr). unfold load. rewrite Hr. simpl.
    by rewrite (genesis_parses g json Hg Hj).
Qed.

(** ** Launch *)

(** What launching validator [i] of [count] does. *)
Definition launch_one (binary base : string) (count : nat) (ports : list Z) (i : nat) (v : ValidatorNode) : list Launch :=
  CreateLog (log_path base v) ::
  match ports !! i with
  | Some port =>
    Spawn binary (node_args v port) (log_path base v) :: (if (i <? count - 1)%nat then [SleepMs 300] else [])
  | None => []
  end.

Lemma start_loop_ok binary base count ports vs i acts children :
  (∀ p, is_ok (create_log p) = true) → (∀ args log, is_ok (spawn binary args log) = true) →
  (i + length vs ≤ length ports)%nat →
  let '(acts', children', panic) := start_loop binary base count ports i vs acts children in
  panic = None ∧ length children' = (length children + length vs)%nat ∧
  acts' = acts ++ concat (imap (λ j v, launch_one binary base count ports (i + j) v) vs).
Proof.
  intros Hlog Hspawn. revert i acts children. induction vs as [|v vs IH]; intros i acts children Hle.
  - simpl. rewrite app_nil_r. split_and!; [done|lia|done].
  - cbn [start_loop length] in *. specialize (Hlog (log_path base v)) as Hl. destruct (create_log _) as [[]|]; [|done].
    destruct (lookup_lt_is_Some_2 ports i) as [port Hport]; [lia|]. rewrite Hport.
    specialize (Hspawn (node_args v port) (log_path base v)) as Hs. destruct (spawn _ _ _) as [child|]; [|done].
    set (acts1 := if (i <? count - 1)%nat then _ else _). specialize (IH (S i) acts1 (children ++ [child]) ltac:(lia)).
    destruct (start_loop _ _ _ _ _ _ _ _) as [[acts' children'] panic]. destruct IH as (-> & Hlen & ->).
    rewrite length_app in Hlen. simpl in Hlen. split_and!; [done|lia|].
    assert (acts1 = acts ++ launch_one binary base count ports (i + 0) v) as ->.
    { unfold acts1, launch_one. rewrite Nat.add_0_r, Hport. destruct (i <? count - 1)%nat; by rewrite <- !app_assoc. }
    rewrite <- app_assoc, imap_cons. cbn [concat]. do 3 f_equal. apply imap_ext. intros j w _. unfold compose. f_equal. lia.
Qed.

(** When the host cooperates and there is a port for every validator, the
    launcher first ends stale nodes and then starts exactly one process per
    validator, in order, each with its own home directory and the port of its
    index, sleeping between two starts but not after the last. *)
Theorem nodes_started binary st base ports :
  (∀ p, is_ok (create_log p) = true) → (∀ args log, is_ok (spawn binary args log) = true) →
  (length (validators st) ≤ length ports)%nat →
  ∃ children,
    start_evm_nodes binary st base ports =
      (KillStale base :: concat (imap (launch_one binary base (length (validators st)) ports) (validators st)), children, None) ∧
    length children = length (validators st).
Proof.
  intros Hlog Hspawn Hle. unfold start_evm_nodes.
  pose proof (start_loop_ok binary base (length (validators st)) ports (validators st) 0 [KillStale base] [] Hlog Hspawn Hle) as Hs.
  destruct (start_loop _ _ _ _ _ _ _ _) as [[acts children] panic]. destruct Hs as (-> & Hlen & ->).
  by exists children.
Qed.
End ClusterProps.

(** ** Witnesses *)

(** A framework that hands out the ports from 20000 and keeps the cluster state
    in the number of its validators. *)
#[export] Instance demo_mgmt : Mgmt := {|
  find_free_ports n := seqZ 20000 n;
  init_cluster fs base n _ _ _ _ := (fs, Ok tt);
  load_cluster_state _ base :=
    Ok (mkClusterState ((λ i, mkValidatorNode i (node_dir base i)) <$> [0; 1; 2; 3]));
  loopback_addr := "127.0.0.1";
  format_host_port h p := h +:+ ":" +:+ pretty p;
  Child := unit;
  create_log _ := Ok tt;
  spawn _ _ _ := Ok tt |}.

#[export] Instance demo_mgmt_ok : MgmtOk.
Proof.
  split; cbn [find_free_ports demo_mgmt]; intros n; [|apply NoDup_seqZ].
  intros Hn. rewrite length_seqZ. lia.
Qed.

Definition no_files : Fs := (∅ : gmap string string).
Definition demo_cluster : Fs * result StartError (ClusterState * list Z) :=
  init_evm_cluster no_files "base" 4 "evm" default_dev_genesis "127.0.0.1".
Definition demo_cluster_state : ClusterState := mkClusterState ((λ i, mkValidatorNode i (node_dir "base" i)) <$> [0; 1; 2; 3]).

Lemma demo_cluster_eq : demo_cluster = (demo_cluster.1, Ok (demo_cluster_state, [20008; 20009; 20010; 20011])).
Proof.
  assert (demo_cluster.2 = Ok (demo_cluster_state, [20008; 20009; 20010; 20011])) as E by by vm_compute.
  rewrite <- E. by destruct demo_cluster.
Qed.

Lemma cluster_initialized_witness :
  choose_evm_genesis demo_cluster.1 (evm_genesis_path "base/v3") = Ok default_dev_genesis.
Proof.
  destruct (cluster_initialized no_files "base" 4 "evm" default_dev_genesis "127.0.0.1" demo_cluster.1
    demo_cluster_state [20008; 20009; 20010; 20011] ltac:(lia) ltac:(lia) default_dev_genesis_doc demo_cluster_eq)
    as (_ & _ & _ & Hload).
  exact (Hload 3 ltac:(lia)).
Defined.

Lemma nodes_started_witness :
  ∃ children, start_evm_nodes "nb" demo_cluster_state "base" [20008; 20009; 20010; 20011] =
    (KillStale "base" :: concat (imap (launch_one "nb" "base" 4 [20008; 20009; 20010; 20011]) (validators demo_cluster_state)), children, None).
Proof.
  destruct (nodes_started "nb" demo_cluster_state "base" [20008; 20009; 20010; 20011]) as (children & E & _);
    [done|done|by apply (bool_decide_unpack _)|]. exists children. exact E.
Defined.
