(* ===== verification/Bench.v ===== *)
(** crates/node/src/bench.rs: the throughput benchmark.

    The client talks to a server of any type [S] through [post], which sends a
    JSON body and returns the JSON reply, if there is one; the server may change
    between any two calls, so a polling loop takes the clock and the server it
    finds in each round.  alloy's signer is the class [Signer].  Elapsed times
    and the throughput computed from them are only printed and not modelled. *)
From S2P Require Import Prelude Types Hex Tx State Precompile Executor Host Rpc Node Cluster.
From Stdlib Require Import Ascii.

Definition NUM_VALIDATORS : Z := 4.
Definition ETH : Z := 1000000000000000000.
Definition CONFIRM_TIMEOUT_SECS : Z := 120.

(** ** Genesis and transactions *)

Definition bench_evm_genesis (sender recipient : Address) : EvmGenesis := {|
  genesis_chain_id := 1337;
  genesis_alloc :=
    <[recipient := mkAlloc 0 0 [] ∅]>
      (<[sender := mkAlloc (wrapping_mul 256 1000000 ETH) 0 [] ∅]> ∅);
  genesis_gas_limit := 30000000;
  genesis_base_fee_per_gas := 1000000000;
  genesis_coinbase := 0;
  genesis_timestamp := 0 |}.

Record TxEip1559 := mkEip1559 {
  t_chain_id : Z; t_nonce : Z; t_gas_limit : Z; t_max_fee_per_gas : Z; t_max_priority_fee_per_gas : Z;
  t_to : TxKind; t_value : U256; t_input : list byte; t_access_list : list (Address * list B256);
}.

Class Signer : Type := {
  Signature : Type;
  signer_address : Address;
  sign_transaction_sync : TxEip1559 → result string Signature;
  encode_2718 : TxEip1559 → Signature → list byte;
}.

Definition bench_tx (recipient : Address) (chain_id nonce : Z) : TxEip1559 := {|
  t_chain_id := chain_id; t_nonce := nonce; t_gas_limit := 21000; t_max_fee_per_gas := 2000000000;
  t_max_priority_fee_per_gas := 1000000000; t_to := Call recipient; t_value := ETH / 1000; t_input := [];
  t_access_list := [] |}.

(** The raw transactions; [None] is the panic of [unwrap] on a signing error. *)
Fixpoint presign_from `{Signer} (recipient : Address) (chain_id nonce : Z) (count : nat) : option (list (list byte)) :=
  match count with
  | O => Some []
  | S count' =>
    let tx := bench_tx recipient chain_id nonce in
    sig ← ok (sign_transaction_sync tx);
    rest ← presign_from recipient chain_id (nonce + 1) count';
    Some (encode_2718 tx sig :: rest)
  end.
Definition presign_txs `{Signer} (recipient : Address) (chain_id : Z) (count : nat) : option (list (list byte)) :=
  presign_from recipient chain_id 0 count.

(** ** The RPC client *)

Definition strip_prefix_0x (s : string) : option string :=
  match s with String "0"%char (String "x"%char s') => Some s' | _ => None end.

Section Client.
Context {S : Type} (post : S → Value → S * option Value) `{HexCrate}.

Definition rpc_body (method : string) (params : Value) : Value := JObject [
  ("jsonrpc", JString "2.0"); ("method", JString method); ("params", params); ("id", JNumber "1")]%string.

Definition rpc_json (s : S) (method : string) (params : Value) : S * option Value := post s (rpc_body method params).

(** The quantity in a reply's result. *)
Definition result_u64 (resp : option Value) : option Z :=
  v ← resp;
  hex ← as_str (field v "result");
  digits ← strip_prefix_0x hex;
  ok (from_str_radix_16 64 digits).

Definition rpc_block_number (s : S) : S * option Z :=
  let '(s, resp) := rpc_json s "eth_blockNumber" (JArray []) in (s, result_u64 resp).
Definition rpc_get_nonce (s : S) (addr : Address) : S * option Z :=
  let '(s, resp) := rpc_json s "eth_getTransactionCount"
    (JArray [JString ("0x" +:+ hex_encode (address_as_slice addr)); JString "latest"]) in
  (s, result_u64 resp).
Definition rpc_send_raw_tx (s : S) (raw_tx : list byte) : S * bool :=
  let '(s, resp) := rpc_json s "eth_sendRawTransaction" (JArray [JString ("0x" +:+ hex_encode raw_tx)]) in
  (s, if resp then true else false).

(** ** Polling loops

    One round per element: the clock and the server.  [None]: still polling. *)

Fixpoint blocks_loop (deadline min_blocks : Z) (rounds : list (Z * S)) : option bool :=
  match rounds with
  | [] => None
  | (now, s) :: rest =>
    if now <? deadline then
      match (rpc_block_number s).2 with
      | Some height => if min_blocks <=? height then Some true else blocks_loop deadline min_blocks rest
      | None => blocks_loop deadline min_blocks rest
      end
    else Some false
  end.
Definition wait_for_blocks (start min_blocks timeout_secs : Z) (rounds : list (Z * S)) : option bool :=
  blocks_loop (start + 1000 * timeout_secs) min_blocks rounds.

(** The confirmed nonce; the elapsed time returned with it is only printed. *)
Fixpoint confirm_loop (deadline : Z) (sender : Address) (expected_nonce confirmed : Z) (rounds : list (Z * S)) : option Z :=
  match rounds with
  | [] => None
  | (now, s) :: rest =>
    if now <? deadline then
      match (rpc_get_nonce s sender).2 with
      | Some nonce =>
        if expected_nonce <=? nonce then Some nonce else confirm_loop deadline sender expected_nonce nonce rest
      | None => confirm_loop deadline sender expected_nonce confirmed rest
      end
    else Some confirmed
  end.
Definition wait_for_confirmations (sender : Address) (expected_nonce start timeout_secs : Z) (rounds : list (Z * S)) : option Z :=
  confirm_loop (start + 1000 * timeout_secs) sender expected_nonce 0 rounds.

(** ** run_bench *)

(** The submission loop: the count of requests that got a reply. *)
Fixpoint submit_all (s : S) (raw_txs : list (list byte)) (submitted : Z) : S * Z :=
  match raw_txs with
  | [] => (s, submitted)
  | raw_tx :: rest =>
    let '(s, sent) := rpc_send_raw_tx s raw_tx in
    submit_all s rest (if sent then wrapping_add 64 submitted 1 else submitted)
  end.

Record BenchReport := mkReport {
  rep_submitted : Z;
  rep_confirmed : Z;
  rep_start_block : Z;
  rep_end_block : Z;
  rep_blocks_produced : Z;
  rep_not_confirmed : option Z; (* the WARNING line *)
}.

Definition make_report (start_block submitted confirmed : Z) (last : option Z) : BenchReport :=
  let end_block := default start_block last in {|
    rep_submitted := submitted;
    rep_confirmed := confirmed;
    rep_start_block := start_block;
    rep_end_block := end_block;
    rep_blocks_produced := saturating_sub end_block start_block;
    rep_not_confirmed := if confirmed <? submitted then Some (submitted - confirmed) else None |}.

(** What a run observes: the clock (in ms) and the rounds of both loops, and the
    server at the start and at the end of the measurement. *)
Record BenchObserved := mkBenchObserved {
  bo_launched : Z; bo_warmup : list (Z * S); bo_server : S; bo_clock : Z; bo_rounds : list (Z * S); bo_end : S;
}.

Inductive BenchOutcome := StillRunning | NotStarted | BenchPanic | Report (r : BenchReport).

(** The part of [run_bench] after the cluster has been launched. *)
Definition run_bench `{Signer} (o : BenchObserved) (txs_to_submit : nat) : BenchOutcome :=
  match wait_for_blocks (bo_launched o) 1 30 (bo_warmup o) with
  | None => StillRunning
  | Some false => NotStarted
  | Some true =>
    match presign_txs (repeat_byte 0x42) 1337 txs_to_submit with
    | None => BenchPanic
    | Some raw_txs =>
      let '(s, start) := rpc_block_number (bo_server o) in
      let start_block := default 0 start in
      let '(s, submitted) := submit_all s raw_txs 0 in
      match wait_for_confirmations signer_address submitted (bo_clock o) CONFIRM_TIMEOUT_SECS (bo_rounds o) with
      | None => StillRunning
      | Some confirmed => Report (make_report start_block submitted confirmed (rpc_block_number (bo_end o)).2)
      end
    end
  end.
End Client.
