(* ===== verification/BenchProps.v ===== *)
(** Correctness of the benchmark: its client and the node's JSON-RPC server
    agree, its polling loops see what is on chain, and its transactions are
    valid on its genesis. *)
From S2P Require Import Prelude Types Hex Tx State StateModel StateLemmas StateProps Precompile Executor ExecutorModel.
From S2P Require Import ExecutorProps Host Rpc RpcProps Node NodeModel NodeProps Cluster Bench TxPool.

Section Server.
Context `{Evm} `{!TxCodec} `{!HexCrate} `{!U256Hex} `{!HexCrateOk} `{!U256HexOk}.
Implicit Types (s : EvmRpcState).

(** ** The client against the server *)

Lemma parse_rpc_body m ps : parse_request (rpc_body m ps) = Some (mkRequest (Some "2.0"%string) m ps (JNumber "1")).
Proof. done. Qed.

Lemma rpc_json_dispatch s m ps :
  rpc_json handle_rpc s m ps =
    ((dispatch s (mkRequest (Some "2.0"%string) m ps (JNumber "1"))).1,
     Some (response_json (dispatch s (mkRequest (Some "2.0"%string) m ps (JNumber "1"))).2)).
Proof. unfold rpc_json, handle_rpc. rewrite parse_rpc_body. by destruct (dispatch _ _). Qed.

Lemma result_u64_ok id v : is_u64 v → result_u64 (Some (response_json (rpc_ok id (to_hex_u64 v)))) = Some v.
Proof.
  intros Hv. unfold result_u64. cbn [mbind option_bind]. change (as_str (field _ _)) with (Some ("0x" +:+ format_x v)).
  cbn [mbind option_bind]. change (strip_prefix_0x ("0x" +:+ ?t)) with (Some t). cbn [mbind option_bind].
  by rewrite format_x_parse by (lia || done).
Qed.

Lemma client_block_number s :
  is_u64 (block_height (executor s)) → rpc_block_number handle_rpc s = (s, Some (block_height (executor s))).
Proof.
  intros Hh. unfold rpc_block_number. rewrite rpc_json_dispatch. unfold dispatch.
  cbn [method String.eqb Ascii.eqb Bool.eqb fst snd req_id]. by rewrite query_block_number_eq, result_u64_ok.
Qed.

Lemma client_nonce s a :
  is_address a → is_u64 (get_nonce (state (executor s)) a) →
  rpc_get_nonce handle_rpc s a = (s, Some (get_nonce (state (executor s)) a)).
Proof.
  intros Ha Hn. unfold rpc_get_nonce. rewrite rpc_json_dispatch. unfold dispatch.
  cbn [method String.eqb Ascii.eqb Bool.eqb fst snd req_id]. unfold rpc_get_transaction_count.
  destruct (parse_addr_block_encode a [JString "latest"] Ha) as [b Hp]. unfold address_json, hex0x in Hp.
  cbn [params]. rewrite Hp. cbn [req_id]. by rewrite query_nonce_eq, result_u64_ok.
Qed.

Lemma client_send s raw :
  (rpc_send_raw_tx handle_rpc s raw).2 = true ∧
  executor (rpc_send_raw_tx handle_rpc s raw).1 = (submit_raw_tx (executor s) raw).1 ∧
  network_sink (rpc_send_raw_tx handle_rpc s raw).1 =
    if is_ok (submit_raw_tx (executor s) raw).2 then (λ sent, sent ++ [raw]) <$> network_sink s else network_sink s.
Proof.
  unfold rpc_send_raw_tx. rewrite rpc_json_dispatch. unfold dispatch.
  cbn [method String.eqb Ascii.eqb Bool.eqb fst snd req_id]. unfold rpc_send_raw_transaction.
  cbn [params as_array mbind option_bind head as_str]. change (strip_0x ("0x" +:+ ?t)) with t.
  rewrite hex_decode_encode. by destruct (submit_raw_tx (executor s) raw) as [x [h|e]].
Qed.

(** C24. Client and server agree on the wire: through a JSON request and a JSON
    reply the client reads exactly the node's committed height and the account
    nonce of the sender, without changing the node, and sending raw bytes is one
    submission to the node's pool, broadcast exactly when accepted.  The client
    reports success in either case. *)
Theorem client_server_agree s a raw :
  is_address a → is_u64 (block_height (executor s)) → is_u64 (get_nonce (state (executor s)) a) →
  rpc_block_number handle_rpc s = (s, Some (block_height (executor s))) ∧
  rpc_get_nonce handle_rpc s a = (s, Some (get_nonce (state (executor s)) a)) ∧
  (let '(s', sent) := rpc_send_raw_tx handle_rpc s raw in
   sent = true ∧ executor s' = exec_step (executor s) (XSubmit raw) ∧
   network_sink s' = if is_ok (submit_raw_tx (executor s) raw).2
                     then (λ sent, sent ++ [raw]) <$> network_sink s else network_sink s).
Proof.
  intros Ha Hh Hn. split; [by apply client_block_number|]. split; [by apply client_nonce|].
  pose proof (client_send s raw) as Hs. by destruct (rpc_send_raw_tx handle_rpc s raw).
Qed.

(** ** Polling *)

(** Whether some round before the deadline satisfies [P]. *)
Definition seen (deadline : Z) (P : EvmRpcState → Prop) (rounds : list (Z * EvmRpcState)) : Prop :=
  ∃ k now s, rounds !! k = Some (now, s) ∧ now < deadline ∧ P s.

Lemma seen_cons deadline P now s rounds :
  StronglySorted (λ x y, x.1 ≤ y.1) ((now, s) :: rounds) →
  seen deadline P ((now, s) :: rounds) ↔ now < deadline ∧ (P s ∨ seen deadline P rounds).
Proof.
  intros [_ Hle]%StronglySorted_inv. rewrite Forall_forall in Hle. split.
  - intros ([|k] & now' & s' & Hk & Hlt & HP); simplify_eq/=; [auto|].
    specialize (Hle _ (list_elem_of_lookup_2 _ _ _ Hk)). simpl in Hle. split; [lia|]. right. by exists k, now', s'.
  - intros [Hlt [HP|(k & now' & s' & Hk & Hlt' & HP)]]; [by exists O, now, s|by exists (S k), now', s'].
Qed.

Lemma seen_nil deadline P : ¬ seen deadline P [].
Proof. by intros (k & now & s & Hk & _). Qed.

Lemma confirm_loop_spec deadline sender expected rounds : ∀ confirmed,
  is_address sender → confirmed < expected →
  StronglySorted (λ x y, x.1 ≤ y.1) rounds →
  Forall (λ r, is_u64 (get_nonce (state (executor r.2)) sender)) rounds →
  (∃ c, confirm_loop handle_rpc deadline sender expected confirmed rounds = Some c ∧ expected ≤ c) ↔
  seen deadline (λ s, expected ≤ get_nonce (state (executor s)) sender) rounds.
Proof.
  induction rounds as [|[now s] rounds IH]; intros confirmed Ha Hc Hs Hall.
  - split; [by intros (c & ? & _)|by intros ?%seen_nil].
  - rewrite seen_cons by done. apply StronglySorted_inv in Hs as [Hs _]. apply Forall_cons in Hall as [Hn Hall].
    simpl in Hn. cbn [confirm_loop]. rewrite client_nonce by done. cbn [snd].
    destruct (Z.ltb_spec now deadline).
    + destruct (Z.leb_spec expected (get_nonce (state (executor s)) sender)) as [Hle|Hlt].
      * split; [intros _; by auto|eauto].
      * rewrite (IH _ Ha Hlt Hs Hall). split; [by auto|]. by intros [_ [?|?]]; [lia|].
    + split; [|intros [? _]; lia]. intros (c & [= <-] & ?). lia.
Qed.

(** The benchmark confirms exactly what is on chain: polling nodes with a
    running clock, it returns a confirmed count of at least the expected one if
    and only if some node polled before the deadline has that account nonce in
    its state. *)
Theorem confirmations_exact sender expected start timeout rounds :
  is_address sender → 0 < expected →
  StronglySorted (λ x y, x.1 ≤ y.1) rounds →
  Forall (λ r, is_u64 (get_nonce (state (executor r.2)) sender)) rounds →
  (∃ c, wait_for_confirmations handle_rpc sender expected start timeout rounds = Some c ∧ expected ≤ c) ↔
  seen (start + 1000 * timeout) (λ s, expected ≤ get_nonce (state (executor s)) sender) rounds.
Proof. intros Ha He Hs Hall. by apply confirm_loop_spec. Qed.

(** The submission loop counts every transaction, accepted or not. *)
Lemma submit_all_counts raws s n :
  0 ≤ n → n + Z.of_nat (length raws) < 2 ^ 64 →
  (submit_all handle_rpc s raws n).2 = n + Z.of_nat (length raws) ∧
  executor (submit_all handle_rpc s raws n).1 = fold_left exec_step (XSubmit <$> raws) (executor s).
Proof.
  revert s n. induction raws as [|raw raws IH]; intros s n H0' Hn; [simpl; split; [lia|done]|].
  cbn [submit_all length] in *. pose proof (client_send s raw) as (Hsent & Hx & _).
  destruct (rpc_send_raw_tx handle_rpc s raw) as [s' sent]. simpl in Hsent, Hx. subst sent.
  rewrite wrapping_add_small by ulia. destruct (IH s' (n + 1)) as [-> ->]; [lia|lia|].
  split; [lia|]. simpl. by rewrite Hx.
Qed.

End Server.

(** ** The presigned transactions *)

(** The envelope a node sees of a signed EIP-1559 transaction with hash [h]. *)
Definition eip1559_envelope (tx : TxEip1559) (h : B256) : TxEnvelope := {|
  env_tx_type := 2; env_chain_id := Some (t_chain_id tx); env_nonce := t_nonce tx; env_gas_limit := t_gas_limit tx;
  env_max_fee_per_gas := t_max_fee_per_gas tx; env_max_priority_fee_per_gas := Some (t_max_priority_fee_per_gas tx);
  env_to := match t_to tx with Call a => Some a | Create => None end;
  env_value := t_value tx; env_input := t_input tx; env_tx_hash := h |}.

Definition eip1559_wf (tx : TxEip1559) : Prop :=
  is_u64 (t_chain_id tx) ∧ is_u64 (t_nonce tx) ∧ is_u64 (t_gas_limit tx) ∧ is_u128 (t_max_fee_per_gas tx) ∧
  is_u128 (t_max_priority_fee_per_gas tx) ∧ is_u256 (t_value tx) ∧
  match t_to tx with Call a => is_address a | Create => True end.

(** A local key signs every transaction, and the node's decoder recovers from
    the encoding the transaction and the key's address. *)
Class SignerOk `{Signer} `{TxCodec} : Prop := {
  signer_signs tx : ∃ sig, sign_transaction_sync tx = Ok sig;
  signer_decodes tx sig : eip1559_wf tx → sign_transaction_sync tx = Ok sig →
    ∃ h, decode_2718 (encode_2718 tx sig) = Ok (eip1559_envelope tx h) ∧
         recover_signer (eip1559_envelope tx h) = Ok signer_address;
}.

Section Presign.
Context `{Evm} {VO : VsdbOk} {RO : RevmOk} `{SignerOk} `{!HexCrate}.

Lemma presign_from_lookup recipient cid count : ∀ nonce,
  ∃ raws, presign_from recipient cid nonce count = Some raws ∧ length raws = count ∧
  ∀ k raw, raws !! k = Some raw → ∃ sig,
    sign_transaction_sync (bench_tx recipient cid (nonce + Z.of_nat k)) = Ok sig ∧
    raw = encode_2718 (bench_tx recipient cid (nonce + Z.of_nat k)) sig.
Proof.
  induction count as [|count IH]; intros nonce; [by exists []|]. simpl.
  destruct (signer_signs (bench_tx recipient cid nonce)) as [sig Hsig]. rewrite Hsig. simpl.
  destruct (IH (nonce + 1)) as (raws & -> & Hlen & Hall). simpl. eexists. split; [done|]. split; [simpl; lia|].
  intros [|k] raw Hk; simplify_eq/=.
  - exists sig. by rewrite Z.add_0_r.
  - destruct (Hall k raw Hk) as (sig' & E1 & E2). exists sig'.
    by replace (nonce + Z.of_nat (Datatypes.S k)) with (nonce + 1 + Z.of_nat k) by lia.
Qed.

Lemma from_genesis_config g :
  chain_id (st_config (State.from_genesis g)) = genesis_chain_id g ∧
  block_gas_limit (st_config (State.from_genesis g)) = genesis_gas_limit g ∧
  base_fee_per_gas (st_config (State.from_genesis g)) = genesis_base_fee_per_gas g.
Proof. unfold State.from_genesis. by destruct (fold_left _ _ _). Qed.

Lemma bench_genesis_wf a b : is_address a → is_address b → genesis_wf (bench_evm_genesis a b).
Proof.
  intros Ha Hb. apply map_Forall_insert_2; [split; [done|apply alloc_plain_wf; ulia]|].
  apply map_Forall_insert_2; [|apply map_Forall_empty]. split; [done|]. apply alloc_plain_wf, wrap_range. lia.
Qed.

(** The benchmark's transactions are what the benchmark needs: there are as
    many as asked for, the k-th decodes to a transfer of the signer with nonce
    k, and each passes the node's validation on the benchmark's genesis, with
    the tip and gas it was built with. *)
Theorem presigned_valid recipient count :
  is_address signer_address → is_address recipient → recipient ≠ signer_address → Z.of_nat count < 2 ^ 64 →
  ∃ raws, presign_txs recipient 1337 count = Some raws ∧ length raws = count ∧
  ∀ k raw, raws !! k = Some raw →
    ∃ v, decode_and_recover raw = Ok v ∧ sender v = signer_address ∧ env_nonce (envelope v) = Z.of_nat k ∧
      Executor.validate_tx (Executor.from_genesis (bench_evm_genesis signer_address recipient)) raw =
        AcceptWithGas 1000000000 21000.
Proof.
  intros Hs Hr Hne Hc. destruct (presign_from_lookup recipient 1337 count 0) as (raws & Hp & Hlen & Hall).
  exists raws. split; [done|]. split; [done|]. intros k raw Hk. pose proof (lookup_lt_Some _ _ _ Hk) as Hlt.
  destruct (Hall k raw Hk) as (sig & Hsig & Eraw). rewrite Z.add_0_l in Hsig, Eraw.
  set (tx := bench_tx recipient 1337 (Z.of_nat k)) in *.
  assert (eip1559_wf tx) as Hwf by (split_and!; simpl; try done; ulia).
  destruct (signer_decodes tx sig Hwf Hsig) as (h & Hd & Hrec). rewrite <- Eraw in Hd.
  assert (decode_and_recover raw = Ok (mkVerified raw (eip1559_envelope tx h) signer_address h)) as Hdec.
  { unfold decode_and_recover. rewrite Hd. simpl. by rewrite Hrec. }
  eexists. split; [done|]. split; [done|]. split; [done|]. unfold Executor.validate_tx. rewrite Hdec.
  pose proof (genesis_reads (bench_evm_genesis signer_address recipient) signer_address 0 (bench_genesis_wf _ _ Hs Hr) Hs
    ltac:(ulia)) as (Hbal & Hnon & _).
  cbn [state Executor.from_genesis sender envelope]. rewrite Hbal, Hnon. cbn [genesis_alloc bench_evm_genesis].
  rewrite lookup_insert_ne, lookup_insert_eq by done. cbn [fmap option_fmap option_map default alloc_balance alloc_nonce id].
  destruct (from_genesis_config (bench_evm_genesis signer_address recipient)) as (-> & -> & ->).
  cbn [genesis_chain_id genesis_gas_limit genesis_base_fee_per_gas bench_evm_genesis].
  assert (Tx.validate_tx (mkVerified raw (eip1559_envelope tx h) signer_address h) 1337 0 (wrapping_mul 256 1000000 ETH)
    30000000 1000000000 = Ok tt) as ->; [|done].
  unfold Tx.validate_tx. cbn [envelope env_chain_id env_nonce env_gas_limit eip1559_envelope tx bench_tx t_chain_id t_nonce t_gas_limit].
  destruct (Z.ltb_spec (Z.of_nat k) 0); [lia|]. by vm_compute.
Qed.

(** What the benchmark reports: against the node's server it counts every
    transaction as submitted, and it reports all of them confirmed if and only
    if some node polled within the timeout has executed that many of the
    sender's transactions; otherwise it reports how many are missing. *)
Theorem bench_report_exact `{!U256Hex} `{!HexCrateOk} `{!U256HexOk} (o : BenchObserved) count r :
  is_address signer_address → (0 < count)%nat → Z.of_nat count < 2 ^ 64 →
  StronglySorted (λ x y, x.1 ≤ y.1) (bo_rounds o) →
  Forall (λ x, is_u64 (get_nonce (state (executor x.2)) signer_address)) (bo_rounds o) →
  run_bench handle_rpc o count = Report r →
  rep_submitted r = Z.of_nat count ∧
  (rep_not_confirmed r = None ↔
     seen (bo_clock o + 120000) (λ s, Z.of_nat count ≤ get_nonce (state (executor s)) signer_address) (bo_rounds o)) ∧
  (∀ m, rep_not_confirmed r = Some m → m = rep_submitted r - rep_confirmed r ∧ 0 < m).
Proof.
  intros Hs Hc Hmax Hsort Hall. unfold run_bench. destruct (wait_for_blocks _ _ _ _ _) as [[]|]; try done.
  destruct (presign_from_lookup (repeat_byte 0x42) 1337 count 0) as (raws & Hp & Hlen & _).
  unfold presign_txs. rewrite Hp. destruct (rpc_block_number handle_rpc (bo_server o)) as [s start].
  destruct (submit_all_counts raws s 0) as [Hsub _]; [lia|lia|].
  destruct (submit_all handle_rpc s raws 0) as [s' submitted]. simpl in Hsub. rewrite Hlen, Z.add_0_l in Hsub. subst submitted.
  pose proof (confirm_loop_spec (bo_clock o + 120000) signer_address (Z.of_nat count) (bo_rounds o) 0 Hs ltac:(lia) Hsort Hall)
    as Hconf.
  unfold wait_for_confirmations. change (1000 * CONFIRM_TIMEOUT_SECS) with 120000.
  destruct (confirm_loop _ _ _ _ _ _) as [confirmed|]; [|done]. intros [= <-]. simpl. split; [done|].
  rewrite <- Hconf. destruct (Z.ltb_spec confirmed (Z.of_nat count)) as [Hlt|Hge].
  - split; [split; [done|]|intros m [= <-]; lia]. intros (c & [= <-] & ?). lia.
  - split; [|done]. split; [|done]. intros _. by exists confirmed.
Qed.
End Presign.

(** ** A wire format

    Seven 32-byte words and the call data: a codec and a signer that satisfy the
    laws. *)

Definition word (bs : list byte) (k : nat) : Z := from_be_bytes (take 32 (drop (32 * k) bs)).

Definition tx_words (tx : TxEip1559) : list Z :=
  [t_chain_id tx; t_nonce tx; t_gas_limit tx; t_max_fee_per_gas tx; t_max_priority_fee_per_gas tx;
   match t_to tx with Call a => a | Create => 2 ^ 160 end; t_value tx].

Definition wire_codec : TxCodec := {|
  decode_2718 bs :=
    if (length bs <? 224)%nat then Err "input too short"%string
    else Ok {|
      env_tx_type := 2; env_chain_id := Some (wrap 64 (word bs 0)); env_nonce := wrap 64 (word bs 1);
      env_gas_limit := wrap 64 (word bs 2); env_max_fee_per_gas := wrap 128 (word bs 3);
      env_max_priority_fee_per_gas := Some (wrap 128 (word bs 4));
      env_to := if word bs 5 =? 2 ^ 160 then None else Some (word bs 5);
      env_value := wrap 256 (word bs 6); env_input := drop 224 bs; env_tx_hash := from_be_bytes bs |};
  recover_signer _ := Ok 5 |}.

Definition wire_signer : Signer := {|
  Signature := unit; signer_address := 5; sign_transaction_sync _ := Ok tt;
  encode_2718 tx _ := concat (to_be_bytes 32 <$> tx_words tx) ++ t_input tx |}.

Lemma words_length ws : length (concat (to_be_bytes 32 <$> ws)) = (32 * length ws)%nat.
Proof. induction ws as [|w ws IH]; [done|]. cbn [fmap list_fmap concat length]. rewrite length_app, length_to_be_bytes, IH. lia. Qed.

Lemma word_concat ws rest k w :
  ws !! k = Some w → is_u256 w → word (concat (to_be_bytes 32 <$> ws) ++ rest) k = w.
Proof.
  revert k. induction ws as [|w' ws IH]; intros k Hk Hw; [done|].
  unfold word in *. cbn [fmap list_fmap concat]. rewrite <- app_assoc. destruct k as [|k].
  - injection Hk as ->. rewrite Nat.mul_0_r, drop_0, take_app_length' by by rewrite length_to_be_bytes.
    by apply (from_to_be_bytes_id 32 256).
  - rewrite drop_app_ge by (rewrite length_to_be_bytes; lia). rewrite length_to_be_bytes.
    replace (32 * Datatypes.S k - 32)%nat with (32 * k)%nat by lia. by apply IH.
Qed.

Lemma wire_ok : @SignerOk wire_signer wire_codec.
Proof.
  split; cbn [sign_transaction_sync encode_2718 decode_2718 recover_signer signer_address wire_codec wire_signer].
  - eauto.
  - intros tx sig (Hc & Hn & Hg & Hf & Hp & Hv & Hto) _.
    assert (∀ k w, tx_words tx !! k = Some w → is_u256 w → word (concat (to_be_bytes 32 <$> tx_words tx) ++ t_input tx) k = w)
      as Hword by (intros; by apply word_concat).
    exists (from_be_bytes (concat (to_be_bytes 32 <$> tx_words tx) ++ t_input tx)). split; [|done].
    destruct (Nat.ltb_spec (length (concat (to_be_bytes 32 <$> tx_words tx) ++ t_input tx)) 224) as [Hl|_].
    { rewrite length_app, words_length in Hl. simpl in Hl. lia. }
    rewrite (Hword 0%nat (t_chain_id tx)), (Hword 1%nat (t_nonce tx)), (Hword 2%nat (t_gas_limit tx)),
      (Hword 3%nat (t_max_fee_per_gas tx)), (Hword 4%nat (t_max_priority_fee_per_gas tx)), (Hword 6%nat (t_value tx)),
      (Hword 5%nat (match t_to tx with Call a => a | Create => 2 ^ 160 end)) by (done || (unfold in_u in *; destruct (t_to tx); ulia)).
    rewrite !wrap_small by done. rewrite drop_app_ge by by rewrite words_length.
    rewrite words_length. unfold eip1559_envelope. do 3 f_equal.
    destruct (t_to tx) as [a|]; [|done]. destruct (Z.eqb_spec a (2 ^ 160)); [ulia|done].
Qed.

(** ** Witnesses *)

Section Concrete.
#[local] Existing Instance senders_order.
#[local] Existing Instance accounts_order.
#[local] Existing Instance slots_order.

Section Wire.
#[local] Existing Instance wire_codec.
#[local] Existing Instance wire_signer.
#[local] Existing Instance wire_ok.

Lemma presigned_valid_witness :
  ∃ raws, presign_txs (repeat_byte 0x42) 1337 100 = Some raws ∧ length raws = 100%nat ∧
    ∀ k raw, raws !! k = Some raw →
      Executor.validate_tx (Executor.from_genesis (bench_evm_genesis 5 (repeat_byte 0x42))) raw = AcceptWithGas 1000000000 21000.
Proof.
  destruct (presigned_valid (repeat_byte 0x42) 100) as (raws & Hp & Hlen & Hall).
  - apply (bool_decide_unpack _). by vm_compute.
  - apply (bool_decide_unpack _). by vm_compute.
  - by vm_compute.
  - lia.
  - exists raws. split; [done|]. split; [done|]. intros k raw Hk. by destruct (Hall k raw Hk) as (v & _ & _ & _ & Hv).
Defined.

#[local] Existing Instance std_u256.
#[local] Existing Instance std_u256_ok.

(** A node that executes the two transactions of the benchmark between the
    submission and the second poll. *)
Definition wire_node0 : EvmRpcState :=
  mkRpcState (setup_nonce_fn (Executor.from_genesis (bench_evm_genesis 5 (repeat_byte 0x42)))) 1337 (Some []).
Definition wire_raws : list (list byte) := default [] (presign_txs (repeat_byte 0x42) 1337 2).
Definition wire_node1 : EvmRpcState :=
  with_executor wire_node0 (Executor.on_commit (execute_block (executor wire_node0) wire_raws block1).1 block1).
Definition wire_run : BenchObserved (S := EvmRpcState) :=
  mkBenchObserved 0 [(0, wire_node0); (500, wire_node1)] wire_node1 600 [(700, wire_node0); (900, wire_node1)] wire_node1.

Lemma bench_report_exact_witness :
  ∃ r, run_bench handle_rpc wire_run 2 = Report r ∧ rep_submitted r = 2 ∧ rep_not_confirmed r = None.
Proof.
  destruct (run_bench handle_rpc wire_run 2) as [| | |r] eqn:E; try (by vm_compute in E).
  destruct (bench_report_exact wire_run 2 r) as (Hs & Hn & _); [..|exists r; split; [done|]; split; [exact Hs|apply Hn]].
  - apply (bool_decide_unpack _). by vm_compute.
  - lia.
  - lia.
  - repeat constructor; simpl; lia.
  - cbn [bo_rounds wire_run]. rewrite !Forall_cons. split_and!; [apply (bool_decide_unpack _); by vm_compute..|done].
  - done.
  - exists 1%nat, 900, wire_node1. split_and!; [done|by vm_compute|by vm_compute].
Defined.
End Wire.

#[local] Existing Instance toy_codec.
#[local] Existing Instance std_u256.
#[local] Existing Instance std_u256_ok.

(** The node before and after its first block. *)
Definition node0 : EvmRpcState := mkRpcState (setup_nonce_fn (Executor.from_genesis demo_genesis)) 7 (Some []).
Definition node1 : EvmRpcState :=
  with_executor node0 (Executor.on_commit (execute_block (executor node0) demo_txs1 block1).1 block1).

Lemma client_server_agree_witness :
  rpc_block_number handle_rpc node1 = (node1, Some 1) ∧ rpc_get_nonce handle_rpc node1 5 = (node1, Some 2).
Proof.
  destruct (client_server_agree node1 5 []) as (Hb & Hn & _); try (apply (bool_decide_unpack _); by vm_compute).
  split; [rewrite Hb|rewrite Hn]; f_equal; by vm_compute.
Defined.

(** Nonce 2 is expected; the second poll, still in time, finds it. *)
Lemma confirmations_exact_witness :
  ∃ c, wait_for_confirmations handle_rpc 5 2 0 1 [(0, node0); (200, node1); (1400, node1)] = Some c ∧ 2 ≤ c.
Proof.
  apply (confirmations_exact 5 2 0 1 [(0, node0); (200, node1); (1400, node1)]); [ulia|lia| |..].
  - repeat constructor; simpl; lia.
  - rewrite !Forall_cons. split_and!; [apply (bool_decide_unpack _); by vm_compute..|done].
  - exists 1%nat, 200, node1. split_and!; [done|lia|]. by vm_compute.
Defined.

(** The first hundred transfers of sender 5. *)
Definition hundred : list (list byte) := (λ n, toy_tx 5 n 3 30) <$> seqZ 0 100.

(** Sent between two blocks, the 65th of these finds the sender's pending queue
    full and is refused; the client counts it as submitted all the same, so the
    nonce it then waits for is never reached. *)
Theorem bench_counts_rejected :
  let '(s, submitted) := submit_all handle_rpc node0 hundred 0 in
  submitted = 100 ∧ pending_count (txpool (executor s)) = 64 ∧ queued_count (txpool (executor s)) = 35 ∧
  length <$> network_sink s = Some 99%nat ∧
  (submit_raw_tx (executor s) (toy_tx 5 64 3 30)).2 = Err "sender queue full"%string.
Proof. by vm_compute. Qed.
End Concrete.
