(* ===== verification/BenchRun.v ===== *)
(** crates/node/src/bench.rs as a program: one benchmark run with its cluster
    processes and files, and [main], which does two runs.

    The temporary directory, the process id, [hotmint_mgmt::build_binary] and
    [remove_dir_all] are the class [BenchHost].  The nodes write into their
    directories while a run lasts, so the file system a run finds at its end is
    an observation of the run. *)
From S2P Require Import Prelude Types Executor Rpc Host Node NodeModel Cluster Bench.
From Stdlib Require Import Ascii.

Class BenchHost `{Mgmt} : Type := {
  temp_dir : string;
  process_id : Z;
  build_binary : string → option string → result string string;
  fs_remove_dir_all : Fs → string → Fs * result string unit;
}.

(** [label.replace(' ', "-")] *)
Fixpoint replace_spaces (s : string) : string :=
  match s with
  | "" => ""
  | String ch s' => String (if Ascii.eqb ch " "%char then "-"%char else ch) (replace_spaces s')
  end%string.

(** A child process: running, killed, or killed and waited for. *)
Inductive ChildState := Running | Killed | Reaped.
Definition child_kill (st : ChildState) : ChildState := match st with Running => Killed | st => st end.
Definition child_wait (st : ChildState) : ChildState := match st with Killed => Reaped | st => st end.

Section BenchRun.
Context `{BenchHost} `{!GenesisJson} `{!HexCrate} {S : Type} (connect : string → S → Value → S * option Value).

Definition bench_base_dir (label : string) : string :=
  path_join temp_dir ("nbnet-bench-" +:+ pretty process_id +:+ "-" +:+ replace_spaces label).

(** What a run leaves: the file system, its children, and its outcome. *)
Record BenchEnd := mkBenchEnd {
  be_fs : Fs;
  be_children : list (Child * ChildState);
  be_outcome : BenchOutcome;
}.

Definition on_children (f : ChildState → ChildState) (cs : list (Child * ChildState)) : list (Child * ChildState) :=
  (λ c, (c.1, f c.2)) <$> cs.

(** The whole of [run_bench]; a panic leaves everything as it is. *)
Definition bench_run `{!Signer} (fs fs_end : Fs) (o : BenchObserved (S := S)) (label : string) (txs_to_submit : nat) : BenchEnd :=
  let base_dir := bench_base_dir label in
  let fs := (fs_remove_dir_all fs base_dir).1 in
  let '(fs, r) := init_evm_cluster fs base_dir NUM_VALIDATORS "evm-bench"
    (bench_evm_genesis signer_address (repeat_byte 0x42)) "127.0.0.1" in
  match r, build_binary "nbnet-node" (Some "nb"%string) with
  | Ok (state, eth_rpc_ports), Ok binary =>
    let '(_, started, failure) := start_evm_nodes binary state base_dir eth_rpc_ports in
    let children := (λ c, (c, Running)) <$> started in
    match failure, head eth_rpc_ports with
    | None, Some port =>
      match run_bench (connect ("http://127.0.0.1:" +:+ pretty port)) o txs_to_submit with
      | NotStarted => mkBenchEnd (fs_remove_dir_all fs_end base_dir).1 (on_children child_kill children) NotStarted
      | Report rep =>
        mkBenchEnd (fs_remove_dir_all fs_end base_dir).1 (on_children (child_wait ∘ child_kill) children) (Report rep)
      | outcome => mkBenchEnd fs_end children outcome
      end
    | _, _ => mkBenchEnd fs children BenchPanic
    end
  | _, _ => mkBenchEnd fs [] BenchPanic
  end.

(** [main]: the second run starts when the first has returned. *)
Definition bench_main (sg1 sg2 : Signer) (fs fs1 fs2 : Fs) (o1 o2 : BenchObserved (S := S)) : list BenchEnd :=
  let run1 := @bench_run sg1 fs fs1 o1 "100 txs" 100 in
  match be_outcome run1 with
  | NotStarted | Report _ => [run1; @bench_run sg2 (be_fs run1) fs2 o2 "500 txs" 500]
  | _ => [run1]
  end.
End BenchRun.

(** A removed directory has nothing left in it. *)
Class BenchHostOk `{BenchHost} : Prop :=
  removed_gone fs dir fs' p : fs_remove_dir_all fs dir = (fs', Ok tt) → fs_exists fs' (path_join dir p) = false.

Section Props.
Context `{BenchHostOk} `{!GenesisJson} `{!HexCrate} {S : Type} (connect : string → S → Value → S * option Value).

(** What a run leaves behind.  A run that reports has waited for all its
    processes; one whose cluster never produced a block has killed them without
    waiting; both have removed their directory, if the host let them.  A run
    that panics after the cluster has started leaves it running. *)
Theorem bench_cleanup `{!Signer} fs fs_end (o : BenchObserved (S := S)) label n :
  let e := bench_run connect fs fs_end o label n in
  match be_outcome e with
  | Report _ => Forall (λ c, c.2 = Reaped) (be_children e)
  | NotStarted => Forall (λ c, c.2 = Killed) (be_children e)
  | _ => Forall (λ c, c.2 = Running) (be_children e)
  end ∧
  (match be_outcome e with Report _ | NotStarted => True | _ => False end →
   (fs_remove_dir_all fs_end (bench_base_dir label)).2 = Ok tt →
   ∀ p, fs_exists (be_fs e) (path_join (bench_base_dir label) p) = false).
Proof.
  intros e. subst e. unfold bench_run.
  assert (∀ f cs, Forall (λ c : Child * ChildState, c.2 = f Running) (on_children f ((λ c, (c, Running)) <$> cs))) as Hall.
  { intros f cs. unfold on_children. rewrite <- list_fmap_compose. apply Forall_fmap, Forall_forall. done. }
  assert (∀ fs', fs' = (fs_remove_dir_all fs_end (bench_base_dir label)).1 → (fs_remove_dir_all fs_end (bench_base_dir label)).2 = Ok tt →
    ∀ p, fs_exists fs' (path_join (bench_base_dir label) p) = false) as Hgone.
  { intros fs' -> Hr p. eapply removed_gone. rewrite <- Hr. apply surjective_pairing. }
  assert (∀ cs : list Child, Forall (λ c, c.2 = Running) ((λ c, (c, Running)) <$> cs)) as Hr0 by (intros cs; by apply Forall_fmap, Forall_forall).
  destruct (init_evm_cluster _ _ _ _ _ _) as [fs1 [[st ports]|err]]; [|by split; [constructor|]].
  destruct (build_binary _ _) as [binary|err]; [|by split; [constructor|]].
  destruct (start_evm_nodes _ _ _ _) as [[acts started] failure].
  destruct failure as [msg|]; [by split; [apply Hr0|]|]. destruct (head ports) as [port|]; [|by split; [apply Hr0|]].
  destruct (run_bench _ _ _); simpl; (split; [auto|intros Ho; try done; by apply Hgone]).
  - apply (Hall child_kill).
  - apply (Hall (child_wait ∘ child_kill)).
Qed.
End Props.
