(* ===== verification/PoolTests.v ===== *)
(** The unit tests of crates/txpool/src/lib.rs and crates/types/src/tx.rs, as
    programs on the model, proved to pass for every signing key, every decoder
    and every iteration order the hash maps may have.

    A test is a value of [option unit]: [None] is a panic, of an assertion or of
    an [expect]. *)
From S2P Require Import Prelude Types Tx TxPool TxPoolSubmit Executor ExecutorProps Node Bench BenchProps.

(** ** Assertions *)

Definition assert (b : bool) : option unit := if b then Some tt else None.
Lemma assert_bind b (k : unit → option unit) : b = true → (assert b ≫= k) = k tt.
Proof. by intros ->. Qed.

(** Passes the assertions that evaluate to true. *)
Ltac passed := repeat (rewrite assert_bind by (by vm_compute); cbv beta).

(** [expect] and [expect_err] on the result of an operation on a pool. *)
Definition expect {P E A} (r : P * result E A) : option (P * A) :=
  match r with (p, Ok a) => Some (p, a) | _ => None end.
Definition expect_err {P E A} (r : P * result E A) : option (P * E) :=
  match r with (p, Err e) => Some (p, e) | _ => None end.
(** [str::contains] *)
Definition str_contains (needle s : string) : bool := if String.index 0 needle s is Some _ then true else false.

(** ** The tests of the pool *)

Definition test_tx (nonce tip : Z) : TxEip1559 := {|
  t_chain_id := 1337; t_nonce := nonce; t_gas_limit := 21000; t_max_fee_per_gas := 30000000000;
  t_max_priority_fee_per_gas := tip; t_to := Call (repeat_byte 0xBB); t_value := 1000000; t_input := [];
  t_access_list := [] |}.

Section PoolTests.
Context `{Signer} `{!TxCodec} `{!HashIter Z SenderQueue}.

Definition make_eip1559_tx (nonce tip : Z) : option (list byte) :=
  sig ← ok (sign_transaction_sync (test_tx nonce tip));
  Some (encode_2718 (test_tx nonce tip) sig).

(** [EvmTxPool::new] with the default configuration and a constant nonce
    function. *)
Definition test_pool (n : Z) : EvmTxPool unit := set_nonce_fn (new pool_config_default) (λ _ _, n).

Definition test_submit_and_count : option unit :=
  let pool := test_pool 0 in
  raw ← make_eip1559_tx 0 1000000000;
  '(pool, hash) ← expect (submit_tx pool tt raw);
  assert (TxPool.contains pool hash);;
  assert (pending_count pool =? 1);;
  assert (queued_count pool =? 0).

Definition test_nonce_gap_goes_to_queued : option unit :=
  let pool := test_pool 0 in
  raw ← make_eip1559_tx 2 1000000000;
  '(pool, _) ← expect (submit_tx pool tt raw);
  assert (pending_count pool =? 0);;
  assert (queued_count pool =? 1);;
  raw0 ← make_eip1559_tx 0 1000000000;
  '(pool, _) ← expect (submit_tx pool tt raw0);
  assert (pending_count pool =? 1);;
  assert (queued_count pool =? 1);;
  raw1 ← make_eip1559_tx 1 1000000000;
  '(pool, _) ← expect (submit_tx pool tt raw1);
  assert (pending_count pool =? 3);;
  assert (queued_count pool =? 0).

Definition test_replacement_by_fee : option unit :=
  let pool := test_pool 0 in
  raw1 ← make_eip1559_tx 0 1000000000;
  '(pool, _) ← expect (submit_tx pool tt raw1);
  raw2 ← make_eip1559_tx 0 2000000000;
  '(pool, _) ← expect (submit_tx pool tt raw2);
  assert (pending_count pool =? 1);;
  raw3 ← make_eip1559_tx 0 500000000;
  '(pool, err) ← expect_err (submit_tx pool tt raw3);
  assert (str_contains "replacement underpriced" err).

Definition test_nonce_too_low_rejected : option unit :=
  let pool := test_pool 5 in
  raw ← make_eip1559_tx 3 1000000000;
  '(pool, err) ← expect_err (submit_tx pool tt raw);
  assert (str_contains "nonce too low" err).

Definition test_collect_payload : option unit :=
  let pool := test_pool 0 in
  raw ← make_eip1559_tx 0 1000000000;
  '(pool, _) ← expect (submit_tx pool tt raw);
  let '(pool, payload) := collect_payload pool 1000000 30000000 in
  assert (bool_decide (payload ≠ []));;
  assert (pending_count pool =? 0).

Definition test_on_commit_removes_stale : option unit :=
  let pool := test_pool 0 in
  raw0 ← make_eip1559_tx 0 1000000000;
  raw1 ← make_eip1559_tx 1 1000000000;
  '(pool, _) ← expect (submit_tx pool tt raw0);
  '(pool, _) ← expect (submit_tx pool tt raw1);
  assert (pending_count pool =? 2);;
  let pool := TxPool.on_commit pool (λ _, 1) in
  assert (pending_count pool =? 1).

Definition test_duplicate_rejected : option unit :=
  let pool := test_pool 0 in
  raw ← make_eip1559_tx 0 1000000000;
  '(pool, _) ← expect (submit_tx pool tt raw);
  '(pool, err) ← expect_err (submit_tx pool tt raw);
  assert (str_contains "already known" err).

Definition pool_tests : list (option unit) :=
  [test_submit_and_count; test_nonce_gap_goes_to_queued; test_replacement_by_fee; test_nonce_too_low_rejected;
   test_collect_payload; test_on_commit_removes_stale; test_duplicate_rejected].
End PoolTests.

(** ** The tests of the transaction types *)

Record TxLegacy := mkLegacy {
  l_chain_id : option Z; l_nonce : Z; l_gas_price : Z; l_gas_limit : Z; l_to : TxKind; l_value : U256; l_input : list byte;
}.

(** Signing and encoding of a legacy transaction, with the key of [Signer]. *)
Class LegacySigner `{Signer} : Type := {
  sign_legacy : TxLegacy → result string Signature;
  encode_legacy : TxLegacy → Signature → list byte;
}.

Definition legacy_test_tx : TxLegacy := {|
  l_chain_id := Some 1337; l_nonce := 0; l_gas_price := 1000000000; l_gas_limit := 21000;
  l_to := Call (repeat_byte 0xBB); l_value := 1000000000000000000; l_input := [] |}.

Definition eip1559_test_tx : TxEip1559 := {|
  t_chain_id := 1337; t_nonce := 42; t_gas_limit := 21000; t_max_fee_per_gas := 30000000000;
  t_max_priority_fee_per_gas := 1000000000; t_to := Call (repeat_byte 0xCC); t_value := 500000000000000000; t_input := [];
  t_access_list := [] |}.

Section TxTests.
Context `{LegacySigner} `{!TxCodec}.

Definition make_signed_legacy_tx : option (list byte * Address) :=
  sig ← ok (sign_legacy legacy_test_tx);
  Some (encode_legacy legacy_test_tx sig, signer_address).

Definition test_decode_and_recover_legacy : option unit :=
  '(raw, expected_sender) ← make_signed_legacy_tx;
  verified ← ok (decode_and_recover raw);
  assert (sender verified =? expected_sender);;
  assert (bool_decide (env_chain_id (envelope verified) = Some 1337));;
  assert (env_nonce (envelope verified) =? 0).

(** The four tests of [validate_tx]: its result against chain id, account nonce
    and balance. *)
Definition validated (cid nonce : Z) (balance : U256) (expected : result TxError unit → bool) : option unit :=
  '(raw, _) ← make_signed_legacy_tx;
  verified ← ok (decode_and_recover raw);
  assert (expected (Tx.validate_tx verified cid nonce balance 30000000 1000000000)).

Definition test_validate_tx_ok : option unit :=
  validated 1337 0 100000000000000000000 is_ok.
Definition test_validate_tx_wrong_chain_id : option unit :=
  validated 9999 0 100000000000000000000 (λ r, match r with Err (ChainIdMismatch _ _) => true | _ => false end).
Definition test_validate_tx_nonce_too_low : option unit :=
  validated 1337 5 100000000000000000000 (λ r, match r with Err (NonceTooLow _ _) => true | _ => false end).
Definition test_validate_tx_insufficient_balance : option unit :=
  validated 1337 0 1 (λ r, match r with Err (InsufficientBalance _ _) => true | _ => false end).

Definition test_decode_eip1559_tx : option unit :=
  sig ← ok (sign_transaction_sync eip1559_test_tx);
  verified ← ok (decode_and_recover (encode_2718 eip1559_test_tx sig));
  assert (sender verified =? signer_address);;
  assert (bool_decide (env_chain_id (envelope verified) = Some 1337));;
  assert (env_nonce (envelope verified) =? 42);;
  assert (env_max_fee_per_gas (envelope verified) =? 30000000000);;
  assert (bool_decide (env_max_priority_fee_per_gas (envelope verified) = Some 1000000000));;
  assert (effective_gas_tip (envelope verified) 10000000000 =? 1000000000).

Definition tx_tests : list (option unit) :=
  [test_decode_and_recover_legacy; test_validate_tx_ok; test_validate_tx_wrong_chain_id; test_validate_tx_nonce_too_low;
   test_validate_tx_insufficient_balance; test_decode_eip1559_tx].
End TxTests.

(** ** A pool with one sender *)

Section OneSender.
Context {Env : Type} `{!TxCodec} `{!HashIter Z SenderQueue}.
Context (cfg : EvmTxPoolConfig) (a : Address) (f : Env → Address → Z).

Definition one (q : SenderQueue) (bh : gmap Z Z) : EvmTxPool Env := mkPool cfg (mkInner {[a := q]} bh (Some f)).

(** What a submission does to the queue of its sender: the new queue and the
    hash of the transaction it replaces. *)
Definition queue_submit (q : SenderQueue) (n : Z) (e : PoolEntry) : result string (SenderQueue * option B256) :=
  let side := goes_pending q (entry_nonce e) n in
  let target := get_target side q in
  let inserted := promote_queued_static (set_target side q (<[entry_nonce e := e]> target)) n in
  if entry_nonce e <? n then
    Err ("nonce too low: tx nonce " +:+ pretty (entry_nonce e) +:+ " < current " +:+ pretty n)
  else match target !! entry_nonce e with
  | Some old =>
    if effective_tip e <? min_replacement_tip cfg (effective_tip old) then
      Err ("replacement underpriced: need tip >= " +:+ pretty (min_replacement_tip cfg (effective_tip old))
           +:+ ", got " +:+ pretty (effective_tip e))
    else Ok (inserted, Some (entry_hash old))
  | None =>
    if (if side then max_pending_per_sender cfg else max_queued_per_sender cfg) <=? Z.of_nat (size target)
    then Err "sender queue full"%string else Ok (inserted, None)
  end.

Lemma submit_one env bytes v q bh :
  decode_and_recover bytes = Ok v → sender v = a → bh !! vtx_hash v = None →
  submit_tx (one q bh) env bytes =
    match queue_submit q (f env a) (make_entry cfg v) with
    | Err err => (one q bh, Err err)
    | Ok (q', old) =>
      (one q' (<[vtx_hash v := a]> (match old with Some h => delete h bh | None => bh end)), Ok (vtx_hash v))
    end.
Proof.
  intros Hd Ha Hh. unfold submit_tx, one, queue_submit, submit_locked, current_nonce_of, entry_nonce, entry_hash.
  rewrite Hd. cbn [config inner by_hash verified make_entry nonce_fn senders set_senders]. rewrite Hh, Ha.
  destruct (_ <? f env a); [done|]. rewrite lookup_singleton_eq. cbn [default]. unfold set_senders. cbn [senders by_hash nonce_fn].
  rewrite !insert_singleton_eq.
  destruct (get_target _ _ !! _) as [old|]; [destruct (_ <? _)|destruct (_ <=? _)]; by rewrite ?insert_singleton_eq.
Qed.

(** In a new pool the sender has an empty queue. *)
Lemma submit_new env bytes v :
  decode_and_recover bytes = Ok v → sender v = a → f env a ≤ env_nonce (envelope v) →
  submit_tx (set_nonce_fn (new cfg) f) env bytes = submit_tx (one queue_default ∅) env bytes.
Proof.
  intros Hd Ha Hn. unfold submit_tx, one, submit_locked, current_nonce_of. rewrite Hd.
  cbn [config inner by_hash verified make_entry nonce_fn senders set_senders set_nonce_fn new]. rewrite !lookup_empty, Ha.
  destruct (Z.ltb_spec (env_nonce (envelope v)) (f env a)); [lia|]. rewrite lookup_singleton_eq. cbn [default].
  unfold set_senders. cbn [senders by_hash nonce_fn]. by rewrite insert_empty, !insert_singleton_eq.
Qed.

Lemma hash_iter_one q : hash_iter ({[a := q]} : gmap Z SenderQueue) = [(a, q)].
Proof. apply Permutation_singleton_r. by rewrite hash_iter_perm, map_to_list_singleton. Qed.

Lemma count_one q bh :
  pending_count (one q bh) = Z.of_nat (size (pending q)) ∧ queued_count (one q bh) = Z.of_nat (size (queued q)).
Proof. unfold pending_count, queued_count, one. cbn [inner senders]. rewrite hash_iter_one. simpl. lia. Qed.

Lemma on_commit_one q bh g :
  let '(q', stale) := commit_queue q (g a) in
  queue_is_empty q' = false → TxPool.on_commit (one q bh) g = one q' (fold_left (λ m h, delete h m) stale bh).
Proof.
  destruct (commit_queue q (g a)) as [q' stale] eqn:E. intros Hne.
  unfold TxPool.on_commit, one, hash_keys. cbn [inner senders config by_hash nonce_fn]. rewrite hash_iter_one.
  cbn [fmap list_fmap fold_left fst]. unfold commit_sender. cbn [acc_senders]. rewrite lookup_singleton_eq, E, Hne.
  cbn [acc_senders hashes_to_remove empty_senders fold_left app]. by rewrite insert_singleton_eq.
Qed.

(** The payload of a pool with a single transaction. *)
Lemma collect_one e bh mb mg :
  4 + Z.of_nat (length (raw (verified e))) ≤ mb → 0 ≤ env_gas_limit (envelope (verified e)) < 2 ^ 64 →
  env_gas_limit (envelope (verified e)) ≤ mg →
  collect_payload (one {| pending := {[entry_nonce e := e]}; queued := ∅ |} bh) mb mg =
    (one queue_default (delete (entry_hash e) bh), frame (raw (verified e))).
Proof.
  intros Hb Hg Hmg. unfold collect_payload, select_all, candidates, one. cbn [inner senders]. rewrite hash_iter_one.
  assert (btree_first ({[entry_nonce e := e]} : gmap Z PoolEntry) = Some (entry_nonce e, e)) as Hf.
  { apply btree_first_Some. split; [by rewrite lookup_singleton_eq|].
    intros n [e' [-> _]%lookup_singleton_Some]. lia. }
  cbn [omap list_omap]. unfold candidate_of. cbn [fst snd pending]. rewrite Hf.
  cbn [mbind option_bind sort_desc foldr insert_desc select payload total_gas included length cand_raw app].
  match goal with |- context [candidate_gas ?i ?c] =>
    assert (candidate_gas i c = env_gas_limit (envelope (verified e))) as -> end.
  { unfold candidate_gas. cbn [senders cand_sender cand_nonce]. rewrite lookup_singleton_eq.
    cbn [mbind option_bind pending]. by rewrite lookup_singleton_eq. }
  unfold wrapping_add. rewrite (wrap_small 64 (0 + _)) by ulia.
  destruct (Z.ltb_spec mb (Z.of_nat 0 + 4 + Z.of_nat (length (raw (verified e))))); [lia|].
  destruct (Z.ltb_spec mg (0 + env_gas_limit (envelope (verified e)))); [lia|]. rewrite andb_false_r.
  cbn [included payload fold_left]. unfold remove_included. cbn [senders fst snd pending]. rewrite lookup_singleton_eq.
  cbn [pending]. by rewrite lookup_singleton_eq, delete_singleton_eq, insert_singleton_eq.
Qed.
End OneSender.

(** ** Every test of the pool passes *)

(** A transaction hash identifies the transaction it is the hash of. *)
Class TxHashInj `{TxCodec} : Prop := tx_hash_inj b1 b2 e1 e2 :
  decode_2718 b1 = Ok e1 → decode_2718 b2 = Ok e2 → env_tx_hash e1 = env_tx_hash e2 → e1 = e2.

Section Passing.
Context `{SignerOk} `{!TxHashInj} `{!HashIter Z SenderQueue}.

(** What the pool sees of a test transaction: its hash, and nothing else that
    depends on the key but the sender. *)
Definition test_verified (nonce tip : Z) (bytes : list byte) (h : B256) : VerifiedTx :=
  mkVerified bytes (eip1559_envelope (test_tx nonce tip) h) signer_address h.
Record made (nonce tip : Z) (bytes : list byte) (h : B256) : Prop := {
  made_tx : make_eip1559_tx nonce tip = Some bytes;
  made_env : decode_2718 bytes = Ok (eip1559_envelope (test_tx nonce tip) h);
  made_decodes : decode_and_recover bytes = Ok (test_verified nonce tip bytes h);
}.

Lemma make_ok nonce tip : is_u64 nonce → is_u128 tip → ∃ bytes h, made nonce tip bytes h.
Proof.
  intros Hn Ht. destruct (signer_signs (test_tx nonce tip)) as [sig Hsig].
  destruct (signer_decodes (test_tx nonce tip) sig) as (h & Hd & Hr); [|done|].
  { split_and!; simpl; try done; by vm_compute. }
  exists (encode_2718 (test_tx nonce tip) sig), h. split; [unfold make_eip1559_tx; by rewrite Hsig|done|].
  unfold decode_and_recover. rewrite Hd. simpl. by rewrite Hr.
Qed.

Lemma made_hash_ne n1 t1 b1 h1 n2 t2 b2 h2 :
  made n1 t1 b1 h1 → made n2 t2 b2 h2 → (n1, t1) ≠ (n2, t2) → h1 ≠ h2.
Proof.
  intros M1 M2 Hne ->. pose proof (tx_hash_inj _ _ _ _ (made_env _ _ _ _ M1) (made_env _ _ _ _ M2) eq_refl) as E.
  by simplify_eq.
Qed.

Notation entry n t b h := (make_entry pool_config_default (test_verified n t b h)).
Notation pool := (one pool_config_default signer_address (λ (_ : unit) _, 0)).

(** The first submission of a test. *)
Lemma first_submit n t b h :
  made n t b h → 0 ≤ n →
  submit_tx (test_pool 0) tt b = submit_tx (pool queue_default ∅) tt b.
Proof. intros M Hn. by apply (submit_new _ _ _ _ _ (test_verified n t b h)); [apply M|..]. Qed.

Lemma next_submit q bh n t b h q' old :
  made n t b h → bh !! h = None → queue_submit pool_config_default q 0 (entry n t b h) = Ok (q', old) →
  submit_tx (pool q bh) tt b =
    (pool q' (<[h := signer_address]> (match old with Some h' => delete h' bh | None => bh end)), Ok h).
Proof. intros M Hh E. rewrite (submit_one _ _ _ _ _ (test_verified n t b h)); [|apply M|done..]. by rewrite E. Qed.

(** Builds the next test transaction; submits it and counts, given the queue
    after it and the hash it replaces. *)
Ltac make n t b h M :=
  destruct (make_ok n t) as (b & h & M); [by vm_compute..|]; rewrite ?(made_tx _ _ _ _ M); cbn [mbind option_bind].
Ltac hash_free := rewrite ?lookup_insert_ne by (eapply made_hash_ne; [eassumption..|done]);
  first [apply lookup_empty|rewrite lookup_delete_ne by (eapply made_hash_ne; [eassumption..|done]); hash_free|by apply lookup_delete_eq].
Ltac submit M q old := rewrite (next_submit _ _ _ _ _ _ q old M); [|hash_free|by vm_compute]; cbn [expect mbind option_bind].
Ltac count := match goal with |- context [one ?cfg ?a ?f ?q ?bh] => destruct (count_one cfg a f q bh) as [-> ->] || 
  rewrite (proj1 (count_one cfg a f q bh)) end.

Definition pend (l : list PoolEntry) : SenderQueue := mkQueue (list_to_map ((λ e, (entry_nonce e, e)) <$> l)) ∅.

Lemma submit_and_count_passes : test_submit_and_count = Some tt.
Proof.
  unfold test_submit_and_count. make 0 1000000000 b h M. rewrite (first_submit _ _ _ _ M) by done.
  submit M (pend [entry 0 1000000000 b h]) (None : option B256). count.
  unfold contains, one. cbn [inner by_hash]. rewrite lookup_insert_eq. by vm_compute.
Qed.

Lemma nonce_gap_passes : test_nonce_gap_goes_to_queued = Some tt.
Proof.
  unfold test_nonce_gap_goes_to_queued. make 2 1000000000 b2 h2 M2. make 0 1000000000 b0 h0 M0. make 1 1000000000 b1 h1 M1.
  set (e0 := entry 0 1000000000 b0 h0). set (e1 := entry 1 1000000000 b1 h1). set (e2 := entry 2 1000000000 b2 h2).
  rewrite (first_submit _ _ _ _ M2) by done.
  submit M2 (mkQueue ∅ {[2 := e2]}) (None : option B256). count. passed.
  submit M0 (mkQueue {[0 := e0]} {[2 := e2]}) (None : option B256). count. passed.
  submit M1 (pend [e0; e1; e2]) (None : option B256). count. by passed.
Qed.

Lemma replacement_passes : test_replacement_by_fee = Some tt.
Proof.
  unfold test_replacement_by_fee. make 0 1000000000 b1 h1 M1. make 0 2000000000 b2 h2 M2. make 0 500000000 b3 h3 M3.
  rewrite (first_submit _ _ _ _ M1) by done.
  submit M1 (pend [entry 0 1000000000 b1 h1]) (None : option B256).
  submit M2 (pend [entry 0 2000000000 b2 h2]) (Some h1). count. passed.
  rewrite (submit_one _ _ _ _ _ (test_verified 0 500000000 b3 h3)); [|apply M3|done|hash_free]. by vm_compute.
Qed.

Lemma nonce_too_low_passes : test_nonce_too_low_rejected = Some tt.
Proof.
  unfold test_nonce_too_low_rejected. make 3 1000000000 b h M. unfold submit_tx. rewrite (made_decodes _ _ _ _ M). by vm_compute.
Qed.

Lemma on_commit_passes : test_on_commit_removes_stale = Some tt.
Proof.
  unfold test_on_commit_removes_stale. make 0 1000000000 b0 h0 M0. make 1 1000000000 b1 h1 M1.
  set (e0 := entry 0 1000000000 b0 h0). set (e1 := entry 1 1000000000 b1 h1). rewrite (first_submit _ _ _ _ M0) by done.
  submit M0 (pend [e0]) (None : option B256). submit M1 (pend [e0; e1]) (None : option B256). count. passed.
  pose proof (on_commit_one pool_config_default signer_address (λ (_ : unit) _, 0) (pend [e0; e1])
    (<[h1:=signer_address]> (<[h0:=signer_address]> ∅)) (λ _, 1)) as Hc.
  assert (commit_queue (pend [e0; e1]) 1 = (pend [e1], [h0])) as E by by vm_compute. cbv beta in Hc. rewrite E in Hc.
  rewrite Hc by by vm_compute. count. by vm_compute.
Qed.

Lemma duplicate_passes : test_duplicate_rejected = Some tt.
Proof.
  unfold test_duplicate_rejected. make 0 1000000000 b h M. rewrite (first_submit _ _ _ _ M) by done.
  submit M (pend [entry 0 1000000000 b h]) (None : option B256).
  unfold submit_tx. rewrite (made_decodes _ _ _ _ M). unfold submit_locked, one. cbn [inner by_hash verified make_entry test_verified vtx_hash config].
  rewrite lookup_insert_eq. by vm_compute.
Qed.

Lemma collect_passes :
  (∀ raw, make_eip1559_tx 0 1000000000 = Some raw → 4 + Z.of_nat (length raw) ≤ 1000000) → test_collect_payload = Some tt.
Proof.
  unfold test_collect_payload. intros Hsize. destruct (make_ok 0 1000000000) as (b & h & M); [by vm_compute..|].
  specialize (Hsize b (made_tx _ _ _ _ M)). rewrite (made_tx _ _ _ _ M). cbn [mbind option_bind]. rewrite (first_submit _ _ _ _ M) by done.
  submit M (pend [entry 0 1000000000 b h]) (None : option B256).
  change (pend [entry 0 1000000000 b h]) with (mkQueue {[entry_nonce (entry 0 1000000000 b h) := entry 0 1000000000 b h]} ∅).
  rewrite collect_one by (done || by vm_compute). cbn [mbind option_bind]. count. by passed.
Qed.

(** C28. The pool's unit tests pass for every signing key: whatever key signs,
    whatever decoder recovers the signed transactions, with any collision-free
    transaction hash and any iteration order of the pool's maps, all the tests of
    the crate hold on the pool (for the payload test, when the encoded
    transaction fits the payload). *)
Theorem pool_tests_pass :
  (∀ raw, make_eip1559_tx 0 1000000000 = Some raw → 4 + Z.of_nat (length raw) ≤ 1000000) →
  Forall (λ t, t = Some tt) pool_tests.
Proof.
  intros Hsize. unfold pool_tests. rewrite !Forall_cons. split_and!.
  - apply submit_and_count_passes.
  - apply nonce_gap_passes.
  - apply replacement_passes.
  - apply nonce_too_low_passes.
  - by apply collect_passes.
  - apply on_commit_passes.
  - apply duplicate_passes.
  - done.
Qed.
End Passing.

(** ** Every test of the transaction types passes *)

(** The envelope a node sees of a signed legacy transaction with hash [h]. *)
Definition legacy_envelope (tx : TxLegacy) (h : B256) : TxEnvelope := {|
  env_tx_type := 0; env_chain_id := l_chain_id tx; env_nonce := l_nonce tx; env_gas_limit := l_gas_limit tx;
  env_max_fee_per_gas := l_gas_price tx; env_max_priority_fee_per_gas := None;
  env_to := match l_to tx with Call a => Some a | Create => None end;
  env_value := l_value tx; env_input := l_input tx; env_tx_hash := h |}.

Definition legacy_wf (tx : TxLegacy) : Prop :=
  is_u64 (default 0 (l_chain_id tx)) ∧ is_u64 (l_nonce tx) ∧ is_u64 (l_gas_limit tx) ∧ is_u128 (l_gas_price tx) ∧
  is_u256 (l_value tx) ∧ match l_to tx with Call a => is_address a | Create => True end.

Class LegacySignerOk `{LegacySigner} `{!TxCodec} : Prop := {
  legacy_signs tx : ∃ sig, sign_legacy tx = Ok sig;
  legacy_decodes tx sig : legacy_wf tx → sign_legacy tx = Ok sig →
    ∃ h, decode_2718 (encode_legacy tx sig) = Ok (legacy_envelope tx h) ∧
         recover_signer (legacy_envelope tx h) = Ok signer_address;
}.

Section TxPassing.
Context `{LegacySignerOk} `{!SignerOk}.

Lemma make_legacy_ok :
  ∃ bytes h, make_signed_legacy_tx = Some (bytes, signer_address) ∧
    decode_and_recover bytes = Ok (mkVerified bytes (legacy_envelope legacy_test_tx h) signer_address h).
Proof.
  destruct (legacy_signs legacy_test_tx) as [sig Hsig].
  destruct (legacy_decodes legacy_test_tx sig) as (h & Hd & Hr); [by vm_compute|done|].
  exists (encode_legacy legacy_test_tx sig), h. unfold make_signed_legacy_tx, decode_and_recover.
  rewrite Hsig, Hd. simpl. by rewrite Hr.
Qed.

Lemma validated_eq cid nonce balance expected :
  (∀ bytes a h, expected (Tx.validate_tx (mkVerified bytes (legacy_envelope legacy_test_tx h) a h) cid nonce balance
     30000000 1000000000) = true) →
  validated cid nonce balance expected = Some tt.
Proof.
  intros He. destruct make_legacy_ok as (b & h & Hm & Hd). unfold validated. rewrite Hm. cbn [mbind option_bind].
  rewrite Hd. cbn [ok mbind option_bind]. by rewrite He.
Qed.

(** The unit tests of decoding and validation pass for every signing key. *)
Theorem tx_tests_pass : Forall (λ t, t = Some tt) tx_tests.
Proof.
  unfold tx_tests. rewrite !Forall_cons. split_and!; [|apply validated_eq; intros; by vm_compute..| |done].
  - destruct make_legacy_ok as (b & h & Hm & Hd). unfold test_decode_and_recover_legacy. rewrite Hm. cbn [mbind option_bind].
    rewrite Hd. cbn [ok mbind option_bind sender]. rewrite (Z.eqb_refl signer_address). by vm_compute.
  - destruct (signer_signs eip1559_test_tx) as [sig Hsig].
    destruct (signer_decodes eip1559_test_tx sig) as (h & Hd & Hr); [by vm_compute|done|].
    unfold test_decode_eip1559_tx. rewrite Hsig. cbn [ok mbind option_bind].
    unfold decode_and_recover. rewrite Hd. cbn [map_err mbind result_bind]. rewrite Hr. cbn [map_err mbind result_bind ok option_bind sender].
    rewrite (Z.eqb_refl signer_address). by vm_compute.
Qed.
End TxPassing.

(** ** A wire format for both kinds of transactions

    An EIP-1559 transaction is marked by 2, a legacy one by 0xf8; the hash is
    the encoding itself, as a number. *)

Definition with_hash (e : TxEnvelope) (h : B256) : TxEnvelope := {|
  env_tx_type := env_tx_type e; env_chain_id := env_chain_id e; env_nonce := env_nonce e; env_gas_limit := env_gas_limit e;
  env_max_fee_per_gas := env_max_fee_per_gas e; env_max_priority_fee_per_gas := env_max_priority_fee_per_gas e;
  env_to := env_to e; env_value := env_value e; env_input := env_input e; env_tx_hash := h |}.

Definition legacy_words (tx : TxLegacy) : list Z :=
  [default (2 ^ 64) (l_chain_id tx); l_nonce tx; l_gas_limit tx; l_gas_price tx;
   match l_to tx with Call a => a | Create => 2 ^ 160 end; l_value tx].

Definition decode_legacy (bs : list byte) : result string TxEnvelope :=
  if (length bs <? 192)%nat then Err "input too short"%string
  else Ok {|
    env_tx_type := 0; env_chain_id := if word bs 0 =? 2 ^ 64 then None else Some (word bs 0); env_nonce := word bs 1;
    env_gas_limit := word bs 2; env_max_fee_per_gas := word bs 3; env_max_priority_fee_per_gas := None;
    env_to := if word bs 4 =? 2 ^ 160 then None else Some (word bs 4);
    env_value := word bs 5; env_input := drop 192 bs; env_tx_hash := 0 |}.

Definition tagged_codec : TxCodec := {|
  decode_2718 bs :=
    e ← match bs with
        | Init.Byte.x02 :: rest => @decode_2718 wire_codec rest
        | Init.Byte.xf8 :: rest => decode_legacy rest
        | _ => Err "unexpected type"%string
        end;
    Ok (with_hash e (from_be_bytes bs));
  recover_signer _ := Ok 5 |}.

Definition tagged_signer : Signer := {|
  Signature := unit; signer_address := 5; sign_transaction_sync _ := Ok tt;
  encode_2718 tx _ := Init.Byte.x02 :: @encode_2718 wire_signer tx tt |}.
Definition tagged_legacy : @LegacySigner tagged_signer := {|
  sign_legacy _ := Ok tt : result string (@Signature tagged_signer);
  encode_legacy tx _ := Init.Byte.xf8 :: concat (to_be_bytes 32 <$> legacy_words tx) ++ l_input tx |}.

Lemma tagged_ok : @SignerOk tagged_signer tagged_codec.
Proof.
  split; [by eexists|]. intros tx sig Hwf _.
  destruct (@signer_decodes wire_signer wire_codec wire_ok tx tt Hwf eq_refl) as (h & Hd & _).
  eexists. split; [|done]. cbn [decode_2718 encode_2718 tagged_codec tagged_signer]. rewrite Hd. reflexivity.
Qed.

Lemma tagged_legacy_ok : @LegacySignerOk tagged_signer tagged_legacy tagged_codec.
Proof.
  split; [by eexists|]. intros tx sig (Hc & Hn & Hg & Hf & Hv & Hto) _. eexists. split; [|done].
  cbn [decode_2718 encode_legacy tagged_codec tagged_legacy]. unfold decode_legacy.
  set (bs := concat (to_be_bytes 32 <$> legacy_words tx) ++ l_input tx).
  assert (∀ k w, legacy_words tx !! k = Some w → is_u256 w → word bs k = w) as Hword by (intros; by apply word_concat).
  destruct (Nat.ltb_spec (length bs) 192) as [Hl|_].
  { unfold bs in Hl. rewrite length_app, words_length in Hl. simpl in Hl. lia. }
  cbn [mbind result_bind with_hash env_tx_type env_chain_id env_nonce env_gas_limit env_max_fee_per_gas
    env_max_priority_fee_per_gas env_to env_value env_input].
  rewrite (Hword 0%nat (default (2 ^ 64) (l_chain_id tx))), (Hword 1%nat (l_nonce tx)), (Hword 2%nat (l_gas_limit tx)),
    (Hword 3%nat (l_gas_price tx)), (Hword 4%nat (match l_to tx with Call a => a | Create => 2 ^ 160 end)),
    (Hword 5%nat (l_value tx)) by (done || (unfold in_u in *; destruct (l_to tx), (l_chain_id tx); simpl in *; ulia)).
  assert (drop 192 bs = l_input tx) as ->.
  { unfold bs. rewrite drop_app_ge by by rewrite words_length. by rewrite words_length. }
  unfold legacy_envelope, with_hash. simpl. f_equal. f_equal.
  - destruct (l_chain_id tx) as [c|]; simpl in *; [|done]. destruct (Z.eqb_spec c (2 ^ 64)); [ulia|done].
  - destruct (l_to tx) as [a|]; [|done]. destruct (Z.eqb_spec a (2 ^ 160)); [ulia|done].
Qed.

(** Numbers written without leading zeros. *)
Lemma from_be_bytes_cons b bs :
  from_be_bytes (b :: bs) = Z_of_byte b * 2 ^ (8 * Z.of_nat (length bs)) + from_be_bytes bs.
Proof.
  unfold from_be_bytes. rewrite reverse_cons, <- (length_reverse bs). induction (reverse bs) as [|x l IH]; simpl; [lia|].
  rewrite IH. replace (8 * Z.of_nat (S (length l))) with (8 + 8 * Z.of_nat (length l)) by lia.
  rewrite Z.pow_add_r by lia. lia.
Qed.

Lemma from_be_bytes_inj b1 bs1 b2 bs2 :
  0 < Z_of_byte b1 → 0 < Z_of_byte b2 → from_be_bytes (b1 :: bs1) = from_be_bytes (b2 :: bs2) → b1 :: bs1 = b2 :: bs2.
Proof.
  assert (∀ b bs, 0 < Z_of_byte b → 2 ^ (8 * Z.of_nat (length bs)) ≤ from_be_bytes (b :: bs)) as Hlow.
  { intros b bs Hb. rewrite from_be_bytes_cons. pose proof (from_be_bytes_range bs) as [? _]. nia. }
  assert (∀ b bs, from_be_bytes (b :: bs) < 2 ^ (8 + 8 * Z.of_nat (length bs))) as Hhigh.
  { intros b bs. pose proof (from_be_bytes_range (b :: bs)) as [_ Hr]. simpl in Hr.
    by replace (8 + 8 * Z.of_nat (length bs)) with (8 * Z.of_nat (S (length bs))) by lia. }
  assert (∀ c1 l1 c2 l2, 0 < Z_of_byte c2 → from_be_bytes (c1 :: l1) = from_be_bytes (c2 :: l2) →
    (length l2 ≤ length l1)%nat) as Hle.
  { intros c1 l1 c2 l2 Hc E. destruct (le_lt_dec (length l2) (length l1)) as [|Hlt]; [done|].
    pose proof (Hlow c2 l2 Hc). pose proof (Hhigh c1 l1).
    pose proof (Z.pow_le_mono_r 2 (8 + 8 * Z.of_nat (length l1)) (8 * Z.of_nat (length l2)) ltac:(lia) ltac:(lia)). lia. }
  intros H1 H2 E. pose proof (Hle _ _ _ _ H2 E). pose proof (Hle _ _ _ _ H1 (eq_sym E)).
  assert (length (b1 :: bs1) = length (b2 :: bs2)) as Hl by (simpl; lia).
  pose proof (to_from_be_bytes (b1 :: bs1)) as T1. by rewrite E, Hl, to_from_be_bytes in T1.
Qed.

Lemma tagged_decodes bs e :
  @decode_2718 tagged_codec bs = Ok e → env_tx_hash e = from_be_bytes bs ∧ ∃ b rest, bs = b :: rest ∧ 0 < Z_of_byte b.
Proof.
  assert (∀ (r : result string TxEnvelope) h, (e ← r; Ok (with_hash e h)) = Ok e → env_tx_hash e = h) as Hbind
    by (intros [] h; by intros [= <-]).
  cbn [decode_2718 tagged_codec]. intros Hd. split; [exact (Hbind _ _ Hd)|].
  destruct bs as [|b rest]; [done|]. exists b, rest. split; [done|]. by destruct b.
Qed.

Lemma tagged_hash_inj : @TxHashInj tagged_codec.
Proof.
  intros b1 b2 e1 e2 H1 H2 Hh. destruct (tagged_decodes _ _ H1) as (E1 & c1 & l1 & -> & Hc1).
  destruct (tagged_decodes _ _ H2) as (E2 & c2 & l2 & -> & Hc2). rewrite E1, E2 in Hh.
  apply from_be_bytes_inj in Hh; [|done..]. rewrite Hh in H1. congruence.
Qed.

Section Concrete.
#[local] Existing Instance tagged_codec.
#[local] Existing Instance tagged_signer.
#[local] Existing Instance tagged_legacy.
#[local] Existing Instance tagged_ok.
#[local] Existing Instance tagged_legacy_ok.
#[local] Existing Instance tagged_hash_inj.
#[local] Existing Instance senders_order.

Lemma pool_tests_pass_witness : Forall (λ t, t = Some tt) pool_tests.
Proof. apply pool_tests_pass. intros raw [= <-]. by vm_compute. Defined.

Lemma tx_tests_pass_witness : Forall (λ t, t = Some tt) tx_tests.
Proof. exact tx_tests_pass. Defined.
End Concrete.
