(* ===== verification/StateTests.v ===== *)
(** The unit tests of crates/state/src/state.rs, crates/precompile/src/lib.rs and
    crates/execution/src/executor.rs, as programs on the model, proved to pass
    for every store, EVM and iteration order with the laws of the interfaces. *)
From S2P Require Import Prelude Types Tx State StateModel StateLemmas StateProps Precompile PrecompileProps Executor ExecutorModel.
From S2P Require Import Node NodeProps PoolTests.

(** ** The tests of the world state *)

Definition genesis_with (alloc : gmap Z GenesisAlloc) : EvmGenesis := {|
  genesis_chain_id := 1337; genesis_alloc := alloc; genesis_gas_limit := 30000000;
  genesis_base_fee_per_gas := 1000000000; genesis_coinbase := 0; genesis_timestamp := 0 |}.

Definition plain_alloc (balance : U256) : GenesisAlloc := mkAlloc balance 0 [] ∅.

Section StateTests.
Context `{RevmInit}.

Definition test_from_genesis_empty : option unit :=
  let state := State.from_genesis (genesis_with ∅) in
  assert (chain_id (st_config state) =? 1337).

Definition test_from_genesis_with_alloc : option unit :=
  let addr := repeat_byte 0xAA in
  let state := State.from_genesis (genesis_with (<[addr := plain_alloc 1000000000000000000]> ∅)) in
  assert (get_balance state addr =? 1000000000000000000).

Definition test_vsdb_database_basic : option unit :=
  let addr := repeat_byte 0x11 in
  let info := mkInfo _ 42 7 (info_code_hash info_default) (info_code info_default) in
  let db := insert_account vsdb_new addr info in
  loaded ← basic db addr;
  assert (info_balance loaded =? 42);;
  assert (info_nonce loaded =? 7).

Definition test_vsdb_database_storage : option unit :=
  let addr := repeat_byte 0x22 in
  let slot := 5 in
  let value := 999 in
  let db := insert_storage vsdb_new addr slot value in
  assert (db_storage db addr slot =? value);;
  assert (db_storage db addr 99 =? 0).

Definition test_vsdb_database_block_hash : option unit :=
  let hash := from_be_bytes (replicate 32 (byte_of_Z 0xCC)) in
  let db := insert_block_hash vsdb_new 42 hash in
  assert (db_block_hash db 42 =? hash);;
  assert (db_block_hash db 99 =? 0).

Definition test_set_balance_and_nonce : option unit :=
  let state := State.from_genesis (genesis_with ∅) in
  let addr := repeat_byte 0x33 in
  let state := set_balance state addr 100 in
  assert (get_balance state addr =? 100);;
  let state := set_nonce state addr 5 in
  assert (get_nonce state addr =? 5);;
  assert (vsdb_get_balance (cache_db (db state)) addr =? 100);;
  assert (vsdb_get_nonce (cache_db (db state)) addr =? 5).

Definition test_state_root_determinism : option unit :=
  let genesis := genesis_with (<[repeat_byte 0xAA := plain_alloc 1000]> ∅) in
  let state1 := State.from_genesis genesis in
  let state2 := State.from_genesis genesis in
  let '(state1, root1) := state_root state1 in
  let '(state2, root2) := state_root state2 in
  assert (bool_decide (root1 = root2));;
  assert (bool_decide (root1 ≠ replicate 32 (byte_of_Z 0))).

Definition state_tests : list (option unit) :=
  [test_from_genesis_empty; test_from_genesis_with_alloc; test_vsdb_database_basic; test_vsdb_database_storage;
   test_vsdb_database_block_hash; test_set_balance_and_nonce; test_state_root_determinism].
End StateTests.

(** ** The tests of the precompiles *)

Definition test_staking_state `{!HashIter (Z * Z) Z} : option unit :=
  let state := staking_new in
  let delegator := repeat_byte 0xAA in
  let validator := repeat_byte 0x11 in
  let amount := 1000 in
  let state := delegate state delegator validator amount in
  assert (get_stake state delegator validator =? amount);;
  assert (total_stake state validator =? amount);;
  let state := delegate state delegator validator amount in
  assert (get_stake state delegator validator =? 2000);;
  let '(state, r) := unbond state delegator validator 500 in
  assert (is_ok r);;
  assert (get_stake state delegator validator =? 1500);;
  let '(state, r) := unbond state delegator validator 2000 in
  assert (negb (is_ok r));;
  let delegator2 := repeat_byte 0xBB in
  let state := delegate state delegator2 validator 300 in
  assert (total_stake state validator =? 1800).

Definition test_precompile_addresses : option unit :=
  let a := replicate 20 (byte_of_Z 0) in
  assert (BALANCES_ADDR =? address_from_slice (<[18%nat := byte_of_Z 0x08]> a));;
  assert (STAKING_ADDR =? address_from_slice (<[19%nat := byte_of_Z 0x01]> (<[18%nat := byte_of_Z 0x08]> a))).

(** ** The test of the executor *)

Definition test_genesis : EvmGenesis := genesis_with (<[repeat_byte 0xAA := plain_alloc 1000000000000000000]> ∅).

Definition test_executor_creation `{RevmInit} : option unit :=
  let executor := Executor.from_genesis test_genesis in
  assert (chain_id (Executor.config executor) =? 1337).

(** ** They pass *)

(** The root of a trie that holds something is a hash, and not the zero hash. *)
Class RootNonzero `{VsdbOk} : Prop := root_nonzero t :
  mpt_content t ≠ ∅ → ∃ bytes, (mpt_root_hash t).2 = Ok bytes ∧ (32 ≤ length bytes)%nat ∧ take 32 bytes ≠ replicate 32 (byte_of_Z 0).

Section Passing.
Context `{RevmInit} {VO : VsdbOk} {RO : RevmOk}.

Lemma test_genesis_wf addr balance : is_address addr → is_u256 balance → genesis_wf (genesis_with (<[addr := plain_alloc balance]> ∅)).
Proof.
  intros Ha Hb. apply map_Forall_insert_2; [|apply map_Forall_empty]. split; [done|]. by apply alloc_plain_wf.
Qed.

Lemma with_alloc_passes : test_from_genesis_with_alloc = Some tt.
Proof.
  unfold test_from_genesis_with_alloc. set (g := genesis_with _).
  destruct (genesis_reads g (repeat_byte 0xAA) 0) as (E & _); [apply test_genesis_wf; by vm_compute|by vm_compute..|].
  rewrite E. unfold g. cbn [genesis_alloc genesis_with]. by rewrite lookup_insert_eq.
Qed.

Lemma database_basic_passes : test_vsdb_database_basic = Some tt.
Proof.
  unfold test_vsdb_database_basic, basic. rewrite insert_account_accounts, mapx_get_insert, decide_True by done.
  cbn [fmap option_fmap option_map]. destruct (to_from_info (mkInfo _ 42 7 (info_code_hash info_default) (info_code info_default)))
    as (_ & _ & E3).
  { destruct info_default_wf as (_ & _ & Hc). split_and!; [by vm_compute..|done]. }
  rewrite E3. cbn [info_code_hash]. rewrite info_default_code_hash, Z.eqb_refl. cbn [negb mbind option_bind].
  by vm_compute.
Qed.

Lemma database_storage_passes : test_vsdb_database_storage = Some tt.
Proof.
  unfold test_vsdb_database_storage, db_storage, insert_storage. cbv zeta. cbn [storage]. rewrite !mapx_get_insert.
  rewrite decide_False by by vm_compute. rewrite decide_True by done. cbn [storage vsdb_new]. rewrite mapx_get_new. by vm_compute.
Qed.

Lemma block_hash_passes : test_vsdb_database_block_hash = Some tt.
Proof.
  unfold test_vsdb_database_block_hash, db_block_hash, insert_block_hash. cbn [block_hashes_db].
  rewrite !mapx_get_insert. rewrite decide_False by by vm_compute. rewrite decide_True by done.
  cbn [block_hashes_db vsdb_new]. rewrite mapx_get_new. by vm_compute.
Qed.

Lemma set_balance_nonce_passes : test_set_balance_and_nonce = Some tt.
Proof.
  unfold test_set_balance_and_nonce. set (s := State.from_genesis _).
  assert (is_address (repeat_byte 0x33)) as Ha by by vm_compute.
  destruct (set_balance_get s (repeat_byte 0x33) 100 (repeat_byte 0x33) 0 Ha Ha ltac:(by vm_compute)) as (B1 & B2 & _).
  rewrite decide_True in B1, B2 by done. rewrite B1. cbn [assert Z.eqb Pos.eqb mbind option_bind].
  destruct (set_nonce_get (set_balance s (repeat_byte 0x33) 100) (repeat_byte 0x33) 5 (repeat_byte 0x33) 0 Ha Ha) as (N1 & N2 & _ & N4 & _).
  rewrite decide_True in N1, N2 by done. by rewrite N1, N2, N4, B2.
Qed.

Lemma state_root_passes `{!RootNonzero} : test_state_root_determinism = Some tt.
Proof.
  unfold test_state_root_determinism, state_root. set (s := State.from_genesis _).
  destruct (root_nonzero (state_trie s)) as (bytes & Hr & Hl & Hnz).
  { intros E. destruct (genesis_reads (genesis_with (<[repeat_byte 0xAA := plain_alloc 1000]> ∅)) (repeat_byte 0xAA) 0)
      as (_ & _ & _ & Ht); [apply test_genesis_wf; by vm_compute|by vm_compute..|].
    fold s in Ht. rewrite E, lookup_empty in Ht. cbn [genesis_alloc genesis_with] in Ht. by rewrite lookup_insert_eq in Ht. }
  destruct (mpt_root_hash (state_trie s)) as [t r]. simpl in Hr. subst r.
  rewrite length_take, Nat.min_l, Nat.sub_diag, app_nil_r by lia.
  by rewrite !bool_decide_eq_true_2.
Qed.

(** The unit tests of the world state pass over every store and every EVM. *)
Theorem state_tests_pass `{!RootNonzero} : Forall (λ t, t = Some tt) state_tests.
Proof.
  unfold state_tests. rewrite !Forall_cons. split_and!; [..|done].
  - unfold test_from_genesis_empty, State.from_genesis. by destruct (fold_left _ _ _).
  - apply with_alloc_passes.
  - apply database_basic_passes.
  - apply database_storage_passes.
  - apply block_hash_passes.
  - apply set_balance_nonce_passes.
  - apply state_root_passes.
Qed.

(** The executor is created with the chain id of its genesis. *)
Theorem executor_test_passes : test_executor_creation = Some tt.
Proof. unfold test_executor_creation, Executor.from_genesis, State.from_genesis. by destruct (fold_left _ _ _). Qed.
End Passing.

(** Evaluates the next [unbond]. *)
Ltac run_unbond := match goal with |- context [unbond ?s ?d ?v ?n] =>
  let r := eval vm_compute in (unbond s d v n) in replace (unbond s d v n) with r by (vm_compute; reflexivity) end;
  cbv beta iota zeta.

(** The unit tests of the staking ledger pass with every iteration order of its
    map. *)
Theorem precompile_tests_pass `{!HashIter (Z * Z) Z} :
  test_staking_state = Some tt ∧ test_precompile_addresses = Some tt.
Proof.
  split; [|by vm_compute]. unfold test_staking_state. cbv zeta.
  rewrite total_stake_eq by (apply (bool_decide_unpack _); by vm_compute). passed. run_unbond. passed. run_unbond. passed.
  rewrite total_stake_eq by (apply (bool_decide_unpack _); by vm_compute). by vm_compute.
Qed.

(** ** A trie whose roots are marked *)

Definition marked_vsdb : Vsdb := {|
  Mapx V := gmap (list byte) V;
  mapx_new V := ∅;
  mapx_get V m k := m !! k;
  mapx_insert V m k v := <[k := v]> m;
  MptCalc := gmap (list byte) (list byte);
  mpt_new := ∅;
  mpt_insert t k v := (<[k := v]> t, Ok tt);
  mpt_root_hash t := (t, Ok (replicate 32 (byte_of_Z 1) ++ concat (map_to_list t).*2));
|}.

Definition marked_vsdb_ok : @VsdbOk marked_vsdb.
Proof.
  refine (@Build_VsdbOk marked_vsdb _ _ (λ t : @MptCalc marked_vsdb, (t : gmap (list byte) (list byte))) _ _ _ _); try done.
  - intros V m k v k'. exact (lookup_insert (m : gmap (list byte) V) k k' v).
  - by intros t1 t2 ->.
Defined.

Definition marked_revm_init : @RevmInit marked_vsdb byte_revm :=
  let info := mkInfo byte_revm 0 0 keccak_empty (Some []) in
  @Build_RevmInit marked_vsdb byte_revm info (mkDbAccount byte_revm info ∅) (mkCacheDB marked_vsdb byte_revm ∅ tt).

Lemma marked_revm_ok : @RevmOk marked_vsdb byte_revm marked_revm_init.
Proof. split; try done. Qed.

Lemma marked_nonzero : @RootNonzero marked_vsdb marked_vsdb_ok.
Proof.
  intros t _. eexists. split; [reflexivity|]. rewrite take_app_le by by rewrite length_replicate.
  split; [rewrite length_app, length_replicate; lia|by vm_compute].
Qed.

Lemma state_tests_pass_here : Forall (λ t, t = Some tt) (@state_tests marked_vsdb byte_revm marked_revm_init).
Proof. exact (@state_tests_pass marked_vsdb byte_revm marked_revm_init marked_vsdb_ok marked_revm_ok marked_nonzero). Qed.
