(* ===== verification/Keccak.v ===== *)
(** Keccak-256, the hash of Ethereum, from the Keccak specification (rate 1088
    bits, padding 0x01..0x80): an instance of the hash function the code takes
    from alloy, on which the test of the function selectors of
    crates/precompile/src/lib.rs and the hash of empty code evaluate. *)
From S2P Require Import Prelude Types State StateModel Precompile PoolTests.
From Stdlib Require Import Ascii.

(** ** The permutation: 24 rounds on 25 lanes of 64 bits, lane (x, y) at x + 5 y *)

Definition rotl (x n : Z) : Z := Z.lor (wrap 64 (Z.shiftl x n)) (Z.shiftr x (64 - n)).

Definition rotations : list Z :=
  [0; 1; 62; 28; 27;  36; 44; 6; 55; 20;  3; 10; 43; 25; 39;  41; 45; 15; 21; 8;  18; 2; 61; 56; 14].

Definition round_constants : list Z :=
  [0x0000000000000001; 0x0000000000008082; 0x800000000000808A; 0x8000000080008000; 0x000000000000808B; 0x0000000080000001;
   0x8000000080008081; 0x8000000000008009; 0x000000000000008A; 0x0000000000000088; 0x0000000080008009; 0x000000008000000A;
   0x000000008000808B; 0x800000000000008B; 0x8000000000008089; 0x8000000000008003; 0x8000000000008002; 0x8000000000000080;
   0x000000000000800A; 0x800000008000000A; 0x8000000080008081; 0x8000000000008080; 0x0000000080000001; 0x8000000080008008].

Definition lane (s : list Z) (x y : nat) : Z := default 0 (s !! (x mod 5 + 5 * (y mod 5))%nat).
Definition lanes (f : nat → nat → Z) : list Z := (λ k, f (k mod 5) (k / 5))%nat <$> seq 0 25.

Definition theta (s : list Z) : list Z :=
  let c x := foldr Z.lxor 0 (lane s x <$> seq 0 5) in
  let d := (λ x, Z.lxor (c (x + 4)%nat) (rotl (c (x + 1)%nat) 1)) <$> seq 0 5 in
  lanes (λ x y, Z.lxor (lane s x y) (default 0 (d !! x))).
Definition rho_pi (s : list Z) : list Z :=
  lanes (λ x y, rotl (lane s (x + 3 * y) x) (lane rotations (x + 3 * y) x)).
Definition chi (s : list Z) : list Z :=
  lanes (λ x y, Z.lxor (lane s x y) (Z.land (Z.lxor (lane s (x + 1) y) (2 ^ 64 - 1)) (lane s (x + 2) y))).
Definition iota (rc : Z) (s : list Z) : list Z :=
  match s with l :: s' => Z.lxor l rc :: s' | [] => [] end.
Definition keccak_f (s : list Z) : list Z :=
  fold_left (λ s rc, iota rc (chi (rho_pi (theta s)))) round_constants s.

(** ** The sponge *)

Definition rate : nat := 136.

(** [0x01], zeros, and [0x80] in the last byte of the block. *)
Definition pad (len : nat) : list byte :=
  let n := (rate - len mod rate)%nat in
  if (n =? 1)%nat then [byte_of_Z 0x81] else byte_of_Z 0x01 :: replicate (n - 2) (byte_of_Z 0) ++ [byte_of_Z 0x80].

Definition absorb_block (s : list Z) (block : list byte) : list Z :=
  keccak_f ((λ '(k, l), Z.lxor l (from_le_bytes (take 8 (drop (8 * k) block)))) <$> zip (seq 0 25) s).

(** [n] blocks; a padded message of [n * rate] bytes is absorbed whole. *)
Fixpoint absorb (n : nat) (s : list Z) (bs : list byte) : list Z :=
  match n with
  | O => s
  | S n' => absorb n' (absorb_block s (take rate bs)) (drop rate bs)
  end.

Definition keccak_reference (msg : list byte) : list byte :=
  let padded := msg ++ pad (length msg) in
  take 32 (concat (to_le_bytes 8 <$> absorb (length padded / rate) (replicate 25 0) padded)).

(** ** The selectors *)

Definition ascii_bytes (s : string) : list byte := byte_of_ascii <$> String.list_ascii_of_string s.

Section Selectors.
Context (keccak256 : list byte → list byte).

Definition test_function_selectors : option unit :=
  let sel name := take 4 (keccak256 (ascii_bytes name)) in
  assert (bool_decide (sel "balanceOf(address)"%string = SEL_BALANCE_OF));;
  assert (bool_decide (sel "transfer(address,uint256)"%string = SEL_TRANSFER));;
  assert (bool_decide (sel "delegate(address,uint256)"%string = SEL_DELEGATE));;
  assert (bool_decide (sel "unbond(address,uint256)"%string = SEL_UNBOND));;
  assert (bool_decide (sel "getStake(address,address)"%string = SEL_GET_STAKE));;
  assert (bool_decide (sel "totalStake(address)"%string = SEL_TOTAL_STAKE)).
End Selectors.

(** The selectors written in the code are those of the signatures. *)
Theorem selectors_test_passes : test_function_selectors keccak_reference = Some tt.
Proof. by vm_compute. Qed.

(** The hash of empty code in the model of revm is that of the empty string. *)
Theorem keccak_empty_correct : from_be_bytes (keccak_reference []) = keccak_empty.
Proof. by vm_compute. Qed.
